(** * A sequential model of the skip-list priority queue of [prioq.c]
    and of the uniform workload of [perf_meas.c].

    The C code is embedded shallowly: the heap of nodes is a finite map
    from addresses to node records, every function of [prioq.c] is a
    computation in a small state-and-error monad that also records the
    shared-memory accesses and the epoch brackets it performs, and the
    unbounded loops of the source carry an explicit fuel argument. *)

From stdpp Require Import gmap list.
From Stdlib Require Import ZArith Lia Sorted.

Local Open Scope Z_scope.

(** ** Machine words and tagged pointers *)

(** [uintptr_t], [unsigned long] and [uint64_t] are 64-bit words. *)
Definition WORD : Z := Eval cbv in 2 ^ 64.
Definition to_ulong (z : Z) : Z := z mod WORD.

(** [int] is a 32-bit two's complement integer. *)
Definition INT_MAX : Z := Eval cbv in 2 ^ 31 - 1.
Definition UINT_RANGE : Z := Eval cbv in 2 ^ 32.
Definition to_int (z : Z) : Z := (z + (INT_MAX + 1)) mod UINT_RANGE - (INT_MAX + 1).

Definition NULL : Z := 0.

(** Modelled from the spec: the pointer-tagging macros of the header
    [prioq.h], which is not part of the sources at hand.  Section 4.1:
    [unmarked(p) = p & ~1], [marked(p) = p | 1], [is_marked(p) = p & 1]. *)
Definition get_marked_ref (p : Z) : Z := Z.lor p 1.
Definition get_unmarked_ref (p : Z) : Z := Z.land p (Z.lnot 1).
Definition is_marked_ref (p : Z) : bool := negb (Z.land p 1 =? 0).

(** ** Nodes, thread-local caches and the machine state *)

(** [node_t]: key [k], [level], value [v] and the forward pointers
    [next[0 .. level-1]], each a tagged pointer word. *)
Record node_t := Node {
  n_k : Z;
  n_level : Z;
  n_v : Z;
  n_next : list Z
}.

(** [set_t]: the fields are written once by [set_alloc]. *)
Record set_t := SetT {
  head : Z;
  max_offset : Z;
  max_level : Z
}.

(** The [__thread] variables [pt], [old_obs_hp] and [old_offset]. *)
Record tls := Tls {
  pt : Z;
  old_obs_hp : Z;
  old_offset : Z
}.

Inductive field := FK | FLevel | FV | FNext (i : nat).

(** What a run leaves behind in program order: the epoch brackets and
    every access to a node field. *)
Inductive event :=
| EvEnter
| EvExit
| EvRead (n : Z) (f : field)
| EvWrite (n : Z) (f : field) (w : Z)
| EvCAS (n : Z) (i : nat) (expected new : Z)
| EvFAA (n : Z) (i : nat) (d : Z)
| EvFAO (n : Z) (i : nat) (d : Z)
| EvAlloc (n : Z)
| EvFree (n : Z) (pool : Z).

(** The [trace] is kept with the most recent event first; [events] lists
    it in program order. *)
Record state := State {
  heap : gmap Z node_t;
  brk : Z;
  freed : list (Z * Z);
  tl : tls;
  trace : list event
}.

Definition events (st : state) : list event := rev (trace st).

Definition is_bracket (e : event) : bool :=
  match e with EvEnter | EvExit => true | _ => false end.

Definition is_access (e : event) : bool :=
  match e with
  | EvRead _ _ | EvWrite _ _ _ | EvCAS _ _ _ _ | EvFAA _ _ _ | EvFAO _ _ _ => true
  | _ => false
  end.

(** ** The state-and-error monad *)

Inductive err := AssertFail | Fault | OutOfFuel.

Inductive res (A : Type) :=
| Ok (a : A)
| Err (e : err).
Arguments Ok {A} a.
Arguments Err {A} e.

#[global] Instance err_eq_dec : EqDecision err.
Proof. solve_decision. Defined.

#[global] Instance res_eq_dec {A} `{EqDecision A} : EqDecision (res A).
Proof. solve_decision. Defined.

(** The state is kept when a run stops in an error, so that the trace up
    to that point can still be inspected. *)
Definition M (A : Type) : Type := state -> res A * state.

Definition ret {A} (a : A) : M A := fun st => (Ok a, st).

Definition bind {A B} (m : M A) (f : A -> M B) : M B :=
  fun st =>
    match m st with
    | (Ok a, st') => f a st'
    | (Err e, st') => (Err e, st')
    end.

Definition fail {A} (e : err) : M A := fun st => (Err e, st).

Notation "x <- m ;; f" := (bind m (fun x => f))
  (at level 100, m at next level, f at level 200, right associativity).
Notation "m ;;; f" := (bind m (fun _ => f))
  (at level 100, f at level 200, right associativity).

Definition add_event (e : event) (st : state) : state :=
  State (heap st) (brk st) (freed st) (tl st) (e :: trace st).

Definition with_heap (h : gmap Z node_t) (st : state) : state :=
  State h (brk st) (freed st) (tl st) (trace st).

Definition log (e : event) : M unit := fun st => (Ok tt, add_event e st).

Definition get_tl : M tls := fun st => (Ok (tl st), st).

Definition put_tl (t : tls) : M unit :=
  fun st => (Ok tt, State (heap st) (brk st) (freed st) t (trace st)).

Definition put_heap (h : gmap Z node_t) : M unit :=
  fun st => (Ok tt, with_heap h st).

Definition get_node (n : Z) : M node_t :=
  fun st => match heap st !! n with
            | Some nd => (Ok nd, st)
            | None => (Err Fault, st)
            end.

Definition set_next (nd : node_t) (i : nat) (w : Z) : node_t :=
  Node (n_k nd) (n_level nd) (n_v nd) (<[i := w]> (n_next nd)).

(** ** Field accesses and atomic primitives *)

Definition load_k (n : Z) : M Z :=
  nd <- get_node n ;; log (EvRead n FK) ;;; ret (n_k nd).

Definition load_v (n : Z) : M Z :=
  nd <- get_node n ;; log (EvRead n FV) ;;; ret (n_v nd).

Definition load_level (n : Z) : M Z :=
  nd <- get_node n ;; log (EvRead n FLevel) ;;; ret (n_level nd).

Definition load_next (n : Z) (i : nat) : M Z :=
  nd <- get_node n ;;
  match n_next nd !! i with
  | Some w => log (EvRead n (FNext i)) ;;; ret w
  | None => fail Fault
  end.

Definition store_k (n : Z) (w : Z) : M unit :=
  nd <- get_node n ;;
  log (EvWrite n FK w) ;;;
  st_h <- (fun st => (Ok (heap st), st)) ;;
  put_heap (<[n := Node w (n_level nd) (n_v nd) (n_next nd)]> st_h).

Definition store_v (n : Z) (w : Z) : M unit :=
  nd <- get_node n ;;
  log (EvWrite n FV w) ;;;
  st_h <- (fun st => (Ok (heap st), st)) ;;
  put_heap (<[n := Node (n_k nd) (n_level nd) w (n_next nd)]> st_h).

Definition store_level (n : Z) (w : Z) : M unit :=
  nd <- get_node n ;;
  log (EvWrite n FLevel w) ;;;
  st_h <- (fun st => (Ok (heap st), st)) ;;
  put_heap (<[n := Node (n_k nd) w (n_v nd) (n_next nd)]> st_h).

(** Overwrite the word [n->next[i]] (no event: the callers log). *)
Definition poke_next (n : Z) (i : nat) (w : Z) : M unit :=
  nd <- get_node n ;;
  match n_next nd !! i with
  | Some _ =>
      st_h <- (fun st => (Ok (heap st), st)) ;;
      put_heap (<[n := set_next nd i w]> st_h)
  | None => fail Fault
  end.

Definition peek_next (n : Z) (i : nat) : M Z :=
  nd <- get_node n ;;
  match n_next nd !! i with
  | Some w => ret w
  | None => fail Fault
  end.

Definition store_next (n : Z) (i : nat) (w : Z) : M unit :=
  log (EvWrite n (FNext i) w) ;;; poke_next n i w.

(** [CASPO(&n->next[i], o, nw)]: compare-and-swap returning the word
    that was found. *)
Definition CASPO (n : Z) (i : nat) (o nw : Z) : M Z :=
  cur <- peek_next n i ;;
  log (EvCAS n i o nw) ;;;
  (if cur =? o then poke_next n i nw else ret tt) ;;;
  ret cur.

(** [__sync_fetch_and_add((uint64_t * )&n->next[i], d)]. *)
Definition FAA (n : Z) (i : nat) (d : Z) : M Z :=
  cur <- peek_next n i ;;
  log (EvFAA n i d) ;;;
  poke_next n i (to_ulong (cur + d)) ;;;
  ret cur.

(** [FAO(&n->next[i], d)]: atomic fetch-and-or. *)
Definition FAO (n : Z) (i : nat) (d : Z) : M Z :=
  cur <- peek_next n i ;;
  log (EvFAO n i d) ;;;
  poke_next n i (Z.lor cur d) ;;;
  ret cur.

Definition critical_enter : M unit := log EvEnter.
Definition critical_exit : M unit := log EvExit.

(** ** The functions of [prioq.c] *)

(** The constants of [prioq.h] and the build flags.  The header is not
    part of the sources at hand, so the constants are parameters of the
    whole development: [END] is the pointer the traversals compare with,
    [NDEBUG] turns [assert] off, [OPTIM] and [USE_FAA] are the two
    [#ifdef] switches of [prioq.c]. *)
Class config := Config {
  NUM_LEVELS : nat;
  END : Z;
  SENTINEL_KEYMIN : Z;
  SENTINEL_KEYMAX : Z;
  LEVEL_MASK : Z;
  NDEBUG : bool;
  OPTIM : bool;
  USE_FAA : bool
}.

Section Prioq.

Context {cfg : config}.

(** [assert(c)]: the condition is not evaluated under [NDEBUG]. *)
Definition c_assert (c : M bool) : M unit :=
  if NDEBUG then ret tt
  else b <- c ;; if b then ret tt else fail AssertFail.

Definition arr_get (a : list Z) (i : nat) : M Z :=
  match a !! i with
  | Some w => ret w
  | None => fail Fault
  end.

(** *** [get_level] *)

(** [while ( (r & 1) ) { l++; r >>= 1; }] *)
Fixpoint get_level_loop (fuel : nat) (r l : Z) : option Z :=
  match fuel with
  | O => None
  | S fuel' =>
      if Z.land r 1 =? 0 then Some l
      else get_level_loop fuel' (Z.shiftr r 1) (to_int (l + 1))
  end.

(** [(1 << (NUM_LEVELS-1)) - 1], computed on [int] and converted to
    [unsigned long] for the conjunction with [r >> 4]. *)
Definition level_mask : Z :=
  to_ulong (to_int (to_int (Z.shiftl 1 (Z.of_nat NUM_LEVELS - 1)) - 1)).

(** [r] is the word returned by [rand_next(ptst)]. *)
Definition get_level (r : Z) : option Z :=
  let l := 1 in
  let r := Z.land (Z.shiftr r 4) level_mask in
  get_level_loop 65 r l.

(** *** Allocation *)

(** Size of the pool for nodes of level [l], as set up by
    [_init_set_subsystem]; [sizeof(node_t)] is taken to be one cache
    line. *)
Definition pool_size (l : Z) : Z := 64 * ((63 + 64 + (l - 1) * 8) / 64).

(** [((uintptr_t)p+63) & ~(size_t)0x3F] *)
Definition align64 (p : Z) : Z := Z.land (p + 63) (Z.lnot 0x3F).

(** Modelled from the spec: [gc_alloc] of the epoch allocator, which is
    not part of the sources at hand.  Section 4.2: per-size pools handing
    out cache-line-aligned blocks.  A bump allocator stands for it; the
    block is zero-filled and has room for [l] forward pointers. *)
Definition gc_alloc (l : Z) : M Z :=
  fun st =>
    let n := align64 (brk st) in
    (Ok n, State (<[n := Node 0 0 0 (replicate (Z.to_nat l) 0)]> (heap st))
                 (n + pool_size l) (freed st) (tl st) (EvAlloc n :: trace st)).

(** Modelled from the spec: [gc_free], same allocator.  Section 4.2:
    the node is scheduled for reclamation in a future epoch, so the heap
    keeps it. *)
Definition gc_free (n pool : Z) : M unit :=
  fun st =>
    (Ok tt, State (heap st) (brk st) (freed st ++ [(n, pool)]) (tl st)
                  (EvFree n pool :: trace st)).

Definition alloc_node (r : Z) : M Z :=
  match get_level r with
  | Some l =>
      n <- gc_alloc l ;;
      store_level n l ;;;
      ret n
  | None => fail OutOfFuel
  end.

Definition free_node (n : Z) : M unit :=
  lv <- load_level n ;;
  gc_free n (Z.land lv LEVEL_MASK - 1).

(** *** [weak_search_head] *)

Fixpoint wsh_walk (fuel : nat) (i : nat) (x : Z) : M (Z * Z) :=
  match fuel with
  | O => fail OutOfFuel
  | S fuel' =>
      w <- load_next x i ;;
      let x_next := get_unmarked_ref w in
      if x_next =? END then ret (x, x_next)
      else
        w0 <- load_next x_next 0 ;;
        if negb (is_marked_ref w0) then ret (x, x_next)
        else wsh_walk fuel' i x_next
  end.

(** Levels [n-1] down to [0]. *)
Fixpoint wsh_levels (fuel : nat) (n : nat) (x x_next : Z) : M Z :=
  match n with
  | O => ret x_next
  | S i =>
      p <- wsh_walk fuel i x ;;
      wsh_levels fuel i (fst p) (snd p)
  end.

Definition weak_search_head (fuel : nat) (l : set_t) : M Z :=
  wsh_levels fuel NUM_LEVELS (head l) 0.

(** *** [weak_search_end] *)

Fixpoint wse_walk (fuel : nat) (i : nat) (x lvl : Z) : M (Z * Z) :=
  match fuel with
  | O => fail OutOfFuel
  | S fuel' =>
      x_next <- load_next x i ;;
      w0 <- load_next x_next 0 ;;
      if negb (is_marked_ref w0) then ret (x, lvl)
      else
        let lvl := if lvl =? 0 then Z.of_nat i else lvl in
        let x := x_next in
        c_assert (ret (negb (x =? END))) ;;;
        wse_walk fuel' i x lvl
  end.

(** Levels [n] down to [1]. *)
Fixpoint wse_levels (fuel : nat) (n : nat) (x lvl : Z) (pa : list Z)
  : M (Z * list Z) :=
  match n with
  | O => ret (lvl, pa)
  | S m =>
      p <- wse_walk fuel (S m) x lvl ;;
      wse_levels fuel m (fst p) (snd p) (<[S m := fst p]> pa)
  end.

Definition weak_search_end (fuel : nat) (l : set_t) (pa : list Z) (toplvl : Z)
  : M (Z * list Z) :=
  let lvl := 0 in
  let start_lvl := if toplvl =? -1 then Z.of_nat NUM_LEVELS - 1 else toplvl in
  let lvl := if toplvl >? 0 then toplvl else lvl in
  wse_levels fuel (Z.to_nat start_lvl) (head l) lvl pa.

(** *** [weak_search_predecessors] *)

(** [if ( a ) a[i] = w;] *)
Definition opt_store (a : option (list Z)) (i : nat) (w : Z) : option (list Z) :=
  match a with
  | Some arr => Some (<[i := w]> arr)
  | None => None
  end.

(** The inner [for ( ; ; )] at level [i]; returns [x] and [x_next] as
    they are at the [break]. *)
Fixpoint wsp_walk (fuel : nat) (k : Z) (bef : bool) (i : nat) (x : Z)
  : M (Z * Z) :=
  match fuel with
  | O => fail OutOfFuel
  | S fuel' =>
      w <- load_next x i ;;
      let x_next := get_unmarked_ref w in
      c_assert (ret (negb (x_next =? END))) ;;;
      x_next_k <- load_k x_next ;;
      if (x_next_k >? k) || (bef && (x_next_k =? k)) then ret (x, x_next)
      else wsp_walk fuel' k bef i x_next
  end.

(** Levels [n-1] down to [0]; [pa] and [na] may be [NULL]. *)
Fixpoint wsp_levels (fuel : nat) (k : Z) (bef : bool) (n : nat) (x : Z)
    (pa na : option (list Z)) : M (Z * option (list Z) * option (list Z)) :=
  match n with
  | O => ret (x, pa, na)
  | S i =>
      p <- wsp_walk fuel k bef i x ;;
      wsp_levels fuel k bef i (fst p)
        (opt_store pa i (fst p)) (opt_store na i (snd p))
  end.

Definition weak_search_predecessors (fuel : nat) (l : set_t) (k : Z)
    (pa na : option (list Z)) (bef : bool)
  : M (Z * option (list Z) * option (list Z)) :=
  wsp_levels fuel k bef NUM_LEVELS (head l) pa na.

(** *** [set_alloc] *)

(** The filler that [set_alloc] writes over the forward pointers of the
    tail sentinel. *)
Definition tail_fill : Z :=
  if USE_FAA then 0xc0c0c0c0c0c0c0c0 else 0xfefefefefefefefe.

(** [sizeof(node_t) + (NUM_LEVELS-1)*sizeof(node_t * )] *)
Definition sentinel_bytes : Z := 64 + (Z.of_nat NUM_LEVELS - 1) * 8.

(** Modelled from the spec: [CACHE_LINE_SIZE] of the header, which is
    not part of the sources at hand.  Section 4.1: nodes are aligned to
    the 64-byte cache line. *)
Definition CACHE_LINE_SIZE : Z := 64.

(** [sizeof(int)+sizeof(setval_t) + sizeof(setkey_t) + 44], with a
    4-byte [int], a pointer for [setval_t] and an [unsigned long] for
    [setkey_t]. *)
Definition node_fields_bytes : Z := 4 + 8 + 8 + 44.

Definition malloc (size : Z) : M Z :=
  fun st =>
    (Ok (brk st), State (heap st) (brk st + size) (freed st) (tl st) (trace st)).

Definition init_node (n : Z) (nd : node_t) : M unit :=
  fun st =>
    (Ok tt, State (<[n := nd]> (heap st)) (brk st) (freed st) (tl st) (trace st)).

Definition set_alloc (max_offset max_level : Z) : M set_t :=
  t0 <- malloc (63 + sentinel_bytes) ;;
  let t := align64 t0 in
  h0 <- malloc (63 + sentinel_bytes) ;;
  let h := align64 h0 in
  c_assert (ret (Z.land t 0x3F =? 0)) ;;;
  c_assert (ret (Z.land h 0x3F =? 0)) ;;;
  init_node t (Node SENTINEL_KEYMAX 0 0 (replicate NUM_LEVELS tail_fill)) ;;;
  init_node h (Node SENTINEL_KEYMIN (Z.of_nat NUM_LEVELS) 0 (replicate NUM_LEVELS t)) ;;;
  _ <- malloc (24 + (Z.of_nat NUM_LEVELS - 1) * 8) ;;
  c_assert (ret (node_fields_bytes =? CACHE_LINE_SIZE)) ;;;
  ret (SetT h max_offset max_level).

(** *** [set_update] *)

(** [for ( i = 0; i < level; i++ ) new->next[i] = succs[i];] with
    [cnt] iterations left. *)
Fixpoint init_next (new : Z) (succs : list Z) (i cnt : nat) : M unit :=
  match cnt with
  | O => ret tt
  | S cnt' =>
      s <- arr_get succs i ;;
      store_next new i s ;;;
      init_next new succs (S i) cnt'
  end.

(** The [do ... while(1)] that places a node whose predecessor was
    deleted; it is left by [goto success] only. *)
Fixpoint orphan_loop (fuel n : nat) (l : set_t) (new x loop0 : Z) : M unit :=
  match n with
  | O => fail OutOfFuel
  | S n' =>
      let loop0 := to_int (loop0 + 1) in
      p <- (if loop0 >? 10
            then x' <- weak_search_head fuel l ;; ret (x', 0)
            else ret (x, loop0)) ;;
      let x := fst p in
      let loop0 := snd p in
      x_next <- load_next x 0 ;;
      placed <- (if negb (is_marked_ref x_next)
                 then
                   store_next new 0 x_next ;;;
                   old_next <- CASPO x 0 x_next new ;;
                   ret (old_next =? x_next)
                 else ret false) ;;
      if placed : bool then ret tt
      else orphan_loop fuel n' l new (get_unmarked_ref x_next) loop0
  end.

(** [while ( i < level )]: insertion at the levels above the bottom. *)
Fixpoint link_levels (fuel n : nat) (l : set_t) (k new level : Z)
    (preds succs : list Z) (i : nat) : M unit :=
  match n with
  | O => fail OutOfFuel
  | S n' =>
      if negb (Z.of_nat i <? level) then ret tt
      else
        pred <- arr_get preds i ;;
        succ <- arr_get succs i ;;
        new_k <- load_k new ;;
        if negb (new_k =? k) then ret tt
        else
          new_next <- load_next new i ;;
          deleted <- (if negb (new_next =? succ)
                      then
                        old_next <- CASPO new i new_next succ ;;
                        if is_marked_ref old_next then ret true
                        else
                          c_assert (ret (old_next =? new_next)) ;;;
                          ret false
                      else ret false) ;;
          if deleted : bool then ret tt
          else
            c_assert (pred_k <- load_k pred ;; ret (pred_k <=? k)) ;;;
            old_next <- CASPO pred i succ new ;;
            if negb (old_next =? succ)
            then
              w0 <- load_next new 0 ;;
              gone <- (if is_marked_ref w0 then ret true
                       else new_k' <- load_k new ;; ret (negb (new_k' =? k))) ;;
              if gone : bool then ret tt
              else
                s <- weak_search_predecessors fuel l k (Some preds) (Some succs) false ;;
                let preds := default preds (snd (fst s)) in
                let succs := default succs (snd s) in
                succ <- arr_get succs 0 ;;
                if negb (succ =? new) then ret tt
                else link_levels fuel n' l k new level preds succs i
            else link_levels fuel n' l k new level preds succs (S i)
  end.

(** The body between [retry:] and [success:]; [new] is [NULL] until the
    node has been allocated, [r] is the random word its level is drawn
    from. *)
Fixpoint set_update_retry (fuel n : nat) (l : set_t) (k v r new : Z)
    (preds succs : list Z) : M unit :=
  match n with
  | O => fail OutOfFuel
  | S n' =>
      let loop0 := 0 in
      new <- (if new =? NULL
              then
                new <- alloc_node r ;;
                store_k new k ;;;
                store_v new v ;;;
                ret new
              else ret new) ;;
      level <- load_level new ;;
      s <- weak_search_predecessors fuel l k (Some preds) (Some succs) false ;;
      let preds := default preds (snd (fst s)) in
      let succs := default succs (snd s) in
      succ <- arr_get succs 0 ;;
      init_next new succs 0 (Z.to_nat level) ;;;
      pred0 <- arr_get preds 0 ;;
      old_next <- CASPO pred0 0 succ new ;;
      if negb (old_next =? succ)
      then
        w <- load_next pred0 0 ;;
        if is_marked_ref w
        then
          store_level new 1 ;;;
          w' <- load_next pred0 0 ;;
          orphan_loop fuel fuel l new (get_unmarked_ref w') loop0
        else
          s <- weak_search_predecessors fuel l k (Some preds) (Some succs) false ;;
          let preds := default preds (snd (fst s)) in
          let succs := default succs (snd s) in
          set_update_retry fuel n' l k v r new preds succs
      else link_levels fuel fuel l k new level preds succs 1
  end.

Definition set_update (fuel : nat) (l : set_t) (k v r : Z) : M unit :=
  critical_enter ;;;
  set_update_retry fuel fuel l k v r NULL
    (replicate NUM_LEVELS 0) (replicate NUM_LEVELS 0) ;;;
  critical_exit.

(** *** [set_removemin] *)

(** The two halves of the marking step: read [x->next[0]], and mark it by
    fetch-and-add when the word that was read is unmarked. *)
Definition removemin_read (x : Z) : M Z := load_next x 0.

Definition removemin_mark (x x_next : Z) : M Z :=
  if negb (is_marked_ref x_next) then FAA x 0 1 else ret x_next.

(** The [#ifdef OPTIM] shortcut: [Some x_next] when it [continue]s. *)
Definition removemin_optim (x : Z) : M (option Z) :=
  if OPTIM
  then
    lv <- load_level x ;;
    if Z.land lv LEVEL_MASK >? 2
    then
      a <- load_next x 2 ;;
      w <- load_next a 0 ;;
      if is_marked_ref w
      then
        a' <- load_next x 2 ;;
        x_next <- load_next a' 0 ;;
        ret (Some x_next)
      else ret None
    else ret None
  else ret None.

(** The [do ... while] of [set_removemin].  The result is [None] when
    the loop is left by [return NULL], and otherwise [x_next] and
    [offset] as they are when the loop condition fails. *)
Fixpoint removemin_walk (n : nat) (x offset : Z) : M (option (Z * Z)) :=
  match n with
  | O => fail OutOfFuel
  | S n' =>
      let offset := to_int (offset + 1) in
      o <- removemin_optim x ;;
      r <- match o with
           | Some x_next => ret (Some x_next)
           | None =>
               x_next <- removemin_read x ;;
               c_assert (ret (negb (x_next =? END))) ;;;
               if x_next =? END then ret None
               else
                 x_next <- removemin_mark x x_next ;;
                 ret (Some x_next)
           end ;;
      match r with
      | None => ret None
      | Some x_next =>
          if is_marked_ref x_next
          then
            let x := get_unmarked_ref x_next in
            if x =? NULL then ret (Some (x_next, offset))
            else removemin_walk n' x offset
          else ret (Some (x_next, offset))
      end
  end.

(** [while (next != CASPO(&l->head->next[i], next, preds[i]->next[i]))] *)
Fixpoint swing_cas (fuel n : nat) (l : set_t) (i : nat) (preds : list Z)
    (next : Z) : M (list Z) :=
  match n with
  | O => fail OutOfFuel
  | S n' =>
      p <- arr_get preds i ;;
      target <- load_next p i ;;
      old <- CASPO (head l) i next target ;;
      if next =? old then ret preds
      else
        s <- weak_search_end fuel l preds (Z.of_nat i) ;;
        next' <- load_next (head l) i ;;
        swing_cas fuel n' l i (snd s) next'
  end.

(** [for (int i = lvl; i > 0; i--)], with [n] the current [i]. *)
Fixpoint swing_levels (fuel n : nat) (l : set_t) (preds : list Z)
  : M (list Z) :=
  match n with
  | O => ret preds
  | S n' =>
      next <- load_next (head l) n ;;
      preds' <- swing_cas fuel fuel l n preds next ;;
      swing_levels fuel n' l preds'
  end.

(** [while (x_next != get_unmarked_ref(x))]: recycle the prefix. *)
Fixpoint free_prefix (n : nat) (x_next stop : Z) : M unit :=
  match n with
  | O => fail OutOfFuel
  | S n' =>
      if x_next =? stop then ret tt
      else
        free_node x_next ;;;
        w <- load_next x_next 0 ;;
        free_prefix n' (get_unmarked_ref w) stop
  end.

(** The block guarded by the head-pointer CAS: the upper levels of the
    head are swung and the prefix is recycled. *)
Definition head_swing_levels (fuel : nat) (l : set_t) (x obs_hp : Z) : M unit :=
  c_assert (t <- get_tl ;; ret (old_offset t >? max_offset l)) ;;;
  s <- weak_search_end fuel l (replicate NUM_LEVELS 0) (-1) ;;
  let lvl := fst s in
  let preds := snd s in
  w <- load_next (head l) 0 ;;
  if negb (w =? x) then ret tt
  else
    _ <- swing_levels fuel (Z.to_nat lvl) l preds ;;
    free_prefix fuel (get_unmarked_ref obs_hp) (get_unmarked_ref x).

(** From [x = get_marked_ref(x)] to the label [out]: the head swing. *)
Definition head_swing (fuel : nat) (l : set_t) (x obs_hp : Z) : M unit :=
  let x := get_marked_ref x in
  old <- CASPO (head l) 0 obs_hp x ;;
  if obs_hp =? old then head_swing_levels fuel l x obs_hp
  else ret tt.

(** The resume-point test at the start of [set_removemin]. *)
Definition removemin_start (l : set_t) : M Z :=
  t <- get_tl ;;
  w <- load_next (head l) 0 ;;
  if old_obs_hp t =? w then ret (pt t)
  else
    let x := head l in
    w' <- load_next x 0 ;;
    put_tl (Tls (pt t) w' 0) ;;;
    ret x.

(** From [assert(!is_marked_ref(x_next))] to [k = x_next->k]: the
    resume point is cached and the key is saved. *)
Definition removemin_save (x_next offset : Z) : M Z :=
  c_assert (ret (negb (is_marked_ref x_next))) ;;;
  let x := x_next in
  t <- get_tl ;;
  put_tl (Tls x (old_obs_hp t) (to_int (old_offset t + offset))) ;;;
  _ <- load_v x_next ;;
  load_k x_next.

(** From [obs_hp = old_obs_hp] to the label [out]. *)
Definition removemin_cleanup (fuel : nat) (l : set_t) (x : Z) : M unit :=
  t <- get_tl ;;
  let obs_hp := old_obs_hp t in
  swing <- (if old_offset t <=? max_offset l then ret false
            else w <- load_next (head l) 0 ;; ret (w =? obs_hp)) ;;
  if swing : bool then head_swing fuel l x obs_hp else ret tt.

Definition removemin_finish (fuel : nat) (l : set_t) (x_next offset : Z) : M Z :=
  k <- removemin_save x_next offset ;;
  removemin_cleanup fuel l x_next ;;;
  critical_exit ;;;
  ret k.

Definition set_removemin (fuel : nat) (l : set_t) : M Z :=
  critical_enter ;;;
  x <- removemin_start l ;;
  r <- removemin_walk fuel x 0 ;;
  match r with
  | None => ret NULL
  | Some (x_next, offset) => removemin_finish fuel l x_next offset
  end.

(** *** [set_remove] *)

Definition set_remove (fuel : nat) (l : set_t) (key : Z) : M Z :=
  s <- weak_search_predecessors fuel l key None None true ;;
  let node := fst (fst s) in
  node <- FAO node 0 1 ;;
  if is_marked_ref node then ret NULL
  else ret node.

End Prioq.
(** ** The uniform workload of [perf_meas.c] *)

(** [erand48] and [nrand48] are the C library's: both advance the 48-bit
    state [x] kept in [args->rng] by the linear congruence below.
    [erand48] returns [x * 2^-48] as a [double], which is exact because
    [x] fits the 53-bit significand; the model returns the numerator [x].
    [nrand48] returns the 31 high-order bits of [x]. *)
Definition RAND48_A : Z := 0x5DEECE66D.
Definition RAND48_C : Z := 0xB.
Definition RAND48_M : Z := Eval cbv in 2 ^ 48.

Definition rand48_step (x : Z) : Z := (RAND48_A * x + RAND48_C) mod RAND48_M.

Definition erand48 (x : Z) : Z * Z :=
  let x' := rand48_step x in (x', x').

Definition nrand48 (x : Z) : Z * Z :=
  let x' := rand48_step x in (Z.shiftr x' 17, x').

(** [d < 0.5] for the [double] [d = n * 2^-48]. *)
Definition lt_half (n : Z) : bool := n <? Z.shiftr RAND48_M 1.

(** What one call of a workload function asks of the queue. *)
Inductive pq_op :=
| OpInsert (key val : Z)
| OpDeleteMin.

(** [work_uni], on the generator state of the calling thread; returns
    the operation issued and the new generator state. *)
Definition work_uni (rng : Z) : pq_op * Z :=
  let (d, rng) := erand48 rng in
  if lt_half d
  then
    let (n, rng) := nrand48 rng in
    let elem := to_ulong (1 + n) in
    (OpInsert elem elem, rng)
  else (OpDeleteMin, rng).

(** The state from which [rand48_step] leads to [y]. *)
Definition RAND48_A_INV : Z := 0xDFE05BCB1365.
Definition rand48_unstep (y : Z) : Z := (RAND48_A_INV * (y - RAND48_C)) mod RAND48_M.

(** ** Definitions used to state the properties *)

(** The [j]-th word, in increasing order, that [get_level] maps to level
    [k]: bits [4 .. k+2] are ones, bit [k+3] is zero, the other bits are
    those of [j]. *)
Definition level_word (k j : Z) : Z :=
  16 * ((j / 16) * 2 ^ k + (2 ^ (k - 1) - 1)) + j mod 16.


(** The content of field [f] of the node at address [a], if any. *)
Definition field_of (nd : node_t) (f : field) : option Z :=
  match f with
  | FK => Some (n_k nd)
  | FLevel => Some (n_level nd)
  | FV => Some (n_v nd)
  | FNext i => n_next nd !! i
  end.

Definition cell (st : state) (a : Z) (f : field) : option Z :=
  match heap st !! a with
  | Some nd => field_of nd f
  | None => None
  end.

(** [step_rel p S st st']: from [st] to [st'] the trace has grown by
    events that satisfy [p], and only cells in [S] have changed. *)
Definition step_rel (p : event -> bool) (S : Z -> field -> Prop)
    (st st' : state) : Prop :=
  (exists evs, trace st' = evs ++ trace st /\ forallb p evs = true) /\
  (forall a f, ~ S a f -> cell st' a f = cell st a f).

Definition preserves {A} (R : state -> state -> Prop) (m : M A) : Prop :=
  forall st, R st (snd (m st)).

(** The events logged between [st] and a later state [st'], most
    recent first. *)
Definition new_events (st st' : state) : list event :=
  take (length (trace st') - length (trace st)) (trace st').

Definition nonbracket (e : event) : bool := negb (is_bracket e).

(** A compare-and-swap on the bottom-level pointer of the node [h]. *)
Definition cas_at0 (h : Z) (e : event) : bool :=
  match e with
  | EvCAS n O _ _ => n =? h
  | _ => false
  end.

Definition quiet (h : Z) (e : event) : bool :=
  negb (is_bracket e) && negb (cas_at0 h e).

Definition any_event (e : event) : bool := true.

Definition anywhere (a : Z) (f : field) : Prop := True.
Definition nowhere (a : Z) (f : field) : Prop := False.

(** The forward pointers of [h] above the bottom level. *)
Definition upper_of (h : Z) (a : Z) (f : field) : Prop :=
  a = h /\ exists j, f = FNext (S j).

(** [p] allows every event that is not an epoch bracket. *)
Definition mem_ok (p : event -> bool) : Prop :=
  forall e, is_bracket e = false -> p e = true.

(** [p] allows every such event but a compare-and-swap on the bottom
    pointer of [h]. *)
Definition ev_ok (h : Z) (p : event -> bool) : Prop :=
  forall e, is_bracket e = false -> cas_at0 h e = false -> p e = true.

(** The forward pointers of the head of [l]. *)
Definition head_cells (l : set_t) (a : Z) (f : field) : Prop :=
  a = head l /\ exists i, f = FNext i.


(** *** The skip list as lists of nodes, one per level *)

Definition key_at (h : gmap Z node_t) (a : Z) : Z :=
  match h !! a with
  | Some nd => n_k nd
  | None => 0
  end.

(** The node that the level-[i] pointer of [a] leads to, mark removed. *)
Definition next_at (h : gmap Z node_t) (a : Z) (i : nat) : option Z :=
  match h !! a with
  | Some nd => get_unmarked_ref <$> n_next nd !! i
  | None => None
  end.

(** [chain h i x ns y]: at level [i], the nodes after [x] are [ns] and
    then [y]. *)
Fixpoint chain (h : gmap Z node_t) (i : nat) (x : Z) (ns : list Z) (y : Z) : Prop :=
  match ns with
  | [] => next_at h x i = Some y
  | n :: ns' => next_at h x i = Some n /\ chain h i n ns' y
  end.

(** The test that ends the walk of [weak_search_predecessors]. *)
Definition stops (k : Z) (bef : bool) (key : Z) : bool :=
  (key >? k) || (bef && (key =? k)).

(** The walk over the list of the nodes of a level: the last node before
    the first one whose key [stops], and that one. *)
Fixpoint walk_list (h : gmap Z node_t) (k : Z) (bef : bool) (x : Z)
    (ns : list Z) (t : Z) : Z * Z :=
  match ns with
  | [] => (x, t)
  | n :: ns' =>
      if stops k bef (key_at h n) then (x, n)
      else walk_list h k bef n ns' t
  end.

Section SkipList.
Context {cfg : config}.

(** [skiplist h l t L]: in the heap [h], level [i] of the list [l] runs
    from the head through the nodes [L i], in non-decreasing order of
    their keys, to the tail [t]; the nodes of a level are nodes of the
    level below. *)
Record skiplist (h : gmap Z node_t) (l : set_t) (t : Z) (L : nat -> list Z) : Prop := {
  sl_end : h !! END = None;
  sl_top : L NUM_LEVELS = [];
  sl_tail : is_Some (h !! t);
  sl_chain : forall i, (i < NUM_LEVELS)%nat -> chain h i (head l) (L i) t;
  sl_nodes : forall i a, (i < NUM_LEVELS)%nat -> a ∈ L i -> is_Some (h !! a);
  sl_sorted : forall i, (i < NUM_LEVELS)%nat ->
      StronglySorted (fun a b => key_at h a <= key_at h b) (L i);
  sl_sub : forall i a, (i < NUM_LEVELS)%nat -> a ∈ L (S i) -> a ∈ L i
}.

End SkipList.

(** What the search leaves in [pa] and [na] at the levels below [n]. *)
Definition searched (h : gmap Z node_t) (l : set_t) (t : Z) (L : nat -> list Z)
    (k : Z) (bef : bool) (n : nat) (pa na pa' na' : list Z) : Prop :=
  length pa' = length pa /\ length na' = length na /\
  forall j, ((j < n)%nat ->
              pa' !! j = (fun _ => (walk_list h k bef (head l) (L j) t).1) <$> pa !! j /\
              na' !! j = (fun _ => (walk_list h k bef (head l) (L j) t).2) <$> na !! j) /\
            ((n <= j)%nat -> pa' !! j = pa !! j /\ na' !! j = na !! j).


(** ** A concrete configuration and the scenario queue *)

(** [NUM_LEVELS = 32], [SENTINEL_KEYMIN = 0] and [SENTINEL_KEYMAX =
    UINT64_MAX]; [END] is the filler that [set_alloc] writes over the
    forward pointers of the tail; a debug build without [OPTIM] and
    [USE_FAA]. *)
Definition cfg32 : config :=
  Config 32 0xfefefefefefefefe 0 0xffffffffffffffff 0xff false false false.

(** The same with [END] taken to be the address the tail gets in [boot]. *)
Definition cfg32_end_tail : config :=
  Config 32 4096 0 0xffffffffffffffff 0xff false false false.

(** The machine before [set_alloc]: nothing allocated, the [__thread]
    variables zero. *)
Definition boot : state := State ∅ 4096 [] (Tls 0 0 0) [].

Definition FUEL : nat := 100.

(** [set_alloc(max_offset, 32)] followed by the insertion of the keys 5,
    3 and 7 with the values 50, 30 and 70; [r1], [r2], [r3] are the
    random words the three levels are drawn from. *)
Definition queue3 {cfg : config} (max_offset r1 r2 r3 : Z) : M set_t :=
  l <- set_alloc max_offset 32 ;;
  set_update FUEL l 5 50 r1 ;;;
  set_update FUEL l 3 30 r2 ;;;
  set_update FUEL l 7 70 r3 ;;;
  ret l.

(** The scenario: the three insertions and then four [set_removemin]. *)
Definition scenario {cfg : config} (max_offset r1 r2 r3 : Z) : M (list Z) :=
  l <- queue3 max_offset r1 r2 r3 ;;
  a <- set_removemin FUEL l ;;
  b <- set_removemin FUEL l ;;
  c <- set_removemin FUEL l ;;
  d <- set_removemin FUEL l ;;
  ret [a; b; c; d].

(** The least word that [get_level] maps to level [l + 1]. *)
Definition level_seed (l : nat) : Z := 16 * (2 ^ Z.of_nat l - 1).

(** The scenario from the third insertion on. *)
Definition scenario_tail {cfg : config} (l : set_t) (r3 : Z) : M (list Z) :=
  set_update FUEL l 7 70 r3 ;;;
  a <- set_removemin FUEL l ;;
  b <- set_removemin FUEL l ;;
  c <- set_removemin FUEL l ;;
  d <- set_removemin FUEL l ;;
  ret [a; b; c; d].

(** Every choice of three levels gives the scenario its four results.
    The states after the first and the second insertion are shared
    between the choices that follow. *)
Definition scenario_all_levels (max_offset : Z) : bool :=
  match set_alloc (cfg:=cfg32) max_offset 32 boot with
  | (Ok l, s0) =>
      forallb (fun a =>
        match set_update (cfg:=cfg32) FUEL l 5 50 (level_seed a) s0 with
        | (Ok _, s1) =>
            forallb (fun b =>
              match set_update (cfg:=cfg32) FUEL l 3 30 (level_seed b) s1 with
              | (Ok _, s2) =>
                  forallb (fun c =>
                    bool_decide
                      (fst (scenario_tail (cfg:=cfg32) l (level_seed c) s2)
                       = Ok [3; 5; 7; 0xffffffffffffffff])) (seq 0 32)
              | _ => false
              end) (seq 0 32)
        | _ => false
        end) (seq 0 32)
  | _ => false
  end.

(** The scenario queue with all three nodes at level 1, and its list. *)
Definition q3_set : set_t := SetT 4480 32 32.
Definition q3_state : state := snd (queue3 (cfg:=cfg32) 32 0 0 0 boot).
Definition q3_levels (i : nat) : list Z :=
  match i with
  | O => [5184; 5120; 5248]
  | _ => []
  end.

(** The same queue after its minimum has been deleted: the node of key 3
    is still linked, behind the marked pointer of the head. *)
Definition qd_state : state := snd (set_removemin (cfg:=cfg32) FUEL q3_set q3_state).

(** The scenario queue with the node of key 3 at level 2, the same queue
    after one and after two deletions, and the queue descriptor with
    [max_offset] 1, for which the second deletion cleans up. *)
Definition qh_state : state := snd (queue3 (cfg:=cfg32) 32 0 16 0 boot).
Definition qh_levels (i : nat) : list Z :=
  match i with
  | O => [5184; 5120; 5312]
  | S O => [5184]
  | _ => []
  end.
Definition qh1_state : state := snd (set_removemin (cfg:=cfg32) FUEL q3_set qh_state).
Definition qh2_state : state := snd (set_removemin (cfg:=cfg32) FUEL q3_set qh1_state).
Definition qc_set : set_t := SetT 4480 1 32.

(** The queue [qd_state] in the middle of a second [set_removemin], run
    with [max_offset] 1: the marking loop has marked the pointer to the
    node of key 5 and the part from [assert(!is_marked_ref(x_next))] on
    is still to come. *)
Definition qs_state : state :=
  snd ((x <- removemin_start qc_set ;; removemin_walk (cfg:=cfg32) FUEL x 0) qd_state).

(** ** The queue between operations *)

(** The word in [a->next[i]], mark included. *)
Definition word_at (h : gmap Z node_t) (a : Z) (i : nat) : option Z :=
  match h !! a with
  | Some nd => n_next nd !! i
  | None => None
  end.

(** The bottom-level pointers of the first [m] nodes of [ns] are marked
    and those of the other nodes are not: the first [m] nodes after the
    head of the list have been deleted. *)
Definition marked_upto (h : gmap Z node_t) (ns : list Z) (m : nat) : Prop :=
  forall j a, ns !! j = Some a ->
    exists w, word_at h a 0 = Some w /\ is_marked_ref w = bool_decide (j < m)%nat.

(** Every node lies below the break of the allocator, and [NULL] is not
    a node. *)
Definition heap_range (st : state) : Prop :=
  forall a, is_Some (heap st !! a) -> 0 < a < brk st.

(** The [__thread] cache of [set_removemin]: when [old_obs_hp] is the
    word in the bottom pointer of the head, [pt] is one of the first
    [m + 1] nodes of [ns] and [old_offset] is at most its position. *)
Definition cache_ok (st : state) (l : set_t) (ns : list Z) (m : nat) : Prop :=
  word_at (heap st) (head l) 0 = Some (old_obs_hp (tl st)) ->
  exists j, (j <= m)%nat /\ ns !! j = Some (pt (tl st)) /\
            0 <= old_offset (tl st) <= Z.of_nat j.

(** The list of a level after [new] has been linked in front of the
    first node whose key is greater than [k]. *)
Fixpoint place (h : gmap Z node_t) (k new : Z) (ns : list Z) : list Z :=
  match ns with
  | [] => [new]
  | n :: ns' =>
      if key_at h n >? k then new :: n :: ns'
      else n :: place h k new ns'
  end.

(** The same on a list of keys. *)
Fixpoint place_key (k : Z) (ks : list Z) : list Z :=
  match ks with
  | [] => [k]
  | k' :: ks' =>
      if k' >? k then k :: k' :: ks'
      else k' :: place_key k ks'
  end.

(** The keys of a run of insertions in the order in which the bottom
    level holds them. *)
Definition sorted_keys (ops : list (Z * Z * Z)) : list Z :=
  foldl (fun ks op => place_key op.1.1 ks) [] ops.

Section QueueInvariant.
Context {cfg : config}.

(** The skip list without the order of the keys: what the walks that
    compare no keys rely on. *)
Record shape (h : gmap Z node_t) (l : set_t) (t : Z) (L : nat -> list Z) : Prop := {
  sh_end : h !! END = None;
  sh_tail : is_Some (h !! t);
  sh_chain : forall i, (i < NUM_LEVELS)%nat -> chain h i (head l) (L i) t;
  sh_nodes : forall i a, (i < NUM_LEVELS)%nat -> a ∈ L i -> is_Some (h !! a);
  sh_sub : forall i a, (i < NUM_LEVELS)%nat -> a ∈ L (S i) -> a ∈ L i
}.

(** A queue on which no deletion has taken place: a well-formed skip
    list whose levels have no node twice and no marked pointer. *)
Record queue_ok (st : state) (l : set_t) (t : Z) (L : nat -> list Z) : Prop := {
  qo_list : skiplist (heap st) l t L;
  qo_range : heap_range st;
  qo_nodup : forall i, (i < NUM_LEVELS)%nat -> NoDup (head l :: L i);
  qo_unmarked : forall i a, (i < NUM_LEVELS)%nat -> a ∈ head l :: L i ->
      exists w, word_at (heap st) a i = Some w /\ is_marked_ref w = false
}.

(** A queue whose first [m] nodes have been deleted and are still
    linked: the lists are well formed, the bottom list has no node
    twice, the bottom pointers of the head and of the first [m - 1]
    nodes are marked and no other one is, no pointer of a higher level
    is marked, and the nodes of a level follow one another as they do
    at the bottom.  The keys need not be in order. *)
Record deleted_ok (st : state) (l : set_t) (t : Z) (L : nat -> list Z) (m : nat)
    : Prop := {
  do_shape : shape (heap st) l t L;
  do_range : heap_range st;
  do_nodup : NoDup (head l :: L 0%nat ++ [t]);
  do_marked : marked_upto (heap st) (head l :: L 0%nat ++ [t]) m;
  do_count : (m <= length (L 0%nat))%nat;
  do_cache : cache_ok st l (head l :: L 0%nat ++ [t]) m;
  do_upper : forall i a, (1 <= i < NUM_LEVELS)%nat -> a ∈ head l :: L i ->
      exists w, word_at (heap st) a i = Some w /\ is_marked_ref w = false;
  do_sub : forall i, (i < NUM_LEVELS)%nat -> sublist (L i) (L 0%nat)
}.

(** Where the walk of [set_removemin] starts: at the cached node, with
    the cached offset, when [old_obs_hp] is the word in the bottom
    pointer of the head, and at the head with offset 0 otherwise. *)
Definition entry (st : state) (l : set_t) (N : list Z) (j : nat) (o : Z) : Prop :=
  if bool_decide (word_at (heap st) (head l) 0 = Some (old_obs_hp (tl st)))
  then N !! j = Some (pt (tl st)) /\ o = old_offset (tl st)
  else j = 0%nat /\ o = 0.

(** The lists after the cleanup has unlinked the first [m] nodes of the
    bottom level from every level. *)
Definition after_cleanup (L : nat -> list Z) (m : nat) : nat -> list Z :=
  fun i => filter (fun a => a ∉ take m (L 0%nat)) (L i).

(** The lists after [new] has been linked at the bottom level behind
    the first [m] nodes. *)
Definition behind_deleted (L : nat -> list Z) (m : nat) (new : Z) : nat -> list Z :=
  fun i => match i with
           | O => take m (L 0%nat) ++ new :: drop m (L 0%nat)
           | S _ => L i
           end.

(** A run of insertions, each with the random word its level is drawn
    from, and a run of [n] deletions of the minimum. *)
Fixpoint insert_all (fuel : nat) (l : set_t) (ops : list (Z * Z * Z)) : M unit :=
  match ops with
  | [] => ret tt
  | (k, v, r) :: ops' => set_update fuel l k v r ;;; insert_all fuel l ops'
  end.

Fixpoint removemin_n (fuel : nat) (l : set_t) (n : nat) : M (list Z) :=
  match n with
  | O => ret []
  | S n' =>
      k <- set_removemin fuel l ;;
      ks <- removemin_n fuel l n' ;;
      ret (k :: ks)
  end.

End QueueInvariant.

(** The registers of the machine that the accesses to nodes leave
    alone. *)
Definition same_regs (st st' : state) : Prop :=
  brk st' = brk st /\ freed st' = freed st /\ tl st' = tl st.

(** The value and the level of the node at [a]. *)
Definition value_at (h : gmap Z node_t) (a : Z) : Z :=
  match h !! a with
  | Some nd => n_v nd
  | None => 0
  end.

Definition level_at (h : gmap Z node_t) (a : Z) : Z :=
  match h !! a with
  | Some nd => n_level nd
  | None => 0
  end.

(** The heap after [a->next[i]] has been overwritten with [w]. *)
Definition poke (h : gmap Z node_t) (a : Z) (i : nat) (w : Z) : gmap Z node_t :=
  match h !! a with
  | Some nd => <[a := set_next nd i w]> h
  | None => h
  end.

(** The heap after the level-[j] pointer of [ps[j]] has been set to
    [new] at the levels [j < n]. *)
Fixpoint link_heap (h : gmap Z node_t) (ps : list Z) (new : Z) (n : nat)
  : gmap Z node_t :=
  match n with
  | O => h
  | S j => poke (link_heap h ps new j) (default 0 (ps !! j)) j new
  end.

(** The heap after the pointers of the node [hd] at the levels [n] down
    to 1 have been set to [T n], ..., [T 1]. *)
Fixpoint swing_heap (h : gmap Z node_t) (hd : Z) (T : nat -> Z) (n : nat)
  : gmap Z node_t :=
  match n with
  | O => h
  | S n' => swing_heap (poke h hd (S n') (T (S n'))) hd T n'
  end.

(** A client of the queue: allocate it, insert [ops] and delete the
    minimum [n] times. *)
Definition fill_drain {cfg : config} (fuel : nat) (mo ml : Z)
    (ops : list (Z * Z * Z)) (n : nat) : M (list Z) :=
  l <- set_alloc mo ml ;;
  insert_all fuel l ops ;;;
  removemin_n fuel l n.

Definition is_read (e : event) : bool :=
  match e with
  | EvRead _ _ => true
  | _ => false
  end.

(** The forward pointers of all nodes. *)
Definition next_cells (a : Z) (f : field) : Prop := exists i, f = FNext i.

(** *** [highest_level] *)

Section HighestLevel.
Context {cfg : config}.

(** [for ( int i = n; i >= 1; i-- )]; [x] stays the head. *)
Fixpoint highest_level_loop (n : nat) (x : Z) : M Z :=
  match n with
  | O => ret 0
  | S m =>
      x_next <- load_next x (S m) ;;
      w <- load_next x_next 0 ;;
      if negb (w =? END) then ret (Z.of_nat (S m))
      else highest_level_loop m x
  end.

Definition highest_level (l : set_t) : M Z :=
  highest_level_loop (Z.to_nat (to_int (max_level l - 1))) (head l).

End HighestLevel.
(** * Properties *)

(** ** The monad and the primitives *)

Lemma bind_eq {A B} (m : M A) (f : A -> M B) st :
  bind m f st =
  match m st with
  | (Ok a, st') => f a st'
  | (Err e, st') => (Err e, st')
  end.
Proof. reflexivity. Qed.

Lemma bind_ok {A B} (m : M A) (f : A -> M B) st a st' :
  m st = (Ok a, st') -> bind m f st = f a st'.
Proof. intros H. rewrite bind_eq, H. reflexivity. Qed.

Lemma bind_err {A B} (m : M A) (f : A -> M B) st e st' :
  m st = (Err e, st') -> bind m f st = (Err e, st').
Proof. intros H. rewrite bind_eq, H. reflexivity. Qed.

Lemma bind_inv {A B} (m : M A) (f : A -> M B) st b st' :
  bind m f st = (Ok b, st') ->
  exists a st1, m st = (Ok a, st1) /\ f a st1 = (Ok b, st').
Proof.
  rewrite bind_eq. destruct (m st) as [[a|e] st1]; [eauto|discriminate].
Qed.

Lemma load_next_eq n i st :
  load_next n i st =
  match heap st !! n with
  | Some nd =>
      match n_next nd !! i with
      | Some w => (Ok w, add_event (EvRead n (FNext i)) st)
      | None => (Err Fault, st)
      end
  | None => (Err Fault, st)
  end.
Proof.
  unfold load_next, get_node. rewrite bind_eq.
  destruct (heap st !! n) as [nd|]; [|reflexivity].
  destruct (n_next nd !! i); reflexivity.
Qed.

Lemma load_k_eq n st :
  load_k n st =
  match heap st !! n with
  | Some nd => (Ok (n_k nd), add_event (EvRead n FK) st)
  | None => (Err Fault, st)
  end.
Proof.
  unfold load_k, get_node. rewrite bind_eq.
  destruct (heap st !! n); reflexivity.
Qed.

Lemma load_v_eq n st :
  load_v n st =
  match heap st !! n with
  | Some nd => (Ok (n_v nd), add_event (EvRead n FV) st)
  | None => (Err Fault, st)
  end.
Proof.
  unfold load_v, get_node. rewrite bind_eq.
  destruct (heap st !! n); reflexivity.
Qed.

Lemma load_level_eq n st :
  load_level n st =
  match heap st !! n with
  | Some nd => (Ok (n_level nd), add_event (EvRead n FLevel) st)
  | None => (Err Fault, st)
  end.
Proof.
  unfold load_level, get_node. rewrite bind_eq.
  destruct (heap st !! n); reflexivity.
Qed.

Lemma CASPO_eq n i o nw st :
  CASPO n i o nw st =
  match heap st !! n with
  | Some nd =>
      match n_next nd !! i with
      | Some cur =>
          (Ok cur,
           add_event (EvCAS n i o nw)
             (if cur =? o then with_heap (<[n := set_next nd i nw]> (heap st)) st
              else st))
      | None => (Err Fault, st)
      end
  | None => (Err Fault, st)
  end.
Proof.
  unfold CASPO, peek_next, poke_next, get_node. rewrite !bind_eq.
  destruct (heap st !! n) as [nd|] eqn:Hn; [|reflexivity].
  destruct (n_next nd !! i) as [cur|] eqn:Hi; [|reflexivity].
  simpl. destruct (cur =? o); [|reflexivity].
  unfold bind. simpl. rewrite Hn. simpl. rewrite Hi. reflexivity.
Qed.

Lemma FAA_eq n i d st :
  FAA n i d st =
  match heap st !! n with
  | Some nd =>
      match n_next nd !! i with
      | Some cur =>
          (Ok cur,
           add_event (EvFAA n i d)
             (with_heap (<[n := set_next nd i (to_ulong (cur + d))]> (heap st)) st))
      | None => (Err Fault, st)
      end
  | None => (Err Fault, st)
  end.
Proof.
  unfold FAA, peek_next, poke_next, get_node. rewrite !bind_eq.
  destruct (heap st !! n) as [nd|] eqn:Hn; [|reflexivity].
  destruct (n_next nd !! i) as [cur|] eqn:Hi; [|reflexivity].
  unfold bind. simpl. rewrite Hn. simpl. rewrite Hi. reflexivity.
Qed.

Lemma FAO_eq n i d st :
  FAO n i d st =
  match heap st !! n with
  | Some nd =>
      match n_next nd !! i with
      | Some cur =>
          (Ok cur,
           add_event (EvFAO n i d)
             (with_heap (<[n := set_next nd i (Z.lor cur d)]> (heap st)) st))
      | None => (Err Fault, st)
      end
  | None => (Err Fault, st)
  end.
Proof.
  unfold FAO, peek_next, poke_next, get_node. rewrite !bind_eq.
  destruct (heap st !! n) as [nd|] eqn:Hn; [|reflexivity].
  destruct (n_next nd !! i) as [cur|] eqn:Hi; [|reflexivity].
  unfold bind. simpl. rewrite Hn. simpl. rewrite Hi. reflexivity.
Qed.

Lemma bind_run {A B} (m : M A) (f : A -> M B) st :
  (exists a st1, m st = (Ok a, st1) /\ bind m f st = f a st1) \/
  (exists e st1, m st = (Err e, st1) /\ bind m f st = (Err e, st1)).
Proof.
  rewrite bind_eq. destruct (m st) as [[a|e] st1]; [left|right]; eauto.
Qed.

(** Case analysis on the first computation of the outermost [bind] that
    is run in the goal. *)
Ltac bind_case a st1 H :=
  match goal with
  | |- context [bind ?m ?f ?st] =>
      let e := fresh "e" in
      let Hb := fresh "Hb" in
      destruct (bind_run m f st) as [(a & st1 & H & Hb)|(e & st1 & H & Hb)];
      rewrite Hb; clear Hb
  end.

(** ** What a computation may log and where it may write *)

Lemma step_rel_refl p S st : step_rel p S st st.
Proof. split; [exists []; done|done]. Qed.

Lemma step_rel_trans p S st1 st2 st3 :
  step_rel p S st1 st2 -> step_rel p S st2 st3 -> step_rel p S st1 st3.
Proof.
  intros [(e1 & H1 & F1) G1] [(e2 & H2 & F2) G2]. split.
  - exists (e2 ++ e1). rewrite H2, H1, app_assoc. split; [done|].
    rewrite forallb_app, F1, F2. done.
  - intros a f Ha. rewrite G2, G1; done.
Qed.

Lemma step_rel_event p S e st : p e = true -> step_rel p S st (add_event e st).
Proof.
  intros He. split; [|done]. exists [e]. split; [done|]. simpl. by rewrite He.
Qed.

(** Replacing a node by one that differs in a single cell. *)
Lemma step_rel_write p S n f0 nd nd' st :
  heap st !! n = Some nd ->
  (forall f, f <> f0 -> field_of nd' f = field_of nd f) ->
  S n f0 ->
  step_rel p S st (with_heap (<[n := nd']> (heap st)) st).
Proof.
  intros Hnd Hf Hn. split; [exists []; done|].
  intros a f Ha. unfold cell. simpl.
  destruct (decide (a = n)) as [->|Hne].
  - rewrite lookup_insert_eq, Hnd. apply Hf. intros ->. done.
  - by rewrite lookup_insert_ne.
Qed.

Lemma field_of_set_next nd i w f :
  f <> FNext i -> field_of (set_next nd i w) f = field_of nd f.
Proof.
  intros Hf. destruct f as [| | |j]; try reflexivity. simpl.
  apply list_lookup_insert_ne. intros ->. done.
Qed.

Lemma step_rel_set_next p S e n i w nd st :
  heap st !! n = Some nd -> p e = true -> S n (FNext i) ->
  step_rel p S st (add_event e (with_heap (<[n := set_next nd i w]> (heap st)) st)).
Proof.
  intros Hnd He Hn. eapply step_rel_trans.
  - eapply step_rel_write; [exact Hnd| |exact Hn]. intros f. apply field_of_set_next.
  - by apply step_rel_event.
Qed.

Section Preserves.
Context (p : event -> bool) (S : Z -> field -> Prop).

Lemma preserves_ret {A} (a : A) : preserves (step_rel p S) (ret a).
Proof. intros st. apply step_rel_refl. Qed.

Lemma preserves_fail {A} e : preserves (step_rel p S) (@fail A e).
Proof. intros st. apply step_rel_refl. Qed.

Lemma preserves_bind {A B} (m : M A) (f : A -> M B) :
  preserves (step_rel p S) m -> (forall a, preserves (step_rel p S) (f a)) ->
  preserves (step_rel p S) (bind m f).
Proof.
  intros Hm Hf st. rewrite bind_eq. specialize (Hm st).
  destruct (m st) as [[a|e] st1]; simpl in *; [|done].
  eapply step_rel_trans; [exact Hm|apply Hf].
Qed.

Lemma preserves_log e : p e = true -> preserves (step_rel p S) (log e).
Proof. intros He st. by apply step_rel_event. Qed.

Lemma preserves_get_tl : preserves (step_rel p S) get_tl.
Proof. intros st. apply step_rel_refl. Qed.

Lemma preserves_put_tl t : preserves (step_rel p S) (put_tl t).
Proof. intros st. split; [exists []; done|done]. Qed.

Lemma preserves_load_next n i :
  p (EvRead n (FNext i)) = true -> preserves (step_rel p S) (load_next n i).
Proof.
  intros He st. rewrite load_next_eq.
  destruct (heap st !! n) as [nd|]; [|apply step_rel_refl].
  destruct (n_next nd !! i); [|apply step_rel_refl].
  by apply step_rel_event.
Qed.

Lemma preserves_load_k n :
  p (EvRead n FK) = true -> preserves (step_rel p S) (load_k n).
Proof.
  intros He st. rewrite load_k_eq.
  destruct (heap st !! n) as [nd|]; [|apply step_rel_refl].
  by apply step_rel_event.
Qed.

Lemma preserves_load_v n :
  p (EvRead n FV) = true -> preserves (step_rel p S) (load_v n).
Proof.
  intros He st. rewrite load_v_eq.
  destruct (heap st !! n) as [nd|]; [|apply step_rel_refl].
  by apply step_rel_event.
Qed.

Lemma preserves_load_level n :
  p (EvRead n FLevel) = true -> preserves (step_rel p S) (load_level n).
Proof.
  intros He st. rewrite load_level_eq.
  destruct (heap st !! n) as [nd|]; [|apply step_rel_refl].
  by apply step_rel_event.
Qed.

Lemma preserves_CASPO n i o nw :
  p (EvCAS n i o nw) = true -> S n (FNext i) ->
  preserves (step_rel p S) (CASPO n i o nw).
Proof.
  intros He Hn st. rewrite CASPO_eq.
  destruct (heap st !! n) as [nd|] eqn:Hnd; [|apply step_rel_refl].
  destruct (n_next nd !! i) as [cur|]; [|apply step_rel_refl].
  simpl. destruct (cur =? o).
  - by apply step_rel_set_next.
  - by apply step_rel_event.
Qed.

Lemma preserves_FAA n i d :
  p (EvFAA n i d) = true -> S n (FNext i) -> preserves (step_rel p S) (FAA n i d).
Proof.
  intros He Hn st. rewrite FAA_eq.
  destruct (heap st !! n) as [nd|] eqn:Hnd; [|apply step_rel_refl].
  destruct (n_next nd !! i) as [cur|]; [|apply step_rel_refl].
  by apply step_rel_set_next.
Qed.

Lemma preserves_FAO n i d :
  p (EvFAO n i d) = true -> S n (FNext i) -> preserves (step_rel p S) (FAO n i d).
Proof.
  intros He Hn st. rewrite FAO_eq.
  destruct (heap st !! n) as [nd|] eqn:Hnd; [|apply step_rel_refl].
  destruct (n_next nd !! i) as [cur|]; [|apply step_rel_refl].
  by apply step_rel_set_next.
Qed.

Lemma preserves_store_next n i w :
  p (EvWrite n (FNext i) w) = true -> S n (FNext i) ->
  preserves (step_rel p S) (store_next n i w).
Proof.
  intros He Hn st. unfold store_next, poke_next, get_node, log, put_heap, bind. simpl.
  destruct (heap st !! n) as [nd|] eqn:Hnd; [|by apply (step_rel_event _ _ _ st)].
  destruct (n_next nd !! i); [|by apply (step_rel_event _ _ _ st)].
  simpl. eapply step_rel_trans; [by apply step_rel_event|].
  eapply (step_rel_write p S n (FNext i) nd _ (add_event _ st)); [exact Hnd| |exact Hn].
  intros f. apply field_of_set_next.
Qed.

(** The three stores to a scalar field have the same shape. *)
Lemma preserves_store_field n f0 w (m : M unit) g :
  p (EvWrite n f0 w) = true -> S n f0 ->
  (forall nd f, f <> f0 -> field_of (g nd) f = field_of nd f) ->
  (forall st,
      m st = match heap st !! n with
             | Some nd =>
                 (Ok tt, with_heap (<[n := g nd]> (heap st))
                           (add_event (EvWrite n f0 w) st))
             | None => (Err Fault, st)
             end) ->
  preserves (step_rel p S) m.
Proof.
  intros He Hn Hf Hg st. rewrite Hg.
  destruct (heap st !! n) as [nd|] eqn:Hnd; [|apply step_rel_refl].
  eapply step_rel_trans; [by apply step_rel_event|].
  eapply (step_rel_write p S n f0 nd _ (add_event _ st)); [exact Hnd| |exact Hn].
  intros f. apply Hf.
Qed.

Lemma preserves_store_k n w :
  p (EvWrite n FK w) = true -> S n FK -> preserves (step_rel p S) (store_k n w).
Proof.
  intros He Hn.
  apply (preserves_store_field n FK w _
           (fun nd => Node w (n_level nd) (n_v nd) (n_next nd))); [done..| |].
  - intros nd [] Hf; done.
  - intros st. unfold store_k, get_node, log, put_heap, bind.
    by destruct (heap st !! n).
Qed.

Lemma preserves_store_v n w :
  p (EvWrite n FV w) = true -> S n FV -> preserves (step_rel p S) (store_v n w).
Proof.
  intros He Hn.
  apply (preserves_store_field n FV w _
           (fun nd => Node (n_k nd) (n_level nd) w (n_next nd))); [done..| |].
  - intros nd [] Hf; done.
  - intros st. unfold store_v, get_node, log, put_heap, bind.
    by destruct (heap st !! n).
Qed.

Lemma preserves_store_level n w :
  p (EvWrite n FLevel w) = true -> S n FLevel ->
  preserves (step_rel p S) (store_level n w).
Proof.
  intros He Hn.
  apply (preserves_store_field n FLevel w _
           (fun nd => Node (n_k nd) w (n_v nd) (n_next nd))); [done..| |].
  - intros nd [] Hf; done.
  - intros st. unfold store_level, get_node, log, put_heap, bind.
    by destruct (heap st !! n).
Qed.

Lemma preserves_gc_alloc l :
  (forall n, p (EvAlloc n) = true) -> (forall a f, S a f) ->
  preserves (step_rel p S) (gc_alloc l).
Proof.
  intros He HS st. split; [|intros a f Ha; destruct (Ha (HS a f))].
  exists [EvAlloc (align64 (brk st))]. simpl. by rewrite He.
Qed.

Lemma preserves_gc_free n pool :
  p (EvFree n pool) = true -> preserves (step_rel p S) (gc_free n pool).
Proof.
  intros He st. split; [|done]. exists [EvFree n pool]. simpl. by rewrite He.
Qed.

Lemma preserves_arr_get a i : preserves (step_rel p S) (arr_get a i).
Proof. intros st. unfold arr_get. destruct (a !! i); apply step_rel_refl. Qed.

Lemma preserves_c_assert {cfg : config} c :
  preserves (step_rel p S) c -> preserves (step_rel p S) (c_assert c).
Proof.
  intros Hc. unfold c_assert. destruct NDEBUG; [apply preserves_ret|].
  apply preserves_bind; [exact Hc|].
  intros []; [apply preserves_ret|apply preserves_fail].
Qed.

End Preserves.

Create HintDb pres.
#[global] Hint Resolve preserves_ret preserves_fail preserves_get_tl preserves_put_tl
  preserves_arr_get : pres.
#[global] Hint Resolve preserves_log preserves_load_next preserves_load_k
  preserves_load_v preserves_load_level preserves_CASPO preserves_FAA
  preserves_FAO preserves_store_next preserves_store_k preserves_store_v
  preserves_store_level preserves_gc_alloc preserves_gc_free : pres.

Lemma mem_ok_ev_ok h p : mem_ok p -> ev_ok h p.
Proof. intros H e He _. by apply H. Qed.

Lemma mem_ok_nonbracket : mem_ok nonbracket.
Proof. intros e He. unfold nonbracket. by rewrite He. Qed.

Lemma mem_ok_any : mem_ok any_event.
Proof. done. Qed.

Lemma ev_ok_quiet h : ev_ok h (quiet h).
Proof. intros e He Hc. unfold quiet. by rewrite He, Hc. Qed.

Lemma upper_of_intro h j : upper_of h h (FNext (S j)).
Proof. split; [done|by exists j]. Qed.

(** Side conditions on events and cells. *)
Ltac pres_event :=
  match goal with
  | H : ev_ok _ ?p |- ?p _ = true => apply H; reflexivity
  | H : mem_ok ?p |- ?p _ = true => apply H; reflexivity
  end.
#[global] Hint Extern 1 (_ = true) => pres_event : pres.
#[global] Hint Resolve upper_of_intro : pres.
#[global] Hint Extern 1 (ev_ok _ _) =>
  first [eapply (mem_ok_ev_ok 0) | eapply mem_ok_ev_ok] : pres.
#[global] Hint Resolve mem_ok_nonbracket mem_ok_any ev_ok_quiet : pres.

(** One step of a proof that a computation is within [step_rel]. *)
Ltac pres_step :=
  match goal with
  | |- preserves _ (bind _ _) => apply preserves_bind; [|intros ?]
  | |- preserves _ (c_assert _) => apply preserves_c_assert
  | |- preserves _ (if ?b then _ else _) => destruct b
  | |- preserves _ (match ?x with _ => _ end) => destruct x
  | |- preserves _ _ => solve [eauto with pres]
  end.

Ltac pres := repeat pres_step.

Section SearchFacts.
Context {cfg : config}.
Context (p : event -> bool) (S : Z -> field -> Prop) (h : Z) (Hp : ev_ok h p).

Lemma preserves_wsp_walk fuel k bef i x :
  preserves (step_rel p S) (wsp_walk fuel k bef i x).
Proof using Hp. revert x. induction fuel as [|fuel IH]; intros x; simpl; pres. Qed.
Hint Resolve preserves_wsp_walk : pres.

Lemma preserves_wsp_levels fuel k bef n x pa na :
  preserves (step_rel p S) (wsp_levels fuel k bef n x pa na).
Proof using Hp. revert x pa na. induction n as [|n IH]; intros x pa na; simpl; pres. Qed.
Hint Resolve preserves_wsp_levels : pres.

Lemma preserves_weak_search_predecessors fuel l k pa na bef :
  preserves (step_rel p S) (weak_search_predecessors fuel l k pa na bef).
Proof using Hp. unfold weak_search_predecessors. pres. Qed.

Lemma preserves_wsh_walk fuel i x :
  preserves (step_rel p S) (wsh_walk fuel i x).
Proof using Hp. revert x. induction fuel as [|fuel IH]; intros x; simpl; pres. Qed.
Hint Resolve preserves_wsh_walk : pres.

Lemma preserves_wsh_levels fuel n x x_next :
  preserves (step_rel p S) (wsh_levels fuel n x x_next).
Proof using Hp. revert x x_next. induction n as [|n IH]; intros x x_next; simpl; pres. Qed.
Hint Resolve preserves_wsh_levels : pres.

Lemma preserves_weak_search_head fuel l :
  preserves (step_rel p S) (weak_search_head fuel l).
Proof using Hp. unfold weak_search_head. pres. Qed.

Lemma preserves_wse_walk fuel i x lvl :
  preserves (step_rel p S) (wse_walk fuel i x lvl).
Proof using Hp. revert x lvl. induction fuel as [|fuel IH]; intros x lvl; simpl; pres. Qed.
Hint Resolve preserves_wse_walk : pres.

Lemma preserves_wse_levels fuel n x lvl pa :
  preserves (step_rel p S) (wse_levels fuel n x lvl pa).
Proof using Hp. revert x lvl pa. induction n as [|n IH]; intros x lvl pa; simpl; pres. Qed.
Hint Resolve preserves_wse_levels : pres.

Lemma preserves_weak_search_end fuel l pa toplvl :
  preserves (step_rel p S) (weak_search_end fuel l pa toplvl).
Proof using Hp. unfold weak_search_end. pres. Qed.
Hint Resolve preserves_weak_search_end : pres.

Lemma preserves_free_node n : preserves (step_rel p S) (free_node n).
Proof using Hp. unfold free_node. pres. Qed.
Hint Resolve preserves_free_node : pres.

Lemma preserves_free_prefix n x_next stop :
  preserves (step_rel p S) (free_prefix n x_next stop).
Proof using Hp. revert x_next. induction n as [|n IH]; intros x_next; simpl; pres. Qed.
Hint Resolve preserves_free_prefix : pres.

Lemma preserves_removemin_optim x : preserves (step_rel p S) (removemin_optim x).
Proof using Hp. unfold removemin_optim. pres. Qed.

Lemma preserves_removemin_start l : preserves (step_rel p S) (removemin_start l).
Proof using Hp. unfold removemin_start. pres. Qed.

Lemma preserves_removemin_save x_next offset :
  preserves (step_rel p S) (removemin_save x_next offset).
Proof using Hp. unfold removemin_save. pres. Qed.

End SearchFacts.

#[global] Hint Resolve preserves_weak_search_predecessors preserves_weak_search_head
  preserves_weak_search_end preserves_free_prefix preserves_removemin_optim
  preserves_removemin_start preserves_removemin_save : pres.

(** Once the bottom pointer of the head has been swung, the cleanup
    writes to the upper forward pointers of the head only, and no longer
    attempts a compare-and-swap on the bottom one. *)
Section HeadSwing.
Context {cfg : config}.
Context (p : event -> bool) (S : Z -> field -> Prop) (l : set_t).
Context (Hp : ev_ok (head l) p) (Hhead : forall j, S (head l) (FNext (Datatypes.S j))).

Lemma preserves_swing_cas fuel n j preds next :
  preserves (step_rel p S) (swing_cas fuel n l (Datatypes.S j) preds next).
Proof using Hp Hhead.
  revert preds next. induction n as [|n IH]; intros preds next; simpl; pres.
Qed.
Hint Resolve preserves_swing_cas : pres.

Lemma preserves_swing_levels fuel n preds :
  preserves (step_rel p S) (swing_levels fuel n l preds).
Proof using Hp Hhead.
  revert preds. induction n as [|n IH]; intros preds; simpl; pres.
Qed.
Hint Resolve preserves_swing_levels : pres.

Lemma preserves_head_swing_levels fuel x obs_hp :
  preserves (step_rel p S) (head_swing_levels fuel l x obs_hp).
Proof using Hp Hhead. unfold head_swing_levels. pres. Qed.

End HeadSwing.

(** The whole head swing, and the cleanup that decides on it, write to
    the forward pointers of the head only. *)
Section Cleanup.
Context {cfg : config}.
Context (p : event -> bool) (S : Z -> field -> Prop) (l : set_t).
Context (Hp : mem_ok p) (Hhead : forall i, S (head l) (FNext i)).

Lemma preserves_head_swing fuel x obs_hp :
  preserves (step_rel p S) (head_swing fuel l x obs_hp).
Proof using Hp Hhead.
  unfold head_swing. pres.
  eapply preserves_head_swing_levels; eauto with pres.
Qed.
Hint Resolve preserves_head_swing : pres.

Lemma preserves_removemin_cleanup fuel x :
  preserves (step_rel p S) (removemin_cleanup fuel l x).
Proof using Hp Hhead. unfold removemin_cleanup. pres. Qed.

End Cleanup.

(** The other functions may write anywhere. *)
Section Writers.
Context {cfg : config}.
Context (p : event -> bool) (S : Z -> field -> Prop).
Context (Hp : mem_ok p) (HS : forall a f, S a f).

Lemma preserves_alloc_node r : preserves (step_rel p S) (alloc_node r).
Proof using Hp HS. unfold alloc_node. pres. Qed.
Hint Resolve preserves_alloc_node : pres.

Lemma preserves_init_next new succs i cnt :
  preserves (step_rel p S) (init_next new succs i cnt).
Proof using Hp HS. revert i. induction cnt as [|cnt IH]; intros i; simpl; pres. Qed.
Hint Resolve preserves_init_next : pres.

Lemma preserves_orphan_loop fuel n l new x loop0 :
  preserves (step_rel p S) (orphan_loop fuel n l new x loop0).
Proof using Hp HS.
  revert x loop0. induction n as [|n IH]; intros x loop0; simpl; pres.
Qed.
Hint Resolve preserves_orphan_loop : pres.

Lemma preserves_link_levels fuel n l k new level preds succs i :
  preserves (step_rel p S) (link_levels fuel n l k new level preds succs i).
Proof using Hp HS.
  revert preds succs i. induction n as [|n IH]; intros preds succs i; simpl; pres.
Qed.
Hint Resolve preserves_link_levels : pres.

Lemma preserves_set_update_retry fuel n l k v r new preds succs :
  preserves (step_rel p S) (set_update_retry fuel n l k v r new preds succs).
Proof using Hp HS.
  revert new preds succs. induction n as [|n IH]; intros new preds succs; simpl; pres.
Qed.

Lemma preserves_removemin_walk n x offset :
  preserves (step_rel p S) (removemin_walk n x offset).
Proof using Hp HS.
  revert x offset. induction n as [|n IH]; intros x offset; simpl.
  - pres.
  - unfold removemin_read, removemin_mark. pres.
Qed.

Lemma preserves_set_remove fuel l key :
  preserves (step_rel p S) (set_remove fuel l key).
Proof using Hp HS. unfold set_remove. pres. Qed.

End Writers.


(** ** [get_level] *)

Section LevelFacts.
Context {cfg : config}.

Lemma to_int_small z : - 2 ^ 31 <= z < 2 ^ 31 -> to_int z = z.
Proof.
  intros H. unfold to_int, INT_MAX, UINT_RANGE.
  rewrite Z.mod_small; lia.
Qed.

Lemma land_1_mod m : Z.land m 1 = m mod 2.
Proof. change 1 with (Z.ones 1). rewrite Z.land_ones by lia. reflexivity. Qed.

Lemma get_level_loop_ones (j : nat) :
  forall (fuel : nat) (m l : Z),
    (j < fuel)%nat -> 0 <= m ->
    m mod 2 ^ (Z.of_nat j + 1) = 2 ^ Z.of_nat j - 1 ->
    0 <= l -> l + Z.of_nat j < 2 ^ 31 ->
    get_level_loop fuel m l = Some (l + Z.of_nat j).
Proof.
  induction j as [|j IH]; intros fuel m l Hf Hm Hmod Hl Hb.
  - destruct fuel as [|fuel]; [lia|]. simpl.
    rewrite land_1_mod. change (Z.of_nat 0 + 1) with 1 in Hmod.
    change (2 ^ 1) with 2 in Hmod. simpl in Hmod. rewrite Hmod. simpl.
    f_equal. lia.
  - destruct fuel as [|fuel]; [lia|]. simpl.
    rewrite land_1_mod.
    assert (Hpow : 2 ^ (Z.of_nat (S j) + 1) = 2 * 2 ^ (Z.of_nat j + 1)).
    { rewrite <- Z.pow_succ_r by lia. f_equal. lia. }
    assert (Hpow' : 2 ^ Z.of_nat (S j) = 2 * 2 ^ Z.of_nat j).
    { rewrite <- Z.pow_succ_r by lia. f_equal. lia. }
    assert (Hp : 0 < 2 ^ Z.of_nat j) by (apply Z.pow_pos_nonneg; lia).
    assert (Hp1 : 0 < 2 ^ (Z.of_nat j + 1)) by (apply Z.pow_pos_nonneg; lia).
    rewrite Hpow, Hpow' in Hmod.
    pose proof (Z.div_mod m (2 * 2 ^ (Z.of_nat j + 1)) ltac:(lia)) as Hdm.
    rewrite Hmod in Hdm.
    set (q := m / (2 * 2 ^ (Z.of_nat j + 1))) in *.
    assert (Hodd : m mod 2 = 1).
    { rewrite Hdm.
      replace (2 * 2 ^ (Z.of_nat j + 1) * q + (2 * 2 ^ Z.of_nat j - 1))
        with (1 + (2 ^ (Z.of_nat j + 1) * q + 2 ^ Z.of_nat j - 1) * 2) by lia.
      rewrite Z.mod_add by lia. reflexivity. }
    rewrite Hodd. simpl.
    rewrite Z.shiftr_div_pow2 by lia. change (2 ^ 1) with 2.
    assert (Hhalf : m / 2 = 2 ^ (Z.of_nat j + 1) * q + 2 ^ Z.of_nat j - 1).
    { rewrite Hdm.
      replace (2 * 2 ^ (Z.of_nat j + 1) * q + (2 * 2 ^ Z.of_nat j - 1))
        with (1 + (2 ^ (Z.of_nat j + 1) * q + 2 ^ Z.of_nat j - 1) * 2) by lia.
      rewrite Z.div_add by lia. reflexivity. }
    rewrite to_int_small by lia.
    rewrite (IH fuel (m / 2) (l + 1)); try lia.
    + f_equal. lia.
    + rewrite Hhalf.
      replace (2 ^ (Z.of_nat j + 1) * q + 2 ^ Z.of_nat j - 1)
        with ((2 ^ Z.of_nat j - 1) + q * 2 ^ (Z.of_nat j + 1)) by lia.
      rewrite Z.mod_add by lia.
      apply Z.mod_small.
      replace (Z.of_nat j + 1) with (Z.succ (Z.of_nat j)) by lia.
      rewrite Z.pow_succ_r by lia. lia.
Qed.

Lemma trailing_ones_exist (b : nat) :
  forall m, 0 <= m < 2 ^ Z.of_nat b ->
    exists j : nat, (j <= b)%nat /\ m mod 2 ^ (Z.of_nat j + 1) = 2 ^ Z.of_nat j - 1.
Proof.
  induction b as [|b IH]; intros m Hm.
  - exists 0%nat. split; [lia|]. change (2 ^ Z.of_nat 0) with 1 in *.
    assert (m = 0) by lia. subst. reflexivity.
  - destruct (Z.eq_dec (m mod 2) 0) as [He|Ho].
    + exists 0%nat. split; [lia|]. change (2 ^ (Z.of_nat 0 + 1)) with 2. rewrite He. reflexivity.
    + assert (Hodd : m mod 2 = 1) by (pose proof (Z.mod_pos_bound m 2); lia).
      pose proof (Z.div_mod m 2 ltac:(lia)) as Hdm. rewrite Hodd in Hdm.
      assert (Hpow : 2 ^ Z.of_nat (S b) = 2 * 2 ^ Z.of_nat b).
      { rewrite <- Z.pow_succ_r by lia. f_equal. lia. }
      destruct (IH (m / 2)) as (j & Hj & Hmod); [lia|].
      exists (S j). split; [lia|].
      assert (Hp : 0 < 2 ^ Z.of_nat j) by (apply Z.pow_pos_nonneg; lia).
      assert (Hp1 : 0 < 2 ^ (Z.of_nat j + 1)) by (apply Z.pow_pos_nonneg; lia).
      assert (Hpow1 : 2 ^ (Z.of_nat (S j) + 1) = 2 * 2 ^ (Z.of_nat j + 1)).
      { rewrite <- Z.pow_succ_r by lia. f_equal. lia. }
      assert (Hpow2 : 2 ^ Z.of_nat (S j) = 2 * 2 ^ Z.of_nat j).
      { rewrite <- Z.pow_succ_r by lia. f_equal. lia. }
      rewrite Hpow1, Hpow2.
      pose proof (Z.div_mod (m / 2) (2 ^ (Z.of_nat j + 1)) ltac:(lia)) as Hdm2.
      rewrite Hmod in Hdm2.
      set (q := m / 2 / 2 ^ (Z.of_nat j + 1)) in *.
      replace m with ((2 * 2 ^ Z.of_nat j - 1) + q * (2 * 2 ^ (Z.of_nat j + 1))) at 1 by lia.
      rewrite Z.mod_add by lia.
      apply Z.mod_small.
      replace (Z.of_nat j + 1) with (Z.succ (Z.of_nat j)) by lia.
      rewrite Z.pow_succ_r by lia. lia.
Qed.

Lemma level_mask_val :
  (1 <= NUM_LEVELS <= 32)%nat -> level_mask = 2 ^ (Z.of_nat NUM_LEVELS - 1) - 1.
Proof.
  intros H. unfold level_mask.
  destruct NUM_LEVELS as [|n]; [lia|].
  replace (Z.of_nat (S n) - 1) with (Z.of_nat n) by lia.
  assert (Hn : (n < 32)%nat) by lia. clear H.
  do 32 (destruct n as [|n]; [vm_compute; reflexivity|]). lia.
Qed.


Lemma masked_word r :
  (1 <= NUM_LEVELS <= 32)%nat ->
  Z.land (Z.shiftr r 4) level_mask = (r / 16) mod 2 ^ (Z.of_nat NUM_LEVELS - 1).
Proof.
  intros H. rewrite level_mask_val by exact H.
  change (2 ^ (Z.of_nat NUM_LEVELS - 1) - 1) with (Z.pred (2 ^ (Z.of_nat NUM_LEVELS - 1))).
  rewrite <- Z.ones_equiv, Z.land_ones by lia.
  rewrite Z.shiftr_div_pow2 by lia. reflexivity.
Qed.

Lemma get_level_range r :
  (1 <= NUM_LEVELS <= 32)%nat ->
  exists l, get_level r = Some l /\ 1 <= l <= Z.of_nat NUM_LEVELS.
Proof.
  intros H. unfold get_level. rewrite masked_word by exact H.
  set (m := (r / 16) mod 2 ^ (Z.of_nat NUM_LEVELS - 1)).
  assert (Hm : 0 <= m < 2 ^ Z.of_nat (NUM_LEVELS - 1)).
  { replace (Z.of_nat (NUM_LEVELS - 1)) with (Z.of_nat NUM_LEVELS - 1) by lia.
    apply Z.mod_pos_bound. apply Z.pow_pos_nonneg; lia. }
  destruct (trailing_ones_exist _ m Hm) as (j & Hj & Hmod).
  exists (1 + Z.of_nat j). split; [|lia].
  apply get_level_loop_ones; try lia.
Qed.

Lemma get_level_iff r k :
  (1 <= NUM_LEVELS <= 32)%nat -> 1 <= k < Z.of_nat NUM_LEVELS ->
  get_level r = Some k <-> (r / 16) mod 2 ^ k = 2 ^ (k - 1) - 1.
Proof.
  intros H Hk.
  assert (Hdiv : (r / 16) mod 2 ^ k
                 = ((r / 16) mod 2 ^ (Z.of_nat NUM_LEVELS - 1)) mod 2 ^ k).
  { symmetry. apply Z.mod_mod_divide.
    exists (2 ^ (Z.of_nat NUM_LEVELS - 1 - k)).
    rewrite <- Z.pow_add_r by lia. f_equal. lia. }
  unfold get_level. rewrite masked_word by exact H.
  set (m := (r / 16) mod 2 ^ (Z.of_nat NUM_LEVELS - 1)) in *.
  assert (Hm : 0 <= m < 2 ^ Z.of_nat (NUM_LEVELS - 1)).
  { replace (Z.of_nat (NUM_LEVELS - 1)) with (Z.of_nat NUM_LEVELS - 1) by lia.
    apply Z.mod_pos_bound. apply Z.pow_pos_nonneg; lia. }
  rewrite Hdiv. split.
  - intros Hl.
    destruct (trailing_ones_exist _ m Hm) as (j & Hj & Hmod).
    rewrite (get_level_loop_ones j 65 m 1) in Hl; try lia.
    injection Hl as Hl.
    replace k with (Z.of_nat j + 1) by lia.
    replace (Z.of_nat j + 1 - 1) with (Z.of_nat j) by lia. exact Hmod.
  - intros Hmod.
    replace k with (1 + Z.of_nat (Z.to_nat (k - 1))) at 1 by lia.
    apply get_level_loop_ones; try lia.
    replace (Z.of_nat (Z.to_nat (k - 1)) + 1) with k by lia.
    replace (Z.of_nat (Z.to_nat (k - 1))) with (k - 1) by lia. exact Hmod.
Qed.

Lemma level_word_div k j :
  1 <= k -> 0 <= j ->
  level_word k j / 16 = (j / 16) * 2 ^ k + (2 ^ (k - 1) - 1)
  /\ level_word k j mod 16 = j mod 16.
Proof.
  intros Hk Hj. unfold level_word.
  pose proof (Z.mod_pos_bound j 16 ltac:(lia)) as Hs.
  set (a := j / 16 * 2 ^ k + (2 ^ (k - 1) - 1)).
  split.
  - rewrite Z.add_comm, Z.mul_comm, Z.div_add by lia.
    rewrite Z.div_small by lia. lia.
  - rewrite Z.add_comm, Z.mul_comm, Z.mod_add by lia.
    apply Z.mod_small. lia.
Qed.

Lemma level_word_inj k j j' :
  1 <= k -> 0 <= j -> 0 <= j' ->
  level_word k j = level_word k j' -> j = j'.
Proof.
  intros Hk Hj Hj' He.
  destruct (level_word_div k j Hk Hj) as [Hd Hm].
  destruct (level_word_div k j' Hk Hj') as [Hd' Hm'].
  rewrite He in Hd, Hm. rewrite Hd' in Hd. rewrite Hm' in Hm.
  assert (Hp : 0 < 2 ^ k) by (apply Z.pow_pos_nonneg; lia).
  assert (j / 16 = j' / 16) by nia.
  rewrite (Z.div_mod j 16), (Z.div_mod j' 16) by lia. lia.
Qed.

Lemma level_word_iff r k :
  1 <= k <= 60 -> 0 <= r < WORD ->
  (r / 16) mod 2 ^ k = 2 ^ (k - 1) - 1 <->
  exists j, 0 <= j < 2 ^ (64 - k) /\ r = level_word k j.
Proof.
  intros Hk Hr.
  assert (Hp : 0 < 2 ^ k) by (apply Z.pow_pos_nonneg; lia).
  assert (Hp1 : 0 < 2 ^ (k - 1)) by (apply Z.pow_pos_nonneg; lia).
  assert (Hpk : 2 ^ k = 2 * 2 ^ (k - 1)).
  { rewrite <- Z.pow_succ_r by lia. f_equal. lia. }
  assert (H64 : 2 ^ (64 - k) = 16 * 2 ^ (60 - k)).
  { change 16 with (2 ^ 4). rewrite <- Z.pow_add_r by lia. f_equal. lia. }
  assert (H60 : 2 ^ (60 - k) * 2 ^ k = 2 ^ 60).
  { rewrite <- Z.pow_add_r by lia. f_equal. lia. }
  assert (Hp60 : 0 < 2 ^ (60 - k)) by (apply Z.pow_pos_nonneg; lia).
  split.
  - intros Hmod.
    exists (16 * (r / 16 / 2 ^ k) + r mod 16).
    pose proof (Z.mod_pos_bound r 16 ltac:(lia)) as Hs.
    pose proof (Z.div_mod r 16 ltac:(lia)) as Hr16.
    pose proof (Z.div_mod (r / 16) (2 ^ k) ltac:(lia)) as Ha.
    assert (Ha0 : 0 <= r / 16 < 2 ^ 60).
    { split; [apply Z.div_pos; lia|].
      apply Z.div_lt_upper_bound; [lia|]. unfold WORD in Hr. lia. }
    assert (Hq : 0 <= r / 16 / 2 ^ k < 2 ^ (60 - k)).
    { split; [apply Z.div_pos; lia|].
      apply Z.div_lt_upper_bound; [lia|]. lia. }
    split; [lia|].
    unfold level_word.
    set (q := r / 16 / 2 ^ k) in *. set (s := r mod 16) in *.
    assert (Hjd : (16 * q + s) / 16 = q).
    { rewrite Z.add_comm, Z.mul_comm, Z.div_add, Z.div_small by lia. lia. }
    assert (Hjm : (16 * q + s) mod 16 = s).
    { rewrite Z.add_comm, Z.mul_comm, Z.mod_add by lia. apply Z.mod_small. lia. }
    rewrite Hjd, Hjm. rewrite Hmod in Ha. lia.
  - intros (j & Hj & ->).
    destruct (level_word_div k j) as [Hd _]; [lia|lia|].
    rewrite Hd, Z.add_comm, Z.mod_add by lia.
    apply Z.mod_small. lia.
Qed.

End LevelFacts.

(** ** The uniform workload *)

Lemma rand48_step_unstep y :
  0 <= y < RAND48_M -> rand48_step (rand48_unstep y) = y.
Proof.
  intros Hy. unfold rand48_step, rand48_unstep.
  rewrite Z.add_mod, Z.mul_mod_idemp_r by (unfold RAND48_M; lia).
  rewrite <- Z.add_mod by (unfold RAND48_M; lia).
  rewrite Z.mul_assoc.
  replace (RAND48_A * RAND48_A_INV) with (1 + 22050866921 * RAND48_M)
    by (vm_compute; reflexivity).
  replace ((1 + 22050866921 * RAND48_M) * (y - RAND48_C) + RAND48_C)
    with (y + (22050866921 * (y - RAND48_C)) * RAND48_M) by lia.
  rewrite Z.mod_add by (unfold RAND48_M; lia).
  apply Z.mod_small. exact Hy.
Qed.

Lemma rand48_unstep_step s :
  0 <= s < RAND48_M -> rand48_unstep (rand48_step s) = s.
Proof.
  intros Hs. unfold rand48_step, rand48_unstep.
  rewrite <- Z.mul_mod_idemp_r by (unfold RAND48_M; lia).
  rewrite Zminus_mod_idemp_l.
  rewrite Z.mul_mod_idemp_r by (unfold RAND48_M; lia).
  replace (RAND48_A_INV * (RAND48_A * s + RAND48_C - RAND48_C))
    with (RAND48_A * RAND48_A_INV * s) by lia.
  replace (RAND48_A * RAND48_A_INV) with (1 + 22050866921 * RAND48_M)
    by (vm_compute; reflexivity).
  replace ((1 + 22050866921 * RAND48_M) * s)
    with (s + (22050866921 * s) * RAND48_M) by lia.
  rewrite Z.mod_add by (unfold RAND48_M; lia).
  apply Z.mod_small. exact Hs.
Qed.

(** ** Epoch brackets, the marking step and the head swing *)

Lemma forallb_rev {A} (p : A -> bool) (l : list A) : forallb p (rev l) = forallb p l.
Proof.
  induction l as [|a l IH]; [done|]. simpl.
  rewrite forallb_app, IH. simpl. rewrite andb_true_r. apply andb_comm.
Qed.

(** Program-order reading of [step_rel]. *)
Lemma step_rel_events p S st st' :
  step_rel p S st st' ->
  exists evs, events st' = events st ++ evs /\ forallb p evs = true.
Proof.
  intros [(evs & Ht & Hp) _]. exists (rev evs). unfold events.
  rewrite Ht, rev_app_distr, forallb_rev. done.
Qed.

Lemma events_add_event e st : events (add_event e st) = events st ++ [e].
Proof. reflexivity. Qed.

Lemma preserves_events p S {A} (m : M A) st r st' :
  preserves (step_rel p S) m -> m st = (r, st') ->
  exists evs, events st' = events st ++ evs /\ forallb p evs = true.
Proof.
  intros Hm Hr. specialize (Hm st). rewrite Hr in Hm. by apply step_rel_events in Hm.
Qed.

Section Brackets.
Context {cfg : config}.

Local Abbreviation R := (step_rel nonbracket anywhere).

Lemma R_anywhere : forall a f, anywhere a f.
Proof. done. Qed.

Lemma R_events {A} (m : M A) st r st' :
  preserves R m -> m st = (r, st') ->
  exists evs, events st' = events st ++ evs /\ forallb nonbracket evs = true.
Proof.
  intros Hm Hr. specialize (Hm st). rewrite Hr in Hm. by apply step_rel_events in Hm.
Qed.

Lemma set_update_events fuel l k v r st :
  exists body tail,
    events (snd (set_update fuel l k v r st)) = events st ++ EvEnter :: body ++ tail /\
    forallb nonbracket body = true /\
    (tail = [] \/ tail = [EvExit]) /\
    (fst (set_update fuel l k v r st) = Ok tt -> tail = [EvExit]).
Proof.
  unfold set_update, critical_enter, critical_exit.
  rewrite (bind_ok _ _ st tt (add_event EvEnter st)) by reflexivity.
  bind_case u st2 H;
    (eapply R_events in H as (body & He & Hb);
     [|apply preserves_set_update_retry; [apply mem_ok_nonbracket|done]]).
  - exists body, [EvExit]. cbn [log fst snd].
    rewrite events_add_event, He, events_add_event, <- !app_assoc. eauto.
  - exists body, []. cbn [fst snd].
    rewrite He, events_add_event, <- !app_assoc, app_nil_r. split_and!; eauto. done.
Qed.

(** The marking loop is left by [return NULL] only in a build without
    assertions. *)
Lemma removemin_walk_none n x off st st' :
  removemin_walk n x off st = (Ok None, st') -> NDEBUG = true.
Proof.
  revert x off st. induction n as [|n IH]; intros x off st H; [done|].
  simpl in H.
  apply bind_inv in H as (o & st1 & Ho & H).
  apply bind_inv in H as (r & st2 & Hr & H).
  destruct r as [w|].
  - destruct (is_marked_ref w); [|done].
    destruct (_ =? NULL); [done|]. by eapply IH.
  - destruct o as [w|]; [done|].
    apply bind_inv in Hr as (w & st3 & Hw & Hr).
    apply bind_inv in Hr as (u & st4 & Ha & Hr).
    unfold c_assert in Ha. destruct NDEBUG; [done|].
    rewrite bind_eq in Ha. simpl in Ha.
    destruct (w =? END); [done|].
    apply bind_inv in Hr as (w' & st5 & Hm & Hr). done.
Qed.

Lemma set_removemin_events fuel l st :
  exists body tail,
    events (snd (set_removemin fuel l st)) = events st ++ EvEnter :: body ++ tail /\
    forallb nonbracket body = true /\
    (tail = [] \/ tail = [EvExit]) /\
    (forall k, fst (set_removemin fuel l st) = Ok k ->
       tail = [EvExit] \/ NDEBUG = true /\ k = NULL).
Proof.
  assert (Hopen : forall (r : res Z) st' evs,
             events st' = events (add_event EvEnter st) ++ evs ->
             forallb nonbracket evs = true ->
             (forall k, r = Ok k -> NDEBUG = true /\ k = NULL) ->
             exists body tail,
               events (snd (r, st')) = events st ++ EvEnter :: body ++ tail /\
               forallb nonbracket body = true /\
               (tail = [] \/ tail = [EvExit]) /\
               (forall k, fst (r, st') = Ok k ->
                  tail = [EvExit] \/ NDEBUG = true /\ k = NULL)).
  { intros r st' evs He Hb Hr. exists evs, []. cbn [fst snd].
    rewrite He, events_add_event, <- !app_assoc, app_nil_r. split_and!; eauto. }
  unfold set_removemin, removemin_finish, critical_enter, critical_exit.
  rewrite (bind_ok _ _ st tt (add_event EvEnter st)) by reflexivity.
  bind_case x st1 H1;
    (eapply R_events in H1 as (ev1 & He1 & Hb1); [|by pres]);
    [|by eapply Hopen].
  bind_case r st2 H2;
    (pose proof H2 as Hwalk; eapply R_events in H2 as (ev2 & He2 & Hb2);
     [|apply preserves_removemin_walk; [apply mem_ok_nonbracket|done]]);
    rewrite He1, <- app_assoc in He2;
    assert (Hb12 : forallb nonbracket (ev1 ++ ev2) = true)
      by (by rewrite forallb_app, Hb1, Hb2);
    [|by eapply Hopen].
  destruct r as [[x_next offset]|];
    [|eapply Hopen; eauto; intros k [= <-]; split; [by eapply removemin_walk_none|done]].
  bind_case k st3 H3;
    (eapply R_events in H3 as (ev3 & He3 & Hb3); [|by pres]);
    rewrite He2, <- app_assoc in He3;
    assert (Hb123 : forallb nonbracket ((ev1 ++ ev2) ++ ev3) = true)
      by (by rewrite forallb_app, Hb12, Hb3);
    [|by eapply Hopen].
  bind_case u st4 H4;
    (eapply R_events in H4 as (ev4 & He4 & Hb4);
     [|apply preserves_removemin_cleanup; [apply mem_ok_nonbracket|done]]);
    rewrite He3, <- app_assoc in He4;
    assert (Hb1234 : forallb nonbracket (((ev1 ++ ev2) ++ ev3) ++ ev4) = true)
      by (by rewrite forallb_app, Hb123, Hb4);
    [|by eapply Hopen].
  exists (((ev1 ++ ev2) ++ ev3) ++ ev4), [EvExit].
  change ((log EvExit ;;; ret k) st4) with (Ok k, add_event EvExit st4).
  cbn [fst snd].
  rewrite events_add_event, He4, events_add_event, <- !app_assoc.
  split_and!; [reflexivity|by rewrite !app_assoc|eauto..].
Qed.

Lemma set_remove_events fuel l key st :
  exists body,
    events (snd (set_remove fuel l key st)) = events st ++ body /\
    forallb nonbracket body = true.
Proof.
  destruct (set_remove fuel l key st) as [r st'] eqn:H.
  eapply R_events in H; [exact H|].
  apply preserves_set_remove; [apply mem_ok_nonbracket|done].
Qed.

End Brackets.

Lemma cells_eq_heap st st' :
  (forall a f, cell st' a f = cell st a f) -> heap st' = heap st.
Proof.
  intros H. apply map_eq. intros a.
  pose proof (H a FK) as Hk. pose proof (H a FLevel) as Hl.
  pose proof (H a FV) as Hv.
  assert (Hn : forall i, cell st' a (FNext i) = cell st a (FNext i))
    by (intros i; apply H).
  unfold cell in Hk, Hl, Hv, Hn.
  destruct (heap st' !! a) as [[k' l' v' nx']|], (heap st !! a) as [[k l v nx]|];
    simpl in *; try done.
  simplify_eq. do 2 f_equal. apply list_eq. exact Hn.
Qed.

(** A computation that writes nowhere leaves the heap as it is. *)
Lemma readonly_heap {A} (m : M A) st r st' :
  preserves (step_rel any_event nowhere) m -> m st = (r, st') -> heap st' = heap st.
Proof.
  intros Hm Hr. specialize (Hm st). rewrite Hr in Hm. destruct Hm as [_ Hc].
  apply cells_eq_heap. intros a f. apply Hc. intros [].
Qed.

Lemma load_next_inv n i st w st' :
  load_next n i st = (Ok w, st') ->
  exists nd, heap st !! n = Some nd /\ n_next nd !! i = Some w /\
             st' = add_event (EvRead n (FNext i)) st.
Proof.
  rewrite load_next_eq. destruct (heap st !! n) as [nd|]; [|done].
  destruct (n_next nd !! i) eqn:Hi; [|done]. intros [= <- <-]. eauto.
Qed.

Lemma FAA_inv n i d st w st' :
  FAA n i d st = (Ok w, st') ->
  exists nd, heap st !! n = Some nd /\ n_next nd !! i = Some w /\
             st' = add_event (EvFAA n i d)
                     (with_heap (<[n := set_next nd i (to_ulong (w + d))]> (heap st)) st).
Proof.
  rewrite FAA_eq. destruct (heap st !! n) as [nd|]; [|done].
  destruct (n_next nd !! i) eqn:Hi; [|done]. intros [= <- <-]. eauto.
Qed.

Section Marking.
Context {cfg : config}.

Lemma c_assert_ret_inv b st u st' :
  c_assert (ret b) st = (Ok u, st') -> st' = st.
Proof.
  unfold c_assert. destruct NDEBUG; [by intros [= _ <-]|].
  rewrite bind_eq. simpl. destruct b; [by intros [= _ <-]|done].
Qed.

Lemma removemin_optim_inv x st w st' :
  removemin_optim x st = (Ok (Some w), st') ->
  is_marked_ref w = true /\ heap st' = heap st.
Proof.
  intros H. split.
  2:{ eapply readonly_heap; [|exact H]. by pres. }
  unfold removemin_optim in H. destruct OPTIM; [|done].
  apply bind_inv in H as (lv & st1 & H1 & H).
  destruct (_ >? 2); [|done].
  apply bind_inv in H as (a & st2 & H2 & H).
  apply bind_inv in H as (w0 & st3 & H3 & H).
  destruct (is_marked_ref w0) eqn:Hw0; [|done].
  apply bind_inv in H as (a' & st4 & H4 & H).
  apply bind_inv in H as (w1 & st5 & H5 & H).
  injection H as <- <-.
  apply load_next_inv in H2 as (nd2 & Hn2 & Hi2 & ->).
  apply load_next_inv in H3 as (nd3 & Hn3 & Hi3 & ->).
  apply load_next_inv in H4 as (nd4 & Hn4 & Hi4 & ->).
  apply load_next_inv in H5 as (nd5 & Hn5 & Hi5 & ->).
  simpl in *. simplify_eq. done.
Qed.

(** The marking step of [set_removemin]: when the loop is left with an
    unmarked [v], the one change to the heap is that the bottom pointer
    of some node [p], which held [v], has been incremented. *)
Lemma removemin_walk_mark n x off st v off' st' :
  removemin_walk n x off st = (Ok (Some (v, off')), st') ->
  is_marked_ref v = false ->
  exists p nd,
    heap st !! p = Some nd /\ n_next nd !! 0%nat = Some v /\
    heap st' = <[p := set_next nd 0 (to_ulong (v + 1))]> (heap st).
Proof.
  revert x off st. induction n as [|n IH]; intros x off st H Hv; [done|].
  simpl in H.
  apply bind_inv in H as (o & st1 & Ho & H).
  apply bind_inv in H as (r & st2 & Hr & H).
  assert (Hcont : forall w, r = Some w -> is_marked_ref w = true -> heap st2 = heap st ->
            exists p nd,
              heap st !! p = Some nd /\ n_next nd !! 0%nat = Some v /\
              heap st' = <[p := set_next nd 0 (to_ulong (v + 1))]> (heap st)).
  { intros w -> Hw Hh. rewrite Hw in H.
    destruct (_ =? NULL); [injection H as <- _ _; congruence|].
    apply IH in H as (p & nd & Hp & Hi & Hh'); [|done].
    rewrite Hh in Hp, Hh'. eauto. }
  destruct o as [w|].
  - injection Hr as <- <-.
    apply removemin_optim_inv in Ho as [Hw Hh]. by eapply Hcont.
  - assert (Hh1 : heap st1 = heap st) by (eapply readonly_heap; [|exact Ho]; by pres).
    apply bind_inv in Hr as (w & st3 & Hw & Hr).
    apply load_next_inv in Hw as (nd & Hn & Hi & ->).
    apply bind_inv in Hr as (u & st4 & Ha & Hr).
    apply c_assert_ret_inv in Ha as ->.
    destruct (w =? END); [injection Hr as <- <-; done|].
    apply bind_inv in Hr as (w' & st5 & Hm & Hr).
    injection Hr as <- <-.
    unfold removemin_mark in Hm.
    destruct (is_marked_ref w) eqn:Hmw; simpl in Hm.
    + injection Hm as <- <-. eapply Hcont; [done..|]. simpl. done.
    + apply FAA_inv in Hm as (nd' & Hn' & Hi' & ->).
      simpl in Hn', Hi'. rewrite Hh1 in Hn'.
      assert (w' = w) as -> by congruence.
      rewrite Hmw in H. injection H as <- <- <-.
      exists x, nd'. simpl. rewrite Hh1. done.
Qed.

Lemma is_marked_ref_odd w : is_marked_ref w = Z.odd w.
Proof.
  unfold is_marked_ref. rewrite land_1_mod, Zmod_odd.
  by destruct (Z.odd w).
Qed.

Lemma is_marked_faa w : is_marked_ref w = false -> is_marked_ref (to_ulong (w + 1)) = true.
Proof.
  unfold is_marked_ref, to_ulong. rewrite !land_1_mod.
  intros Hw. apply negb_false_iff, Z.eqb_eq in Hw.
  rewrite Z.mod_mod_divide by (exists (WORD / 2); reflexivity).
  rewrite Z.add_mod, Hw by lia. reflexivity.
Qed.

Lemma is_marked_get_marked x : is_marked_ref (get_marked_ref x) = true.
Proof.
  unfold is_marked_ref, get_marked_ref.
  rewrite Z.land_lor_distr_l. change (Z.land 1 1) with 1.
  apply negb_true_iff, Z.eqb_neq. intros H.
  apply Z.lor_eq_0_iff in H as [_ H]. done.
Qed.

Lemma cell_insert st a nd b f :
  cell (with_heap (<[a := nd]> (heap st)) st) b f =
  if decide (a = b) then field_of nd f else cell st b f.
Proof.
  unfold cell. simpl. destruct (decide (a = b)) as [->|Hne].
  - by rewrite lookup_insert_eq.
  - by rewrite lookup_insert_ne.
Qed.

Lemma cell_heap_eq st st' a f : heap st' = heap st -> cell st' a f = cell st a f.
Proof. unfold cell. by intros ->. Qed.

Lemma load_k_inv n st w st' :
  load_k n st = (Ok w, st') ->
  exists nd, heap st !! n = Some nd /\ w = n_k nd /\ st' = add_event (EvRead n FK) st.
Proof.
  rewrite load_k_eq. destruct (heap st !! n) as [nd|]; [|done].
  intros [= <- <-]. eauto.
Qed.

Lemma removemin_save_inv v off st k st' :
  removemin_save v off st = (Ok k, st') ->
  heap st' = heap st /\ cell st v FK = Some k /\
  (NDEBUG = true \/ is_marked_ref v = false).
Proof.
  intros H. split; [eapply readonly_heap; [|exact H]; by pres|].
  unfold removemin_save in H.
  apply bind_inv in H as (u & st1 & Ha & H).
  assert (Hst1 : st1 = st) by (by eapply c_assert_ret_inv). subst st1.
  apply bind_inv in H as (t & st2 & Ht & H). injection Ht as <- <-.
  apply bind_inv in H as (u' & st3 & Ht & H). injection Ht as <- <-.
  apply bind_inv in H as (val & st4 & Hv & H).
  assert (Hh4 : heap st4 = heap st).
  { eapply (readonly_heap (load_v v)) in Hv; [exact Hv|by pres]. }
  apply load_k_inv in H as (vd & Hvd & -> & _).
  split.
  - unfold cell. rewrite <- Hh4, Hvd. done.
  - unfold c_assert in Ha. destruct NDEBUG; [by left|right].
    rewrite bind_eq in Ha. simpl in Ha. by destruct (is_marked_ref v).
Qed.

Lemma FAO_inv n i d st w st' :
  FAO n i d st = (Ok w, st') ->
  exists nd, heap st !! n = Some nd /\ n_next nd !! i = Some w /\
             st' = add_event (EvFAO n i d)
                     (with_heap (<[n := set_next nd i (Z.lor w d)]> (heap st)) st).
Proof.
  rewrite FAO_eq. destruct (heap st !! n) as [nd|]; [|done].
  destruct (n_next nd !! i) eqn:Hi; [|done]. intros [= <- <-]. eauto.
Qed.

Lemma set_remove_marks_pointer fuel l key st node st' :
  set_remove fuel l key st = (Ok node, st') ->
  exists p v,
    cell st p (FNext 0) = Some v /\
    cell st' p (FNext 0) = Some (get_marked_ref v) /\
    node = (if is_marked_ref v then NULL else v) /\
    (forall a f, (a, f) <> (p, FNext 0) -> cell st' a f = cell st a f).
Proof.
  intros H. unfold set_remove in H.
  apply bind_inv in H as (s & st1 & Hs & H).
  assert (Hh1 : heap st1 = heap st).
  { eapply readonly_heap in Hs; [exact Hs|by pres]. }
  apply bind_inv in H as (v & st2 & Hf & H).
  apply FAO_inv in Hf as (nd & Hp & Hi & ->).
  rewrite Hh1 in Hp.
  exists (s.1.1), v. split_and!.
  - unfold cell. by rewrite Hp.
  - assert (st' = add_event (EvFAO s.1.1 0 1)
                    (with_heap (<[s.1.1:=set_next nd 0 (Z.lor v 1)]> (heap st1)) st1)) as ->
      by (destruct (is_marked_ref v); by injection H as _ <-).
    unfold cell. simpl. rewrite lookup_insert_eq. simpl.
    apply list_lookup_insert_eq. by eapply lookup_lt_Some.
  - destruct (is_marked_ref v); by injection H as <- _.
  - intros a f Hne.
    assert (st' = add_event (EvFAO s.1.1 0 1)
                    (with_heap (<[s.1.1:=set_next nd 0 (Z.lor v 1)]> (heap st1)) st1)) as ->
      by (destruct (is_marked_ref v); by injection H as _ <-).
    unfold cell. simpl. rewrite Hh1.
    destruct (decide (s.1.1 = a)) as [<-|Hna].
    + rewrite lookup_insert_eq, Hp. apply field_of_set_next. congruence.
    + by rewrite lookup_insert_ne.
Qed.

End Marking.

Section HeadSwingFacts.
Context {cfg : config}.

Lemma c_assert_true st : c_assert (ret true) st = (Ok tt, st).
Proof. unfold c_assert. by destruct NDEBUG. Qed.

Lemma quiet_not_cas h evs :
  forallb (quiet h) evs = true -> forallb (fun e => negb (cas_at0 h e)) evs = true.
Proof.
  induction evs as [|e evs IH]; [done|]. simpl.
  intros [He Hevs]%andb_true_iff. rewrite IH by done.
  unfold quiet in He. apply andb_true_iff in He as [_ ->]. done.
Qed.

(** A thread that loses the race for the head pointer leaves the heap
    as it is. *)
Lemma head_swing_loser fuel l x obs_hp st hd c :
  heap st !! head l = Some hd -> n_next hd !! 0%nat = Some c -> c <> obs_hp ->
  head_swing fuel l x obs_hp st
  = (Ok tt, add_event (EvCAS (head l) 0 obs_hp (get_marked_ref x)) st).
Proof.
  intros Hhd Hc Hne. unfold head_swing.
  rewrite bind_eq, CASPO_eq, Hhd, Hc.
  assert ((c =? obs_hp) = false) as -> by (by apply Z.eqb_neq).
  assert ((obs_hp =? c) = false) as -> by (apply Z.eqb_neq; congruence).
  reflexivity.
Qed.

(** The winner first swings the bottom pointer; what follows attempts no
    further compare-and-swap on it. *)
Lemma head_swing_winner fuel l x obs_hp st hd :
  heap st !! head l = Some hd -> n_next hd !! 0%nat = Some obs_hp ->
  exists rest,
    events (snd (head_swing fuel l x obs_hp st))
    = events st ++ EvCAS (head l) 0 obs_hp (get_marked_ref x) :: rest /\
    forallb (quiet (head l)) rest = true.
Proof.
  intros Hhd Hc. unfold head_swing.
  rewrite bind_eq, CASPO_eq, Hhd, Hc, !Z.eqb_refl.
  match goal with |- context [head_swing_levels ?f ?l ?x ?o ?s] =>
    destruct (head_swing_levels f l x o s) as [r st'] eqn:Hrun end.
  eapply preserves_events in Hrun as (rest & He & Hq);
    [|exact (preserves_head_swing_levels (quiet (head l)) (upper_of (head l)) l
               (ev_ok_quiet _) (upper_of_intro (head l)) _ _ _)].
  exists rest. cbn [snd]. rewrite He, events_add_event, <- app_assoc. done.
Qed.

Lemma removemin_save_run v offset st vd :
  heap st !! v = Some vd -> is_marked_ref v = false ->
  removemin_save v offset st
  = (Ok (n_k vd),
     add_event (EvRead v FK) (add_event (EvRead v FV)
       (State (heap st) (brk st) (freed st)
          (Tls v (old_obs_hp (tl st)) (to_int (old_offset (tl st) + offset)))
          (trace st)))).
Proof.
  intros Hv Hm. unfold removemin_save. rewrite Hm. simpl negb.
  rewrite (bind_ok _ _ _ _ _ (c_assert_true st)).
  rewrite bind_eq. simpl. rewrite bind_eq. simpl.
  rewrite bind_eq, load_v_eq. simpl. rewrite Hv.
  rewrite load_k_eq. simpl. rewrite Hv. reflexivity.
Qed.

(** The part of [set_removemin] that follows the marking loop, run in a
    state where the victim [v] and the head can be read. *)
Lemma removemin_finish_swing fuel l v offset st vd hd c :
  heap st !! v = Some vd -> is_marked_ref v = false ->
  heap st !! head l = Some hd -> n_next hd !! 0%nat = Some c ->
  let st' := snd (removemin_finish fuel l v offset st) in
  let off := to_int (old_offset (tl st) + offset) in
  let cas := EvCAS (head l) 0 (old_obs_hp (tl st)) (get_marked_ref v) in
  if (max_offset l <? off) && (c =? old_obs_hp (tl st))
  then
    exists rest,
      events st' = events st ++
        [EvRead v FV; EvRead v FK; EvRead (head l) (FNext 0); cas] ++ rest /\
      forallb (fun e => negb (cas_at0 (head l) e)) rest = true
  else
    events st' = events st ++
      [EvRead v FV; EvRead v FK] ++
      (if max_offset l <? off then [EvRead (head l) (FNext 0)] else []) ++ [EvExit] /\
    heap st' = heap st.
Proof.
  intros Hv Hm Hhd Hc. cbv zeta.
  unfold removemin_finish.
  rewrite (bind_ok _ _ _ _ _ (removemin_save_run v offset st vd Hv Hm)).
  set (off := to_int (old_offset (tl st) + offset)).
  set (st1 := add_event _ _).
  assert (Hev1 : events st1 = events st ++ [EvRead v FV; EvRead v FK]).
  { unfold st1, events. simpl. by rewrite <- app_assoc. }
  unfold removemin_cleanup. rewrite bind_eq.
  rewrite (bind_ok _ _ st1 (tl st1) st1) by reflexivity.
  change (old_offset (tl st1)) with off.
  change (old_obs_hp (tl st1)) with (old_obs_hp (tl st)).
  rewrite (Z.leb_antisym (max_offset l) off).
  destruct (max_offset l <? off) eqn:Hoff; simpl negb; cbn [andb].
  - rewrite (bind_eq (bind _ _)), (bind_eq (load_next _ _)), load_next_eq.
    change (heap st1) with (heap st). rewrite Hhd, Hc. cbn [ret].
    set (st2 := add_event _ st1).
    assert (Hev2 : events st2 = events st ++
              [EvRead v FV; EvRead v FK; EvRead (head l) (FNext 0)]).
    { unfold st2. rewrite events_add_event, Hev1, <- app_assoc. done. }
    destruct (c =? old_obs_hp (tl st)) eqn:Hceq.
    + apply Z.eqb_eq in Hceq. subst c.
      destruct (head_swing_winner fuel l v (old_obs_hp (tl st)) st2 hd Hhd Hc)
        as (rest & He & Hq).
      apply quiet_not_cas in Hq.
      destruct (head_swing fuel l v (old_obs_hp (tl st)) st2) as [[[]|e] st3];
        cbn [snd] in *.
      * exists (rest ++ [EvExit]). unfold critical_exit.
        rewrite bind_eq. cbn [log ret snd].
        rewrite events_add_event, He, Hev2, <- !app_assoc. simpl.
        split; [done|]. rewrite forallb_app, Hq. done.
      * exists rest. rewrite He, Hev2, <- !app_assoc. done.
    + unfold critical_exit. cbn [ret bind log snd].
      rewrite events_add_event, Hev2, <- !app_assoc. done.
  - unfold critical_exit. cbn [ret bind log snd].
    rewrite events_add_event, Hev1, <- !app_assoc. done.
Qed.

End HeadSwingFacts.

(** ** The predecessor search on a well-formed skip list *)

Section SearchSpec.
Context {cfg : config}.

Lemma stops_mono k bef a b : a <= b -> stops k bef b = false -> stops k bef a = false.
Proof.
  unfold stops. intros Hab H. apply orb_false_iff in H as [H1 H2].
  apply orb_false_iff. split; [lia|].
  destruct bef; [|done]. simpl in *. lia.
Qed.

Lemma chain_suffix h i x A y B t :
  chain h i x (A ++ y :: B) t -> chain h i y B t.
Proof.
  revert x. induction A as [|a A IH]; intros x; simpl.
  - by intros [_ H].
  - intros [_ H]. by eapply IH.
Qed.

Lemma walk_list_app h k bef x A B t :
  Forall (fun a => stops k bef (key_at h a) = false) A ->
  walk_list h k bef x (A ++ B) t = walk_list h k bef (default x (last A)) B t.
Proof.
  revert x. induction A as [|a A IH]; intros x HA; [done|].
  inversion HA as [|? ? Ha HA']; subst. cbn [app walk_list]. rewrite Ha.
  rewrite IH by done. rewrite last_cons. by destruct (last A).
Qed.

Lemma walk_list_fst h k bef x B t :
  (walk_list h k bef x B t).1 = x \/
  ((walk_list h k bef x B t).1 ∈ B /\
   stops k bef (key_at h (walk_list h k bef x B t).1) = false).
Proof.
  revert x. induction B as [|b B IH]; intros x; [by left|]. simpl.
  destruct (stops k bef (key_at h b)) eqn:Hb; [by left|].
  destruct (IH b) as [->|[Hin Hs]]; right.
  - split; [by left|done].
  - split; [by right|done].
Qed.

Lemma sorted_prefix_le (R : Z -> Z -> Prop) A x B :
  StronglySorted R (A ++ x :: B) -> Forall (fun a => R a x) A.
Proof.
  induction A as [|a A IH]; [constructor|]. simpl. intros H.
  apply StronglySorted_inv in H as [H Ha]. constructor; [|by apply IH].
  rewrite Forall_forall in Ha. apply Ha. apply elem_of_app. right. by left.
Qed.

(** From the node where the level above was left, the walk over the
    rest of a level ends where the walk over the whole level ends. *)
Lemma walk_list_resume h l t L k bef i :
  skiplist h l t L -> (i < NUM_LEVELS)%nat ->
  forall x, x = (walk_list h k bef (head l) (L (S i)) t).1 ->
  exists B, chain h i x B t /\ (length B <= length (L i))%nat /\
            (forall a, a ∈ B -> a ∈ L i) /\
            walk_list h k bef x B t = walk_list h k bef (head l) (L i) t.
Proof.
  intros HSL Hi x Hxdef.
  destruct (walk_list_fst h k bef (head l) (L (S i)) t) as [Hx|[Hin Hs]];
    rewrite <- Hxdef in *.
  - exists (L i). rewrite Hx. split_and!; [by apply (sl_chain _ _ _ _ HSL)|lia|done|done].
  - apply (sl_sub _ _ _ _ HSL) in Hin; [|done].
    apply list_elem_of_split in Hin as (A & B & HL).
    exists B. split_and!.
    + eapply chain_suffix. rewrite <- HL. by apply (sl_chain _ _ _ _ HSL).
    + rewrite HL, length_app. simpl. lia.
    + intros a Ha. rewrite HL. apply elem_of_app. right. by right.
    + rewrite HL.
      replace (A ++ x :: B) with ((A ++ [x]) ++ B) by (by rewrite <- app_assoc).
      rewrite walk_list_app.
      * by rewrite last_snoc.
      * apply Forall_app. split; [|by constructor].
        pose proof (sl_sorted _ _ _ _ HSL i Hi) as Hsort. rewrite HL in Hsort.
        apply sorted_prefix_le in Hsort.
        eapply Forall_impl; [exact Hsort|]. intros a Ha. simpl in Ha.
        by eapply stops_mono.
Qed.

Lemma next_at_load h x i y st :
  heap st = h -> next_at h x i = Some y ->
  exists w, load_next x i st = (Ok w, add_event (EvRead x (FNext i)) st) /\
            get_unmarked_ref w = y.
Proof.
  intros <- Hn. unfold next_at in Hn. rewrite load_next_eq.
  destruct (heap st !! x) as [nd|]; [|done].
  destruct (n_next nd !! i) as [w|]; [|done].
  injection Hn as <-. eauto.
Qed.

(** The walk of the code at one level follows [walk_list]. *)
Lemma wsp_walk_chain h k bef i t B :
  h !! END = None -> is_Some (h !! t) -> stops k bef (key_at h t) = true ->
  forall fuel x st,
    heap st = h -> chain h i x B t ->
    (forall a, a ∈ B -> is_Some (h !! a)) ->
    (length B < fuel)%nat ->
    exists st', wsp_walk fuel k bef i x st = (Ok (walk_list h k bef x B t), st') /\
                heap st' = h.
Proof.
  intros Hend Ht Hstop. induction B as [|b B IH]; intros fuel x st Hh Hc HB Hf.
  - destruct fuel as [|fuel]; [simpl in Hf; lia|]. simpl in *.
    destruct (next_at_load _ _ _ _ _ Hh Hc) as (w & Hw & Hu).
    rewrite (bind_ok _ _ _ _ _ Hw), Hu.
    assert ((t =? END) = false) as ->.
    { apply Z.eqb_neq. intros ->. rewrite Hend in Ht. by destruct Ht. }
    rewrite (bind_ok _ _ _ _ _ (c_assert_true _)).
    rewrite bind_eq, load_k_eq. simpl. rewrite Hh.
    destruct Ht as [nd Hnd]. rewrite Hnd.
    assert (Hk : key_at h t = n_k nd) by (unfold key_at; by rewrite Hnd).
    rewrite Hk in Hstop. unfold stops in Hstop. rewrite Hstop.
    eexists. split; [reflexivity|done].
  - destruct fuel as [|fuel]; [simpl in Hf; lia|]. simpl in Hc. destruct Hc as [Hc Hrest].
    cbn [wsp_walk].
    destruct (next_at_load _ _ _ _ _ Hh Hc) as (w & Hw & Hu).
    rewrite (bind_ok _ _ _ _ _ Hw), Hu.
    destruct (HB b ltac:(by left)) as [nd Hnd].
    assert ((b =? END) = false) as ->.
    { apply Z.eqb_neq. intros ->. by rewrite Hend in Hnd. }
    rewrite (bind_ok _ _ _ _ _ (c_assert_true _)).
    rewrite bind_eq, load_k_eq. simpl. rewrite Hh, Hnd.
    assert (Hk : key_at h b = n_k nd) by (unfold key_at; by rewrite Hnd).
    rewrite Hk. unfold stops.
    destruct ((n_k nd >? k) || bef && (n_k nd =? k)).
    + eexists. split; [reflexivity|done].
    + apply IH; [done|done| |simpl in Hf; lia].
      intros a Ha. apply HB. by right.
Qed.

Lemma wsp_levels_spec h l t L k bef fuel :
  skiplist h l t L -> stops k bef (key_at h t) = true ->
  (forall i, (i < NUM_LEVELS)%nat -> (length (L i) < fuel)%nat) ->
  forall n x pa na st,
    (n <= NUM_LEVELS)%nat -> heap st = h ->
    x = (walk_list h k bef (head l) (L n) t).1 ->
    exists pa' na' st',
      wsp_levels fuel k bef n x (Some pa) (Some na) st
      = (Ok ((walk_list h k bef (head l) (L 0%nat) t).1, Some pa', Some na'), st') /\
      heap st' = h /\ searched h l t L k bef n pa na pa' na'.
Proof.
  intros HSL Hstop Hfuel. induction n as [|i IH]; intros x pa na st Hn Hh Hx.
  - exists pa, na, st. simpl. rewrite Hx. split_and!; [done|done|].
    unfold searched. split_and!; [done|done|].
    intros j. split; [lia|done].
  - cbn [wsp_levels].
    destruct (walk_list_resume h l t L k bef i HSL ltac:(lia) x Hx)
      as (B & Hc & Hlen & Hsub & Hw).
    destruct (wsp_walk_chain h k bef i t B (sl_end _ _ _ _ HSL) (sl_tail _ _ _ _ HSL)
                Hstop fuel x st Hh Hc) as (st1 & Hrun & Hh1).
    { intros a Ha. eapply (sl_nodes _ _ _ _ HSL i); [lia|by apply Hsub]. }
    { specialize (Hfuel i ltac:(lia)). lia. }
    rewrite (bind_ok _ _ _ _ _ Hrun), Hw. cbn [opt_store].
    destruct (IH (walk_list h k bef (head l) (L i) t).1
                (<[i := (walk_list h k bef (head l) (L i) t).1]> pa)
                (<[i := (walk_list h k bef (head l) (L i) t).2]> na)
                st1 ltac:(lia) Hh1 eq_refl)
      as (pa' & na' & st' & Hrun' & Hh' & Hlp & Hln & Hs).
    exists pa', na', st'. split_and!; [done|done|].
    unfold searched. split_and!.
    + by rewrite Hlp, length_insert.
    + by rewrite Hln, length_insert.
    + intros j. split.
      * intros Hj. destruct (decide (j = i)) as [->|Hne].
        -- destruct (Hs i) as [_ [-> ->]]; [lia|].
           destruct (decide (i < length pa)%nat).
           ++ rewrite list_lookup_insert_eq by done.
              destruct (lookup_lt_is_Some_2 pa i) as [? ->]; [done|]. simpl.
              destruct (decide (i < length na)%nat).
              ** rewrite list_lookup_insert_eq by done.
                 destruct (lookup_lt_is_Some_2 na i) as [? ->]; done.
              ** rewrite list_insert_ge by lia.
                 rewrite (lookup_ge_None_2 na i) by lia. done.
           ++ rewrite list_insert_ge by lia.
              rewrite (lookup_ge_None_2 pa i) by lia. simpl.
              destruct (decide (i < length na)%nat).
              ** rewrite list_lookup_insert_eq by done.
                 destruct (lookup_lt_is_Some_2 na i) as [? ->]; done.
              ** rewrite list_insert_ge by lia.
                 rewrite (lookup_ge_None_2 na i) by lia. done.
        -- destruct (Hs j) as [[-> ->] _]; [lia|].
           by rewrite !list_lookup_insert_ne.
      * intros Hj. destruct (Hs j) as [_ [-> ->]]; [lia|].
        rewrite !list_lookup_insert_ne by lia. done.
Qed.

End SearchSpec.

(** ** The claims about deletion, the head swing and the brackets *)


(** C10: [set_remove] logs no [critical_enter] and no [critical_exit]:
    its traversal and its fetch-and-or, the last access of a call that
    returns, lie outside any bracket of its own; [set_update] and
    [set_removemin] enter first, exit last if at all, and log no bracket
    in between; a call of theirs that returns has exited, but for the
    [return NULL] of [set_removemin] at the end of the list, which only
    a build without assertions reaches. *)
Theorem set_remove_outside_critical_section {cfg : config} (fuel : nat) (l : set_t)
    (key k v r : Z) (st : state) :
  (exists body,
      events (snd (set_remove fuel l key st)) = events st ++ body /\
      forallb nonbracket body = true /\
      (forall node, fst (set_remove fuel l key st) = Ok node ->
         exists x reads, body = reads ++ [EvFAO x 0 1])) /\
  (exists body tail,
      events (snd (set_update fuel l k v r st)) = events st ++ EvEnter :: body ++ tail /\
      forallb nonbracket body = true /\
      (tail = [] \/ tail = [EvExit]) /\
      (fst (set_update fuel l k v r st) = Ok tt -> tail = [EvExit])) /\
  (exists body tail,
      events (snd (set_removemin fuel l st)) = events st ++ EvEnter :: body ++ tail /\
      forallb nonbracket body = true /\
      (tail = [] \/ tail = [EvExit]) /\
      (forall k, fst (set_removemin fuel l st) = Ok k ->
         tail = [EvExit] \/ NDEBUG = true /\ k = NULL)).
Proof.
  split_and!.
  - destruct (set_remove_events fuel l key st) as (body & He & Hb).
    exists body. split_and!; [done|done|].
    intros node Hok. unfold set_remove in *.
    destruct (bind_run (weak_search_predecessors fuel l key None None true)
                (fun s => node <- FAO (fst (fst s)) 0 1 ;;
                          if is_marked_ref node then ret NULL else ret node) st)
      as [(s & st1 & Hs & Hrun)|(e & st1 & Hs & Hrun)]; rewrite Hrun in *; [|done].
    eapply (preserves_events nonbracket anywhere) in Hs as (reads & Hr & _); [|by pres].
    rewrite bind_eq, FAO_eq in He, Hok.
    destruct (heap st1 !! s.1.1) as [nd|]; [|done].
    destruct (n_next nd !! 0%nat) as [w|]; [|done].
    exists s.1.1, reads.
    assert (Hev : events (add_event (EvFAO s.1.1 0 1)
                    (with_heap (<[s.1.1:=set_next nd 0 (Z.lor w 1)]> (heap st1)) st1))
                  = events st ++ reads ++ [EvFAO s.1.1 0 1]).
    { rewrite events_add_event. change (events (with_heap _ st1)) with (events st1).
      by rewrite Hr, <- app_assoc. }
    destruct (is_marked_ref w); cbn [ret snd] in He; rewrite Hev in He;
      by apply app_inv_head in He.
  - apply set_update_events.
  - apply set_removemin_events.
Qed.

(** ** The level distribution and the uniform workload *)

(** C8: [get_level] returns a level between 1 and [NUM_LEVELS] for every
    random word, and for each level [k] below the cap the 64-bit words
    mapped to [k] are exactly the [2^(64-k)] words [level_word k j],
    that is the fraction [2^-k] of all words. *)
Theorem get_level_geometric {cfg : config} :
  (1 <= NUM_LEVELS <= 32)%nat ->
  (forall r, exists l, get_level r = Some l /\ 1 <= l <= Z.of_nat NUM_LEVELS) /\
  (forall k, 1 <= k < Z.of_nat NUM_LEVELS ->
     (forall r, 0 <= r < WORD ->
        (get_level r = Some k <->
         exists j, 0 <= j < 2 ^ (64 - k) /\ r = level_word k j)) /\
     (forall j j', 0 <= j -> 0 <= j' -> level_word k j = level_word k j' -> j = j') /\
     2 ^ (64 - k) * 2 ^ k = WORD).
Proof.
  intros HN. split.
  - intros r. by apply get_level_range.
  - intros k Hk. split_and!.
    + intros r Hr. rewrite get_level_iff by done. apply level_word_iff; lia.
    + intros j j' Hj Hj'. apply level_word_inj; lia.
    + rewrite <- Z.pow_add_r by lia. replace (64 - k + k) with 64 by lia. reflexivity.
Qed.

Lemma get_level_geometric_witness :
  (1 <= 32 <= 32)%nat /\
  (forall r, exists l, get_level (cfg:=cfg32) r = Some l /\ 1 <= l <= 32) /\
  (forall k, 1 <= k < 32 ->
     (forall r, 0 <= r < WORD ->
        (get_level (cfg:=cfg32) r = Some k <->
         exists j, 0 <= j < 2 ^ (64 - k) /\ r = level_word k j)) /\
     (forall j j', 0 <= j -> 0 <= j' -> level_word k j = level_word k j' -> j = j') /\
     2 ^ (64 - k) * 2 ^ k = WORD).
Proof.
  split; [lia|]. apply (get_level_geometric (cfg:=cfg32)). simpl. lia.
Defined.

Lemma work_uni_eq s :
  work_uni s =
  if rand48_step s <? 2 ^ 47
  then (OpInsert (1 + rand48_step (rand48_step s) / 2 ^ 17)
                 (1 + rand48_step (rand48_step s) / 2 ^ 17),
        rand48_step (rand48_step s))
  else (OpDeleteMin, rand48_step s).
Proof.
  unfold work_uni, erand48, nrand48, lt_half.
  change (Z.shiftr RAND48_M 1) with (2 ^ 47).
  destruct (rand48_step s <? 2 ^ 47); [|done].
  rewrite Z.shiftr_div_pow2 by lia.
  pose proof (Z.mod_pos_bound (RAND48_A * rand48_step s + RAND48_C) RAND48_M
                ltac:(unfold RAND48_M; lia)) as Hb.
  fold (rand48_step (rand48_step s)) in Hb.
  assert (0 <= rand48_step (rand48_step s) / 2 ^ 17 < 2 ^ 31).
  { split; [apply Z.div_pos; lia|].
    apply Z.div_lt_upper_bound; [lia|]. unfold RAND48_M in Hb. lia. }
  unfold to_ulong, WORD. rewrite Z.mod_small by lia. done.
Qed.

Lemma work_uni_key_bound s key val rng :
  work_uni s = (OpInsert key val, rng) -> 1 <= key <= 2 ^ 31 /\ val = key.
Proof.
  rewrite work_uni_eq. destruct (rand48_step s <? 2 ^ 47); [|done].
  intros [= <- <- _].
  pose proof (Z.mod_pos_bound (RAND48_A * rand48_step s + RAND48_C) RAND48_M
                ltac:(unfold RAND48_M; lia)) as Hb.
  fold (rand48_step (rand48_step s)) in Hb.
  assert (0 <= rand48_step (rand48_step s) / 2 ^ 17 < 2 ^ 31).
  { split; [apply Z.div_pos; lia|].
    apply Z.div_lt_upper_bound; [lia|]. unfold RAND48_M in Hb. lia. }
  lia.
Qed.

(** C9 (as amended): [work_uni] inserts exactly when the first draw of
    the generator falls in the lower half of its 48-bit range, which is
    the case for exactly half of the generator states, and deletes the
    minimum otherwise; the inserted key, also used as the value, is one
    more than the 31 high-order bits of the second draw, so it lies
    between 1 and [2^31]. *)
Theorem work_uni_insert_half_key31 :
  (forall s, 0 <= s < RAND48_M ->
     (fst (work_uni s) = OpDeleteMin \/
      exists key,
        fst (work_uni s) = OpInsert key key /\
        key = 1 + Z.shiftr (rand48_step (rand48_step s)) 17 /\
        1 <= key <= 2 ^ 31) /\
     (fst (work_uni s) <> OpDeleteMin <->
      exists y, 0 <= y < 2 ^ 47 /\ s = rand48_unstep y)) /\
  (forall y y', 0 <= y < RAND48_M -> 0 <= y' < RAND48_M ->
     rand48_unstep y = rand48_unstep y' -> y = y') /\
  2 * 2 ^ 47 = RAND48_M.
Proof.
  split_and!; [|intros y y' Hy Hy' He|done].
  - intros s Hs. rewrite work_uni_eq. split.
    + destruct (rand48_step s <? 2 ^ 47) eqn:Hlt; [right|by left].
      eexists. split; [reflexivity|]. rewrite Z.shiftr_div_pow2 by lia.
      split; [done|].
      pose proof (work_uni_key_bound s _ _ _ ltac:(rewrite work_uni_eq, Hlt; reflexivity)).
      lia.
    + destruct (rand48_step s <? 2 ^ 47) eqn:Hlt; cbn [fst].
      * apply Z.ltb_lt in Hlt. split; [intros _|done].
        exists (rand48_step s). split.
        -- split; [|done]. apply Z.mod_pos_bound. unfold RAND48_M. lia.
        -- by rewrite rand48_unstep_step.
      * apply Z.ltb_ge in Hlt. split; [done|].
        intros (y & Hy & ->). rewrite rand48_step_unstep in Hlt; [lia|].
        unfold RAND48_M. lia.
  - rewrite <- (rand48_step_unstep y), <- (rand48_step_unstep y') by done.
    by rewrite He.
Qed.

(** C9, as stated, fails: from the generator state 0 the key inserted is
    2116119, not the 48-bit draw 277363943098 it is cut from, and no
    generator state at all makes [work_uni] insert the 48-bit integer
    [2^47]. *)
Lemma work_uni_key_not_48bit :
  fst (work_uni 0) = OpInsert 2116119 2116119 /\
  rand48_step (rand48_step 0) = 277363943098 /\
  ~ (exists s val, fst (work_uni s) = OpInsert (2 ^ 47) val).
Proof.
  split_and!; [by vm_compute|by vm_compute|].
  intros (s & val & H). destruct (work_uni s) as [op rng] eqn:Hw. simpl in H. subst op.
  apply work_uni_key_bound in Hw. lia.
Qed.

(** ** The claims about the predecessor search and [set_remove] *)

Section SearchClaims.
Context {cfg : config}.

Lemma walk_list_adjacent h k bef i t B :
  forall x, chain h i x B t ->
    next_at h (walk_list h k bef x B t).1 i = Some (walk_list h k bef x B t).2.
Proof.
  induction B as [|b B IH]; intros x Hc; simpl in *; [done|].
  destruct Hc as [Hx Hc]. destruct (stops k bef (key_at h b)); [done|]. by apply IH.
Qed.

(** [walk_list] stops at the first node whose key [stops]. *)
Lemma walk_list_split h k bef t B :
  stops k bef (key_at h t) = true ->
  forall x, exists A B',
    B ++ [t] = A ++ (walk_list h k bef x B t).2 :: B' /\
    Forall (fun a => stops k bef (key_at h a) = false) A /\
    stops k bef (key_at h (walk_list h k bef x B t).2) = true /\
    (walk_list h k bef x B t).1 = default x (last A).
Proof.
  intros Ht. induction B as [|b B IH]; intros x; simpl.
  - exists [], []. done.
  - destruct (stops k bef (key_at h b)) eqn:Hb.
    + exists [], (B ++ [t]). done.
    + destruct (IH b) as (A & B' & He & HA & Hs & Hp).
      exists (b :: A), B'. split_and!.
      * simpl. by rewrite He.
      * by constructor.
      * done.
      * rewrite Hp, last_cons. by destruct (last A).
Qed.

Lemma sorted_suffix (R : Z -> Z -> Prop) A B :
  StronglySorted R (A ++ B) -> StronglySorted R B.
Proof.
  induction A as [|a A IH]; [done|]. simpl. intros H.
  apply StronglySorted_inv in H as [H _]. by apply IH.
Qed.

Lemma stops_false k bef key :
  stops k bef key = false <-> (if bef then key < k else key <= k).
Proof. unfold stops. destruct bef; simpl; lia. Qed.

Lemma stops_true k bef key :
  stops k bef key = true <-> (if bef then k <= key else k < key).
Proof. unfold stops. destruct bef; simpl; lia. Qed.

(** C5 (as amended): on a well-formed skip list, at every level [i] the
    search leaves in [succs[i]] the first node of the level whose key is
    greater than [k] in the insert variant ([bef = false]: the walk
    advances while the next key is at most [k]) and the first node whose
    key is at least [k] in the variant of [set_remove] ([bef = true]:
    the walk advances while the next key is below [k]); [preds[i]] is
    the node just before it, whose level-[i] pointer, mark removed, is
    [succs[i]]; the return value is [preds[0]]. *)
Theorem weak_search_predecessors_levels (h : gmap Z node_t) (l : set_t) (t : Z)
    (L : nat -> list Z) (k : Z) (bef : bool) (fuel : nat) (pa na : list Z)
    (st : state) :
  skiplist h l t L ->
  (if bef then k <= key_at h t else k < key_at h t) ->
  (forall i, (i < NUM_LEVELS)%nat -> (length (L i) < fuel)%nat) ->
  heap st = h -> length pa = NUM_LEVELS -> length na = NUM_LEVELS ->
  exists pa' na' st',
    weak_search_predecessors fuel l k (Some pa) (Some na) bef st
    = (Ok (default (head l) (pa' !! 0%nat), Some pa', Some na'), st') /\
    heap st' = h /\
    forall i, (i < NUM_LEVELS)%nat ->
      exists p s A B',
        pa' !! i = Some p /\ na' !! i = Some s /\
        next_at h p i = Some s /\
        L i ++ [t] = A ++ s :: B' /\
        Forall (fun a => if bef then key_at h a < k else key_at h a <= k) A /\
        (if bef then k <= key_at h s else k < key_at h s) /\
        p = default (head l) (last A).
Proof.
  intros HSL Ht Hfuel Hh Hpa Hna.
  apply stops_true in Ht.
  destruct (wsp_levels_spec h l t L k bef fuel HSL Ht Hfuel NUM_LEVELS (head l) pa na st)
    as (pa' & na' & st' & Hrun & Hh' & Hlp & Hln & Hs); [lia|done| |].
  { by rewrite (sl_top _ _ _ _ HSL). }
  assert (Hlev : forall i, (i < NUM_LEVELS)%nat ->
            pa' !! i = Some (walk_list h k bef (head l) (L i) t).1 /\
            na' !! i = Some (walk_list h k bef (head l) (L i) t).2).
  { intros i Hi. destruct (Hs i) as [[-> ->] _]; [done|].
    destruct (lookup_lt_is_Some_2 pa i) as [? ->]; [lia|].
    destruct (lookup_lt_is_Some_2 na i) as [? ->]; [lia|]. done. }
  exists pa', na', st'. split_and!; [|done|].
  - unfold weak_search_predecessors. rewrite Hrun. do 3 f_equal.
    destruct (decide (0 < NUM_LEVELS)%nat) as [Hpos|Hz].
    + destruct (Hlev 0%nat Hpos) as [-> _]. done.
    + assert (Hn0 : NUM_LEVELS = 0%nat) by lia.
      rewrite (lookup_ge_None_2 pa' 0) by lia. simpl.
      pose proof (sl_top _ _ _ _ HSL) as Htop. rewrite Hn0 in Htop. by rewrite Htop.
  - intros i Hi. destruct (Hlev i Hi) as [Hp Hn].
    destruct (walk_list_split h k bef t (L i) Ht (head l)) as (A & B' & He & HA & Hst & Hpd).
    exists (walk_list h k bef (head l) (L i) t).1, (walk_list h k bef (head l) (L i) t).2, A, B'.
    split_and!; [done|done| |done| | |done].
    + apply walk_list_adjacent. by apply (sl_chain _ _ _ _ HSL).
    + eapply Forall_impl; [exact HA|]. intros a Ha. by apply stops_false.
    + by apply stops_true.
Qed.

(** X20: on a well-formed skip list [set_remove(key)] stops at the
    predecessor [p] of the first node [s] whose key is at least [key],
    which is the first node with that key when the key is present, and
    applies fetch-or-1 to [p->next[0]], the pointer to [s]; when that
    word was unmarked it returns the word, the pointer to [s], whether
    or not the key of [s] is [key]; when it was marked it returns
    [NULL]. *)
Theorem set_remove_returns_successor_node (h : gmap Z node_t) (l : set_t) (t : Z)
    (L : nat -> list Z) (key : Z) (fuel : nat) (st : state) :
  skiplist h l t L -> (0 < NUM_LEVELS)%nat -> key <= key_at h t ->
  (forall i, (i < NUM_LEVELS)%nat -> (length (L i) < fuel)%nat) ->
  heap st = h ->
  exists p s A B' nd w st',
    L 0%nat ++ [t] = A ++ s :: B' /\
    Forall (fun a => key_at h a < key) A /\ key <= key_at h s /\
    p = default (head l) (last A) /\
    ((exists a, a ∈ L 0%nat /\ key_at h a = key) -> key_at h s = key) /\
    h !! p = Some nd /\ n_next nd !! 0%nat = Some w /\ get_unmarked_ref w = s /\
    set_remove fuel l key st = (Ok (if is_marked_ref w then NULL else w), st') /\
    heap st' = <[p := set_next nd 0 (get_marked_ref w)]> h.
Proof.
  intros HSL Hpos Ht Hfuel Hh.
  assert (Hstop : stops key true (key_at h t) = true) by (by apply stops_true).
  destruct (wsp_levels_spec h l t L key true fuel HSL Hstop Hfuel NUM_LEVELS (head l)
              [] [] st) as (pa' & na' & st1 & Hrun & Hh1 & _); [lia|done| |].
  { by rewrite (sl_top _ _ _ _ HSL). }
  assert (Hnone : forall n x st0,
            wsp_levels fuel key true n x None None st0
            = match wsp_levels fuel key true n x (Some []) (Some []) st0 with
              | (Ok (y, _, _), st') => (Ok (y, None, None), st')
              | (Err e, st') => (Err e, st')
              end).
  { induction n as [|n IH]; intros x st0; [done|]. cbn [wsp_levels opt_store].
    rewrite !bind_eq. destruct (wsp_walk fuel key true n x st0) as [[[x' s']|e] st']; [|done].
    cbn [fst snd]. rewrite IH. done. }
  destruct (walk_list_split h key true t (L 0%nat) Hstop (head l))
    as (A & B' & He & HA & Hst & Hpd).
  set (p := (walk_list h key true (head l) (L 0%nat) t).1) in *.
  set (s := (walk_list h key true (head l) (L 0%nat) t).2) in *.
  pose proof (walk_list_adjacent h key true 0 t (L 0%nat) (head l)
                (sl_chain _ _ _ _ HSL 0%nat Hpos)) as Hadj.
  fold p s in Hadj. unfold next_at in Hadj.
  destruct (h !! p) as [nd|] eqn:Hnd; [|done].
  destruct (n_next nd !! 0%nat) as [w|] eqn:Hw; [|done]. injection Hadj as Hu.
  exists p, s, A, B', nd, w.
  eexists. split_and!; [done| |by apply stops_true in Hst|done| |done|done|done| |].
  - eapply Forall_impl; [exact HA|]. intros a Ha. by apply (stops_false key true).
  - intros (a & Ha & Hka). apply stops_true in Hst.
    assert (Hcases : L 0%nat = A \/ exists B'', L 0%nat = A ++ s :: B'').
    { destruct B' as [|b B' _] using rev_ind.
      - left. change (A ++ [s]) with (A ++ [s]) in He. by apply app_inj_tail in He as [-> _].
      - right. exists B'. rewrite app_comm_cons, app_assoc in He.
        by apply app_inj_tail in He as [-> _]. }
    destruct Hcases as [HL|[B'' HL]]; rewrite HL in Ha.
    + rewrite Forall_forall in HA. apply HA, (stops_false key true) in Ha. lia.
    + apply elem_of_app in Ha as [Ha|Ha].
      * rewrite Forall_forall in HA. apply HA, (stops_false key true) in Ha. lia.
      * apply elem_of_cons in Ha as [->|Ha]; [done|].
        pose proof (sl_sorted _ _ _ _ HSL 0%nat Hpos) as Hsort. rewrite HL in Hsort.
        apply sorted_suffix, StronglySorted_inv in Hsort as [_ Hsort].
        rewrite Forall_forall in Hsort. apply Hsort in Ha. lia.
  - unfold set_remove, weak_search_predecessors.
    rewrite bind_eq, Hnone, Hrun. cbn [fst].
    fold p. rewrite bind_eq, FAO_eq, Hh1, Hnd, Hw.
    destruct (is_marked_ref w); reflexivity.
  - simpl. by rewrite ?Hh1.
Qed.

End SearchClaims.

(** ** The scenario queue: witnesses and counterexamples *)

Lemma is_Some_by_match {A} (o : option A) :
  match o with Some _ => true | None => false end = true -> is_Some o.
Proof. destruct o; [eauto|done]. Qed.

Lemma q3_skiplist : skiplist (cfg:=cfg32) (heap q3_state) q3_set 4096 q3_levels.
Proof.
  split.
  - vm_compute. reflexivity.
  - reflexivity.
  - apply is_Some_by_match. vm_compute. reflexivity.
  - intros i Hi. change (NUM_LEVELS (config:=cfg32)) with 32%nat in Hi.
    destruct i as [|i]; [vm_compute; done|].
    do 31 (destruct i as [|i]; [vm_compute; reflexivity|]). lia.
  - intros i a Hi Ha. destruct i as [|i]; [|exfalso; exact (proj1 (elem_of_nil a) Ha)].
    apply is_Some_by_match. simpl in Ha.
    apply elem_of_cons in Ha as [->|Ha]; [vm_compute; reflexivity|].
    apply elem_of_cons in Ha as [->|Ha]; [vm_compute; reflexivity|].
    apply elem_of_cons in Ha as [->|Ha]; [vm_compute; reflexivity|].
    exfalso; exact (proj1 (elem_of_nil a) Ha).
  - intros i Hi. destruct i as [|i]; [|constructor].
    simpl. repeat constructor; vm_compute; discriminate.
  - intros i a Hi Ha. exfalso; exact (proj1 (elem_of_nil a) Ha).
Qed.

Lemma q3_fuel i : (i < 32)%nat -> (length (q3_levels i) < FUEL)%nat.
Proof. destruct i; simpl; unfold FUEL; lia. Qed.

Lemma queue3_built :
  queue3 (cfg:=cfg32) 32 0 0 0 boot = (Ok q3_set, q3_state).
Proof. vm_compute. reflexivity. Qed.

Lemma q3_tail_key : key_at (heap q3_state) 4096 = 0xffffffffffffffff.
Proof. vm_compute. reflexivity. Qed.

(** C1, as stated, fails: the [set_removemin] that returns 3 leaves the
    bottom pointer of the node with key 3 unmarked and marks the pointer
    to it in the head. *)
Lemma victim_own_pointer_stays_unmarked :
  let out := set_removemin (cfg:=cfg32) FUEL q3_set q3_state in
  fst out = Ok 3 /\ cell q3_state 5184 FK = Some 3 /\
  cell (snd out) 5184 (FNext 0) = Some 5120 /\ is_marked_ref 5120 = false /\
  cell (snd out) 4480 (FNext 0) = Some 5185 /\ is_marked_ref 5185 = true /\
  get_unmarked_ref 5185 = 5184.
Proof. vm_compute. repeat split. Qed.

(** C2: on the queue with the keys 3, 5 and 7, [set_remove(5)] marks
    the pointer to the node with key 5, held by the node with key 3, and
    returns 5120, the address of the node with key 5, not its value 50;
    a second [set_remove(5)] returns [NULL].  [set_remove(4)], for a key
    that is not in the queue, marks the same pointer and returns the
    same node instead of not-found, and [set_remove(9)], for a key above
    every key of the queue, marks the pointer to the tail sentinel and
    returns the tail. *)
Theorem set_remove_returns_pointer_not_value :
  let out5 := set_remove (cfg:=cfg32) FUEL q3_set 5 q3_state in
  let out4 := set_remove (cfg:=cfg32) FUEL q3_set 4 q3_state in
  let out9 := set_remove (cfg:=cfg32) FUEL q3_set 9 q3_state in
  fst out5 = Ok 5120 /\
  cell q3_state 5120 FK = Some 5 /\ cell q3_state 5120 FV = Some 50 /\
  cell (snd out5) 5120 (FNext 0) = Some 5248 /\ is_marked_ref 5248 = false /\
  cell q3_state 5184 FK = Some 3 /\
  cell (snd out5) 5184 (FNext 0) = Some 5121 /\ is_marked_ref 5121 = true /\
  fst (set_remove (cfg:=cfg32) FUEL q3_set 5 (snd out5)) = Ok NULL /\
  map (key_at (heap q3_state)) (q3_levels 0) = [3; 5; 7] /\
  fst out4 = Ok 5120 /\ cell (snd out4) 5184 (FNext 0) = Some 5121 /\
  fst out9 = Ok 4096 /\
  cell q3_state 4096 FK = Some (SENTINEL_KEYMAX (config:=cfg32)) /\
  cell q3_state 5248 FK = Some 7 /\
  cell (snd out9) 5248 (FNext 0) = Some 4097 /\ is_marked_ref 4097 = true.
Proof. vm_compute. repeat split. Qed.

Lemma set_remove_returns_successor_node_witness :
  skiplist (cfg:=cfg32) (heap q3_state) q3_set 4096 q3_levels /\
  5 <= key_at (heap q3_state) 4096 /\
  exists p s A B' nd w st',
    q3_levels 0 ++ [4096] = A ++ s :: B' /\
    Forall (fun a => key_at (heap q3_state) a < 5) A /\
    5 <= key_at (heap q3_state) s /\
    p = default (head q3_set) (last A) /\
    ((exists a, a ∈ q3_levels 0 /\ key_at (heap q3_state) a = 5) ->
     key_at (heap q3_state) s = 5) /\
    heap q3_state !! p = Some nd /\ n_next nd !! 0%nat = Some w /\
    get_unmarked_ref w = s /\
    set_remove (cfg:=cfg32) FUEL q3_set 5 q3_state
    = (Ok (if is_marked_ref w then NULL else w), st') /\
    heap st' = <[p := set_next nd 0 (get_marked_ref w)]> (heap q3_state).
Proof.
  split; [exact q3_skiplist|]. split; [rewrite q3_tail_key; lia|].
  apply (set_remove_returns_successor_node (cfg:=cfg32) (heap q3_state) q3_set 4096
           q3_levels 5 FUEL q3_state).
  - exact q3_skiplist.
  - simpl. lia.
  - rewrite q3_tail_key. lia.
  - exact q3_fuel.
  - reflexivity.
Defined.

(** C5, as stated, fails: searching for the key 5 in the scenario queue,
    the insert variant ([bef = false]) walks past the node with key 5,
    which is not below 5, and stops before the node with key 7; the
    variant of [set_remove] ([bef = true]) stops before the node with
    key 5, although 5 is at most 5. *)
Lemma search_insert_variant_passes_equal_key :
  match fst (weak_search_predecessors (cfg:=cfg32) FUEL q3_set 5
               (Some (replicate 32 0)) (Some (replicate 32 0)) false q3_state) with
  | Ok (x, Some pa, Some na) =>
      x = 5120 /\ pa !! 0%nat = Some 5120 /\ na !! 0%nat = Some 5248
  | _ => False
  end /\
  match fst (weak_search_predecessors (cfg:=cfg32) FUEL q3_set 5
               (Some (replicate 32 0)) (Some (replicate 32 0)) true q3_state) with
  | Ok (x, Some pa, Some na) =>
      x = 5184 /\ pa !! 0%nat = Some 5184 /\ na !! 0%nat = Some 5120
  | _ => False
  end /\
  key_at (heap q3_state) 5184 = 3 /\ key_at (heap q3_state) 5120 = 5 /\
  key_at (heap q3_state) 5248 = 7.
Proof. vm_compute. repeat split. Qed.

Lemma weak_search_predecessors_levels_witness :
  skiplist (cfg:=cfg32) (heap q3_state) q3_set 4096 q3_levels /\
  5 < key_at (heap q3_state) 4096 /\
  exists pa' na' st',
    weak_search_predecessors (cfg:=cfg32) FUEL q3_set 5
      (Some (replicate 32 0)) (Some (replicate 32 0)) false q3_state
    = (Ok (default (head q3_set) (pa' !! 0%nat), Some pa', Some na'), st') /\
    heap st' = heap q3_state /\
    forall i, (i < 32)%nat ->
      exists p s A B',
        pa' !! i = Some p /\ na' !! i = Some s /\
        next_at (heap q3_state) p i = Some s /\
        q3_levels i ++ [4096] = A ++ s :: B' /\
        Forall (fun a => key_at (heap q3_state) a <= 5) A /\
        5 < key_at (heap q3_state) s /\
        p = default (head q3_set) (last A).
Proof.
  split; [exact q3_skiplist|]. split; [rewrite q3_tail_key; lia|].
  apply (weak_search_predecessors_levels (cfg:=cfg32) (heap q3_state) q3_set 4096
           q3_levels 5 false FUEL (replicate 32 0) (replicate 32 0) q3_state).
  - exact q3_skiplist.
  - rewrite q3_tail_key. lia.
  - exact q3_fuel.
  - reflexivity.
  - reflexivity.
  - reflexivity.
Defined.


Lemma work_uni_insert_half_key31_witness :
  0 <= 0 < RAND48_M /\
  (fst (work_uni 0) = OpDeleteMin \/
   exists key,
     fst (work_uni 0) = OpInsert key key /\
     key = 1 + Z.shiftr (rand48_step (rand48_step 0)) 17 /\
     1 <= key <= 2 ^ 31).
Proof.
  split; [unfold RAND48_M; lia|].
  destruct work_uni_insert_half_key31 as [H _].
  apply (H 0). unfold RAND48_M. lia.
Defined.

(** ** The code bugs *)

(** C3: on a freshly allocated, empty queue the first [set_removemin]
    marks [head->next[0]], the pointer to the tail sentinel, by a
    fetch-and-add and returns the key of the tail; the next call walks
    onto the tail, finds [END] in its forward pointer and fails the
    assertion [x_next != END].  Were [END] the address of the tail, the
    first call would fail that assertion. *)
Theorem removemin_empty_marks_head_pointer :
  let l := SetT 4480 32 32 in
  let st := snd (set_alloc (cfg:=cfg32) 32 32 boot) in
  let out1 := set_removemin (cfg:=cfg32) FUEL l st in
  let out2 := set_removemin (cfg:=cfg32) FUEL l (snd out1) in
  fst (set_alloc (cfg:=cfg32) 32 32 boot) = Ok l /\
  cell st 4480 (FNext 0) = Some 4096 /\ cell st 4096 FK = Some (SENTINEL_KEYMAX (config:=cfg32)) /\
  fst out1 = Ok (SENTINEL_KEYMAX (config:=cfg32)) /\
  cell (snd out1) 4480 (FNext 0) = Some 4097 /\ is_marked_ref 4097 = true /\
  In (EvFAA 4480 0 1) (events (snd out1)) /\
  fst out2 = Err AssertFail /\
  fst (set_removemin (cfg:=cfg32_end_tail) FUEL l
         (snd (set_alloc (cfg:=cfg32_end_tail) 32 32 boot))) = Err AssertFail.
Proof. vm_compute. repeat split. tauto. Qed.

(** C7: two threads in the marking step of [set_removemin] that both
    read the unmarked [head->next[0]] before either adds 1 leave the
    word at the pointer plus 2, which is unmarked and leads to no node;
    one of them gets the unmarked word back.  The fetch-and-or of
    [set_remove], applied twice, leaves the word marked. *)
Theorem double_fetch_and_add_unmarks :
  let race :=
    (xa <- removemin_read 4480 ;;
     xb <- removemin_read 4480 ;;
     ra <- removemin_mark 4480 xa ;;
     rb <- removemin_mark 4480 xb ;;
     w <- peek_next 4480 0 ;;
     ret (ra, rb, w)) in
  let calm :=
    (ra <- FAO 4480 0 1 ;;
     rb <- FAO 4480 0 1 ;;
     w <- peek_next 4480 0 ;;
     ret (ra, rb, w)) in
  cell q3_state 4480 (FNext 0) = Some 5184 /\
  fst (race q3_state) = Ok (5184, 5185, 5186) /\
  is_marked_ref 5184 = false /\ is_marked_ref 5185 = true /\
  is_marked_ref 5186 = false /\ heap q3_state !! get_unmarked_ref 5186 = None /\
  fst (calm q3_state) = Ok (5184, 5185, 5185).
Proof. vm_compute. repeat split. Qed.
(** ** The queue between operations: allocation, insertion, deletion *)

Section Alignment.
Context {cfg : config}.

Lemma align64_eq p : align64 p = 64 * ((p + 63) / 64).
Proof.
  unfold align64. change (Z.lnot 63) with (Z.lnot (Z.ones 6)).
  rewrite <- Z.ldiff_land, Z.ldiff_ones_r by lia.
  rewrite Z.shiftl_mul_pow2, Z.shiftr_div_pow2 by lia. change (2 ^ 6) with 64. lia.
Qed.

Lemma align64_bounds p : p <= align64 p <= p + 63.
Proof. rewrite align64_eq. pose proof (Z.div_mod (p + 63) 64 ltac:(lia)).
  pose proof (Z.mod_pos_bound (p + 63) 64 ltac:(lia)). lia. Qed.

Lemma align64_aligned p : Z.land (align64 p) 63 = 0.
Proof.
  rewrite align64_eq. change 63 with (Z.ones 6). rewrite Z.land_ones by lia.
  change (2 ^ 6) with 64. rewrite Z.mul_comm. apply Z.mod_mul. lia.
Qed.

Lemma aligned_unmarked a : Z.land a 63 = 0 -> is_marked_ref a = false /\ get_unmarked_ref a = a.
Proof.
  intros Ha. change 63 with (Z.ones 6) in Ha. rewrite Z.land_ones in Ha by lia.
  change (2 ^ 6) with 64 in Ha.
  assert (H2 : a mod 2 = 0).
  { rewrite <- (Z.mod_mod_divide a 64 2) by (exists 32; lia). rewrite Ha. done. }
  split.
  - unfold is_marked_ref. rewrite land_1_mod, H2. done.
  - unfold get_unmarked_ref. change (Z.lnot 1) with (Z.lnot (Z.ones 1)).
    rewrite <- Z.ldiff_land, Z.ldiff_ones_r by lia.
    rewrite Z.shiftl_mul_pow2, Z.shiftr_div_pow2 by lia. change (2 ^ 1) with 2.
    pose proof (Z.div_mod a 2 ltac:(lia)). lia.
Qed.

End Alignment.

Lemma unmarked_id w : is_marked_ref w = false -> get_unmarked_ref w = w.
Proof.
  unfold is_marked_ref, get_unmarked_ref. rewrite land_1_mod. intros H.
  apply negb_false_iff, Z.eqb_eq in H.
  change (Z.lnot 1) with (Z.lnot (Z.ones 1)).
  rewrite <- Z.ldiff_land, Z.ldiff_ones_r by lia.
  rewrite Z.shiftl_mul_pow2, Z.shiftr_div_pow2 by lia. change (2 ^ 1) with 2.
  pose proof (Z.div_mod w 2 ltac:(lia)). lia.
Qed.

Lemma mark_by_add w :
  is_marked_ref w = false -> 0 <= w -> w + 1 < WORD ->
  to_ulong (w + 1) = w + 1 /\ is_marked_ref (w + 1) = true /\ get_unmarked_ref (w + 1) = w.
Proof.
  intros H H0 H1.
  assert (Hm : w mod 2 = 0).
  { unfold is_marked_ref in H. rewrite land_1_mod in H.
    by apply negb_false_iff, Z.eqb_eq in H. }
  split_and!.
  - unfold to_ulong. apply Z.mod_small. lia.
  - unfold is_marked_ref. rewrite land_1_mod.
    replace ((w + 1) mod 2) with 1; [done|].
    rewrite Z.add_mod, Hm by lia. done.
  - unfold get_unmarked_ref. change (Z.lnot 1) with (Z.lnot (Z.ones 1)).
    rewrite <- Z.ldiff_land, Z.ldiff_ones_r by lia.
    rewrite Z.shiftl_mul_pow2, Z.shiftr_div_pow2 by lia. change (2 ^ 1) with 2.
    pose proof (Z.div_mod w 2 ltac:(lia)).
    replace (w + 1) with (1 + (w / 2) * 2) by lia.
    rewrite Z.div_add by lia. change (1 / 2) with 0. lia.
Qed.

Lemma chain_lookup h i x ns t :
  chain h i x ns t ->
  forall j a, (x :: ns) !! j = Some a ->
    exists b, (ns ++ [t]) !! j = Some b /\ next_at h a i = Some b.
Proof.
  revert x. induction ns as [|n ns IH]; intros x Hc j a Hj.
  - destruct j as [|j]; [|done]. injection Hj as <-. exists t. done.
  - destruct Hc as [Hx Hc]. destruct j as [|j].
    + injection Hj as <-. exists n. done.
    + apply (IH n Hc j a Hj).
Qed.

Section DeleteMin.
Context {cfg : config}.
Context (Hoptim : OPTIM = false) (Hend : is_marked_ref END = false).

Lemma removemin_optim_off x st : removemin_optim x st = (Ok None, st).
Proof using Hoptim. unfold removemin_optim. by rewrite Hoptim. Qed.

Lemma removemin_walk_prefix h x0 B t m :
  h !! END = None -> h !! 0 = None ->
  chain h 0 x0 B t ->
  marked_upto h (x0 :: B) m ->
  (forall a, a ∈ B ++ [t] -> is_Some (h !! a)) ->
  (forall a, is_Some (h !! a) -> 0 <= a /\ a + 1 < WORD) ->
  forall d j x off n st,
    heap st = h -> m = (j + d)%nat -> (m <= length B)%nat ->
    (x0 :: B) !! j = Some x -> (d < n)%nat ->
    0 <= off -> off + Z.of_nat d + 1 <= INT_MAX ->
    exists xm v nd st',
      (x0 :: B) !! m = Some xm /\ (B ++ [t]) !! m = Some v /\
      h !! xm = Some nd /\ n_next nd !! 0%nat = Some v /\ is_marked_ref v = false /\
      removemin_walk n x off st = (Ok (Some (v, off + Z.of_nat d + 1)), st') /\
      heap st' = <[xm := set_next nd 0 (v + 1)]> h /\
      tl st' = tl st /\ brk st' = brk st /\ freed st' = freed st.
Proof using Hoptim Hend.
  intros HEND HNULL Hc Hm Hin Hrange.
  induction d as [|d IH]; intros j x off n st Hh Hmj Hlen Hx Hn Hoff Hmax;
    (destruct n as [|n]; [lia|]);
    destruct (Hm j x Hx) as (w & Hw & Hmk);
    destruct (chain_lookup _ _ _ _ _ Hc j x Hx) as (b & Hb & Hnext);
    unfold word_at in Hw; unfold next_at in Hnext;
    destruct (h !! x) as [nd|] eqn:Hnd; try done;
    rewrite Hw in Hnext; injection Hnext as Hu;
    destruct (Hin b (list_elem_of_lookup_2 _ _ _ Hb)) as [ndb Hndb];
    assert (HbE : b <> END) by (intros ->; by rewrite HEND in Hndb);
    assert (Hti : to_int (off + 1) = off + 1)
      by (apply to_int_small; unfold INT_MAX in Hmax; lia);
    cbn [removemin_walk]; rewrite Hti;
    rewrite (bind_ok _ _ _ _ _ (removemin_optim_off _ _));
    unfold removemin_read;
    rewrite !bind_eq, load_next_eq, Hh, Hnd, Hw.
  - assert (j = m) as -> by lia.
    rewrite bool_decide_eq_false_2 in Hmk by lia.
    rewrite (unmarked_id _ Hmk) in Hu. subst w.
    apply Z.eqb_neq in HbE. rewrite HbE. cbn [negb].
    rewrite (bind_ok _ _ _ _ _ (c_assert_true _)). unfold removemin_mark. rewrite Hmk. cbn [negb].
    rewrite bind_eq, FAA_eq. cbn [heap add_event]. rewrite Hh, Hnd, Hw.
    cbn [ret]. rewrite Hmk.
    destruct (Hrange b ltac:(by eexists)) as [Hb0 Hb1].
    destruct (mark_by_add b Hmk Hb0 Hb1) as (Hto & _ & _). rewrite Hto.
    replace (off + Z.of_nat 0 + 1) with (off + 1) by lia.
    exists x, b, nd. eexists.
    split_and!; [done|done|done|done|done|reflexivity|reflexivity|reflexivity|reflexivity|reflexivity].
  - rewrite bool_decide_eq_true_2 in Hmk by lia.
    assert (Hwe : (w =? END) = false).
    { apply Z.eqb_neq. intros ->. congruence. }
    rewrite Hwe. cbn [negb]. rewrite (bind_ok _ _ _ _ _ (c_assert_true _)).
    unfold removemin_mark. rewrite Hmk. cbn [negb]. cbv [bind ret]. rewrite Hmk, Hu.
    assert (HbN : (b =? NULL) = false).
    { apply Z.eqb_neq. intros ->. unfold NULL in Hndb. congruence. }
    rewrite HbN.
    destruct (IH (S j) b (off + 1) n (add_event (EvRead x (FNext 0)) st))
      as (xm & v & ndm & st' & H1 & H2 & H3 & H4 & H4' & H5 & H6 & H7 & H8 & H9);
      [done|lia|done| |lia|lia|lia|].
    { rewrite lookup_app_l in Hb by lia. done. }
    exists xm, v, ndm, st'. split_and!; try done.
    rewrite H5. do 4 f_equal. lia.
Qed.

Lemma next_at_retag (h : gmap Z node_t) x nd i w w' a j :
  h !! x = Some nd -> n_next nd !! i = Some w ->
  get_unmarked_ref w' = get_unmarked_ref w ->
  next_at (<[x := set_next nd i w']> h) a j = next_at h a j.
Proof.
  intros Hx Hw Hu. unfold next_at.
  destruct (decide (a = x)) as [->|Hne]; [|by rewrite lookup_insert_ne].
  rewrite lookup_insert_eq, Hx. cbn [set_next n_next].
  destruct (decide (j = i)) as [->|Hji].
  - rewrite list_lookup_insert_eq by (by eapply lookup_lt_Some). rewrite Hw. simpl. by rewrite Hu.
  - by rewrite list_lookup_insert_ne.
Qed.

Lemma key_at_set_next (h : gmap Z node_t) x nd i w a :
  h !! x = Some nd -> key_at (<[x := set_next nd i w]> h) a = key_at h a.
Proof.
  intros Hx. unfold key_at.
  destruct (decide (a = x)) as [->|Hne]; [|by rewrite lookup_insert_ne].
  by rewrite lookup_insert_eq, Hx.
Qed.

Lemma is_Some_set_next (h : gmap Z node_t) x nd i w a :
  h !! x = Some nd -> is_Some (<[x := set_next nd i w]> h !! a) <-> is_Some (h !! a).
Proof.
  intros Hx. destruct (decide (a = x)) as [->|Hne]; [|by rewrite lookup_insert_ne].
  rewrite lookup_insert_eq, Hx. split; eauto.
Qed.

Lemma chain_ext h h' i x ns t :
  (forall a, next_at h' a i = next_at h a i) -> chain h i x ns t -> chain h' i x ns t.
Proof.
  intros He. revert x. induction ns as [|n ns IH]; intros x; simpl; rewrite He; [done|].
  intros [? ?]. split; [done|]. by apply IH.
Qed.

Lemma sorted_ext (f g : Z -> Z) ns :
  (forall a, g a = f a) ->
  StronglySorted (fun a b => f a <= f b) ns -> StronglySorted (fun a b => g a <= g b) ns.
Proof.
  intros He. induction 1 as [|a ns Hs IH Ha]; constructor; [done|].
  eapply Forall_impl; [exact Ha|]. intros b Hb. simpl in *. by rewrite !He.
Qed.

(** Changing the mark of a pointer leaves the lists of the levels as they are. *)
Lemma skiplist_retag h l t L x nd i w w' :
  skiplist h l t L -> h !! x = Some nd -> n_next nd !! i = Some w ->
  get_unmarked_ref w' = get_unmarked_ref w ->
  skiplist (<[x := set_next nd i w']> h) l t L.
Proof.
  intros HSL Hx Hw Hu. destruct HSL as [H1 H2 H3 H4 H5 H6 H7]. constructor.
  - rewrite lookup_insert_ne; [done|]. intros ->. congruence.
  - done.
  - by apply is_Some_set_next.
  - intros j Hj. eapply chain_ext; [|by apply H4]. intros a. by eapply next_at_retag.
  - intros j a Hj Ha. apply is_Some_set_next; [done|]. by eapply H5.
  - intros j Hj. eapply (sorted_ext (key_at h)); [|by apply H6].
    intros a. by apply key_at_set_next.
  - done.
Qed.

Lemma removemin_finish_noswing fuel l v offset st vd :
  heap st !! v = Some vd -> is_marked_ref v = false ->
  to_int (old_offset (tl st) + offset) <= max_offset l ->
  exists st',
    removemin_finish fuel l v offset st = (Ok (n_k vd), st') /\
    heap st' = heap st /\ brk st' = brk st /\ freed st' = freed st /\
    tl st' = Tls v (old_obs_hp (tl st)) (to_int (old_offset (tl st) + offset)).
Proof.
  intros Hv Hm Hoff. unfold removemin_finish.
  rewrite (bind_ok _ _ _ _ _ (removemin_save_run v offset st vd Hv Hm)).
  unfold removemin_cleanup. rewrite !bind_eq. cbn [get_tl tl add_event old_offset].
  apply Z.leb_le in Hoff. rewrite Hoff. cbn [ret critical_exit log].
  eexists. split_and!; reflexivity.
Qed.

Lemma removemin_start_run st l ns m w0 :
  word_at (heap st) (head l) 0 = Some w0 ->
  ns !! 0%nat = Some (head l) ->
  cache_ok st l ns m ->
  exists j x st',
    removemin_start l st = (Ok x, st') /\
    heap st' = heap st /\ brk st' = brk st /\ freed st' = freed st /\
    (j <= m)%nat /\ ns !! j = Some x /\
    0 <= old_offset (tl st') <= Z.of_nat j /\
    (old_obs_hp (tl st') = w0) /\
    ((j = 0)%nat \/ old_offset (tl st') = old_offset (tl st)).
Proof.
  intros Hw Hns Hc. unfold word_at in Hw.
  destruct (heap st !! head l) as [hd|] eqn:Hhd; [|done].
  unfold removemin_start. rewrite bind_eq. cbn [get_tl].
  rewrite bind_eq, load_next_eq, Hhd, Hw.
  destruct (old_obs_hp (tl st) =? w0) eqn:He.
  - apply Z.eqb_eq in He. destruct Hc as (j & Hj & Hx & Ho).
    { unfold word_at. by rewrite Hhd, Hw, He. }
    exists j, (pt (tl st)). eexists.
    split_and!; [reflexivity|..]; cbn [tl add_event]; try done; try lia; try (by right).
  - rewrite bind_eq, load_next_eq. cbn [heap add_event]. rewrite Hhd, Hw.
    exists 0%nat, (head l). eexists.
    split_and!; [reflexivity|..]; try done; try (cbn; lia); try (by left).
Qed.

(** The deletion on the bottom level alone: the other levels play no
    part as long as no cleanup starts. *)
Lemma set_removemin_core (st : state) (l : set_t) (t : Z)
    (B : list Z) (m fuel : nat) :
  heap st !! END = None -> chain (heap st) 0 (head l) B t ->
  (forall a, a ∈ B ++ [t] -> is_Some (heap st !! a)) ->
  heap_range st -> brk st < WORD ->
  NoDup (head l :: B) ->
  marked_upto (heap st) (head l :: B) m -> (m <= length (B))%nat ->
  cache_ok st l (head l :: B ++ [t]) m ->
  Z.of_nat m + 1 <= max_offset l -> max_offset l <= INT_MAX ->
  (m < fuel)%nat ->
  exists x v nd st',
    (head l :: B) !! m = Some x /\ (B ++ [t]) !! m = Some v /\
    heap st !! x = Some nd /\ n_next nd !! 0%nat = Some v /\
    set_removemin fuel l st = (Ok (key_at (heap st) v), st') /\
    heap st' = <[x := set_next nd 0 (v + 1)]> (heap st) /\
    brk st' = brk st /\ freed st' = freed st /\
    heap_range st' /\
    marked_upto (heap st') (head l :: B) (S m) /\
    cache_ok st' l (head l :: B ++ [t]) (S m).
Proof using Hoptim Hend.
  intros HEND Hchain Hnodes Hrange Hbrk Hnd0 Hmark Hlen Hcache Hmo Hmax Hfuel.
  destruct (Hmark 0%nat (head l) eq_refl) as (w0 & Hw0 & _).
  set (st1 := add_event EvEnter st).
  destruct (removemin_start_run st1 l (head l :: B ++ [t]) m w0 Hw0 eq_refl Hcache)
    as (j & x0 & st2 & Hstart & Hh2 & Hb2 & Hf2 & Hj & Hx0 & Ho2 & Hobs & Hjo).
  assert (Hx0' : (head l :: B) !! j = Some x0).
  { rewrite app_comm_cons, lookup_app_l in Hx0 by (simpl; lia). done. }
  assert (Hr : forall a, is_Some (heap st !! a) -> 0 <= a /\ a + 1 < WORD).
  { intros a Ha. apply Hrange in Ha. lia. }
  assert (HN : heap st !! 0 = None).
  { destruct (heap st !! 0) eqn:E; [|done]. specialize (Hrange 0 ltac:(by eexists)). lia. }
  destruct (removemin_walk_prefix (heap st) (head l) B t m HEND HN Hchain Hmark)
    with (d := (m - j)%nat) (j := j) (x := x0) (off := 0) (n := fuel) (st := st2)
    as (x & v & nd & st3 & Hx & Hv & Hnd & Hw & Hvm & Hwalk & Hh3 & Ht3 & Hb3 & Hf3);
    [exact Hnodes | exact Hr | done | lia | done | done | lia | lia
    | unfold INT_MAX in *; lia |].
  assert (Hvin : is_Some (heap st !! v)).
  { apply Hnodes. by eapply list_elem_of_lookup_2. }
  destruct Hvin as [vd Hvd].
  assert (Hvd3 : exists vd', heap st3 !! v = Some vd' /\ n_k vd' = n_k vd).
  { rewrite Hh3. destruct (decide (v = x)) as [->|Hne].
    - rewrite lookup_insert_eq. eexists. split; [done|]. simpl. congruence.
    - rewrite lookup_insert_ne by done. eauto. }
  destruct Hvd3 as (vd' & Hvd' & Hk').
  assert (Hoff : to_int (old_offset (tl st3) + (0 + Z.of_nat (m - j) + 1))
                 = old_offset (tl st2) + Z.of_nat (m - j) + 1).
  { rewrite Ht3. rewrite to_int_small; unfold INT_MAX in *; lia. }
  destruct (removemin_finish_noswing fuel l v (0 + Z.of_nat (m - j) + 1) st3 vd' Hvd' Hvm)
    as (st4 & Hfin & Hh4 & Hb4 & Hf4 & Ht4).
  { rewrite Hoff. lia. }
  exists x, v, nd, st4.
  assert (Hrun : set_removemin fuel l st = (Ok (key_at (heap st) v), st4)).
  { unfold set_removemin, critical_enter. rewrite bind_eq. cbn [log]. fold st1.
    rewrite (bind_ok _ _ _ _ _ Hstart), (bind_ok _ _ _ _ _ Hwalk), Hfin.
    unfold key_at. by rewrite Hvd, Hk'. }
  assert (Hheap : heap st4 = <[x := set_next nd 0 (v + 1)]> (heap st)).
  { by rewrite Hh4, Hh3. }
  destruct (Hr v ltac:(by eexists)) as [Hv0 Hv1].
  destruct (mark_by_add v Hvm Hv0 Hv1) as (_ & Hmk1 & Hun1).
  split_and!; try done.
  - by rewrite Hb4, Hb3, Hb2.
  - by rewrite Hf4, Hf3, Hf2.
  - intros a Ha. rewrite Hb4, Hb3, Hb2. apply Hrange.
    rewrite Hheap in Ha. by apply is_Some_set_next in Ha.
  - intros j' a Hj'. destruct (Hmark j' a Hj') as (w & Hwa & Hwm).
    unfold word_at in *. rewrite Hheap.
    destruct (decide (a = x)) as [->|Hne].
    + assert (j' = m) as -> by (eapply NoDup_lookup; eauto).
      rewrite lookup_insert_eq. cbn [set_next n_next].
      rewrite list_lookup_insert_eq by (by eapply lookup_lt_Some).
      eexists. split; [done|]. rewrite Hmk1. by rewrite bool_decide_eq_true_2 by lia.
    + rewrite lookup_insert_ne by done. exists w. split; [done|].
      rewrite Hwm. apply bool_decide_ext.
      assert (j' <> m) by (intros ->; congruence). lia.
  - intros _. exists (S m). split; [lia|]. rewrite Ht4. cbn [pt old_offset].
    split; [done|]. rewrite Hoff. lia.
Qed.

Lemma set_removemin_spec (st : state) (l : set_t) (t : Z)
    (L : nat -> list Z) (m fuel : nat) :
  (0 < NUM_LEVELS)%nat ->
  skiplist (heap st) l t L -> heap_range st -> brk st < WORD ->
  NoDup (head l :: L 0%nat) ->
  marked_upto (heap st) (head l :: L 0%nat) m -> (m <= length (L 0%nat))%nat ->
  cache_ok st l (head l :: L 0%nat ++ [t]) m ->
  Z.of_nat m + 1 <= max_offset l -> max_offset l <= INT_MAX ->
  (m < fuel)%nat ->
  exists x v nd st',
    (head l :: L 0%nat) !! m = Some x /\ (L 0%nat ++ [t]) !! m = Some v /\
    heap st !! x = Some nd /\ n_next nd !! 0%nat = Some v /\
    set_removemin fuel l st = (Ok (key_at (heap st) v), st') /\
    heap st' = <[x := set_next nd 0 (v + 1)]> (heap st) /\
    brk st' = brk st /\ freed st' = freed st /\
    skiplist (heap st') l t L /\ heap_range st' /\
    marked_upto (heap st') (head l :: L 0%nat) (S m) /\
    cache_ok st' l (head l :: L 0%nat ++ [t]) (S m).
Proof using Hoptim Hend.
  intros Hpos HSL Hrange Hbrk Hnd0 Hmark Hlen Hcache Hmo Hmax Hfuel.
  destruct (set_removemin_core st l t (L 0%nat) m fuel (sl_end _ _ _ _ HSL)
              (sl_chain _ _ _ _ HSL 0%nat Hpos))
    as (x & v & nd & st' & Hx & Hv & Hnd & Hw & Hrun & Hh & Hb & Hf & Hr & Hm & Hc);
    try done.
  { intros a [Ha|Ha]%elem_of_app.
    - by eapply (sl_nodes _ _ _ _ HSL 0%nat).
    - apply list_elem_of_singleton in Ha as ->. apply (sl_tail _ _ _ _ HSL). }
  exists x, v, nd, st'. split_and!; try done.
  destruct (Hmark m x Hx) as (w & Hwx & Hwm). unfold word_at in Hwx.
  rewrite Hnd, Hw in Hwx. injection Hwx as <-.
  rewrite bool_decide_eq_false_2 in Hwm by lia.
  assert (Hvin : is_Some (heap st !! v)).
  { apply list_elem_of_lookup_2 in Hv. apply elem_of_app in Hv as [Ha|Ha].
    - by eapply (sl_nodes _ _ _ _ HSL 0%nat).
    - apply list_elem_of_singleton in Ha as ->. apply (sl_tail _ _ _ _ HSL). }
  pose proof (Hrange v Hvin) as Hvr.
  destruct (mark_by_add v Hwm ltac:(lia) ltac:(lia)) as (_ & _ & Hun).
  rewrite Hh. eapply skiplist_retag; [done|done|done|].
  by rewrite Hun, (unmarked_id _ Hwm).
Qed.
End DeleteMin.
Lemma same_regs_refl st : same_regs st st.
Proof. done. Qed.

Lemma same_regs_trans st1 st2 st3 :
  same_regs st1 st2 -> same_regs st2 st3 -> same_regs st1 st3.
Proof. intros (a & b & c) (d & e & f). split_and!; congruence. Qed.

Section Keeps.

Lemma keeps_ret {A} (a : A) : preserves same_regs (ret a).
Proof. intros st. apply same_regs_refl. Qed.

Lemma keeps_fail {A} e : preserves same_regs (@fail A e).
Proof. intros st. apply same_regs_refl. Qed.

Lemma keeps_bind {A B} (m : M A) (f : A -> M B) :
  preserves same_regs m -> (forall a, preserves same_regs (f a)) ->
  preserves same_regs (bind m f).
Proof.
  intros Hm Hf st. rewrite bind_eq. specialize (Hm st).
  destruct (m st) as [[a|e] st1]; simpl in *; [|done].
  eapply same_regs_trans; [exact Hm|apply Hf].
Qed.

Lemma keeps_log e : preserves same_regs (log e).
Proof. done. Qed.

Lemma keeps_load_next n i : preserves same_regs (load_next n i).
Proof.
  intros st. rewrite load_next_eq.
  destruct (heap st !! n) as [nd|]; [|done]. by destruct (n_next nd !! i).
Qed.

Lemma keeps_load_k n : preserves same_regs (load_k n).
Proof. intros st. rewrite load_k_eq. by destruct (heap st !! n). Qed.

Lemma keeps_load_v n : preserves same_regs (load_v n).
Proof. intros st. rewrite load_v_eq. by destruct (heap st !! n). Qed.

Lemma keeps_load_level n : preserves same_regs (load_level n).
Proof. intros st. rewrite load_level_eq. by destruct (heap st !! n). Qed.

Lemma keeps_CASPO n i o nw : preserves same_regs (CASPO n i o nw).
Proof.
  intros st. rewrite CASPO_eq.
  destruct (heap st !! n) as [nd|]; [|done].
  destruct (n_next nd !! i) as [cur|]; [|done]. by destruct (cur =? o).
Qed.

Lemma keeps_FAA n i d : preserves same_regs (FAA n i d).
Proof.
  intros st. rewrite FAA_eq.
  destruct (heap st !! n) as [nd|]; [|done]. by destruct (n_next nd !! i).
Qed.

Lemma keeps_FAO n i d : preserves same_regs (FAO n i d).
Proof.
  intros st. rewrite FAO_eq.
  destruct (heap st !! n) as [nd|]; [|done]. by destruct (n_next nd !! i).
Qed.

Lemma keeps_store_next n i w : preserves same_regs (store_next n i w).
Proof.
  intros st. unfold store_next, poke_next, get_node, log, put_heap, bind. simpl.
  destruct (heap st !! n) as [nd|]; [|done]. by destruct (n_next nd !! i).
Qed.

Lemma keeps_store_k n w : preserves same_regs (store_k n w).
Proof.
  intros st. unfold store_k, get_node, log, put_heap, bind.
  by destruct (heap st !! n).
Qed.

Lemma keeps_store_v n w : preserves same_regs (store_v n w).
Proof.
  intros st. unfold store_v, get_node, log, put_heap, bind.
  by destruct (heap st !! n).
Qed.

Lemma keeps_store_level n w : preserves same_regs (store_level n w).
Proof.
  intros st. unfold store_level, get_node, log, put_heap, bind.
  by destruct (heap st !! n).
Qed.

Lemma keeps_arr_get a i : preserves same_regs (arr_get a i).
Proof. intros st. unfold arr_get. by destruct (a !! i). Qed.

Lemma keeps_c_assert {cfg : config} c :
  preserves same_regs c -> preserves same_regs (c_assert c).
Proof.
  intros Hc. unfold c_assert. destruct NDEBUG; [apply keeps_ret|].
  apply keeps_bind; [exact Hc|]. intros []; [apply keeps_ret|apply keeps_fail].
Qed.

End Keeps.

Create HintDb keeps.
#[global] Hint Resolve keeps_ret keeps_fail keeps_log keeps_load_next keeps_load_k
  keeps_load_v keeps_load_level keeps_CASPO keeps_FAA keeps_FAO keeps_store_next
  keeps_store_k keeps_store_v keeps_store_level keeps_arr_get : keeps.

Ltac keeps_step :=
  match goal with
  | |- preserves same_regs (bind _ _) => apply keeps_bind; [|intros ?]
  | |- preserves same_regs (c_assert _) => apply keeps_c_assert
  | |- preserves same_regs (if ?b then _ else _) => destruct b
  | |- preserves same_regs (match ?x with _ => _ end) => destruct x
  | |- preserves same_regs _ => solve [eauto with keeps]
  end.

Ltac keeps := repeat keeps_step.

Section SearchRegs.
Context {cfg : config}.

Lemma keeps_wsp_walk fuel k bef i x : preserves same_regs (wsp_walk fuel k bef i x).
Proof. revert x. induction fuel as [|fuel IH]; intros x; simpl; keeps. Qed.
Hint Resolve keeps_wsp_walk : keeps.

Lemma keeps_wsp_levels fuel k bef n x pa na :
  preserves same_regs (wsp_levels fuel k bef n x pa na).
Proof. revert x pa na. induction n as [|n IH]; intros x pa na; simpl; keeps. Qed.

Lemma keeps_wsh_walk fuel i x : preserves same_regs (wsh_walk fuel i x).
Proof. revert x. induction fuel as [|fuel IH]; intros x; simpl; keeps. Qed.
Hint Resolve keeps_wsh_walk : keeps.

Lemma keeps_wsh_levels fuel n x x_next :
  preserves same_regs (wsh_levels fuel n x x_next).
Proof. revert x x_next. induction n as [|n IH]; intros x x_next; simpl; keeps. Qed.

Lemma keeps_wse_walk fuel i x lvl : preserves same_regs (wse_walk fuel i x lvl).
Proof. revert x lvl. induction fuel as [|fuel IH]; intros x lvl; simpl; keeps. Qed.
Hint Resolve keeps_wse_walk : keeps.

Lemma keeps_wse_levels fuel n x lvl pa :
  preserves same_regs (wse_levels fuel n x lvl pa).
Proof. revert x lvl pa. induction n as [|n IH]; intros x lvl pa; simpl; keeps. Qed.

(** The search on a well-formed skip list, with the registers. *)
Lemma search_run h l t L k bef fuel pa na st :
  skiplist h l t L -> stops k bef (key_at h t) = true ->
  (forall i, (i < NUM_LEVELS)%nat -> (length (L i) < fuel)%nat) ->
  heap st = h -> length pa = NUM_LEVELS -> length na = NUM_LEVELS ->
  exists pa' na' st',
    weak_search_predecessors fuel l k (Some pa) (Some na) bef st
    = (Ok ((walk_list h k bef (head l) (L 0%nat) t).1, Some pa', Some na'), st') /\
    heap st' = h /\ same_regs st st' /\
    length pa' = NUM_LEVELS /\ length na' = NUM_LEVELS /\
    forall i, (i < NUM_LEVELS)%nat ->
      pa' !! i = Some (walk_list h k bef (head l) (L i) t).1 /\
      na' !! i = Some (walk_list h k bef (head l) (L i) t).2.
Proof.
  intros HSL Ht Hfuel Hh Hpa Hna.
  destruct (wsp_levels_spec h l t L k bef fuel HSL Ht Hfuel NUM_LEVELS (head l) pa na st)
    as (pa' & na' & st' & Hrun & Hh' & Hlp & Hln & Hs); [lia|done| |].
  { by rewrite (sl_top _ _ _ _ HSL). }
  exists pa', na', st'. split_and!; [done|done| |congruence|congruence|].
  - pose proof (keeps_wsp_levels fuel k bef NUM_LEVELS (head l) (Some pa) (Some na) st) as Hk.
    by rewrite Hrun in Hk.
  - intros i Hi. destruct (Hs i) as [[-> ->] _]; [done|].
    destruct (lookup_lt_is_Some_2 pa i) as [? ->]; [lia|].
    destruct (lookup_lt_is_Some_2 na i) as [? ->]; [lia|]. done.
Qed.

End SearchRegs.
(** ** The heap seen through [key_at] and [word_at] *)

Lemma next_at_word h a i : next_at h a i = get_unmarked_ref <$> word_at h a i.
Proof. unfold next_at, word_at. by destruct (h !! a). Qed.

Lemma load_k_view a st :
  is_Some (heap st !! a) ->
  load_k a st = (Ok (key_at (heap st) a), add_event (EvRead a FK) st).
Proof. intros [nd H]. rewrite load_k_eq. unfold key_at. by rewrite H. Qed.

Lemma load_next_view a i w st :
  word_at (heap st) a i = Some w ->
  load_next a i st = (Ok w, add_event (EvRead a (FNext i)) st).
Proof.
  unfold word_at. intros H. rewrite load_next_eq.
  destruct (heap st !! a); [|done]. by rewrite H.
Qed.

Lemma CASPO_view a i cur o nw st :
  word_at (heap st) a i = Some cur ->
  CASPO a i o nw st
  = (Ok cur, add_event (EvCAS a i o nw)
               (if cur =? o then with_heap (poke (heap st) a i nw) st else st)).
Proof.
  unfold word_at, poke. intros H. rewrite CASPO_eq.
  destruct (heap st !! a); [|done]. by rewrite H.
Qed.

Lemma word_at_poke h a i w b j :
  word_at (poke h a i w) b j
  = if decide (b = a /\ j = i /\ is_Some (word_at h a i)) then Some w
    else word_at h b j.
Proof.
  unfold poke, word_at. destruct (h !! a) as [nd|] eqn:Ha.
  - destruct (decide (b = a)) as [->|Hne].
    + rewrite lookup_insert_eq. cbn [set_next n_next]. rewrite Ha.
      destruct (decide (j = i)) as [->|Hji].
      * destruct (n_next nd !! i) as [c|] eqn:Hi.
        -- rewrite list_lookup_insert_eq by (by eapply lookup_lt_Some).
           rewrite decide_True; [done|]. split_and!; eauto.
        -- rewrite list_insert_ge by (by apply lookup_ge_None_1).
           rewrite Hi. rewrite decide_False; [done|]. intros (_ & _ & [? ?]). done.
      * rewrite list_lookup_insert_ne by done.
        rewrite decide_False; [done|]. intros (_ & ? & _). done.
    + rewrite lookup_insert_ne by done.
      rewrite decide_False; [done|]. intros (? & _). done.
  - rewrite decide_False; [done|]. intros (_ & _ & [? ?]). done.
Qed.

Lemma key_at_poke h a i w b : key_at (poke h a i w) b = key_at h b.
Proof.
  unfold poke. destruct (h !! a) as [nd|] eqn:Ha; [|done]. by apply key_at_set_next.
Qed.

Lemma is_Some_poke h a i w b : is_Some (poke h a i w !! b) <-> is_Some (h !! b).
Proof.
  unfold poke. destruct (h !! a) as [nd|] eqn:Ha; [|done]. by apply is_Some_set_next.
Qed.

Lemma key_at_link_heap h ps new n b : key_at (link_heap h ps new n) b = key_at h b.
Proof. induction n as [|n IH]; [done|]. simpl. by rewrite key_at_poke. Qed.

Lemma is_Some_link_heap h ps new n b :
  is_Some (link_heap h ps new n !! b) <-> is_Some (h !! b).
Proof. induction n as [|n IH]; [done|]. simpl. by rewrite is_Some_poke. Qed.

Lemma word_at_link_heap h ps new n b j :
  word_at (link_heap h ps new n) b j
  = if decide ((j < n)%nat /\ default 0 (ps !! j) = b /\ is_Some (word_at h b j))
    then Some new else word_at h b j.
Proof.
  revert b j. induction n as [|n IH]; intros b j.
  - cbn [link_heap]. destruct (decide _) as [(? & _)|]; [lia|done].
  - cbn [link_heap]. rewrite word_at_poke.
    assert (Hp : is_Some (word_at (link_heap h ps new n) (default 0 (ps !! n)) n)
                 <-> is_Some (word_at h (default 0 (ps !! n)) n)).
    { rewrite IH. destruct (decide _) as [(? & _)|_]; [lia|done]. }
    rewrite (IH b j).
    destruct (decide ((j < S n)%nat /\ _ /\ _)) as [(H1 & H2 & H3)|H].
    + destruct (decide (j = n)) as [->|Hne].
      * rewrite decide_True; [done|]. split_and!; [done|done|]. apply Hp. by rewrite H2.
      * rewrite decide_False by (intros (_ & ? & _); done).
        rewrite decide_True; [done|]. split_and!; [lia|done|done].
    + rewrite decide_False.
      * rewrite decide_False; [done|]. intros (? & ? & ?). apply H. split_and!; [lia|done|done].
      * intros (-> & -> & Hs). apply H. split_and!; [lia|done|]. by apply Hp.
Qed.
Section InsertRun.
Context {cfg : config}.

Lemma new_node_run r lv k v st :
  get_level r = Some lv ->
  exists st',
    (new <- alloc_node r ;; store_k new k ;;; store_v new v ;;; ret new) st
    = (Ok (align64 (brk st)), st') /\
    heap st' = <[align64 (brk st) := Node k lv v (replicate (Z.to_nat lv) 0)]> (heap st) /\
    brk st' = align64 (brk st) + pool_size lv /\
    freed st' = freed st /\ tl st' = tl st.
Proof.
  intros Hlv. unfold alloc_node. rewrite Hlv.
  unfold gc_alloc, store_level, store_k, store_v, get_node, log, put_heap, with_heap,
    add_event, bind, ret.
  cbn [heap brk freed tl trace]. rewrite lookup_insert_eq. cbn [heap brk freed tl trace].
  rewrite lookup_insert_eq. cbn [heap brk freed tl trace n_k n_level n_v n_next].
  rewrite lookup_insert_eq. cbn [heap brk freed tl trace n_k n_level n_v n_next].
  eexists. split; [reflexivity|]. cbn [heap brk freed tl].
  rewrite !insert_insert_eq. done.
Qed.

Lemma init_next_run new succs :
  forall cnt i nd st,
    heap st !! new = Some nd ->
    length (n_next nd) = (i + cnt)%nat -> (i + cnt <= length succs)%nat ->
    exists st',
      init_next new succs i cnt st = (Ok tt, st') /\
      heap st' = <[new := Node (n_k nd) (n_level nd) (n_v nd)
                            (take i (n_next nd) ++ take cnt (drop i succs))]> (heap st) /\
      same_regs st st'.
Proof.
  induction cnt as [|cnt IH]; intros i nd st Hnd Hlen Hsuccs.
  - exists st. split_and!; [done| |done]. simpl.
    rewrite app_nil_r, take_ge by lia. destruct nd. simpl. by rewrite insert_id.
  - cbn [init_next].
    destruct (lookup_lt_is_Some_2 succs i) as [s Hs]; [lia|].
    unfold arr_get. rewrite Hs. rewrite (bind_ok _ _ st s st) by done.
    destruct (lookup_lt_is_Some_2 (n_next nd) i) as [c Hc]; [lia|].
    assert (Hstore : store_next new i s st
              = (Ok tt, with_heap (<[new := set_next nd i s]> (heap st))
                          (add_event (EvWrite new (FNext i) s) st))).
    { unfold store_next, poke_next, get_node, log, put_heap, bind. simpl.
      by rewrite Hnd, Hc. }
    rewrite (bind_ok _ _ _ _ _ Hstore).
    destruct (IH (S i) (set_next nd i s) (with_heap (<[new := set_next nd i s]> (heap st))
                          (add_event (EvWrite new (FNext i) s) st)))
      as (st' & Hrun & Hh & Hr).
    { simpl. by rewrite lookup_insert_eq. }
    { simpl. rewrite length_insert. lia. }
    { lia. }
    exists st'. split_and!; [done| |done].
    rewrite Hh. cbn [heap with_heap set_next n_k n_level n_v n_next].
    rewrite insert_insert_eq. do 2 f_equal.
    rewrite (take_S_r _ _ s) by (apply list_lookup_insert_eq; by eapply lookup_lt_Some).
    rewrite take_insert_ge by lia.
    rewrite (drop_S _ _ _ Hs). simpl. by rewrite <- app_assoc.
Qed.


Lemma c_assert_key_le p k st :
  is_Some (heap st !! p) -> (NDEBUG = true \/ key_at (heap st) p <= k) ->
  exists st',
    c_assert (pred_k <- load_k p ;; ret (pred_k <=? k)) st = (Ok tt, st') /\
    heap st' = heap st /\ same_regs st st'.
Proof.
  intros Hp Hk. unfold c_assert. destruct NDEBUG eqn:Hnd.
  - exists st. done.
  - destruct Hk as [?|Hk]; [done|].
    rewrite bind_eq, bind_eq, (load_k_view _ _ Hp). cbn [ret].
    apply Z.leb_le in Hk. rewrite Hk. eexists. split_and!; [reflexivity|done|done].
Qed.

Lemma link_levels_run fuel l k new lv (lvn : nat) preds succs hD :
  lv = Z.of_nat lvn ->
  key_at hD new = k -> is_Some (hD !! new) ->
  (forall i, (1 <= i < lvn)%nat ->
     exists p s, preds !! i = Some p /\ succs !! i = Some s /\
                 word_at hD p i = Some s /\ word_at hD new i = Some s /\
                 (NDEBUG = true \/ key_at hD p <= k)) ->
  forall d i n st,
    lvn = (i + d)%nat -> (1 <= i)%nat ->
    heap st = link_heap hD preds new i -> (d < n)%nat ->
    exists st',
      link_levels fuel n l k new lv preds succs i st = (Ok tt, st') /\
      heap st' = link_heap hD preds new lvn /\ same_regs st st'.
Proof.
  intros Hlv Hk Hnew Hlev.
  induction d as [|d IH]; intros i n st Hi Hi1 Hh Hn; (destruct n as [|n]; [lia|]);
    cbn [link_levels].
  - assert ((Z.of_nat i <? lv) = false) as -> by (apply Z.ltb_ge; lia).
    exists st. assert (lvn = i) as -> by lia. done.
  - assert ((Z.of_nat i <? lv) = true) as -> by (apply Z.ltb_lt; lia). cbn [negb].
    destruct (Hlev i ltac:(lia)) as (p & s & Hp & Hs & Hwp & Hwn & Hkp).
    unfold arr_get at 1 2. rewrite Hp, Hs.
    rewrite (bind_ok _ _ st p st), (bind_ok _ _ st s st) by done.
    assert (Hnew' : is_Some (heap st !! new)) by (rewrite Hh; by apply is_Some_link_heap).
    rewrite (bind_ok _ _ _ _ _ (load_k_view _ _ Hnew')).
    replace (key_at (heap st) new) with k by (by rewrite Hh, key_at_link_heap).
    rewrite Z.eqb_refl. cbn [negb].
    set (st1 := add_event _ st).
    assert (Hwn1 : word_at (heap st1) new i = Some s).
    { unfold st1. cbn [heap add_event]. rewrite Hh, word_at_link_heap.
      destruct (decide _) as [(? & _)|_]; [lia|done]. }
    rewrite (bind_ok _ _ _ _ _ (load_next_view _ _ _ _ Hwn1)).
    rewrite Z.eqb_refl. cbn [negb]. rewrite (bind_ok _ _ _ false _) by done.
    set (st2 := add_event _ st1).
    assert (Hwp' : is_Some (hD !! p)).
    { unfold word_at in Hwp. destruct (hD !! p); [eauto|done]. }
    destruct (c_assert_key_le p k st2) as (st3 & Hrun3 & Hh3 & Hr3).
    { unfold st2, st1. cbn [heap add_event]. rewrite Hh. by apply is_Some_link_heap. }
    { unfold st2, st1. cbn [heap add_event]. by rewrite Hh, key_at_link_heap. }
    rewrite (bind_ok _ _ _ _ _ Hrun3).
    assert (Hwp3 : word_at (heap st3) p i = Some s).
    { rewrite Hh3. unfold st2, st1. cbn [heap add_event]. rewrite Hh, word_at_link_heap.
      destruct (decide _) as [(? & _)|_]; [lia|done]. }
    rewrite (bind_ok _ _ _ _ _ (CASPO_view _ _ _ _ _ _ Hwp3)).
    rewrite Z.eqb_refl. cbn [negb].
    match goal with |- context [link_levels _ _ _ _ _ _ _ _ _ ?s] =>
      destruct (IH (S i) n s) as (st' & Hrun & Hh' & Hr'); [lia|lia| |lia|] end.
    { cbn [heap add_event with_heap link_heap]. rewrite Hh3. unfold st2, st1.
      cbn [heap add_event]. by rewrite Hh, Hp. }
    exists st'. split_and!; [done|done|].
    eapply same_regs_trans; [|exact Hr'].
    eapply same_regs_trans; [|eapply same_regs_trans; [exact Hr3|]]; done.
Qed.

End InsertRun.
Lemma chain_ext_on h h' i x ns t :
  (forall a, a ∈ x :: ns -> next_at h' a i = next_at h a i) ->
  chain h i x ns t -> chain h' i x ns t.
Proof.
  revert x. induction ns as [|n ns IH]; intros x He; simpl.
  - rewrite He by (by left). done.
  - rewrite He by (by left). intros [? ?]. split; [done|].
    apply IH; [|done]. intros a Ha. apply He. by right.
Qed.

Lemma sorted_ext_on (f g : Z -> Z) ns :
  (forall a, a ∈ ns -> g a = f a) ->
  StronglySorted (fun a b => f a <= f b) ns -> StronglySorted (fun a b => g a <= g b) ns.
Proof.
  intros He Hs. induction Hs as [|a ns Hs IH Ha]; constructor.
  - apply IH. intros b Hb. apply He. by right.
  - rewrite Forall_forall in Ha. apply Forall_forall. intros b Hb.
    rewrite !He; [by apply Ha|by right|by left].
Qed.

Lemma walk_list_ext h h' k bef t ns :
  (forall a, a ∈ ns -> key_at h' a = key_at h a) ->
  forall x, walk_list h' k bef x ns t = walk_list h k bef x ns t.
Proof.
  induction ns as [|n ns IH]; intros He x; [done|]. simpl.
  rewrite He by (by left). destruct (stops k bef (key_at h n)); [done|].
  apply IH. intros a Ha. apply He. by right.
Qed.

Lemma next_at_insert_ne (h : gmap Z node_t) new nd a i :
  a <> new -> next_at (<[new := nd]> h) a i = next_at h a i.
Proof. intros Hne. unfold next_at. by rewrite lookup_insert_ne. Qed.

Lemma key_at_insert_ne (h : gmap Z node_t) new nd a :
  a <> new -> key_at (<[new := nd]> h) a = key_at h a.
Proof. intros Hne. unfold key_at. by rewrite lookup_insert_ne. Qed.

Lemma word_at_insert_ne (h : gmap Z node_t) new nd a i :
  a <> new -> word_at (<[new := nd]> h) a i = word_at h a i.
Proof. intros Hne. unfold word_at. by rewrite lookup_insert_ne. Qed.

Section Fresh.
Context {cfg : config}.

Lemma skiplist_head_node h l t L :
  (0 < NUM_LEVELS)%nat -> skiplist h l t L -> is_Some (h !! head l).
Proof.
  intros Hpos HSL. pose proof (sl_chain _ _ _ _ HSL 0%nat Hpos) as Hc.
  assert (is_Some (next_at h (head l) 0)) as [y Hy].
  { destruct (L 0%nat); simpl in Hc; [eauto|]. destruct Hc; eauto. }
  unfold next_at in Hy. destruct (h !! head l); [eauto|done].
Qed.

(** A node that is not linked anywhere does not change the lists. *)
Lemma skiplist_fresh h l t L new nd :
  (0 < NUM_LEVELS)%nat ->
  skiplist h l t L -> h !! new = None -> new <> END ->
  skiplist (<[new := nd]> h) l t L.
Proof.
  intros Hpos HSL Hnew Hend.
  assert (Hne : forall a, is_Some (h !! a) -> a <> new).
  { intros a [x Ha] ->. congruence. }
  assert (Hin : forall i a, (i < NUM_LEVELS)%nat -> a ∈ head l :: L i -> a <> new).
  { intros i a Hi [->|Ha]%elem_of_cons; apply Hne.
    - by eapply skiplist_head_node.
    - by eapply (sl_nodes _ _ _ _ HSL). }
  destruct HSL as [H1 H2 H3 H4 H5 H6 H7]. constructor; try done.
  - by rewrite lookup_insert_ne.
  - rewrite lookup_insert_ne; [done|]. intros <-. destruct H3. congruence.
  - intros i Hi. eapply chain_ext_on; [|by apply H4].
    intros a Ha. apply next_at_insert_ne. by eapply Hin.
  - intros i a Hi Ha. rewrite lookup_insert_ne; [by eapply H5|].
    intros <-. eapply Hin; [done| |done]. by right.
  - intros i Hi. eapply (sorted_ext_on (key_at h)); [|by apply H6].
    intros a Ha. apply key_at_insert_ne. eapply Hin; [done|]. by right.
Qed.

End Fresh.
(** ** The list of a level after an insertion *)

Lemma place_split h k new ns t :
  forall x, exists A B,
    ns = A ++ B /\ place h k new ns = A ++ new :: B /\
    (walk_list h k false x ns t).1 = default x (last A) /\
    (walk_list h k false x ns t).2 = default t (B !! 0%nat).
Proof.
  induction ns as [|n ns IH]; intros x.
  - exists [], []. done.
  - simpl. unfold stops. rewrite orb_false_r.
    destruct (key_at h n >? k) eqn:Hn.
    + exists [], (n :: ns). done.
    + destruct (IH n) as (A & B & -> & Hp & H1 & H2).
      exists (n :: A), B. split_and!; [done|by rewrite Hp|..].
      * rewrite H1, last_cons. by destruct (last A).
      * done.
Qed.

Lemma elem_of_place h k new ns a : a ∈ place h k new ns <-> a = new \/ a ∈ ns.
Proof.
  induction ns as [|n ns IH]; simpl.
  - rewrite list_elem_of_singleton, elem_of_nil. tauto.
  - destruct (key_at h n >? k).
    + rewrite !elem_of_cons. tauto.
    + rewrite !elem_of_cons, IH. tauto.
Qed.

Lemma place_perm h k new ns : place h k new ns ≡ₚ new :: ns.
Proof.
  induction ns as [|n ns IH]; simpl; [done|].
  destruct (key_at h n >? k); [done|]. rewrite IH. apply Permutation_swap.
Qed.

Lemma place_sorted h (g : Z -> Z) k new ns :
  (forall a, a ∈ ns -> g a = key_at h a) -> g new = k ->
  StronglySorted (fun a b => g a <= g b) ns ->
  StronglySorted (fun a b => g a <= g b) (place h k new ns).
Proof.
  intros Hg Hnew Hs. induction Hs as [|n ns Hs IH Hn]; simpl.
  - repeat constructor.
  - destruct (key_at h n >? k) eqn:Hk.
    + constructor; [by constructor|].
      rewrite Forall_forall in Hn. apply Forall_forall. intros b Hb.
      assert (g n = key_at h n) by (apply Hg; by left).
      apply elem_of_cons in Hb as [->|Hb]; [lia|]. specialize (Hn b Hb). simpl in Hn. lia.
    + constructor.
      * apply IH. intros a Ha. apply Hg. by right.
      * rewrite Forall_forall in Hn. apply Forall_forall. intros b Hb.
        apply elem_of_place in Hb as [->|Hb]; [|by apply Hn].
        rewrite Hg by (by left). lia.
Qed.

(** Linking [new] between the predecessor and the successor that the
    walk has found turns the chain of a level into the chain of the
    level with [new] in its place. *)
Lemma chain_place h h' i x A B t new :
  chain h i x (A ++ B) t -> NoDup (x :: A ++ B) ->
  (forall a, a ∈ x :: A ++ B -> a <> default x (last A) ->
             next_at h' a i = next_at h a i) ->
  next_at h' (default x (last A)) i = Some new ->
  next_at h' new i = Some (default t (B !! 0%nat)) ->
  chain h' i x (A ++ new :: B) t.
Proof.
  revert x. induction A as [|a A IH]; intros x Hc Hnd Hsame Hp Hn.
  - simpl in *. split; [done|].
    apply NoDup_cons in Hnd as [Hx HB].
    destruct B as [|b B]; simpl in *; [done|].
    destruct Hc as [_ Hc]. split; [done|].
    eapply chain_ext_on; [|exact Hc].
    intros c Hc'. apply Hsame; [by right|]. intros ->. done.
  - simpl in Hc. destruct Hc as [Hx Hc]. simpl.
    apply NoDup_cons in Hnd as [Hxn Hnd].
    assert (Hlast : default x (last (a :: A)) = default a (last A)).
    { rewrite last_cons. by destruct (last A). }
    rewrite Hlast in *.
    assert (Hpin : default a (last A) ∈ a :: A ++ B).
    { destruct (last A) as [z|] eqn:Hl; simpl.
      - right. apply elem_of_app. left. apply last_Some in Hl as [A' ->].
        apply elem_of_app. right. by left.
      - by left. }
    split.
    + rewrite Hsame; [done|by left|]. intros ->. done.
    + apply IH; [done|done| |done|done].
      intros c Hc' Hne. apply Hsame; [by right|done].
Qed.

Lemma scalars_poke h a i w b nd :
  h !! b = Some nd ->
  exists nd', poke h a i w !! b = Some nd' /\
              n_k nd' = n_k nd /\ n_level nd' = n_level nd /\ n_v nd' = n_v nd.
Proof.
  intros Hb. unfold poke. destruct (h !! a) as [na|] eqn:Ha; [|eauto].
  destruct (decide (b = a)) as [->|Hne].
  - rewrite lookup_insert_eq. eexists. split; [done|]. simpl. by simplify_eq.
  - rewrite lookup_insert_ne by done. eauto.
Qed.

Lemma scalars_link_heap h ps new n b nd :
  h !! b = Some nd ->
  exists nd', link_heap h ps new n !! b = Some nd' /\
              n_k nd' = n_k nd /\ n_level nd' = n_level nd /\ n_v nd' = n_v nd.
Proof.
  intros Hb. induction n as [|n (nd1 & H1 & Hk & Hl & Hv)]; [eauto|]. cbn [link_heap].
  destruct (scalars_poke _ (default 0 (ps !! n)) n new b nd1 H1) as (nd' & H' & ? & ? & ?).
  exists nd'. split_and!; congruence.
Qed.

Section Insert.
Context {cfg : config}.
Context (st : state) (l : set_t) (t : Z) (L : nat -> list Z) (k v r lv : Z) (fuel : nat).
Context (Hnum : (1 <= NUM_LEVELS <= 32)%nat) (Hend : Z.land END 63 <> 0).
Context (Hq : queue_ok st l t L).
Context (Hkey : key_at (heap st) (head l) <= k < key_at (heap st) t).
Context (Hfuel : forall i, (i < NUM_LEVELS)%nat -> (length (L i) < fuel)%nat).
Context (Hfuel' : (NUM_LEVELS <= fuel)%nat).
Context (Hlv : get_level r = Some lv).

Local Abbreviation h := (heap st).
Local Abbreviation new := (align64 (brk st)).
Local Abbreviation lvn := (Z.to_nat lv).
Local Abbreviation P := (fun i => (walk_list (heap st) k false (head l) (L i) t).1).
Local Abbreviation S' := (fun i => (walk_list (heap st) k false (head l) (L i) t).2).

Lemma ins_level : 1 <= lv <= Z.of_nat NUM_LEVELS.
Proof using All.
  destruct (get_level_range r Hnum) as (l' & Hl' & Hr). congruence.
Qed.

Lemma ins_head : is_Some (h !! head l).
Proof using All. eapply skiplist_head_node; [lia|apply Hq]. Qed.

Lemma ins_brk : 0 < brk st.
Proof using All. pose proof (qo_range _ _ _ _ Hq _ ins_head). lia. Qed.

Lemma ins_new_fresh : h !! new = None.
Proof using All.
  destruct (h !! new) eqn:E; [|done].
  pose proof (qo_range _ _ _ _ Hq new ltac:(by eexists)).
  pose proof (align64_bounds (brk st)). lia.
Qed.

Lemma ins_new_END : new <> END.
Proof using All. intros E. rewrite <- E in Hend. by rewrite align64_aligned in Hend. Qed.

Lemma ins_old a : is_Some (h !! a) -> a <> new.
Proof using All. intros [x Ha] ->. pose proof ins_new_fresh. congruence. Qed.

Lemma ins_node i a : (i < NUM_LEVELS)%nat -> a ∈ head l :: L i -> is_Some (h !! a).
Proof using All.
  intros Hi [->|Ha]%elem_of_cons; [apply ins_head|].
  by eapply (sl_nodes _ _ _ _ (qo_list _ _ _ _ Hq)).
Qed.

Lemma ins_P_in i : (i < NUM_LEVELS)%nat -> P i ∈ head l :: L i.
Proof using All.
  intros Hi. destruct (walk_list_fst h k false (head l) (L i) t) as [->|[Hin _]].
  - by left.
  - by right.
Qed.

Lemma ins_P_key i : (i < NUM_LEVELS)%nat -> key_at h (P i) <= k.
Proof using All.
  intros Hi. destruct (walk_list_fst h k false (head l) (L i) t) as [->|[_ Hs]].
  - lia.
  - by apply (stops_false k false) in Hs.
Qed.

(** The word in the predecessor is the successor itself: no mark. *)
Lemma ins_P_word i : (i < NUM_LEVELS)%nat -> word_at h (P i) i = Some (S' i).
Proof using All.
  intros Hi.
  pose proof (walk_list_adjacent h k false i t (L i) (head l)
                (sl_chain _ _ _ _ (qo_list _ _ _ _ Hq) i Hi)) as Hadj.
  destruct (qo_unmarked _ _ _ _ Hq i (P i) Hi (ins_P_in i Hi)) as (w & Hw & Hm).
  rewrite next_at_word, Hw in Hadj. simpl in Hadj.
  rewrite (unmarked_id _ Hm) in Hadj. congruence.
Qed.


Lemma set_update_run :
  exists preds succs st',
    set_update fuel l k v r st = (Ok tt, st') /\
    heap st' = link_heap (<[new := Node k lv v (take lvn succs)]> h) preds new lvn /\
    brk st' = new + pool_size lv /\ freed st' = freed st /\ tl st' = tl st /\
    length preds = NUM_LEVELS /\ length succs = NUM_LEVELS /\
    forall i, (i < NUM_LEVELS)%nat -> preds !! i = Some (P i) /\ succs !! i = Some (S' i).
Proof using All.
  pose proof ins_level as Hlvr.
  set (st0 := add_event EvEnter st).
  destruct (new_node_run r lv k v st0 Hlv) as (stA & HrunA & HhA & HbA & HfA & HtA).
  change (brk st0) with (brk st) in *. change (heap st0) with h in *.
  set (ndA := Node k lv v (replicate lvn 0)) in *.
  assert (HnewA : heap stA !! new = Some ndA) by (by rewrite HhA, lookup_insert_eq).
  set (stB := add_event (EvRead new FLevel) stA).
  assert (HSL : skiplist (<[new := ndA]> h) l t L).
  { apply skiplist_fresh; [lia|apply Hq|apply ins_new_fresh|apply ins_new_END]. }
  assert (Hwl : forall i, (i < NUM_LEVELS)%nat ->
            walk_list (<[new := ndA]> h) k false (head l) (L i) t
            = walk_list h k false (head l) (L i) t).
  { intros i Hi. apply walk_list_ext. intros a Ha. apply key_at_insert_ne.
    apply ins_old. eapply ins_node; [done|]. by right. }
  assert (Htail : t <> new).
  { apply ins_old. apply (sl_tail _ _ _ _ (qo_list _ _ _ _ Hq)). }
  destruct (search_run (<[new := ndA]> h) l t L k false fuel
              (replicate NUM_LEVELS 0) (replicate NUM_LEVELS 0) stB HSL)
    as (preds & succs & stC & HrunC & HhC & HrC & Hlp & Hls & Hps).
  { apply (stops_true k false). rewrite key_at_insert_ne by done. lia. }
  { done. }
  { done. }
  { by rewrite length_replicate. }
  { by rewrite length_replicate. }
  assert (Hps' : forall i, (i < NUM_LEVELS)%nat ->
            preds !! i = Some (P i) /\ succs !! i = Some (S' i)).
  { intros i Hi. destruct (Hps i Hi) as [-> ->]. by rewrite Hwl. }
  destruct (init_next_run new succs lvn 0 ndA stC) as (stD & HrunD & HhD & HrD).
  { by rewrite HhC, lookup_insert_eq. }
  { simpl. by rewrite length_replicate. }
  { lia. }
  cbn [take drop app n_k n_level n_v ndA] in HhD.
  rewrite HhC, insert_insert_eq in HhD.
  set (hD := <[new := Node k lv v (take lvn succs)]> h) in *.
  destruct (Hps' 0%nat ltac:(lia)) as [Hp0 Hs0].
  assert (HPnew : forall i, (i < NUM_LEVELS)%nat -> P i <> new).
  { intros i Hi. apply ins_old. eapply ins_node; [done|]. by apply ins_P_in. }
  assert (HwD : forall i, (i < NUM_LEVELS)%nat -> word_at hD (P i) i = Some (S' i)).
  { intros i Hi. unfold hD. rewrite word_at_insert_ne by (by apply HPnew).
    by apply ins_P_word. }
  set (stE := add_event (EvCAS (P 0%nat) 0 (S' 0%nat) new)
                (with_heap (poke (heap stD) (P 0%nat) 0 new) stD)).
  assert (HrunE : CASPO (P 0%nat) 0 (S' 0%nat) new stD = (Ok (S' 0%nat), stE)).
  { rewrite (CASPO_view _ _ (S' 0%nat)) by (rewrite HhD; apply HwD; lia).
    by rewrite Z.eqb_refl. }
  destruct (link_levels_run fuel l k new lv lvn preds succs hD) with
    (d := (lvn - 1)%nat) (i := 1%nat) (n := fuel) (st := stE)
    as (stF & HrunF & HhF & HrF).
  { lia. }
  { unfold hD, key_at. by rewrite lookup_insert_eq. }
  { unfold hD. by rewrite lookup_insert_eq. }
  { intros i Hi. destruct (Hps' i ltac:(lia)) as [Hpi Hsi].
    exists (P i), (S' i). split_and!; [done|done|apply HwD; lia| |].
    - unfold hD, word_at. rewrite lookup_insert_eq. cbn [n_next].
      rewrite lookup_take_lt by lia. done.
    - right. unfold hD. rewrite key_at_insert_ne by (apply HPnew; lia).
      apply ins_P_key. lia. }
  { lia. }
  { lia. }
  { unfold stE. cbn [heap add_event with_heap link_heap]. by rewrite HhD, Hp0. }
  { lia. }
  assert (Hretry : set_update_retry fuel (S (fuel - 1)) l k v r NULL
            (replicate NUM_LEVELS 0) (replicate NUM_LEVELS 0) st0 = (Ok tt, stF)).
  { cbn [set_update_retry]. change (NULL =? NULL) with true. cbv iota.
    rewrite (bind_ok _ _ _ _ _ HrunA).
    rewrite (bind_ok _ _ stA lv stB) by (by rewrite load_level_eq, HnewA).
    rewrite (bind_ok _ _ _ _ _ HrunC). cbn [fst snd default from_option id].
    unfold arr_get at 1. rewrite Hs0. rewrite (bind_ok _ _ stC (S' 0%nat) stC) by done.
    rewrite (bind_ok _ _ _ _ _ HrunD).
    unfold arr_get at 1. rewrite Hp0. rewrite (bind_ok _ _ stD (P 0%nat) stD) by done.
    rewrite (bind_ok _ _ _ _ _ HrunE). rewrite Z.eqb_refl. cbn [negb].
    exact HrunF. }
  assert (Hregs : same_regs stA stF).
  { eapply same_regs_trans; [|exact HrF].
    eapply same_regs_trans; [exact HrC|]. eapply same_regs_trans; [exact HrD|]. done. }
  destruct Hregs as (Hb & Hf & Ht).
  exists preds, succs, (add_event EvExit stF).
  split_and!; [|done| | | |done|done|done].
  - unfold set_update, critical_enter, critical_exit.
    rewrite bind_eq. cbn [log]. fold st0.
    replace (set_update_retry fuel fuel) with (set_update_retry fuel (S (fuel - 1)))
      by (f_equal; lia).
    rewrite bind_eq, Hretry. done.
  - cbn [brk add_event]. by rewrite Hb, HbA.
  - cbn [freed add_event]. by rewrite Hf, HfA.
  - cbn [tl add_event]. by rewrite Ht, HtA.
Qed.


(** *** The heap after the insertion *)

Local Abbreviation L' :=
  (fun i => if (i <? lvn)%nat then place (heap st) k new (L i) else L i).

Section Final.
Context (preds succs : list Z).
Context (Hps : forall i, (i < NUM_LEVELS)%nat ->
           preds !! i = Some (P i) /\ succs !! i = Some (S' i)).

Local Abbreviation hD := (<[new := Node k lv v (take lvn succs)]> (heap st)).
Local Abbreviation HF := (link_heap hD preds new lvn).

Lemma fin_dom a : is_Some (HF !! a) <-> a = new \/ is_Some (h !! a).
Proof using All.
  rewrite is_Some_link_heap. destruct (decide (a = new)) as [->|Hne].
  - rewrite lookup_insert_eq. split; eauto.
  - rewrite lookup_insert_ne by done. split; [eauto|]. intros [?|?]; done.
Qed.

Lemma fin_key_new : key_at HF new = k.
Proof using All. rewrite key_at_link_heap. unfold key_at. by rewrite lookup_insert_eq. Qed.

Lemma fin_key_old a : a <> new -> key_at HF a = key_at h a.
Proof using All. intros Hne. by rewrite key_at_link_heap, key_at_insert_ne. Qed.

Lemma fin_word a i :
  (i < NUM_LEVELS)%nat ->
  word_at HF a i
  = if decide ((i < lvn)%nat /\ a = P i) then Some new
    else if decide (a = new) then take lvn succs !! i
    else word_at h a i.
Proof using All.
  intros Hi. pose proof ins_level as Hlvr. rewrite word_at_link_heap.
  destruct (Hps i Hi) as [Hp Hs]. rewrite Hp. cbn [default from_option id].
  assert (HPnew : P i <> new).
  { apply ins_old. eapply ins_node; [done|]. by apply ins_P_in. }
  destruct (decide ((i < lvn)%nat /\ a = P i)) as [[Hlt ->]|Hno].
  - rewrite decide_True; [done|]. split_and!; [done|done|].
    rewrite word_at_insert_ne by done. rewrite ins_P_word by done. eauto.
  - rewrite decide_False by (intros (? & ? & _); apply Hno; done).
    destruct (decide (a = new)) as [->|Hne].
    + unfold word_at. by rewrite lookup_insert_eq.
    + by rewrite word_at_insert_ne.
Qed.


Lemma ins_S_unmarked i : (i < NUM_LEVELS)%nat -> is_marked_ref (S' i) = false.
Proof using All.
  intros Hi.
  destruct (qo_unmarked _ _ _ _ Hq i (P i) Hi (ins_P_in i Hi)) as (w & Hw & Hm).
  rewrite ins_P_word in Hw by done. congruence.
Qed.

Lemma ins_new_unmarked : is_marked_ref new = false /\ get_unmarked_ref new = new.
Proof using All. apply aligned_unmarked, align64_aligned. Qed.

Lemma fin_next_old a i :
  (i < NUM_LEVELS)%nat -> a <> new -> ~ ((i < lvn)%nat /\ a = P i) ->
  next_at HF a i = next_at h a i.
Proof using All.
  intros Hi Hne Hno. rewrite !next_at_word, fin_word by done.
  by rewrite decide_False, decide_False.
Qed.

Lemma fin_next_pred i : (i < lvn)%nat -> next_at HF (P i) i = Some new.
Proof using All.
  intros Hi. pose proof ins_level. rewrite next_at_word, fin_word by lia.
  rewrite decide_True by done. simpl. f_equal. apply ins_new_unmarked.
Qed.

Lemma fin_next_new i : (i < lvn)%nat -> next_at HF new i = Some (S' i).
Proof using All.
  intros Hi. pose proof ins_level. rewrite next_at_word, fin_word by lia.
  rewrite decide_False.
  - rewrite decide_True by done. rewrite lookup_take_lt by done.
    destruct (Hps i ltac:(lia)) as [_ ->]. simpl. f_equal.
    apply unmarked_id, ins_S_unmarked. lia.
  - intros [_ E]. symmetry in E. revert E. apply ins_old.
    eapply ins_node; [|apply ins_P_in]; lia.
Qed.

Lemma fin_chain i : (i < NUM_LEVELS)%nat -> chain HF i (head l) (L' i) t.
Proof using All.
  intros Hi. pose proof (sl_chain _ _ _ _ (qo_list _ _ _ _ Hq) i Hi) as Hc. cbv beta.
  destruct (i <? lvn)%nat eqn:Hlt.
  - apply Nat.ltb_lt in Hlt.
    destruct (place_split h k new (L i) t (head l)) as (A & B & HL & Hpl & HP & HS).
    rewrite Hpl. rewrite HL in Hc.
    apply (chain_place h HF i (head l) A B t new Hc).
    + rewrite <- HL. by apply (qo_nodup _ _ _ _ Hq).
    + intros a Ha Hne. rewrite <- HL in Ha. apply fin_next_old; [done| |].
      * apply ins_old. by eapply ins_node.
      * intros [_ ->]. by rewrite HP in Hne.
    + rewrite <- HP. by apply fin_next_pred.
    + rewrite <- HS. by apply fin_next_new.
  - apply Nat.ltb_ge in Hlt. eapply chain_ext_on; [|exact Hc].
    intros a Ha. apply fin_next_old; [done| |lia].
    apply ins_old. by eapply ins_node.
Qed.

Lemma fin_skiplist : skiplist HF l t L'.
Proof using All.
  pose proof ins_level as Hlvr. pose proof (qo_list _ _ _ _ Hq) as HSL.
  constructor; cbv beta.
  - destruct (HF !! END) eqn:E; [|done].
    assert (is_Some (HF !! END)) as [Hn|Ho]%fin_dom by eauto.
    + symmetry in Hn. by apply ins_new_END in Hn.
    + rewrite (sl_end _ _ _ _ HSL) in Ho. by destruct Ho.
  - assert ((NUM_LEVELS <? lvn)%nat = false) as -> by (apply Nat.ltb_ge; lia).
    apply (sl_top _ _ _ _ HSL).
  - apply fin_dom. right. apply (sl_tail _ _ _ _ HSL).
  - apply fin_chain.
  - intros i a Hi Ha. apply fin_dom.
    destruct (i <? lvn)%nat.
    + apply elem_of_place in Ha as [->|Ha]; [by left|right].
      by eapply (sl_nodes _ _ _ _ HSL).
    + right. by eapply (sl_nodes _ _ _ _ HSL).
  - intros i Hi.
    assert (Hold : forall a, a ∈ L i -> key_at HF a = key_at h a).
    { intros a Ha. apply fin_key_old, ins_old. eapply ins_node; [done|]. by right. }
    assert (Hs : StronglySorted (fun a b => key_at HF a <= key_at HF b) (L i)).
    { eapply (sorted_ext_on (key_at h)); [done|]. by apply (sl_sorted _ _ _ _ HSL). }
    destruct (i <? lvn)%nat; [|done].
    apply place_sorted; [done|apply fin_key_new|done].
  - intros i a Hi Ha.
    destruct (S i <? lvn)%nat eqn:H1.
    + apply Nat.ltb_lt in H1.
      assert ((i <? lvn)%nat = true) as -> by (apply Nat.ltb_lt; lia).
      apply elem_of_place. apply elem_of_place in Ha as [->|Ha]; [by left|right].
      by apply (sl_sub _ _ _ _ HSL).
    + apply (sl_sub _ _ _ _ HSL) in Ha; [|done].
      destruct (i <? lvn)%nat; [|done]. apply elem_of_place. by right.
Qed.

Lemma fin_queue_ok st' :
  heap st' = HF -> brk st' = new + pool_size lv -> queue_ok st' l t L'.
Proof using All.
  intros Hh Hb. pose proof ins_level as Hlvr. constructor; cbv beta.
  - rewrite Hh. apply fin_skiplist.
  - intros a Ha. rewrite Hh in Ha. rewrite Hb.
    pose proof (align64_bounds (brk st)). pose proof ins_brk.
    assert (64 <= pool_size lv).
    { unfold pool_size. assert (1 <= (63 + 64 + (lv - 1) * 8) / 64); [|lia].
      apply Z.div_le_lower_bound; lia. }
    apply fin_dom in Ha as [->|Ha]; [lia|].
    pose proof (qo_range _ _ _ _ Hq a Ha). lia.
  - intros i Hi. pose proof (qo_nodup _ _ _ _ Hq i Hi) as Hnd.
    destruct (i <? lvn)%nat; [|done].
    apply NoDup_cons in Hnd as [Hh1 Hnd]. apply NoDup_cons. split.
    + rewrite elem_of_place. intros [E|?]; [|done].
      revert E. apply ins_old, ins_head.
    + rewrite place_perm. apply NoDup_cons. split; [|done].
      intros Hin. eapply (ins_old new); [|done]. eapply ins_node; [done|]. by right.
  - intros i a Hi Ha. rewrite Hh, fin_word by done.
    destruct (decide ((i < lvn)%nat /\ a = P i)) as [[Hlt ->]|Hno].
    + exists new. split; [done|]. apply ins_new_unmarked.
    + destruct (decide (a = new)) as [->|Hne].
      * assert (Hlt : (i < lvn)%nat).
        { destruct (i <? lvn)%nat eqn:E; [by apply Nat.ltb_lt|]. exfalso.
          eapply (ins_old new); [|done]. by eapply ins_node. }
        rewrite lookup_take_lt by done. destruct (Hps i Hi) as [_ ->].
        eexists. split; [done|]. by apply ins_S_unmarked.
      * apply (qo_unmarked _ _ _ _ Hq i a Hi).
        destruct (i <? lvn)%nat; [|done].
        apply elem_of_cons in Ha as [->|Ha]; [by left|].
        apply elem_of_place in Ha as [?|Ha]; [done|by right].
Qed.

End Final.
End Insert.

Lemma set_update_spec {cfg : config} (st : state) (l : set_t) (t : Z)
    (L : nat -> list Z) (k v r : Z) (fuel : nat) :
  (1 <= NUM_LEVELS <= 32)%nat -> Z.land END 63 <> 0 ->
  queue_ok st l t L ->
  key_at (heap st) (head l) <= k < key_at (heap st) t ->
  (forall i, (i < NUM_LEVELS)%nat -> (length (L i) < fuel)%nat) ->
  (NUM_LEVELS <= fuel)%nat ->
  exists lv st',
    get_level r = Some lv /\ 1 <= lv <= Z.of_nat NUM_LEVELS /\
    set_update fuel l k v r st = (Ok tt, st') /\
    queue_ok st' l t
      (fun i => if (i <? Z.to_nat lv)%nat
                then place (heap st) k (align64 (brk st)) (L i) else L i) /\
    heap st !! align64 (brk st) = None /\
    key_at (heap st') (align64 (brk st)) = k /\
    value_at (heap st') (align64 (brk st)) = v /\
    level_at (heap st') (align64 (brk st)) = lv /\
    (forall a, a <> align64 (brk st) ->
       key_at (heap st') a = key_at (heap st) a /\
       value_at (heap st') a = value_at (heap st) a /\
       level_at (heap st') a = level_at (heap st) a) /\
    brk st' = align64 (brk st) + pool_size lv /\
    freed st' = freed st /\ tl st' = tl st.
Proof.
  intros Hnum Hend Hq Hkey Hfuel Hfuel'.
  destruct (get_level_range r Hnum) as (lv & Hlv & Hlvr).
  destruct (set_update_run st l t L k v r lv fuel Hnum Hend Hq Hkey Hfuel Hfuel' Hlv)
    as (preds & succs & st' & Hrun & Hh & Hb & Hf & Ht & Hlp & Hls & Hps).
  exists lv, st'.
  pose proof (ins_new_fresh st l t L k v r lv fuel Hnum Hend Hq Hkey Hfuel Hfuel' Hlv)
    as Hfresh.
  set (new := align64 (brk st)) in *.
  set (hD := <[new := Node k lv v (take (Z.to_nat lv) succs)]> (heap st)) in *.
  destruct (scalars_link_heap hD preds new (Z.to_nat lv) new _ (lookup_insert_eq _ _ _))
    as (ndn & Hn & Hnk & Hnl & Hnv).
  split_and!; try done; try lia.
  - exact (fin_queue_ok st l t L k v r lv fuel Hnum Hend Hq Hkey Hfuel Hfuel' Hlv
             preds succs Hps st' Hh Hb).
  - unfold key_at. by rewrite Hh, Hn.
  - unfold value_at. by rewrite Hh, Hn.
  - unfold level_at. by rewrite Hh, Hn.
  - intros a Hne. unfold key_at, value_at, level_at. rewrite Hh.
    destruct (heap st !! a) as [nd|] eqn:Ha.
    + destruct (scalars_link_heap hD preds new (Z.to_nat lv) a nd) as (nd' & -> & ? & ? & ?);
        [unfold hD; by rewrite lookup_insert_ne|done].
    + destruct (link_heap hD preds new (Z.to_nat lv) !! a) as [nd'|] eqn:Hx; [|done].
      assert (is_Some (hD !! a)) as [? Hy] by (apply (is_Some_link_heap _ preds new (Z.to_nat lv)); eauto).
      unfold hD in Hy. rewrite lookup_insert_ne in Hy by done. congruence.
Qed.
Section Alloc.
Context {cfg : config}.

Lemma set_alloc_spec (mo ml : Z) (st : state) :
  Z.land END 63 <> 0 -> heap st !! END = None -> heap_range st -> 0 < brk st ->
  exists l st',
    set_alloc mo ml st = (Ok l, st') /\
    max_offset l = mo /\ max_level l = ml /\
    Z.land (head l) 63 = 0 /\ Z.land (align64 (brk st)) 63 = 0 /\
    queue_ok st' l (align64 (brk st)) (fun _ => []) /\
    key_at (heap st') (head l) = SENTINEL_KEYMIN /\
    key_at (heap st') (align64 (brk st)) = SENTINEL_KEYMAX /\
    (forall i, (i < NUM_LEVELS)%nat ->
       word_at (heap st') (align64 (brk st)) i = Some tail_fill) /\
    (forall a, a <> align64 (brk st) -> a <> head l -> heap st' !! a = heap st !! a) /\
    brk st <= align64 (brk st) /\ align64 (brk st) < head l /\ head l < brk st' /\
    brk st' = brk st + 2 * (63 + sentinel_bytes) + (24 + (Z.of_nat NUM_LEVELS - 1) * 8) /\
    tl st' = tl st /\ freed st' = freed st /\ trace st' = trace st.
Proof.
  intros Hend Hfree Hrange Hbrk.
  set (t := align64 (brk st)).
  set (h := align64 (brk st + (63 + sentinel_bytes))).
  assert (Ht : Z.land t 63 = 0) by apply align64_aligned.
  assert (Hh : Z.land h 63 = 0) by apply align64_aligned.
  pose proof (align64_bounds (brk st)) as Hbt.
  pose proof (align64_bounds (brk st + (63 + sentinel_bytes))) as Hbh.
  fold t in Hbt. fold h in Hbh.
  assert (Hsb : 56 <= sentinel_bytes) by (unfold sentinel_bytes; lia).
  assert (Hlt : t < h) by lia.
  exists (SetT h mo ml). eexists. split.
  { unfold set_alloc, malloc, init_node, c_assert, bind, ret. cbn [brk heap].
    fold t h. rewrite Ht, Hh. cbn [Z.eqb]. destruct NDEBUG; reflexivity. }
  cbn [heap head brk tl freed trace max_offset max_level].
  assert (HSL : skiplist (<[h := Node SENTINEL_KEYMIN (Z.of_nat NUM_LEVELS) 0
                                     (replicate NUM_LEVELS t)]>
                           (<[t := Node SENTINEL_KEYMAX 0 0
                                     (replicate NUM_LEVELS tail_fill)]> (heap st)))
                         (SetT h mo ml) t (fun _ => [])).
  { constructor.
    - rewrite !lookup_insert_ne; [done|..]; intros E; rewrite <- E in Hend; done.
    - done.
    - rewrite lookup_insert_ne by lia. rewrite lookup_insert_eq. done.
    - intros i Hi. cbn [chain head]. unfold next_at. rewrite lookup_insert_eq. cbn [n_next].
      rewrite lookup_replicate_2 by done. simpl. f_equal. by apply aligned_unmarked.
    - intros i a _ Ha. by apply elem_of_nil in Ha.
    - intros i _. constructor.
    - intros i a _ Ha. by apply elem_of_nil in Ha. }
  split_and!; try done; try lia.
  - constructor; cbn [heap head brk].
    + done.
    + intros a Ha. cbn [heap brk] in *.
      destruct (decide (a = h)) as [E|Hnh]; [rewrite E; unfold sentinel_bytes in *; lia|].
      destruct (decide (a = t)) as [E|Hnt]; [rewrite E; unfold sentinel_bytes in *; lia|].
      rewrite !lookup_insert_ne in Ha by done. apply Hrange in Ha.
      unfold sentinel_bytes in *. lia.
    + intros i _. apply NoDup_singleton.
    + intros i a Hi Ha. apply list_elem_of_singleton in Ha as ->.
      exists t. unfold word_at. rewrite lookup_insert_eq. cbn [n_next].
      rewrite lookup_replicate_2 by done. split; [done|]. by apply aligned_unmarked.
  - unfold key_at. by rewrite lookup_insert_eq.
  - unfold key_at. rewrite lookup_insert_ne by lia. by rewrite lookup_insert_eq.
  - intros i Hi. unfold word_at. rewrite lookup_insert_ne by lia.
    rewrite lookup_insert_eq. cbn [n_next]. by apply lookup_replicate_2.
  - intros a Ha1 Ha2. by rewrite !lookup_insert_ne.
Qed.
End Alloc.
(** ** Runs of insertions and of deletions *)

Lemma map_place h (g : Z -> Z) k new ns :
  (forall a, a ∈ ns -> g a = key_at h a) -> g new = k ->
  map g (place h k new ns) = place_key k (map (key_at h) ns).
Proof.
  intros Hg Hnew. induction ns as [|n ns IH]; simpl; [by rewrite Hnew|].
  destruct (key_at h n >? k).
  - simpl. rewrite Hnew, Hg by (by left). f_equal. f_equal.
    apply map_ext_in. intros a Ha. apply Hg. right. by apply list_elem_of_In.
  - simpl. rewrite Hg by (by left). f_equal. apply IH. intros a Ha. apply Hg. by right.
Qed.

Lemma length_place h k new ns : length (place h k new ns) = S (length ns).
Proof.
  induction ns as [|n ns IH]; simpl; [done|].
  destruct (key_at h n >? k); simpl; by rewrite ?IH.
Qed.

Lemma place_key_perm k ks : place_key k ks ≡ₚ k :: ks.
Proof.
  induction ks as [|k' ks IH]; simpl; [done|].
  destruct (k' >? k); [done|]. rewrite IH. apply Permutation_swap.
Qed.

Lemma place_key_sorted k ks :
  StronglySorted Z.le ks -> StronglySorted Z.le (place_key k ks).
Proof.
  intros Hs. induction Hs as [|k' ks Hs IH Hk]; simpl.
  - repeat constructor.
  - destruct (k' >? k) eqn:E.
    + constructor; [by constructor|]. constructor; [lia|].
      eapply Forall_impl; [exact Hk|]. intros b Hb. simpl in Hb. lia.
    + constructor; [done|]. rewrite place_key_perm. constructor; [lia|done].
Qed.

Lemma place_keys_spec ks0 (ops : list (Z * Z * Z)) :
  StronglySorted Z.le ks0 ->
  StronglySorted Z.le (foldl (fun ks op => place_key op.1.1 ks) ks0 ops) /\
  foldl (fun ks op => place_key op.1.1 ks) ks0 ops ≡ₚ ks0 ++ map (fun op => op.1.1) ops.
Proof.
  revert ks0. induction ops as [|op ops IH]; intros ks0 Hs; simpl.
  - by rewrite app_nil_r.
  - destruct (IH (place_key op.1.1 ks0) (place_key_sorted _ _ Hs)) as [H1 H2].
    split; [done|]. rewrite H2, place_key_perm. simpl. apply Permutation_middle.
Qed.
Section Runs.
Context {cfg : config}.

Lemma pool_size_bound lv : 1 <= lv <= 32 -> 64 <= pool_size lv <= 375.
Proof.
  intros H. unfold pool_size.
  pose proof (Z.div_mod (63 + 64 + (lv - 1) * 8) 64 ltac:(lia)).
  pose proof (Z.mod_pos_bound (63 + 64 + (lv - 1) * 8) 64 ltac:(lia)). lia.
Qed.

Lemma insert_all_run (l : set_t) (t : Z) (fuel : nat) :
  (1 <= NUM_LEVELS <= 32)%nat -> Z.land END 63 <> 0 -> (NUM_LEVELS <= fuel)%nat ->
  forall (ops : list (Z * Z * Z)) (st : state) (L : nat -> list Z),
    queue_ok st l t L ->
    Forall (fun op => key_at (heap st) (head l) <= op.1.1 < key_at (heap st) t) ops ->
    (forall i, (i < NUM_LEVELS)%nat -> (length (L i) + length ops < fuel)%nat) ->
    exists st' L',
      insert_all fuel l ops st = (Ok tt, st') /\
      queue_ok st' l t L' /\
      map (key_at (heap st')) (L' 0%nat)
      = foldl (fun ks op => place_key op.1.1 ks) (map (key_at (heap st)) (L 0%nat)) ops /\
      length (L' 0%nat) = (length (L 0%nat) + length ops)%nat /\
      key_at (heap st') (head l) = key_at (heap st) (head l) /\
      key_at (heap st') t = key_at (heap st) t /\
      tl st' = tl st /\ freed st' = freed st /\
      brk st <= brk st' <= brk st + 438 * Z.of_nat (length ops).
Proof.
  intros Hnum Hend Hfuel'.
  induction ops as [|[[k v] r] ops IH]; intros st L Hq Hkeys Hfuel.
  - exists st, L. simpl. split_and!; try done; lia.
  - apply Forall_cons in Hkeys as [Hk Hkeys]. cbn [fst] in Hk.
    destruct (set_update_spec st l t L k v r fuel Hnum Hend Hq Hk) as
      (lv & st1 & Hlv & Hlvr & Hrun & Hq1 & Hfresh & Hkn & _ & _ & Hold & Hb & Hf & Ht);
      [|done|].
    { intros i Hi. specialize (Hfuel i Hi). simpl in Hfuel. lia. }
    set (new := align64 (brk st)) in *.
    set (L1 := fun i => if (i <? Z.to_nat lv)%nat then place (heap st) k new (L i) else L i) in *.
    assert (Hne : forall a, is_Some (heap st !! a) -> a <> new).
    { intros a [? Ha] ->. congruence. }
    assert (Hhd : head l <> new).
    { apply Hne. eapply skiplist_head_node; [lia|apply Hq]. }
    assert (Htl : t <> new).
    { apply Hne. apply (sl_tail _ _ _ _ (qo_list _ _ _ _ Hq)). }
    destruct (Hold (head l) Hhd) as (Hkh & _). destruct (Hold t Htl) as (Hkt & _).
    destruct (IH st1 L1 Hq1) as (st' & L' & Hrun' & Hq' & Hmap & Hlen & Hkh' & Hkt' & Ht' & Hf' & Hb').
    { rewrite Hkh, Hkt. done. }
    { intros i Hi. specialize (Hfuel i Hi). simpl in Hfuel. unfold L1.
      destruct (i <? Z.to_nat lv)%nat; [rewrite length_place|]; lia. }
    assert (HL10 : L1 0%nat = place (heap st) k new (L 0%nat)).
    { unfold L1. assert ((0 <? Z.to_nat lv)%nat = true) as ->; [|done]. apply Nat.ltb_lt. lia. }
    exists st', L'. split_and!.
    + cbn [insert_all]. by rewrite (bind_ok _ _ _ _ _ Hrun).
    + done.
    + rewrite Hmap. cbn [foldl fst]. f_equal. rewrite HL10. apply map_place; [|done].
      intros a Ha. apply Hold, Hne.
      eapply (sl_nodes _ _ _ _ (qo_list _ _ _ _ Hq) 0%nat); [lia|done].
    + rewrite Hlen, HL10, length_place. simpl. lia.
    + congruence.
    + congruence.
    + congruence.
    + congruence.
    + pose proof (align64_bounds (brk st)). pose proof (pool_size_bound lv ltac:(lia)).
      fold new in H. cbn [length]. lia.
    + pose proof (align64_bounds (brk st)). pose proof (pool_size_bound lv ltac:(lia)).
      fold new in H. cbn [length]. lia.
Qed.

End Runs.
Section Drain.
Context {cfg : config}.

Lemma removemin_n_run (l : set_t) (t : Z) (L : nat -> list Z) (fuel : nat) :
  OPTIM = false -> is_marked_ref END = false -> (0 < NUM_LEVELS)%nat ->
  NoDup (head l :: L 0%nat) -> max_offset l <= INT_MAX ->
  forall (n m : nat) (st : state),
    skiplist (heap st) l t L -> heap_range st -> brk st < WORD ->
    marked_upto (heap st) (head l :: L 0%nat) m ->
    cache_ok st l (head l :: L 0%nat ++ [t]) m ->
    (m + n <= length (L 0%nat) + 1)%nat ->
    Z.of_nat (m + n) <= max_offset l -> (m + n <= fuel)%nat ->
    exists st',
      removemin_n fuel l n st
      = (Ok (map (key_at (heap st)) (take n (drop m (L 0%nat ++ [t])))), st') /\
      skiplist (heap st') l t L /\ heap_range st' /\ brk st' = brk st /\
      freed st' = freed st /\
      marked_upto (heap st') (head l :: L 0%nat) (m + n) /\
      cache_ok st' l (head l :: L 0%nat ++ [t]) (m + n) /\
      (forall a, key_at (heap st') a = key_at (heap st) a).
Proof.
  intros Hoptim Hend Hpos Hnd Hmax.
  induction n as [|n IH]; intros m st HSL Hrange Hbrk Hmark Hcache Hlen Hmo Hfuel.
  - exists st. rewrite Nat.add_0_r. done.
  - destruct (set_removemin_spec Hoptim Hend st l t L m fuel Hpos HSL Hrange Hbrk Hnd
                Hmark ltac:(lia) Hcache ltac:(lia) Hmax ltac:(lia))
      as (x & v & nd & st1 & Hx & Hv & Hndx & Hw & Hrun & Hh1 & Hb1 & Hf1 & HSL1 & Hr1
          & Hm1 & Hc1).
    assert (Hkeys : forall a, key_at (heap st1) a = key_at (heap st) a).
    { intros a. rewrite Hh1. by apply key_at_set_next. }
    destruct (IH (S m) st1 HSL1 Hr1 ltac:(lia) Hm1 Hc1 ltac:(lia) ltac:(lia) ltac:(lia))
      as (st' & Hrun' & HSL' & Hr' & Hb' & Hf' & Hm' & Hc' & Hk').
    exists st'. replace (m + S n)%nat with (S m + n)%nat by lia.
    split_and!; try done; try congruence.
    + cbn [removemin_n]. rewrite (bind_ok _ _ _ _ _ Hrun), (bind_ok _ _ _ _ _ Hrun').
      rewrite (drop_S _ _ _ Hv). cbn [take map]. unfold ret. do 3 f_equal.
      apply map_ext. done.
Qed.

End Drain.
Section Client.
Context {cfg : config}.

Lemma queue_ok_cache_null st l t L :
  (0 < NUM_LEVELS)%nat -> queue_ok st l t L -> old_obs_hp (tl st) = NULL ->
  cache_ok st l (head l :: L 0%nat ++ [t]) 0.
Proof.
  intros Hpos Hq Hnull Hw. exfalso.
  pose proof (qo_list _ _ _ _ Hq) as HSL.
  destruct (chain_lookup _ _ _ _ _ (sl_chain _ _ _ _ HSL 0%nat Hpos) 0%nat (head l) eq_refl)
    as (b & Hb & Hn).
  rewrite next_at_word, Hw, Hnull in Hn. injection Hn as Hn.
  assert (is_Some (heap st !! b)) as Hin.
  { apply list_elem_of_lookup_2 in Hb. apply elem_of_app in Hb as [Hb|Hb].
    - by eapply (sl_nodes _ _ _ _ HSL 0%nat).
    - apply list_elem_of_singleton in Hb as ->. apply (sl_tail _ _ _ _ HSL). }
  apply (qo_range _ _ _ _ Hq) in Hin. rewrite <- Hn in Hin.
  change (get_unmarked_ref NULL) with 0 in Hin. lia.
Qed.

Lemma queue_ok_unmarked st l t L :
  (0 < NUM_LEVELS)%nat -> queue_ok st l t L ->
  marked_upto (heap st) (head l :: L 0%nat) 0.
Proof.
  intros Hpos Hq j a Hj.
  destruct (qo_unmarked _ _ _ _ Hq 0%nat a Hpos (list_elem_of_lookup_2 _ _ _ Hj))
    as (w & Hw & Hm).
  exists w. split; [done|]. rewrite Hm. by rewrite bool_decide_eq_false_2 by lia.
Qed.

Lemma fill_drain_spec (st : state) (fuel : nat) (mo ml : Z)
    (ops : list (Z * Z * Z)) (n : nat) :
  (1 <= NUM_LEVELS <= 32)%nat -> Z.land END 63 <> 0 -> is_marked_ref END = false ->
  OPTIM = false ->
  heap_range st -> heap st !! END = None -> 0 < brk st ->
  brk st + 1100 + 438 * Z.of_nat (length ops) < WORD ->
  old_obs_hp (tl st) = NULL ->
  Forall (fun op => SENTINEL_KEYMIN <= op.1.1 < SENTINEL_KEYMAX) ops ->
  (n <= length ops + 1)%nat -> Z.of_nat n <= mo -> mo <= INT_MAX ->
  (length ops < fuel)%nat -> (NUM_LEVELS <= fuel)%nat -> (n <= fuel)%nat ->
  fst (fill_drain fuel mo ml ops n st)
  = Ok (take n (sorted_keys ops ++ [SENTINEL_KEYMAX])).
Proof.
  intros Hnum Hend Hendm Hoptim Hrange Hfree Hbrk Hword Hnull Hkeys Hn Hmo Hmax Hf1 Hf2 Hf3.
  destruct (set_alloc_spec mo ml st Hend Hfree Hrange Hbrk)
    as (l & st1 & Hrun1 & Hmo1 & _ & _ & _ & Hq1 & Hkmin & Hkmax & _ & _ & _ & _ & _ & Hb1
        & Ht1 & _ & _).
  set (t := align64 (brk st)) in *.
  destruct (insert_all_run l t fuel Hnum Hend Hf2 ops st1 (fun _ => []) Hq1)
    as (st2 & L & Hrun2 & Hq2 & Hmap & Hlen & Hkh & Hkt & Ht2 & _ & Hb2).
  { by rewrite Hkmin, Hkmax. }
  { intros i _. simpl. lia. }
  pose proof (qo_list _ _ _ _ Hq2) as HSL.
  assert (Hsb : sentinel_bytes <= 312) by (unfold sentinel_bytes; lia).
  destruct (removemin_n_run l t L fuel Hoptim Hendm ltac:(lia)
              (qo_nodup _ _ _ _ Hq2 0%nat ltac:(lia)) ltac:(lia) n 0%nat st2 HSL
              (qo_range _ _ _ _ Hq2))
    as (st3 & Hrun3 & _).
  { lia. }
  { apply (queue_ok_unmarked st2 l t L); [lia|done]. }
  { apply queue_ok_cache_null; [lia|done|congruence]. }
  { simpl in *. lia. }
  { simpl. lia. }
  { simpl. lia. }
  simpl in Hmap. unfold sorted_keys, fill_drain. rewrite (bind_ok _ _ _ _ _ Hrun1), (bind_ok _ _ _ _ _ Hrun2), Hrun3.
  cbn [fst]. f_equal. rewrite drop_0, <- firstn_map, map_app, Hmap. cbn [map].
  by rewrite Hkt, Hkmax.
Qed.

End Client.
(** ** What the searches leave alone *)

Section ReadOnly.
Context {cfg : config}.

Local Hint Extern 1 (is_read _ = true) => reflexivity : pres.

Lemma reads_wsp_walk fuel k bef i x :
  preserves (step_rel is_read nowhere) (wsp_walk fuel k bef i x).
Proof. revert x. induction fuel as [|fuel IH]; intros x; simpl; pres. Qed.
Local Hint Resolve reads_wsp_walk : pres.

Lemma reads_wsp_levels fuel k bef n x pa na :
  preserves (step_rel is_read nowhere) (wsp_levels fuel k bef n x pa na).
Proof. revert x pa na. induction n as [|n IH]; intros x pa na; simpl; pres. Qed.

Lemma reads_wsh_walk fuel i x :
  preserves (step_rel is_read nowhere) (wsh_walk fuel i x).
Proof. revert x. induction fuel as [|fuel IH]; intros x; simpl; pres. Qed.
Local Hint Resolve reads_wsh_walk : pres.

Lemma reads_wsh_levels fuel n x x_next :
  preserves (step_rel is_read nowhere) (wsh_levels fuel n x x_next).
Proof. revert x x_next. induction n as [|n IH]; intros x x_next; simpl; pres. Qed.

Lemma reads_wse_walk fuel i x lvl :
  preserves (step_rel is_read nowhere) (wse_walk fuel i x lvl).
Proof. revert x lvl. induction fuel as [|fuel IH]; intros x lvl; simpl; pres. Qed.
Local Hint Resolve reads_wse_walk : pres.

Lemma reads_wse_levels fuel n x lvl pa :
  preserves (step_rel is_read nowhere) (wse_levels fuel n x lvl pa).
Proof. revert x lvl pa. induction n as [|n IH]; intros x lvl pa; simpl; pres. Qed.

Lemma reads_highest_level_loop n x :
  preserves (step_rel is_read nowhere) (highest_level_loop n x).
Proof. induction n as [|n IH]; simpl; pres. Qed.

Lemma keeps_highest_level_loop n x : preserves same_regs (highest_level_loop n x).
Proof. induction n as [|n IH]; simpl; keeps. Qed.

(** A computation that only reads leaves the machine as it is, but for
    the trace, which grows by reads. *)
Lemma read_only_run {A} (m : M A) st :
  preserves (step_rel is_read nowhere) m -> preserves same_regs m ->
  heap (m st).2 = heap st /\ brk (m st).2 = brk st /\ tl (m st).2 = tl st /\
  freed (m st).2 = freed st /\
  exists evs, events (m st).2 = events st ++ evs /\ forallb is_read evs = true.
Proof.
  intros Hr Hk. specialize (Hr st). specialize (Hk st).
  destruct Hk as (? & ? & ?). split_and!; try done.
  - apply cells_eq_heap. intros a f. apply Hr. intros [].
  - by apply step_rel_events in Hr.
Qed.

End ReadOnly.
(** ** What the deletions leave alone *)

Section Scalars.
Context {cfg : config}.

Lemma next_cells_intro a i : next_cells a (FNext i).
Proof. by exists i. Qed.

Local Hint Extern 1 (any_event _ = true) => reflexivity : pres.
Local Hint Resolve next_cells_intro : pres.

Lemma links_removemin_walk n x offset :
  preserves (step_rel any_event next_cells) (removemin_walk n x offset).
Proof.
  revert x offset. induction n as [|n IH]; intros x offset; simpl.
  - pres.
  - unfold removemin_read, removemin_mark. pres.
Qed.

Lemma links_set_removemin fuel l :
  preserves (step_rel any_event next_cells) (set_removemin fuel l).
Proof.
  unfold set_removemin, critical_enter.
  apply preserves_bind; [pres|intros _].
  apply preserves_bind; [pres|intros x].
  apply preserves_bind; [apply links_removemin_walk|intros [[x_next offset]|]]; [|pres].
  unfold removemin_finish, critical_exit.
  apply preserves_bind; [pres|intros k].
  apply preserves_bind; [|intros _; pres].
  apply preserves_removemin_cleanup; [apply mem_ok_any|intros i; apply next_cells_intro].
Qed.

Lemma links_set_remove fuel l key :
  preserves (step_rel any_event next_cells) (set_remove fuel l key).
Proof. unfold set_remove. pres. Qed.

Lemma scalars_kept st st' :
  step_rel any_event next_cells st st' ->
  forall a, cell st' a FK = cell st a FK /\ cell st' a FV = cell st a FV /\
            cell st' a FLevel = cell st a FLevel.
Proof.
  intros [_ H] a. split_and!; apply H; intros [i Hi]; discriminate.
Qed.

End Scalars.
(** ** The cleanup searches on a queue without deleted nodes *)

Section Unmarked.
Context {cfg : config}.
Context (st : state) (l : set_t) (t : Z) (L : nat -> list Z) (wt : Z).
Context (Hq : queue_ok st l t L).
Context (Hwt : word_at (heap st) t 0 = Some wt) (Hmt : is_marked_ref wt = false).

Lemma level_sub_bottom i a : (i < NUM_LEVELS)%nat -> a ∈ L i -> a ∈ L 0%nat.
Proof using Hq.
  induction i as [|i IH]; [done|]. intros Hi Ha. apply IH; [lia|].
  apply (sl_sub _ _ _ _ (qo_list _ _ _ _ Hq)); [lia|done].
Qed.

(** The first node of level [i], or the tail. *)
Lemma first_word i :
  (i < NUM_LEVELS)%nat ->
  word_at (heap st) (head l) i = Some (default t (L i !! 0%nat)) /\
  default t (L i !! 0%nat) <> END /\
  exists w0, word_at (heap st) (default t (L i !! 0%nat)) 0 = Some w0 /\
             is_marked_ref w0 = false /\
             (L i = [] -> w0 = wt) /\
             (L i <> [] -> is_Some (heap st !! w0)).
Proof using All.
  intros Hi. pose proof (qo_list _ _ _ _ Hq) as HSL.
  destruct (chain_lookup _ _ _ _ _ (sl_chain _ _ _ _ HSL i Hi) 0%nat (head l) eq_refl)
    as (b & Hb & Hn).
  destruct (qo_unmarked _ _ _ _ Hq i (head l) Hi ltac:(by left)) as (w & Hw & Hm).
  rewrite next_at_word, Hw in Hn. simpl in Hn. rewrite (unmarked_id _ Hm) in Hn.
  injection Hn as ->.
  assert (Hdef : default t (L i !! 0%nat) = b).
  { destruct (L i) as [|a A]; simpl in *; congruence. }
  rewrite Hdef. split; [done|].
  destruct (L i) as [|a A] eqn:HL; simpl in Hb; injection Hb as <-.
  - split.
    + intros E. destruct (sl_tail _ _ _ _ HSL) as [? Ht].
      rewrite E, (sl_end _ _ _ _ HSL) in Ht. done.
    + exists wt. split_and!; done.
  - assert (Ha : a ∈ L i) by (rewrite HL; by left).
    split.
    + intros E. destruct (sl_nodes _ _ _ _ HSL i a Hi Ha) as [? Hx].
      rewrite E, (sl_end _ _ _ _ HSL) in Hx. done.
    + assert (Ha0 : a ∈ L 0%nat) by (by eapply level_sub_bottom).
      assert (Hpos : (0 < NUM_LEVELS)%nat) by lia.
      destruct (qo_unmarked _ _ _ _ Hq 0%nat a Hpos ltac:(by right)) as (w0 & Hw0 & Hm0).
      exists w0. split_and!; [done|done|done|]. intros _.
      apply list_elem_of_lookup_1 in Ha0 as [j Hj].
      destruct (chain_lookup _ _ _ _ _ (sl_chain _ _ _ _ HSL 0%nat Hpos) (S j) a Hj)
        as (c & Hc & Hnc).
      rewrite next_at_word, Hw0 in Hnc. simpl in Hnc. rewrite (unmarked_id _ Hm0) in Hnc.
      injection Hnc as ->.
      apply list_elem_of_lookup_2 in Hc. apply elem_of_app in Hc as [Hc|Hc].
      * by eapply (sl_nodes _ _ _ _ HSL 0%nat).
      * apply list_elem_of_singleton in Hc as ->. apply (sl_tail _ _ _ _ HSL).
Qed.

Lemma wsh_walk_unmarked fuel i st1 :
  (i < NUM_LEVELS)%nat -> heap st1 = heap st ->
  exists st', wsh_walk (S fuel) i (head l) st1
              = (Ok (head l, default t (L i !! 0%nat)), st') /\ heap st' = heap st.
Proof using All.
  intros Hi Hh. destruct (first_word i Hi) as (Hw & HE & w0 & Hw0 & Hm0 & _).
  cbn [wsh_walk]. rewrite <- Hh in Hw, Hw0.
  destruct (qo_unmarked _ _ _ _ Hq i (head l) Hi ltac:(by left)) as (w & Hw' & Hm).
  rewrite (bind_ok _ _ _ _ _ (load_next_view _ _ _ _ Hw)).
  rewrite Hh in Hw. rewrite Hw in Hw'. injection Hw' as <-.
  rewrite (unmarked_id _ Hm). apply Z.eqb_neq in HE. rewrite HE.
  rewrite (bind_ok _ _ _ _ _ (load_next_view _ 0 w0 (add_event _ st1) Hw0)), Hm0.
  cbn [negb].
  eexists. split; [reflexivity|done].
Qed.

Lemma wsh_levels_unmarked fuel n x_next st1 :
  (n <= NUM_LEVELS)%nat -> heap st1 = heap st ->
  exists st', wsh_levels (S fuel) n (head l) x_next st1
              = (Ok (match n with O => x_next | _ => default t (L 0%nat !! 0%nat) end), st') /\
              heap st' = heap st.
Proof using All.
  revert x_next st1. induction n as [|n IH]; intros x_next st1 Hn Hh.
  - exists st1. done.
  - cbn [wsh_levels].
    destruct (wsh_walk_unmarked fuel n st1 ltac:(lia) Hh) as (st2 & Hrun & Hh2).
    rewrite (bind_ok _ _ _ _ _ Hrun). cbn [fst snd].
    destruct (IH (default t (L n !! 0%nat)) st2 ltac:(lia) Hh2) as (st' & Hrun' & Hh').
    exists st'. rewrite Hrun'. split; [|done]. by destruct n.
Qed.

Lemma wse_walk_unmarked fuel i lvl st1 :
  (i < NUM_LEVELS)%nat -> heap st1 = heap st ->
  exists st', wse_walk (S fuel) i (head l) lvl st1 = (Ok (head l, lvl), st') /\
              heap st' = heap st.
Proof using All.
  intros Hi Hh. destruct (first_word i Hi) as (Hw & HE & w0 & Hw0 & Hm0 & _).
  cbn [wse_walk]. rewrite <- Hh in Hw, Hw0.
  rewrite (bind_ok _ _ _ _ _ (load_next_view _ _ _ _ Hw)).
  rewrite (bind_ok _ _ _ _ _ (load_next_view _ 0 w0 (add_event _ st1) Hw0)), Hm0.
  cbn [negb].
  eexists. split; [reflexivity|done].
Qed.

Lemma wse_levels_unmarked fuel n lvl pa st1 :
  (n < NUM_LEVELS)%nat -> heap st1 = heap st ->
  exists pa' st',
    wse_levels (S fuel) n (head l) lvl pa st1 = (Ok (lvl, pa'), st') /\
    heap st' = heap st /\ length pa' = length pa /\
    forall i, pa' !! i = if decide (1 <= i <= n /\ i < length pa)%nat
                         then Some (head l) else pa !! i.
Proof using All.
  revert pa st1. induction n as [|n IH]; intros pa st1 Hn Hh.
  - exists pa, st1. simpl. split_and!; try done.
    intros i. rewrite decide_False; [done|lia].
  - cbn [wse_levels].
    destruct (wse_walk_unmarked fuel (S n) lvl st1 Hn Hh) as (st2 & Hrun & Hh2).
    rewrite (bind_ok _ _ _ _ _ Hrun). cbn [fst snd].
    destruct (IH (<[S n := head l]> pa) st2 ltac:(lia) Hh2)
      as (pa' & st' & Hrun' & Hh' & Hlen & Hpa).
    exists pa', st'. split_and!; [done|done|by rewrite Hlen, length_insert|].
    intros i. rewrite Hpa, length_insert.
    destruct (decide (i = S n)) as [->|Hne].
    + rewrite (decide_False (P := (1 <= S n <= n /\ _)%nat)) by lia.
      destruct (decide (S n < length pa)%nat).
      * rewrite list_lookup_insert_eq by done. rewrite decide_True; [done|lia].
      * rewrite list_insert_ge by lia. rewrite decide_False; [done|lia].
    + rewrite list_lookup_insert_ne by done. apply decide_ext. lia.
Qed.

End Unmarked.
Section UnmarkedTheorems.
Context {cfg : config}.

Lemma highest_level_loop_unmarked st l t L :
  queue_ok st l t L -> is_marked_ref END = false ->
  word_at (heap st) t 0 = Some END ->
  forall n st1,
    (n < NUM_LEVELS)%nat -> heap st1 = heap st ->
    exists j st',
      highest_level_loop n (head l) st1 = (Ok (Z.of_nat j), st') /\
      heap st' = heap st /\ (j <= n)%nat /\
      (j = 0%nat \/ L j <> []) /\
      (forall i, (j < i <= n)%nat -> L i = []).
Proof.
  intros Hq Hend Hwt. induction n as [|n IH]; intros st1 Hn Hh.
  - exists 0%nat, st1. split_and!; [done|done|lia|by left|]. intros i Hi. lia.
  - cbn [highest_level_loop].
    destruct (first_word st l t L END Hq Hwt Hend (S n) Hn)
      as (Hw & HE & w0 & Hw0 & Hm0 & Hemp & Hne).
    rewrite <- Hh in Hw, Hw0.
    rewrite (bind_ok _ _ _ _ _ (load_next_view _ _ _ _ Hw)).
    rewrite (bind_ok _ _ _ _ _ (load_next_view _ 0 w0 (add_event _ st1) Hw0)).
    destruct (L (S n)) as [|a A] eqn:HL.
    + rewrite (Hemp eq_refl), Z.eqb_refl. cbn [negb].
      destruct (IH (add_event (EvRead (default t ([] !! 0%nat)) (FNext 0))
                      (add_event (EvRead (head l) (FNext (S n))) st1)) ltac:(lia) Hh)
        as (j & st' & Hrun & Hh' & Hj & Hcase & Habove).
      exists j, st'. split_and!; [done|done|lia|done|].
      intros i Hi. destruct (decide (i = S n)) as [->|]; [done|]. apply Habove. lia.
    + assert ((w0 =? END) = false) as ->.
      { apply Z.eqb_neq. intros ->. destruct Hne as [? Hx]; [done|].
        rewrite (sl_end _ _ _ _ (qo_list _ _ _ _ Hq)) in Hx. done. }
      cbn [negb]. exists (S n). eexists.
      split_and!; [reflexivity|done|lia| |].
      * right. by rewrite HL.
      * intros i Hi. lia.
Qed.

End UnmarkedTheorems.
(** ** Allocation and recycling *)

Section Recycle.
Context {cfg : config}.

Lemma free_prefix_chain h y :
  forall B x fuel st,
    heap st = h -> chain h 0 x B y -> Forall (fun a => a <> y) (x :: B) ->
    (length B + 1 < fuel)%nat ->
    exists st',
      free_prefix fuel x y st = (Ok tt, st') /\
      heap st' = h /\ brk st' = brk st /\ tl st' = tl st /\
      freed st' = freed st ++
                  map (fun a => (a, Z.land (level_at h a) LEVEL_MASK - 1)) (x :: B).
Proof.
  induction B as [|b B IH]; intros x fuel st Hh Hc Hne Hfuel;
    (destruct fuel as [|fuel]; [lia|]);
    apply Forall_cons in Hne as [Hx Hne];
    cbn [free_prefix]; simpl in Hc;
    (assert ((x =? y) = false) as -> by (by apply Z.eqb_neq));
    [pose proof Hc as Hn|destruct Hc as [Hn Hc]];
    rewrite next_at_word in Hn;
    destruct (word_at h x 0) as [w|] eqn:Hw; try done; injection Hn as Hu;
    pose proof Hw as Hw'; unfold word_at in Hw';
    destruct (h !! x) as [nd|] eqn:Hnd; try done;
    unfold free_node; rewrite !bind_eq, load_level_eq, Hh, Hnd;
    unfold gc_free; cbn [heap brk freed tl trace add_event];
    rewrite bind_eq, load_next_eq; cbn [heap add_event]; rewrite Hh, Hnd, Hw', Hu.
  - destruct fuel as [|fuel]; [simpl in Hfuel; lia|]. cbn [free_prefix].
    rewrite Z.eqb_refl. eexists. split; [reflexivity|].
    cbn [heap brk tl freed add_event map]. unfold level_at. rewrite Hnd. done.
  - match goal with |- context [free_prefix fuel b y ?s] =>
      destruct (IH b fuel s) as (st' & Hrun & Hh' & Hb' & Ht' & Hf');
        [done|done|done|simpl in Hfuel; lia|] end.
    exists st'. split_and!; [done|done|done|done|].
    rewrite Hf'. cbn [heap brk tl freed add_event map]. unfold level_at at 3.
    rewrite Hnd. by rewrite <- app_assoc.
Qed.

End Recycle.
(** ** Insertion behind deleted nodes *)

Lemma marked_unmarked_ref w : is_marked_ref (get_unmarked_ref w) = false.
Proof.
  unfold is_marked_ref, get_unmarked_ref.
  replace (Z.land (Z.land w (Z.lnot 1)) 1) with 0; [done|].
  rewrite <- Z.land_assoc. change (Z.land (Z.lnot 1) 1) with 0. by rewrite Z.land_0_r.
Qed.

Lemma store_next_view a i c w st :
  word_at (heap st) a i = Some c ->
  store_next a i w st
  = (Ok tt, with_heap (poke (heap st) a i w) (add_event (EvWrite a (FNext i) w) st)).
Proof.
  unfold word_at, poke. intros H.
  unfold store_next, poke_next, get_node, log, put_heap, bind. simpl.
  destruct (heap st !! a) as [nd|]; [|done]. by rewrite H.
Qed.

Section MarkedShape.
Context {cfg : config}.
Context (h : gmap Z node_t) (l : set_t) (t : Z) (L : nat -> list Z) (m : nat) (wt : Z).
Context (Hsh : shape h l t L).
Context (Hnd : NoDup (head l :: L 0%nat)).
Context (Hmark : marked_upto h (head l :: L 0%nat) m).
Context (Hm : (1 <= m <= length (L 0%nat))%nat).
Context (Hwt : word_at h t 0 = Some wt) (Hmt : is_marked_ref wt = false).

Local Abbreviation ns := (head l :: L 0%nat).

Lemma shape_sub_bottom i a : (i < NUM_LEVELS)%nat -> a ∈ L i -> a ∈ L 0%nat.
Proof using All.
  induction i as [|i IH]; [done|]. intros Hi Ha. apply IH; [lia|].
  apply (sh_sub _ _ _ _ Hsh); [lia|done].
Qed.

(** The last deleted node: the one the last marked pointer leads to. *)
Lemma last_deleted : exists xm, ns !! m = Some xm.
Proof using All. apply lookup_lt_is_Some_2. simpl. lia. Qed.

(** A node whose bottom pointer is marked is followed on the bottom
    level by a node whose bottom pointer is marked too, or by the last
    deleted node. *)
Lemma after_marked x xn w0 :
  (0 < NUM_LEVELS)%nat ->
  x ∈ take m ns -> next_at h x 0 = Some xn ->
  word_at h xn 0 = Some w0 -> is_marked_ref w0 = false ->
  ns !! m = Some xn.
Proof using All.
  intros Hpos Hx Hn Hw0 Hm0.
  apply elem_of_take in Hx as (q & Hq & Hqm).
  destruct (chain_lookup _ _ _ _ _ (sh_chain _ _ _ _ Hsh 0%nat Hpos) q x Hq)
    as (b & Hb & Hnb).
  rewrite Hn in Hnb. injection Hnb as <-.
  destruct (decide (S q = m)) as [<-|Hne].
  - rewrite lookup_app_l in Hb by lia. done.
  - exfalso. assert (Hlt : (S q < m)%nat) by lia.
    rewrite lookup_app_l in Hb by lia.
    destruct (Hmark (S q) xn Hb) as (w & Hw & Hwm).
    rewrite bool_decide_eq_true_2 in Hwm by done. congruence.
Qed.

Lemma wsh_walk_marked i :
  (i < NUM_LEVELS)%nat ->
  forall Bi x fuel st,
    heap st = h -> chain h i x Bi t -> (forall a, a ∈ Bi -> a ∈ L i) ->
    x ∈ take m ns -> (length Bi < fuel)%nat ->
    exists x' xn w0 st',
      wsh_walk fuel i x st = (Ok (x', xn), st') /\ heap st' = h /\
      x' ∈ take m ns /\ (x' = x \/ x' ∈ Bi) /\
      next_at h x' i = Some xn /\
      word_at h xn 0 = Some w0 /\ is_marked_ref w0 = false.
Proof using All.
  intros Hi. induction Bi as [|b Bi IH]; intros x fuel st Hh Hc Hsub Hx Hf;
    (destruct fuel as [|fuel]; [simpl in Hf; lia|]); cbn [wsh_walk]; simpl in Hc.
  - pose proof Hc as Hn. rewrite next_at_word in Hn.
    destruct (word_at h x i) as [w|] eqn:Hw; [|done]. injection Hn as Hu.
    rewrite <- Hh in Hw. rewrite (bind_ok _ _ _ _ _ (load_next_view _ _ _ _ Hw)), Hu.
    assert ((t =? END) = false) as ->.
    { apply Z.eqb_neq. intros E. destruct (sh_tail _ _ _ _ Hsh) as [? Ht].
      rewrite E, (sh_end _ _ _ _ Hsh) in Ht. done. }
    rewrite <- Hh in Hwt.
    rewrite (bind_ok _ _ _ _ _ (load_next_view _ 0 wt (add_event _ st) Hwt)), Hmt.
    cbn [negb]. rewrite Hh in Hwt.
    exists x, t, wt. eexists. split_and!; [reflexivity|done|done|by left|done|done|done].
  - destruct Hc as [Hn Hc]. pose proof Hn as Hn'. rewrite next_at_word in Hn.
    destruct (word_at h x i) as [w|] eqn:Hw; [|done]. injection Hn as Hu.
    rewrite <- Hh in Hw. rewrite (bind_ok _ _ _ _ _ (load_next_view _ _ _ _ Hw)), Hu.
    assert (Hb0 : b ∈ L 0%nat).
    { apply (shape_sub_bottom i); [done|]. apply Hsub. by left. }
    assert ((b =? END) = false) as ->.
    { apply Z.eqb_neq. intros E.
      destruct (sh_nodes _ _ _ _ Hsh 0%nat b ltac:(lia) Hb0) as [? Hx'].
      rewrite E, (sh_end _ _ _ _ Hsh) in Hx'. done. }
    apply list_elem_of_lookup_1 in Hb0 as [q Hq].
    destruct (Hmark (S q) b Hq) as (w0 & Hw0 & Hm0).
    rewrite <- Hh in Hw0.
    rewrite (bind_ok _ _ _ _ _ (load_next_view _ 0 w0 (add_event _ st) Hw0)).
    rewrite Hh in Hw0.
    destruct (is_marked_ref w0) eqn:Hmk; cbn [negb].
    + symmetry in Hm0. apply bool_decide_eq_true_1 in Hm0.
      destruct (IH b fuel (add_event (EvRead b (FNext 0))
                             (add_event (EvRead x (FNext i)) st)))
        as (x' & xn & w1 & st' & Hrun & Hh' & Hx' & Hin & Hnx & Hw1 & Hm1).
      { done. }
      { done. }
      { intros a Ha. apply Hsub. by right. }
      { apply elem_of_take. exists (S q). split; [done|lia]. }
      { simpl in Hf. lia. }
      exists x', xn, w1, st'. split_and!; try done.
      right. destruct Hin as [->|Hin]; [by left|by right].
    + exists x, b, w0. eexists.
      split_and!; [reflexivity|done|done|by left|done|done|done].
Qed.


Lemma wsh_levels_marked fuel :
  (forall i, (i < NUM_LEVELS)%nat -> (length (L i) < fuel)%nat) ->
  forall n x xn0 st,
    (1 <= n <= NUM_LEVELS)%nat -> heap st = h ->
    (x = head l \/ ((n < NUM_LEVELS)%nat /\ x ∈ L n)) -> x ∈ take m ns ->
    exists xm st',
      wsh_levels fuel n x xn0 st = (Ok xm, st') /\ heap st' = h /\ ns !! m = Some xm.
Proof using All.
  intros Hfuel. induction n as [|i IH]; intros x xn0 st Hn Hh Hlev Hx; [lia|].
  cbn [wsh_levels].
  assert (Hchain : exists Bi, chain h i x Bi t /\ (forall a, a ∈ Bi -> a ∈ L i) /\
                              (length Bi <= length (L i))%nat /\
                              (x = head l \/ x ∈ L i)).
  { destruct Hlev as [->|[Hlt Hin]].
    - exists (L i). split_and!; [apply (sh_chain _ _ _ _ Hsh); lia|done|done|by left].
    - apply (sh_sub _ _ _ _ Hsh) in Hin; [|lia].
      pose proof Hin as Hin'.
      apply list_elem_of_split in Hin as (A & Bi & HL). exists Bi. split_and!.
      + eapply chain_suffix. rewrite <- HL. apply (sh_chain _ _ _ _ Hsh). lia.
      + intros a Ha. rewrite HL. apply elem_of_app. right. by right.
      + rewrite HL, length_app. simpl. lia.
      + by right. }
  destruct Hchain as (Bi & Hc & Hsub & Hlen & Hxi).
  destruct (wsh_walk_marked i ltac:(lia) Bi x fuel st Hh Hc Hsub Hx)
    as (x' & xn & w0 & st1 & Hrun & Hh1 & Hx' & Hin & Hnx & Hw0 & Hm0).
  { specialize (Hfuel i ltac:(lia)). lia. }
  rewrite (bind_ok _ _ _ _ _ Hrun). cbn [fst snd].
  destruct i as [|i].
  - exists xn, st1. split_and!; [done|done|].
    eapply after_marked; [lia|done|done|done|done].
  - apply IH; [lia|done| |done].
    destruct Hin as [->|Hin].
    + destruct Hxi as [->|Hxi]; [by left|right; split; [lia|done]].
    + right. split; [lia|]. by apply Hsub.
Qed.

Lemma weak_search_head_marked fuel st :
  (0 < NUM_LEVELS)%nat ->
  (forall i, (i < NUM_LEVELS)%nat -> (length (L i) < fuel)%nat) ->
  heap st = h ->
  exists xm st',
    weak_search_head fuel l st = (Ok xm, st') /\ heap st' = h /\ ns !! m = Some xm /\
    same_regs st st'.
Proof using All.
  intros Hpos Hfuel Hh.
  destruct (wsh_levels_marked fuel Hfuel NUM_LEVELS (head l) 0 st ltac:(lia) Hh
              ltac:(by left)) as (xm & st' & Hrun & Hh' & Hxm).
  { apply elem_of_take. exists 0%nat. split; [done|lia]. }
  exists xm, st'. split_and!; [done|done|done|].
  pose proof (keeps_wsh_levels fuel NUM_LEVELS (head l) 0 st) as Hk.
  unfold weak_search_head in Hrun. by rewrite Hrun in Hk.
Qed.


(** *** The loop that places a node behind the deleted ones *)

Section OrphanLoop.
Context (new c0 : Z) (Hnew : word_at h new 0 = Some c0).
Context (Hfresh : new ∉ ns).
Context (Hpos : (0 < NUM_LEVELS)%nat).

Lemma orphan_place xm y n x loop0 st :
  ns !! m = Some xm -> word_at h xm 0 = Some y -> is_marked_ref y = false ->
  heap st = h ->
  exists st',
    (x_next <- load_next xm 0 ;;
     placed <- (if negb (is_marked_ref x_next)
                then
                  store_next new 0 x_next ;;;
                  old_next <- CASPO xm 0 x_next new ;;
                  ret (old_next =? x_next)
                else ret false) ;;
     if placed : bool then ret tt
     else orphan_loop x n l new (get_unmarked_ref x_next) loop0) st
    = (Ok tt, st') /\
    heap st' = poke (poke h new 0 y) xm 0 new /\ same_regs st st'.
Proof using All.
  intros Hxm Hy Hmy Hh.
  assert (Hne : xm <> new).
  { intros ->. apply Hfresh. by eapply list_elem_of_lookup_2. }
  rewrite <- Hh in Hy, Hnew.
  rewrite (bind_ok _ _ _ _ _ (load_next_view _ _ _ _ Hy)), Hmy. cbn [negb].
  rewrite (bind_eq (bind _ _)), (bind_eq (store_next _ _ _)).
  rewrite (store_next_view new 0 c0 y (add_event _ st) Hnew).
  set (st1 := with_heap _ _).
  assert (Hy1 : word_at (heap st1) xm 0 = Some y).
  { unfold st1. cbn [heap with_heap add_event]. rewrite word_at_poke.
    rewrite decide_False by (intros (? & _); done). done. }
  rewrite (bind_ok _ _ _ _ _ (CASPO_view _ _ _ _ _ _ Hy1)), Z.eqb_refl.
  cbv [ret].
  eexists. split_and!; [reflexivity| |done].
  cbn [heap add_event with_heap]. unfold st1. cbn [heap add_event with_heap]. by rewrite Hh.
Qed.

Lemma orphan_loop_run fuel :
  (forall i, (i < NUM_LEVELS)%nat -> (length (L i) < fuel)%nat) ->
  forall d p x loop0 n st,
    heap st = h -> m = (p + d)%nat -> ns !! p = Some x -> (d < n)%nat ->
    0 <= loop0 <= 10 ->
    exists xm y st',
      ns !! m = Some xm /\ word_at h xm 0 = Some y /\ is_marked_ref y = false /\
      orphan_loop fuel n l new x loop0 st = (Ok tt, st') /\
      heap st' = poke (poke h new 0 y) xm 0 new /\ same_regs st st'.
Proof using All.
  intros Hfuel.
  destruct last_deleted as [xm Hxm].
  destruct (Hmark m xm Hxm) as (y & Hy & Hmy).
  rewrite bool_decide_eq_false_2 in Hmy by lia.
  induction d as [|d IH]; intros p x loop0 n st Hh Hp Hx Hn Hl;
    (destruct n as [|n]; [lia|]); cbn [orphan_loop];
    (assert (Hti : to_int (loop0 + 1) = loop0 + 1) by (apply to_int_small; lia));
    rewrite Hti;
    destruct (loop0 + 1 >? 10) eqn:Hgt.
  - destruct (weak_search_head_marked fuel st Hpos Hfuel Hh)
      as (xm' & st1 & Hrun & Hh1 & Hxm' & Hr1).
    rewrite Hxm in Hxm'. injection Hxm' as <-.
    rewrite (bind_eq (bind _ _)), (bind_ok _ _ _ _ _ Hrun). cbn [ret fst snd].
    destruct (orphan_place xm y n fuel 0 st1 Hxm Hy Hmy Hh1) as (st' & Hrun' & Hh' & Hr').
    exists xm, y, st'. split_and!; [done|done|done|exact Hrun'|done|].
    by eapply same_regs_trans.
  - assert (p = m) as -> by lia. rewrite Hxm in Hx. injection Hx as <-.
    rewrite (bind_ok _ _ st (xm, loop0 + 1) st) by done. cbn [fst snd].
    destruct (orphan_place xm y n fuel (loop0 + 1) st Hxm Hy Hmy Hh)
      as (st' & Hrun' & Hh' & Hr').
    exists xm, y, st'. done.
  - destruct (weak_search_head_marked fuel st Hpos Hfuel Hh)
      as (xm' & st1 & Hrun & Hh1 & Hxm' & Hr1).
    rewrite Hxm in Hxm'. injection Hxm' as <-.
    rewrite (bind_eq (bind _ _)), (bind_ok _ _ _ _ _ Hrun). cbn [ret fst snd].
    destruct (orphan_place xm y n fuel 0 st1 Hxm Hy Hmy Hh1) as (st' & Hrun' & Hh' & Hr').
    exists xm, y, st'. split_and!; [done|done|done|exact Hrun'|done|].
    by eapply same_regs_trans.
  - rewrite (bind_ok _ _ st (x, loop0 + 1) st) by done. cbn [fst snd].
    destruct (Hmark p x Hx) as (w & Hw & Hwm).
    rewrite bool_decide_eq_true_2 in Hwm by lia.
    rewrite <- Hh in Hw.
    rewrite (bind_ok _ _ _ _ _ (load_next_view _ _ _ _ Hw)), Hwm. cbn [negb].
    rewrite (bind_ok _ _ _ false _) by done.
    rewrite Hh in Hw.
    destruct (chain_lookup _ _ _ _ _ (sh_chain _ _ _ _ Hsh 0%nat Hpos) p x Hx)
      as (b & Hb & Hnb).
    rewrite next_at_word, Hw in Hnb. injection Hnb as Hu. rewrite Hu.
    rewrite lookup_app_l in Hb by lia.
    destruct (IH (S p) b (loop0 + 1) n (add_event (EvRead x (FNext 0)) st))
      as (xm' & y' & st' & H1 & H2 & H3 & H4 & H5 & H6); [done|lia|done|lia| |].
    { rewrite Z.gtb_ltb in Hgt. apply Z.ltb_ge in Hgt. lia. }
    exists xm', y', st'. done.
Qed.

End OrphanLoop.
End MarkedShape.
(** ** Insertion in front of every level *)

Lemma shape_ext {cfg : config} h h' l t L :
  shape h l t L -> h' !! END = None ->
  (forall a, is_Some (h !! a) -> is_Some (h' !! a)) ->
  (forall i a, (i < NUM_LEVELS)%nat -> a ∈ head l :: L i ->
               next_at h' a i = next_at h a i) ->
  shape h' l t L.
Proof.
  intros [H1 H2 H3 H4 H5] He Hdom Hnext. constructor; [done|by apply Hdom| | |done].
  - intros i Hi. eapply chain_ext_on; [|by apply H3]. intros a Ha. by apply Hnext.
  - intros i a Hi Ha. apply Hdom. by eapply H4.
Qed.

Lemma marked_upto_ext h h' ns m :
  (forall a, a ∈ ns -> word_at h' a 0 = word_at h a 0) ->
  marked_upto h ns m -> marked_upto h' ns m.
Proof.
  intros He Hm j a Ha. rewrite He by (by eapply list_elem_of_lookup_2). by apply Hm.
Qed.

Lemma marked_upto_app h ns ns' m : marked_upto h (ns ++ ns') m -> marked_upto h ns m.
Proof. intros Hm j a Ha. apply Hm. by apply lookup_app_l_Some. Qed.

Lemma shape_head_node {cfg : config} h l t L :
  (0 < NUM_LEVELS)%nat -> shape h l t L -> is_Some (h !! head l).
Proof.
  intros Hpos HSL. pose proof (sh_chain _ _ _ _ HSL 0%nat Hpos) as Hc.
  assert (is_Some (next_at h (head l) 0)) as [y Hy].
  { destruct (L 0%nat); simpl in Hc; [eauto|]. destruct Hc; eauto. }
  unfold next_at in Hy. destruct (h !! head l); [eauto|done].
Qed.

Section FrontSearch.
Context {cfg : config}.
Context (h : gmap Z node_t) (l : set_t) (t : Z) (L : nat -> list Z) (k : Z).
Context (Hsh : shape h l t L) (Ht : k < key_at h t).
Context (Hfront : forall i, (i < NUM_LEVELS)%nat ->
                    k < key_at h (default t (L i !! 0%nat))).

Lemma front_walk_list i :
  (i < NUM_LEVELS)%nat ->
  walk_list h k false (head l) (L i) t = (head l, default t (L i !! 0%nat)).
Proof using All.
  intros Hi. specialize (Hfront i Hi). destruct (L i) as [|b B]; [done|].
  simpl in *. unfold stops. apply Z.gtb_lt in Hfront. by rewrite Hfront.
Qed.

Lemma front_levels fuel :
  (forall i, (i < NUM_LEVELS)%nat -> (length (L i) < fuel)%nat) ->
  forall n pa na st,
    (n <= NUM_LEVELS)%nat -> heap st = h ->
    (n <= length pa)%nat -> (n <= length na)%nat ->
    exists pa' na' st',
      wsp_levels fuel k false n (head l) (Some pa) (Some na) st
      = (Ok (head l, Some pa', Some na'), st') /\
      heap st' = h /\ length pa' = length pa /\ length na' = length na /\
      (forall j, (j < n)%nat ->
         pa' !! j = Some (head l) /\ na' !! j = Some (default t (L j !! 0%nat))) /\
      (forall j, (n <= j)%nat -> pa' !! j = pa !! j /\ na' !! j = na !! j).
Proof using All.
  intros Hfuel. induction n as [|i IH]; intros pa na st Hn Hh Hpa Hna.
  - exists pa, na, st. split_and!; try done. intros; lia.
  - cbn [wsp_levels].
    destruct (wsp_walk_chain h k false i t (L i) (sh_end _ _ _ _ Hsh) (sh_tail _ _ _ _ Hsh))
      with (fuel := fuel) (x := head l) (st := st) as (st1 & Hrun & Hh1).
    { unfold stops. apply Z.gtb_lt in Ht. by rewrite Ht. }
    { done. }
    { apply (sh_chain _ _ _ _ Hsh). lia. }
    { intros a Ha. eapply (sh_nodes _ _ _ _ Hsh); [|done]. lia. }
    { apply Hfuel. lia. }
    rewrite front_walk_list in Hrun by lia.
    rewrite (bind_ok _ _ _ _ _ Hrun). cbn [fst snd opt_store].
    destruct (IH (<[i := head l]> pa) (<[i := default t (L i !! 0%nat)]> na) st1)
      as (pa' & na' & st' & Hrun' & Hh' & Hlp & Hln & Hlow & Hhigh);
      [lia|done|rewrite length_insert; lia|rewrite length_insert; lia|].
    rewrite length_insert in Hlp, Hln.
    exists pa', na', st'. split_and!; try done.
    + intros j Hj. destruct (decide (j = i)) as [->|Hne].
      * destruct (Hhigh i ltac:(lia)) as [-> ->].
        rewrite !list_lookup_insert_eq by lia. done.
      * apply Hlow. lia.
    + intros j Hj. destruct (Hhigh j ltac:(lia)) as [-> ->].
      rewrite !list_lookup_insert_ne by lia. done.
Qed.

Lemma front_search_run fuel pa na st :
  (forall i, (i < NUM_LEVELS)%nat -> (length (L i) < fuel)%nat) ->
  heap st = h -> length pa = NUM_LEVELS -> length na = NUM_LEVELS ->
  exists pa' na' st',
    weak_search_predecessors fuel l k (Some pa) (Some na) false st
    = (Ok (head l, Some pa', Some na'), st') /\
    heap st' = h /\ same_regs st st' /\
    length pa' = NUM_LEVELS /\ length na' = NUM_LEVELS /\
    forall j, (j < NUM_LEVELS)%nat ->
      pa' !! j = Some (head l) /\ na' !! j = Some (default t (L j !! 0%nat)).
Proof using All.
  intros Hfuel Hh Hpa Hna.
  destruct (front_levels fuel Hfuel NUM_LEVELS pa na st)
    as (pa' & na' & st' & Hrun & Hh' & Hlp & Hln & Hlow & _); [lia|done|lia|lia|].
  exists pa', na', st'. split_and!; [done|done| |congruence|congruence|done].
  pose proof (keeps_wsp_levels fuel k false NUM_LEVELS (head l) (Some pa) (Some na) st) as Hk.
  unfold preserves in Hk. unfold weak_search_predecessors in Hrun. by rewrite Hrun in Hk.
Qed.

End FrontSearch.

(** The positions of a list after an element has been put in. *)
Lemma lookup_put_in {A} (N : list A) (m : nat) (x : A) (j : nat) :
  (m <= length N)%nat ->
  (take m N ++ x :: drop m N) !! j
  = if decide (j < m)%nat then N !! j
    else if decide (j = m) then Some x else N !! (j - 1)%nat.
Proof.
  intros Hm. destruct (decide (j < m)%nat).
  - rewrite lookup_app_l by (rewrite length_take; lia). by rewrite lookup_take_lt.
  - rewrite lookup_app_r by (rewrite length_take; lia). rewrite length_take.
    replace (j - m `min` length N)%nat with (j - m)%nat by lia.
    destruct (decide (j = m)) as [->|].
    + by rewrite Nat.sub_diag.
    + destruct (j - m)%nat as [|d] eqn:E; [lia|]. simpl. rewrite lookup_drop.
      f_equal. lia.
Qed.

Lemma behind_list (L : nat -> list Z) m new (hd t : Z) :
  (m <= length (L 0%nat))%nat ->
  hd :: behind_deleted L m new 0 ++ [t]
  = take (S m) (hd :: L 0%nat ++ [t]) ++ new :: drop (S m) (hd :: L 0%nat ++ [t]).
Proof.
  intros Hm. unfold behind_deleted. cbn [take drop].
  rewrite take_app_le, drop_app_le by lia.
  rewrite <- app_assoc. done.
Qed.
Lemma store_level_view a w nd st :
  heap st !! a = Some nd ->
  store_level a w st
  = (Ok tt, with_heap (<[a := Node (n_k nd) w (n_v nd) (n_next nd)]> (heap st))
              (add_event (EvWrite a FLevel w) st)).
Proof.
  intros H. unfold store_level, get_node, log, put_heap, bind. simpl. by rewrite H.
Qed.

Section OrphanInsert.
Context {cfg : config}.
Context (st : state) (l : set_t) (t : Z) (L : nat -> list Z) (k v r lv : Z).
Context (fuel m : nat).
Context (Hnum : (1 <= NUM_LEVELS <= 32)%nat) (Hend : Z.land END 63 <> 0).
Context (Hd : deleted_ok st l t L m) (Hm : (1 <= m)%nat).
Context (Ht : k < key_at (heap st) t).
Context (Hfront : forall i, (i < NUM_LEVELS)%nat ->
                    k < key_at (heap st) (default t (L i !! 0%nat))).
Context (Hfuel : forall i, (i < NUM_LEVELS)%nat -> (length (L i) < fuel)%nat).
Context (Hlv : get_level r = Some lv).

Local Abbreviation h := (heap st).
Local Abbreviation new := (align64 (brk st)).
Local Abbreviation lvn := (Z.to_nat lv).
Local Abbreviation ns := (head l :: L 0%nat).
Local Abbreviation N := (head l :: L 0%nat ++ [t]).

Lemma orph_level : 1 <= lv <= Z.of_nat NUM_LEVELS.
Proof using All.
  destruct (get_level_range r Hnum) as (l' & Hl' & Hr). congruence.
Qed.

Lemma orph_head : is_Some (h !! head l).
Proof using All. eapply shape_head_node; [lia|apply Hd]. Qed.

Lemma orph_new_fresh : h !! new = None.
Proof using All.
  destruct (h !! new) eqn:E; [|done].
  pose proof (do_range _ _ _ _ _ Hd new ltac:(by eexists)).
  pose proof (align64_bounds (brk st)). lia.
Qed.

Lemma orph_new_END : new <> END.
Proof using All. intros E. rewrite <- E in Hend. by rewrite align64_aligned in Hend. Qed.

Lemma orph_old a : is_Some (h !! a) -> a <> new.
Proof using All. intros [x Ha] ->. pose proof orph_new_fresh. congruence. Qed.

Lemma orph_N_node a : a ∈ N -> is_Some (h !! a).
Proof using All.
  intros [->|[Ha| ->%list_elem_of_singleton]%elem_of_app]%elem_of_cons.
  - apply orph_head.
  - eapply (sh_nodes _ _ _ _ (do_shape _ _ _ _ _ Hd) 0%nat); [lia|done].
  - apply (sh_tail _ _ _ _ (do_shape _ _ _ _ _ Hd)).
Qed.

Lemma orph_ns_N a : a ∈ ns -> a ∈ N.
Proof using All.
  intros [->|Ha]%elem_of_cons; [by left|]. right. apply elem_of_app. by left.
Qed.

Lemma orph_nodup : NoDup ns.
Proof using All.
  pose proof (do_nodup _ _ _ _ _ Hd) as Hn.
  change N with (ns ++ [t]) in Hn. by apply NoDup_app in Hn as (? & _).
Qed.

Lemma orph_marked : marked_upto h ns m.
Proof using All.
  apply (marked_upto_app _ _ [t]). apply (do_marked _ _ _ _ _ Hd).
Qed.

Lemma orph_tail_word : exists wt, word_at h t 0 = Some wt /\ is_marked_ref wt = false.
Proof using All.
  destruct (do_marked _ _ _ _ _ Hd (S (length (L 0%nat))) t) as (w & Hw & Hmw).
  { change N with (ns ++ [t]). rewrite lookup_app_r by (simpl; lia).
    simpl. by rewrite Nat.sub_diag. }
  pose proof (do_count _ _ _ _ _ Hd).
  rewrite bool_decide_eq_false_2 in Hmw by lia. eauto.
Qed.

Lemma orph_head_word :
  exists w0 b, word_at h (head l) 0 = Some w0 /\ is_marked_ref w0 = true /\
               L 0%nat !! 0%nat = Some b /\ get_unmarked_ref w0 = b /\ w0 <> b.
Proof using All.
  pose proof (do_count _ _ _ _ _ Hd) as Hc.
  destruct (orph_marked 0%nat (head l) eq_refl) as (w0 & Hw0 & Hm0).
  rewrite bool_decide_eq_true_2 in Hm0 by lia.
  destruct (lookup_lt_is_Some_2 (L 0%nat) 0) as [b Hb]; [lia|].
  pose proof (sh_chain _ _ _ _ (do_shape _ _ _ _ _ Hd) 0%nat ltac:(lia)) as Hch.
  destruct (L 0%nat) as [|b' B] eqn:E; [done|]. simpl in Hb. injection Hb as ->.
  destruct Hch as [Hn _]. rewrite next_at_word, Hw0 in Hn. injection Hn as Hu.
  exists w0, b. split_and!; try done.
  intros ->. rewrite <- Hu, marked_unmarked_ref in Hm0. done.
Qed.

(** The run: the node is allocated, the search stops at the head on
    every level, the [CAS] on the marked pointer of the head fails, and
    the loop links the node behind the last deleted one. *)
Lemma set_update_orphan_run :
  exists xm y c st',
    ns !! m = Some xm /\ word_at h xm 0 = Some y /\ is_marked_ref y = false /\
    set_update fuel l k v r st = (Ok tt, st') /\
    heap st' = poke (poke (<[new := Node k 1 v c]> h) new 0 y) xm 0 new /\
    (0 < length c)%nat /\
    brk st' = new + pool_size lv /\ freed st' = freed st /\ tl st' = tl st.
Proof using All.
  pose proof orph_level as Hlvr.
  pose proof (do_shape _ _ _ _ _ Hd) as Hsh.
  pose proof (do_count _ _ _ _ _ Hd) as Hcount.
  set (st0 := add_event EvEnter st).
  destruct (new_node_run r lv k v st0 Hlv) as (stA & HrunA & HhA & HbA & HfA & HtA).
  change (brk st0) with (brk st) in *. change (heap st0) with h in *.
  set (ndA := Node k lv v (replicate lvn 0)) in *.
  assert (HnewA : heap stA !! new = Some ndA) by (by rewrite HhA, lookup_insert_eq).
  set (stB := add_event (EvRead new FLevel) stA).
  assert (Hfresh : forall nd, shape (<[new := nd]> h) l t L).
  { intros nd. eapply shape_ext; [exact Hsh| | |].
    - rewrite lookup_insert_ne by apply orph_new_END. apply Hsh.
    - intros a Ha. rewrite lookup_insert_ne; [done|]. apply not_eq_sym. by apply orph_old.
    - intros i a Hi Ha. apply next_at_insert_ne. apply orph_old.
      apply elem_of_cons in Ha as [->|Ha]; [apply orph_head|].
      by eapply (sh_nodes _ _ _ _ Hsh). }
  assert (Hkeys : forall nd a, is_Some (h !! a) -> key_at (<[new := nd]> h) a = key_at h a).
  { intros nd a Ha. apply key_at_insert_ne. by apply orph_old. }
  assert (Hfirst : forall i, (i < NUM_LEVELS)%nat -> is_Some (h !! default t (L i !! 0%nat))).
  { intros i Hi. destruct (L i !! 0%nat) as [b|] eqn:E; simpl.
    - eapply (sh_nodes _ _ _ _ Hsh); [done|]. by eapply list_elem_of_lookup_2.
    - apply Hsh. }
  destruct (front_search_run (<[new := ndA]> h) l t L k (Hfresh ndA)) with
    (fuel := fuel) (pa := replicate NUM_LEVELS 0) (na := replicate NUM_LEVELS 0) (st := stB)
    as (preds & succs & stC & HrunC & HhC & HrC & Hlp & Hls & Hps).
  { rewrite Hkeys; [done|apply Hsh]. }
  { intros i Hi. rewrite Hkeys by (by apply Hfirst). by apply Hfront. }
  { done. }
  { done. }
  { by rewrite length_replicate. }
  { by rewrite length_replicate. }
  destruct (init_next_run new succs lvn 0 ndA stC) as (stD & HrunD & HhD & HrD).
  { by rewrite HhC, lookup_insert_eq. }
  { simpl. by rewrite length_replicate. }
  { lia. }
  cbn [take drop app n_k n_level n_v ndA] in HhD.
  rewrite HhC, insert_insert_eq in HhD.
  destruct (Hps 0%nat ltac:(lia)) as [Hp0 Hs0].
  destruct orph_head_word as (w0 & b & Hw0 & Hm0 & Hb & Hu0 & Hne0).
  rewrite Hb in Hs0. cbn [default from_option] in Hs0.
  assert (Hhn : head l <> new) by (apply orph_old, orph_head).
  assert (HwD : word_at (heap stD) (head l) 0 = Some w0).
  { rewrite HhD, word_at_insert_ne by done. done. }
  set (stE := add_event (EvCAS (head l) 0 b new) stD).
  assert (HrunE : CASPO (head l) 0 b new stD = (Ok w0, stE)).
  { rewrite (CASPO_view _ _ w0) by done.
    by rewrite (proj2 (Z.eqb_neq w0 b) Hne0). }
  set (stE1 := add_event (EvRead (head l) (FNext 0)) stE).
  assert (HnewD : heap stE1 !! new = Some (Node k lv v (take lvn succs))).
  { cbn [heap stE1 stE add_event]. by rewrite HhD, lookup_insert_eq. }
  set (stF := with_heap (<[new := Node k 1 v (take lvn succs)]> (heap stE1))
                (add_event (EvWrite new FLevel 1) stE1)).
  assert (HhF : heap stF = <[new := Node k 1 v (take lvn succs)]> h).
  { cbn [heap stF stE1 stE add_event with_heap]. by rewrite HhD, insert_insert_eq. }
  set (hF := <[new := Node k 1 v (take lvn succs)]> h) in *.
  set (stF1 := add_event (EvRead (head l) (FNext 0)) stF).
  assert (HwF : forall a i, a <> new -> word_at hF a i = word_at h a i).
  { intros a i Ha. unfold hF. by rewrite word_at_insert_ne. }
  destruct orph_tail_word as (wt & Hwt & Hmt).
  assert (Htn : t <> new) by (apply orph_old, Hsh).
  assert (Hlen0 : take lvn succs !! 0%nat = Some b).
  { rewrite lookup_take_lt by lia. done. }
  destruct (orphan_loop_run hF l t L m wt (Hfresh _)) with
    (new := new) (c0 := b) (fuel := fuel) (d := (m - 1)%nat) (p := 1%nat) (x := b)
    (loop0 := 0) (n := fuel) (st := stF1)
    as (xm & y & stG & Hxm & Hy & Hmy & HrunG & HhG & HrG).
  { apply orph_nodup. }
  { eapply marked_upto_ext; [|apply orph_marked].
    intros a Ha. apply HwF, orph_old, orph_N_node, orph_ns_N, Ha. }
  { lia. }
  { by rewrite HwF. }
  { done. }
  { unfold hF, word_at. rewrite lookup_insert_eq. done. }
  { intros Hin. by apply (orph_old new (orph_N_node _ (orph_ns_N _ Hin))). }
  { lia. }
  { done. }
  { done. }
  { lia. }
  { done. }
  { specialize (Hfuel 0%nat ltac:(lia)). lia. }
  { lia. }
  assert (Hxn : xm <> new).
  { apply orph_old, orph_N_node, orph_ns_N. by eapply list_elem_of_lookup_2. }
  rewrite HwF in Hy by done.
  assert (Hretry : set_update_retry fuel (S (fuel - 1)) l k v r NULL
            (replicate NUM_LEVELS 0) (replicate NUM_LEVELS 0) st0 = (Ok tt, stG)).
  { cbn [set_update_retry]. change (NULL =? NULL) with true. cbv iota.
    rewrite (bind_ok _ _ _ _ _ HrunA).
    rewrite (bind_ok _ _ stA lv stB) by (by rewrite load_level_eq, HnewA).
    rewrite (bind_ok _ _ _ _ _ HrunC). cbn [fst snd default from_option id].
    unfold arr_get at 1. rewrite Hs0. rewrite (bind_ok _ _ stC b stC) by done.
    rewrite (bind_ok _ _ _ _ _ HrunD).
    unfold arr_get at 1. rewrite Hp0. rewrite (bind_ok _ _ stD (head l) stD) by done.
    rewrite (bind_ok _ _ _ _ _ HrunE).
    rewrite (proj2 (Z.eqb_neq w0 b) Hne0). cbn [negb].
    rewrite (bind_ok _ _ _ _ _ (load_next_view _ 0 w0 stE HwD)). rewrite Hm0.
    rewrite (bind_eq (store_level _ _)), (store_level_view _ _ _ stE1 HnewD).
    cbn [n_k n_v n_next]. fold stF.
    rewrite (bind_ok _ _ _ _ _ (load_next_view _ 0 w0 stF ltac:(by rewrite HhF, HwF))).
    rewrite Hu0. exact HrunG. }
  assert (Hregs : same_regs stA stG).
  { eapply same_regs_trans; [|exact HrG].
    eapply same_regs_trans; [exact HrC|]. eapply same_regs_trans; [exact HrD|]. done. }
  destruct Hregs as (Hb' & Hf & Ht').
  exists xm, y, (take lvn succs), (add_event EvExit stG).
  split_and!; [done|done|done| |done| | | |].
  - unfold set_update, critical_enter, critical_exit.
    rewrite bind_eq. cbn [log]. fold st0.
    replace (set_update_retry fuel fuel) with (set_update_retry fuel (S (fuel - 1)))
      by (f_equal; specialize (Hfuel 0%nat ltac:(lia)); lia).
    rewrite bind_eq, Hretry. done.
  - rewrite length_take. lia.
  - cbn [brk add_event]. by rewrite Hb', HbA.
  - cbn [freed add_event]. by rewrite Hf, HfA.
  - cbn [tl add_event]. by rewrite Ht', HtA.
Qed.

End OrphanInsert.
(** *** The heap after the node has been linked behind the deleted ones *)

Section BehindHeap.
Context {cfg : config}.
Context (h : gmap Z node_t) (l : set_t) (t : Z) (L : nat -> list Z) (m : nat).
Context (new xm y k v : Z) (c : list Z).
Context (Hpos : (0 < NUM_LEVELS)%nat).
Context (Hsh : shape h l t L).
Context (Hnd : NoDup (head l :: L 0%nat ++ [t])).
Context (Hmark : marked_upto h (head l :: L 0%nat ++ [t]) m).
Context (Hm : (1 <= m <= length (L 0%nat))%nat).
Context (Hnew : h !! new = None) (Hal : Z.land new 63 = 0) (HnE : new <> END).
Context (Hxm : (head l :: L 0%nat) !! m = Some xm) (Hy : word_at h xm 0 = Some y).
Context (Hc : (0 < length c)%nat).

Local Abbreviation N := (head l :: L 0%nat ++ [t]).
Local Abbreviation hF := (<[new := Node k 1 v c]> h).
Local Abbreviation HF := (poke (poke hF new 0 y) xm 0 new).
Local Abbreviation L' := (behind_deleted L m new).

Lemma bh_xm_N : N !! m = Some xm.
Proof using All.
  change N with ((head l :: L 0%nat) ++ [t]). by apply lookup_app_l_Some.
Qed.

Lemma bh_N_node a : a ∈ N -> is_Some (h !! a).
Proof using All.
  intros [->|[Ha| ->%list_elem_of_singleton]%elem_of_app]%elem_of_cons.
  - by eapply shape_head_node.
  - by eapply (sh_nodes _ _ _ _ Hsh 0%nat).
  - apply Hsh.
Qed.

Lemma bh_old a : is_Some (h !! a) -> a <> new.
Proof using All. intros [x Ha] ->. congruence. Qed.

Lemma bh_xm_new : xm <> new.
Proof using All.
  apply bh_old, bh_N_node. eapply list_elem_of_lookup_2. apply bh_xm_N.
Qed.

Lemma bh_y_unmarked : is_marked_ref y = false.
Proof using All.
  destruct (Hmark m xm bh_xm_N) as (w & Hw & Hmw).
  rewrite bool_decide_eq_false_2 in Hmw by lia. congruence.
Qed.

Lemma bh_dom a : is_Some (HF !! a) <-> a = new \/ is_Some (h !! a).
Proof using All.
  rewrite !is_Some_poke. destruct (decide (a = new)) as [->|Hne].
  - rewrite lookup_insert_eq. split; [by left|eauto].
  - rewrite lookup_insert_ne by done. split; [by right|]. by intros [?|?].
Qed.

Lemma bh_key_new : key_at HF new = k.
Proof using All. rewrite !key_at_poke. unfold key_at. by rewrite lookup_insert_eq. Qed.

Lemma bh_key_old a : a <> new -> key_at HF a = key_at h a.
Proof using All. intros Hne. rewrite !key_at_poke. by apply key_at_insert_ne. Qed.

Lemma bh_word_new : word_at HF new 0 = Some y.
Proof using All.
  pose proof bh_xm_new.
  rewrite word_at_poke, decide_False by (intros (? & _); congruence).
  rewrite word_at_poke, decide_True; [done|].
  split_and!; [done|done|]. unfold word_at. rewrite lookup_insert_eq. simpl.
  by apply lookup_lt_is_Some_2.
Qed.

Lemma bh_word_xm : word_at HF xm 0 = Some new.
Proof using All.
  pose proof bh_xm_new.
  rewrite word_at_poke, decide_True; [done|].
  split_and!; [done|done|].
  rewrite word_at_poke, decide_False by (intros (? & _); congruence).
  rewrite word_at_insert_ne by done. by rewrite Hy.
Qed.

Lemma bh_word_old a i :
  a <> new -> (a <> xm \/ i <> 0%nat) -> word_at HF a i = word_at h a i.
Proof using All.
  intros Hne Hor.
  rewrite word_at_poke, decide_False by (intros (? & ? & _); destruct Hor; congruence).
  rewrite word_at_poke, decide_False by (intros (? & _); congruence).
  by apply word_at_insert_ne.
Qed.

Lemma bh_scalars a nd :
  h !! a = Some nd ->
  exists nd', HF !! a = Some nd' /\
              n_k nd' = n_k nd /\ n_level nd' = n_level nd /\ n_v nd' = n_v nd.
Proof using All.
  intros Ha.
  assert (Hne : a <> new) by (apply bh_old; eauto).
  assert (H0 : hF !! a = Some nd) by (by rewrite lookup_insert_ne).
  destruct (scalars_poke _ new 0 y a nd H0) as (n1 & Hn1 & ? & ? & ?).
  destruct (scalars_poke _ xm 0 new a n1 Hn1) as (n2 & Hn2 & ? & ? & ?).
  exists n2. split_and!; congruence.
Qed.

Lemma bh_new_node :
  exists nd, HF !! new = Some nd /\ n_k nd = k /\ n_level nd = 1 /\ n_v nd = v.
Proof using All.
  assert (H0 : hF !! new = Some (Node k 1 v c)) by (by rewrite lookup_insert_eq).
  destruct (scalars_poke _ new 0 y new _ H0) as (n1 & Hn1 & ? & ? & ?).
  destruct (scalars_poke _ xm 0 new new n1 Hn1) as (n2 & Hn2 & ? & ? & ?).
  exists n2. split_and!; simpl in *; congruence.
Qed.

Lemma bh_next_old a i :
  a <> new -> (a <> xm \/ i <> 0%nat) -> next_at HF a i = next_at h a i.
Proof using All. intros. by rewrite !next_at_word, bh_word_old. Qed.

Lemma bh_last : default (head l) (last (take m (L 0%nat))) = xm.
Proof using All.
  destruct m as [|m']; [lia|]. simpl in Hxm.
  rewrite (take_S_r _ _ xm) by done. by rewrite last_snoc.
Qed.

Lemma bh_succ : next_at h xm 0 = Some (default t (drop m (L 0%nat) !! 0%nat)).
Proof using All.
  destruct (chain_lookup _ _ _ _ _ (sh_chain _ _ _ _ Hsh 0%nat Hpos) m xm Hxm)
    as (b & Hb & Hn).
  rewrite Hn. f_equal. rewrite lookup_drop, Nat.add_0_r.
  destruct (decide (m < length (L 0%nat))%nat).
  - rewrite lookup_app_l in Hb by done. by rewrite Hb.
  - rewrite lookup_app_r in Hb by lia. rewrite lookup_ge_None_2 by lia.
    replace (m - length (L 0%nat))%nat with 0%nat in Hb by lia. simpl in *. congruence.
Qed.

Lemma bh_chain i : (i < NUM_LEVELS)%nat -> chain HF i (head l) (L' i) t.
Proof using All.
  intros Hi. destruct i as [|i]; cbn [behind_deleted].
  - assert (Hnd' : NoDup (head l :: take m (L 0%nat) ++ drop m (L 0%nat))).
    { rewrite take_drop. change N with ((head l :: L 0%nat) ++ [t]) in Hnd.
      by apply NoDup_app in Hnd as (? & _). }
    apply (chain_place h).
    + rewrite take_drop. by apply Hsh.
    + done.
    + rewrite bh_last. intros a Ha Hne. apply bh_next_old; [|by left].
      apply bh_old, bh_N_node. rewrite take_drop in Ha.
      apply elem_of_cons in Ha as [->|Ha]; [by left|]. right. apply elem_of_app. by left.
    + rewrite bh_last, next_at_word, bh_word_xm. simpl. f_equal.
      by apply aligned_unmarked.
    + rewrite next_at_word, bh_word_new. simpl.
      rewrite (unmarked_id _ bh_y_unmarked).
      pose proof bh_succ as Hs. rewrite next_at_word, Hy in Hs. simpl in Hs.
      rewrite (unmarked_id _ bh_y_unmarked) in Hs. done.
  - eapply chain_ext_on; [|by apply Hsh].
    intros a Ha. apply bh_next_old; [|by right].
    apply bh_old. apply elem_of_cons in Ha as [->|Ha]; [by eapply shape_head_node|].
    by eapply (sh_nodes _ _ _ _ Hsh).
Qed.

Lemma bh_in i a : a ∈ L' i <-> (i = 0%nat /\ a = new) \/ a ∈ L i.
Proof using All.
  destruct i as [|i]; cbn [behind_deleted].
  - assert (He : a ∈ L 0%nat <-> a ∈ take m (L 0%nat) \/ a ∈ drop m (L 0%nat)).
    { by rewrite <- elem_of_app, take_drop. }
    rewrite elem_of_app, elem_of_cons, He. intuition congruence.
  - intuition congruence.
Qed.

Lemma bh_shape : shape HF l t L'.
Proof using All.
  constructor.
  - destruct (HF !! END) eqn:E; [|done].
    destruct (proj1 (bh_dom END) ltac:(eauto)) as [?|[? HE]]; [done|].
    by rewrite (sh_end _ _ _ _ Hsh) in HE.
  - apply bh_dom. right. apply Hsh.
  - apply bh_chain.
  - intros i a Hi [[-> ->]|Ha]%bh_in; apply bh_dom; [by left|right].
    by eapply (sh_nodes _ _ _ _ Hsh).
  - intros i a Hi Ha. apply bh_in. right.
    apply (sh_sub _ _ _ _ Hsh i a Hi). by destruct i.
Qed.

Lemma bh_nodup : NoDup (head l :: L' 0%nat ++ [t]).
Proof using All.
  rewrite behind_list by lia.
  assert (Hp : take (S m) N ++ new :: drop (S m) N ≡ₚ new :: N).
  { rewrite <- Permutation_middle. by rewrite take_drop. }
  rewrite Hp. apply NoDup_cons. split; [|done].
  intros Hin. by apply (bh_old new (bh_N_node _ Hin)).
Qed.

Lemma bh_lookup j :
  (head l :: L' 0%nat ++ [t]) !! j
  = if decide (j < S m)%nat then N !! j
    else if decide (j = S m) then Some new else N !! (j - 1)%nat.
Proof using All.
  rewrite behind_list by lia. apply lookup_put_in. simpl. rewrite length_app. simpl. lia.
Qed.

Lemma bh_marked : marked_upto HF (head l :: L' 0%nat ++ [t]) m.
Proof using All.
  intros j a. rewrite bh_lookup.
  assert (Hpos' : forall j' a', N !! j' = Some a' -> j' <> m ->
            exists w, word_at HF a' 0 = Some w /\ is_marked_ref w = bool_decide (j' < m)%nat).
  { intros j' a' Ha' Hj'. rewrite bh_word_old; [by apply Hmark| |left].
    - apply bh_old, bh_N_node. by eapply list_elem_of_lookup_2.
    - intros ->. apply Hj'. eapply NoDup_lookup; [exact Hnd|done|apply bh_xm_N]. }
  destruct (decide (j < S m)%nat); [|destruct (decide (j = S m)) as [->|]].
  - intros Ha. destruct (decide (j = m)) as [->|Hne].
    + rewrite bh_xm_N in Ha. injection Ha as <-. exists new. split; [apply bh_word_xm|].
      rewrite bool_decide_eq_false_2 by lia. by apply aligned_unmarked.
    + by apply Hpos'.
  - intros [= <-]. exists y. split; [apply bh_word_new|].
    rewrite bool_decide_eq_false_2 by lia. apply bh_y_unmarked.
  - intros Ha. destruct (Hpos' (j - 1)%nat a Ha ltac:(lia)) as (w & Hw & Hmw).
    exists w. split; [done|]. rewrite Hmw.
    rewrite !bool_decide_eq_false_2 by lia. done.
Qed.

End BehindHeap.
(** *** The insertion behind the deleted nodes *)

Lemma set_update_orphan_spec {cfg : config} (st : state) (l : set_t) (t : Z)
    (L : nat -> list Z) (k v r : Z) (fuel m : nat) :
  (1 <= NUM_LEVELS <= 32)%nat -> Z.land END 63 <> 0 ->
  deleted_ok st l t L m -> (1 <= m)%nat ->
  k < key_at (heap st) t ->
  (forall i, (i < NUM_LEVELS)%nat -> k < key_at (heap st) (default t (L i !! 0%nat))) ->
  (forall i, (i < NUM_LEVELS)%nat -> (length (L i) < fuel)%nat) ->
  exists st',
    set_update fuel l k v r st = (Ok tt, st') /\
    deleted_ok st' l t (behind_deleted L m (align64 (brk st))) m /\
    (forall a, is_Some (heap st' !! a) <-> a = align64 (brk st) \/ is_Some (heap st !! a)) /\
    key_at (heap st') (align64 (brk st)) = k /\
    value_at (heap st') (align64 (brk st)) = v /\
    level_at (heap st') (align64 (brk st)) = 1 /\
    (forall a, is_Some (heap st !! a) ->
       key_at (heap st') a = key_at (heap st) a /\
       value_at (heap st') a = value_at (heap st) a /\
       level_at (heap st') a = level_at (heap st) a) /\
    brk st <= brk st' <= brk st + 438 /\ freed st' = freed st /\ tl st' = tl st.
Proof.
  intros Hnum Hend Hd Hm Ht Hfront Hfuel.
  destruct (get_level_range r Hnum) as (lv & Hlv & Hlvr).
  destruct (set_update_orphan_run st l t L k v r lv fuel m Hnum Hend Hd Hm Ht Hfront
              Hfuel Hlv)
    as (xm & y & c & st' & Hxm & Hy & Hmy & Hrun & Hh & Hc & Hb & Hf & Htl).
  pose proof (do_shape _ _ _ _ _ Hd) as Hsh.
  pose proof (do_count _ _ _ _ _ Hd) as Hcount.
  pose proof (orph_new_fresh st l t L k v r lv fuel m Hnum Hend Hd Hm Ht Hfront Hfuel Hlv) as Hnew.
  pose proof (orph_new_END st l t L k v r lv fuel m Hnum Hend Hd Hm Ht Hfront Hfuel Hlv) as HnE.
  pose proof (align64_aligned (brk st)) as Hal.
  pose proof (align64_bounds (brk st)) as Hab.
  pose proof (pool_size_bound lv ltac:(lia)) as Hpool.
  assert (Hpos : (0 < NUM_LEVELS)%nat) by lia.
  assert (Hm' : (1 <= m <= length (L 0%nat))%nat) by lia.
  pose proof (bh_dom (heap st) l t L m (align64 (brk st)) xm y k v c Hpos Hsh
                (do_nodup _ _ _ _ _ Hd) (do_marked _ _ _ _ _ Hd) Hm' Hnew Hal HnE Hxm Hy Hc)
    as Hdom.
  exists st'. rewrite Hh.
  split_and!; [done| |done| | | | |lia|lia|done|done].
  - constructor; rewrite ?Hh.
    + apply (bh_shape (heap st) l t L m (align64 (brk st)) xm y k v c Hpos Hsh
                (do_nodup _ _ _ _ _ Hd) (do_marked _ _ _ _ _ Hd) Hm' Hnew Hal HnE Hxm Hy Hc).
    + intros a Ha. rewrite Hh in Ha. apply Hdom in Ha as [->|Ha].
      * pose proof (do_range _ _ _ _ _ Hd _ (shape_head_node _ _ _ _ Hpos Hsh)). lia.
      * pose proof (do_range _ _ _ _ _ Hd _ Ha). lia.
    + apply (bh_nodup (heap st) l t L m (align64 (brk st)) xm y k v c Hpos Hsh
                (do_nodup _ _ _ _ _ Hd) (do_marked _ _ _ _ _ Hd) Hm' Hnew Hal HnE Hxm Hy Hc).
    + apply (bh_marked (heap st) l t L m (align64 (brk st)) xm y k v c Hpos Hsh
                (do_nodup _ _ _ _ _ Hd) (do_marked _ _ _ _ _ Hd) Hm' Hnew Hal HnE Hxm Hy Hc).
    + unfold behind_deleted. rewrite length_app, length_take. simpl. lia.
    + intros Hw. unfold cache_ok in *.
      pose proof (do_cache _ _ _ _ _ Hd) as Hcache.
      rewrite Hh, Htl in Hw.
      assert (Hhx : head l <> xm).
      { intros E. pose proof (do_nodup _ _ _ _ _ Hd) as Hn.
        assert (Hx' : ((head l :: L 0%nat) ++ [t]) !! m = Some xm)
          by (by apply lookup_app_l_Some).
        assert (H0 : ((head l :: L 0%nat) ++ [t]) !! 0%nat = Some xm)
          by (simpl; by rewrite E).
        pose proof (NoDup_lookup _ _ _ _ Hn Hx' H0). lia. }
      rewrite (bh_word_old (heap st) l t L m (align64 (brk st)) xm y k v c Hpos Hsh
                 (do_nodup _ _ _ _ _ Hd) (do_marked _ _ _ _ _ Hd) Hm' Hnew Hal HnE Hxm Hy Hc)
        in Hw.
      * destruct (Hcache Hw) as (j & Hj & Hpt & Hoff). exists j.
        rewrite Htl. split; [done|]. split; [|done].
        rewrite (bh_lookup (heap st) l t L m (align64 (brk st)) xm y k v c Hpos Hsh
                 (do_nodup _ _ _ _ _ Hd) (do_marked _ _ _ _ _ Hd) Hm' Hnew Hal HnE Hxm Hy Hc).
        rewrite decide_True by lia. done.
      * intros E. rewrite <- E in Hnew.
        destruct (shape_head_node _ _ _ _ Hpos Hsh). congruence.
      * by left.
    + intros i a Hi Ha. destruct i as [|i]; [lia|]. cbn [behind_deleted] in Ha.
      rewrite (bh_word_old (heap st) l t L m (align64 (brk st)) xm y k v c Hpos Hsh
                 (do_nodup _ _ _ _ _ Hd) (do_marked _ _ _ _ _ Hd) Hm' Hnew Hal HnE Hxm Hy Hc).
      * by apply (do_upper _ _ _ _ _ Hd).
      * intros E. rewrite <- E in Hnew.
        apply elem_of_cons in Ha as [->|Ha].
        -- destruct (shape_head_node _ _ _ _ Hpos Hsh). congruence.
        -- destruct (sh_nodes _ _ _ _ Hsh (S i) a ltac:(lia) Ha). congruence.
      * by right.
    + intros i Hi. destruct i as [|i]; [done|]. cbn [behind_deleted].
      pose proof (do_sub _ _ _ _ _ Hd (S i) Hi) as Hs.
      rewrite <- (take_drop m (L 0%nat)) in Hs.
      apply sublist_app_r in Hs as (l1 & l2 & -> & H1 & H2).
      apply sublist_app; [done|]. by apply sublist_cons.
  - apply (bh_key_new (heap st) l t L m (align64 (brk st)) xm y k v c Hpos Hsh
                (do_nodup _ _ _ _ _ Hd) (do_marked _ _ _ _ _ Hd) Hm' Hnew Hal HnE Hxm Hy Hc).
  - destruct (bh_new_node (heap st) l t L m (align64 (brk st)) xm y k v c Hpos Hsh
                 (do_nodup _ _ _ _ _ Hd) (do_marked _ _ _ _ _ Hd) Hm' Hnew Hal HnE Hxm Hy Hc)
      as (nd & Hnd & _ & _ & Hv).
    unfold value_at. by rewrite Hnd.
  - destruct (bh_new_node (heap st) l t L m (align64 (brk st)) xm y k v c Hpos Hsh
                 (do_nodup _ _ _ _ _ Hd) (do_marked _ _ _ _ _ Hd) Hm' Hnew Hal HnE Hxm Hy Hc)
      as (nd & Hnd & _ & Hl & _).
    unfold level_at. by rewrite Hnd.
  - intros a [nd Ha].
    destruct (bh_scalars (heap st) l t L m (align64 (brk st)) xm y k v c Hpos Hsh
                 (do_nodup _ _ _ _ _ Hd) (do_marked _ _ _ _ _ Hd) Hm' Hnew Hal HnE Hxm Hy Hc
                 a nd Ha) as (nd' & Hnd' & Hk' & Hl' & Hv').
    unfold key_at, value_at, level_at. by rewrite Hnd', Ha.
Qed.
(** *** Deletions and insertions on a queue with deleted nodes *)

Section DeletedQueue.
Context {cfg : config}.
Context (Hoptim : OPTIM = false) (Hend : is_marked_ref END = false).

Lemma set_removemin_deleted (st : state) (l : set_t) (t : Z)
    (L : nat -> list Z) (m fuel : nat) :
  (0 < NUM_LEVELS)%nat ->
  deleted_ok st l t L m -> (m < length (L 0%nat))%nat -> brk st < WORD ->
  Z.of_nat m + 1 <= max_offset l -> max_offset l <= INT_MAX ->
  (m < fuel)%nat ->
  exists v st',
    L 0%nat !! m = Some v /\
    set_removemin fuel l st = (Ok (key_at (heap st) v), st') /\
    deleted_ok st' l t L (S m) /\
    (forall a, key_at (heap st') a = key_at (heap st) a) /\
    (forall a, is_Some (heap st' !! a) <-> is_Some (heap st !! a)) /\
    brk st' = brk st.
Proof using Hoptim Hend.
  intros Hpos Hd Hlen Hbrk Hmo Hmax Hfuel.
  pose proof (do_shape _ _ _ _ _ Hd) as Hsh.
  pose proof (do_nodup _ _ _ _ _ Hd) as Hnd.
  pose proof (do_marked _ _ _ _ _ Hd) as Hmark.
  assert (Hnd0 : NoDup (head l :: L 0%nat)).
  { change (head l :: L 0%nat ++ [t]) with ((head l :: L 0%nat) ++ [t]) in Hnd.
    by apply NoDup_app in Hnd as (? & _). }
  destruct (set_removemin_core Hoptim Hend st l t (L 0%nat) m fuel (sh_end _ _ _ _ Hsh)
              (sh_chain _ _ _ _ Hsh 0%nat Hpos))
    as (x & v & nd & st' & Hx & Hv & Hndx & Hw & Hrun & Hh & Hb & Hf & Hr & Hm & Hc);
    try done.
  { intros a [Ha|Ha]%elem_of_app.
    - by eapply (sh_nodes _ _ _ _ Hsh 0%nat).
    - apply list_elem_of_singleton in Ha as ->. apply Hsh. }
  { apply (do_range _ _ _ _ _ Hd). }
  { by apply (marked_upto_app _ _ [t]). }
  { lia. }
  { apply (do_cache _ _ _ _ _ Hd). }
  rewrite lookup_app_l in Hv by done.
  exists v, st'. split_and!; [done|done| | | |done].
  - destruct (Hmark m x) as (w & Hwx & Hwm).
    { change (head l :: L 0%nat ++ [t]) with ((head l :: L 0%nat) ++ [t]).
      by apply lookup_app_l_Some. }
    unfold word_at in Hwx. rewrite Hndx, Hw in Hwx. injection Hwx as <-.
    rewrite bool_decide_eq_false_2 in Hwm by lia.
    assert (Hvin : is_Some (heap st !! v)).
    { eapply (sh_nodes _ _ _ _ Hsh 0%nat); [done|]. by eapply list_elem_of_lookup_2. }
    pose proof (do_range _ _ _ _ _ Hd v Hvin) as Hvr.
    destruct (mark_by_add v Hwm ltac:(lia) ltac:(lia)) as (_ & _ & Hun).
    constructor; rewrite ?Hh.
    + eapply shape_ext; [exact Hsh| | |].
      * rewrite lookup_insert_ne; [apply Hsh|]. intros ->.
        rewrite (sh_end _ _ _ _ Hsh) in Hndx. done.
      * intros a Ha. by apply is_Some_set_next.
      * intros i a Hi Ha. eapply next_at_retag; [done|done|].
        by rewrite Hun, (unmarked_id _ Hwm).
    + done.
    + done.
    + intros j a Ha. destruct (decide (j < S (length (L 0%nat)))%nat) as [Hj|Hj].
      * rewrite <- Hh. apply Hm.
        change (head l :: L 0%nat ++ [t]) with ((head l :: L 0%nat) ++ [t]) in Ha.
        rewrite lookup_app_l in Ha by (simpl; lia). done.
      * assert (Hj' : j = S (length (L 0%nat))).
        { apply lookup_lt_Some in Ha. simpl in Ha. rewrite length_app in Ha. simpl in Ha. lia. }
        subst j. destruct (Hmark _ _ Ha) as (w & Hwt & Hwm').
        exists w. rewrite word_at_insert_ne.
        -- split; [done|]. rewrite Hwm'. rewrite !bool_decide_eq_false_2 by lia. done.
        -- intros ->.
           assert (Hx' : ((head l :: L 0%nat) ++ [t]) !! m = Some x)
             by (by apply lookup_app_l_Some).
           pose proof (NoDup_lookup _ _ _ _ Hnd Ha Hx'). lia.
    + lia.
    + done.
    + intros i a Hi Ha. destruct (do_upper _ _ _ _ _ Hd i a Hi Ha) as (w' & Hw' & Hmw').
      exists w'. split; [|done]. rewrite <- Hw'. unfold word_at.
      destruct (decide (a = x)) as [->|Hne]; [|by rewrite lookup_insert_ne].
      rewrite lookup_insert_eq, Hndx. cbn [set_next n_next].
      rewrite list_lookup_insert_ne by lia. done.
    + apply (do_sub _ _ _ _ _ Hd).
  - intros a. rewrite Hh. by apply key_at_set_next.
  - intros a. rewrite Hh. by apply is_Some_set_next.
Qed.

End DeletedQueue.

Lemma behind_first (L : nat -> list Z) m new i :
  (1 <= m <= length (L 0%nat))%nat ->
  behind_deleted L m new i !! 0%nat = L i !! 0%nat.
Proof.
  intros Hm. destruct i as [|i]; [|done]. unfold behind_deleted.
  rewrite lookup_app_l by (rewrite length_take; lia).
  rewrite lookup_take_lt by lia. done.
Qed.

Lemma behind_length (L : nat -> list Z) m new i :
  (length (behind_deleted L m new i) <= S (length (L i)))%nat.
Proof.
  destruct i as [|i]; [|simpl; lia]. unfold behind_deleted.
  rewrite length_app. simpl. rewrite length_take, length_drop. lia.
Qed.

Lemma behind_at (L : nat -> list Z) m new :
  (m <= length (L 0%nat))%nat ->
  behind_deleted L m new 0 !! m = Some new /\
  behind_deleted L m new 0 !! S m = L 0%nat !! m /\
  length (behind_deleted L m new 0) = S (length (L 0%nat)).
Proof.
  intros Hm. unfold behind_deleted. rewrite !lookup_put_in by done.
  rewrite decide_False, decide_True by lia.
  rewrite decide_False, decide_False by lia.
  replace (S m - 1)%nat with m by lia.
  rewrite length_app. simpl. rewrite length_take, length_drop. split_and!; [done|done|lia].
Qed.

Section Reversed.
Context {cfg : config}.
Context (Hoptim : OPTIM = false) (Hend : is_marked_ref END = false).

Lemma first_node_old h l t L i :
  shape h l t L -> (i < NUM_LEVELS)%nat -> is_Some (h !! default t (L i !! 0%nat)).
Proof using Type.
  intros Hsh Hi. destruct (L i !! 0%nat) as [b|] eqn:E; simpl.
  - eapply (sh_nodes _ _ _ _ Hsh); [done|]. by eapply list_elem_of_lookup_2.
  - apply Hsh.
Qed.

Lemma reversed_run (st : state) (l : set_t) (t : Z) (L : nat -> list Z)
    (k1 v1 r1 k2 v2 r2 : Z) (fuel m : nat) :
  (1 <= NUM_LEVELS <= 32)%nat -> Z.land END 63 <> 0 ->
  deleted_ok st l t L m -> (1 <= m)%nat ->
  k1 < key_at (heap st) t -> k2 < key_at (heap st) t ->
  (forall i, (i < NUM_LEVELS)%nat ->
     k1 < key_at (heap st) (default t (L i !! 0%nat)) /\
     k2 < key_at (heap st) (default t (L i !! 0%nat))) ->
  (forall i, (i < NUM_LEVELS)%nat -> (length (L i) + 2 < fuel)%nat) ->
  brk st + 876 < WORD ->
  Z.of_nat m + 2 <= max_offset l -> max_offset l <= INT_MAX ->
  fst ((set_update fuel l k1 v1 r1 ;;;
        set_update fuel l k2 v2 r2 ;;;
        a <- set_removemin fuel l ;;
        b <- set_removemin fuel l ;;
        ret (a, b)) st) = Ok (k2, k1).
Proof using Hoptim Hend.
  intros Hnum HE Hd Hm Ht1 Ht2 Hfront Hfuel Hbrk Hmo Hmax.
  pose proof (do_shape _ _ _ _ _ Hd) as Hsh.
  pose proof (do_count _ _ _ _ _ Hd) as Hcount.
  destruct (set_update_orphan_spec st l t L k1 v1 r1 fuel m Hnum HE Hd Hm Ht1)
    as (st1 & Hrun1 & Hd1 & Hdom1 & Hk1 & _ & _ & Hold1 & Hb1 & _ & _).
  { intros i Hi. by apply Hfront. }
  { intros i Hi. specialize (Hfuel i Hi). lia. }
  set (new1 := align64 (brk st)) in *.
  set (L1 := behind_deleted L m new1) in *.
  pose proof (do_shape _ _ _ _ _ Hd1) as Hsh1.
  destruct (set_update_orphan_spec st1 l t L1 k2 v2 r2 fuel m Hnum HE Hd1 Hm)
    as (st2 & Hrun2 & Hd2 & Hdom2 & Hk2 & _ & _ & Hold2 & Hb2 & _ & _).
  { destruct (Hold1 t (sh_tail _ _ _ _ Hsh)) as [-> _]. done. }
  { intros i Hi. unfold L1. rewrite behind_first by lia.
    destruct (Hold1 _ (first_node_old _ _ _ _ i Hsh Hi)) as [-> _]. by apply Hfront. }
  { intros i Hi. specialize (Hfuel i Hi). pose proof (behind_length L m new1 i).
    unfold L1. lia. }
  set (new2 := align64 (brk st1)) in *.
  set (L2 := behind_deleted L1 m new2) in *.
  destruct (behind_at L m new1 Hcount) as (Hat1 & _ & Hlen1).
  fold L1 in Hat1, Hlen1.
  destruct (behind_at L1 m new2 ltac:(lia)) as (Hat2 & Hat2' & Hlen2).
  fold L2 in Hat2, Hat2', Hlen2.
  assert (Hpos : (0 < NUM_LEVELS)%nat) by lia.
  pose proof (Hfuel 0%nat Hpos) as Hf0.
  destruct (set_removemin_deleted Hoptim Hend st2 l t L2 m fuel Hpos Hd2)
    as (a & st3 & Ha & Hrun3 & Hd3 & Hkey3 & Hdom3 & Hb3); try lia.
  rewrite Hat2 in Ha. injection Ha as <-. rewrite Hk2 in Hrun3.
  destruct (set_removemin_deleted Hoptim Hend st3 l t L2 (S m) fuel Hpos Hd3)
    as (b & st4 & Hb & Hrun4 & _); try lia.
  rewrite Hat2', Hat1 in Hb. injection Hb as <-.
  rewrite Hkey3 in Hrun4.
  destruct (Hold2 new1 ltac:(apply Hdom1; by left)) as [Hkn _].
  rewrite Hkn, Hk1 in Hrun4.
  rewrite (bind_ok _ _ _ _ _ Hrun1), (bind_ok _ _ _ _ _ Hrun2),
    (bind_ok _ _ _ _ _ Hrun3), (bind_ok _ _ _ _ _ Hrun4). done.
Qed.

End Reversed.

Lemma queue_ok_deleted {cfg : config} st l t L :
  (0 < NUM_LEVELS)%nat -> queue_ok st l t L ->
  t ∉ head l :: L 0%nat ->
  (exists wt, word_at (heap st) t 0 = Some wt /\ is_marked_ref wt = false) ->
  old_obs_hp (tl st) = NULL ->
  (forall i, (i < NUM_LEVELS)%nat -> sublist (L i) (L 0%nat)) ->
  deleted_ok st l t L 0.
Proof.
  intros Hpos Hq Ht (wt & Hwt & Hmt) Hnull Hsub.
  pose proof (qo_list _ _ _ _ Hq) as HSL.
  constructor.
  - constructor; [apply HSL|apply HSL|apply HSL|apply HSL|].
    intros i a Hi. by apply (sl_sub _ _ _ _ HSL).
  - apply Hq.
  - change (head l :: L 0%nat ++ [t]) with ((head l :: L 0%nat) ++ [t]).
    apply NoDup_app. split_and!; [by apply (qo_nodup _ _ _ _ Hq)| |apply NoDup_singleton].
    intros a Ha ->%list_elem_of_singleton. done.
  - intros j a Ha. rewrite bool_decide_eq_false_2 by lia.
    apply list_elem_of_lookup_2 in Ha.
    change (head l :: L 0%nat ++ [t]) with ((head l :: L 0%nat) ++ [t]) in Ha.
    apply elem_of_app in Ha as [Ha| ->%list_elem_of_singleton]; [|eauto].
    by apply (qo_unmarked _ _ _ _ Hq 0%nat).
  - lia.
  - by apply queue_ok_cache_null.
  - intros i a Hi Ha. apply (qo_unmarked _ _ _ _ Hq i a); [lia|done].
  - done.
Qed.
(** ** The cleanup of [set_removemin] *)

(** *** [weak_search_end] over deleted nodes *)

Lemma lookup_last_cons (x : Z) (ns : list Z) :
  (x :: ns) !! length ns = Some (default x (last ns)).
Proof.
  revert x. induction ns as [|a ns IH]; intros x; [done|].
  simpl. rewrite IH. rewrite last_cons. by destruct (last ns).
Qed.

Section MarkedLevels.
Context {cfg : config}.
Context (H : gmap Z node_t) (l : set_t) (t : Z) (L : nat -> list Z) (X : list Z).

Local Abbreviation A i := (filter (fun a => a ∈ X) (L i)).
Local Abbreviation B i := (filter (fun a => a ∉ X) (L i)).
Local Abbreviation P i := (default (head l) (last (A i))).

Context (HEND : H !! END = None).
Context (Hsplit : forall i, (1 <= i < NUM_LEVELS)%nat -> L i = A i ++ B i).
Context (Hmk : forall a, a ∈ X ->
           exists w, word_at H a 0 = Some w /\ is_marked_ref w = true).
Context (Hun : forall i a, (1 <= i < NUM_LEVELS)%nat -> a ∈ L i ++ [t] -> a ∉ X ->
           exists w, word_at H a 0 = Some w /\ is_marked_ref w = false).
Context (HtX : t ∉ X).
Context (Hchain : forall i, (1 <= i < NUM_LEVELS)%nat -> chain H i (head l) (L i) t).
Context (Hupper : forall i a, (1 <= i < NUM_LEVELS)%nat -> a ∈ head l :: L i ->
           exists w, word_at H a i = Some w /\ is_marked_ref w = false).
Context (Hsub : forall i a, (1 <= i)%nat -> (S i < NUM_LEVELS)%nat ->
           a ∈ L (S i) -> a ∈ L i).

Lemma ml_next i p x :
  (1 <= i < NUM_LEVELS)%nat -> (head l :: L i) !! p = Some x ->
  exists b, (L i ++ [t]) !! p = Some b /\ word_at H x i = Some b.
Proof using All.
  intros Hi Hx.
  destruct (chain_lookup _ _ _ _ _ (Hchain i Hi) p x Hx) as (b & Hb & Hn).
  destruct (Hupper i x Hi (list_elem_of_lookup_2 _ _ _ Hx)) as (w & Hw & Hmw).
  rewrite next_at_word, Hw in Hn. simpl in Hn. rewrite (unmarked_id _ Hmw) in Hn.
  exists b. split; [done|congruence].
Qed.

Lemma ml_A_in i a : a ∈ A i <-> a ∈ L i /\ a ∈ X.
Proof using Type. rewrite list_elem_of_filter. split; intros [? ?]; done. Qed.

Lemma ml_B_in i a : a ∈ B i <-> a ∈ L i /\ a ∉ X.
Proof using Type. rewrite list_elem_of_filter. split; intros [? ?]; done. Qed.

Lemma ml_P_in i : P i = head l \/ P i ∈ A i.
Proof using Type.
  destruct (last (A i)) as [z|] eqn:E;
    cbn [default from_option id]; [|by left].
  right. apply last_Some in E as [A' E]. rewrite E. apply elem_of_app. right. by left.
Qed.

Lemma ml_P_last i : (head l :: A i) !! length (A i) = Some (P i).
Proof using Type. apply lookup_last_cons. Qed.

(** The walk at one level stops at the last node of the level whose
    bottom pointer is marked. *)
Lemma wse_walk_marked i :
  (1 <= i < NUM_LEVELS)%nat ->
  forall d p x lvl n st,
    heap st = H -> (head l :: A i) !! p = Some x -> length (A i) = (p + d)%nat ->
    (d < n)%nat ->
    exists st',
      wse_walk n i x lvl st
      = (Ok (P i, if decide (d = 0)%nat then lvl
                  else if lvl =? 0 then Z.of_nat i else lvl), st') /\
      heap st' = H /\ same_regs st st'.
Proof using All.
  intros Hi. induction d as [|d IH]; intros p x lvl n st Hh Hx Hlen Hn;
    (destruct n as [|n]; [lia|]); cbn [wse_walk];
    (assert (Hx' : (head l :: L i) !! p = Some x);
     [rewrite (Hsplit i Hi), app_comm_cons; apply lookup_app_l_Some; exact Hx|]);
    destruct (ml_next i p x Hi Hx') as (b & Hb & Hw);
    rewrite <- Hh in Hw;
    rewrite (bind_ok _ _ _ _ _ (load_next_view _ _ _ _ Hw)).
  - assert (Hbun : b ∉ X).
    { rewrite (Hsplit i Hi), <- app_assoc, lookup_app_r in Hb by lia.
      apply list_elem_of_lookup_2 in Hb.
      apply elem_of_app in Hb as [Hb%ml_B_in| ->%list_elem_of_singleton]; tauto. }
    destruct (Hun i b Hi (list_elem_of_lookup_2 _ _ _ Hb) Hbun) as (w0 & Hw0 & Hm0).
    rewrite <- Hh in Hw0.
    rewrite (bind_ok _ _ _ _ _ (load_next_view _ 0 w0 (add_event _ st) Hw0)), Hm0.
    cbn [negb]. rewrite decide_True by done.
    assert (x = P i) as <-.
    { pose proof (ml_P_last i) as Hl. rewrite Hlen, Nat.add_0_r, Hx in Hl. congruence. }
    eexists. split_and!; [reflexivity|done|done].
  - assert (HbA : A i !! p = Some b).
    { rewrite (Hsplit i Hi), <- app_assoc, lookup_app_l in Hb by lia. done. }
    assert (HbX : b ∈ X).
    { apply list_elem_of_lookup_2, ml_A_in in HbA. tauto. }
    destruct (Hmk b HbX) as (w0 & Hw0 & Hm0). rewrite <- Hh in Hw0.
    rewrite (bind_ok _ _ _ _ _ (load_next_view _ 0 w0 (add_event _ st) Hw0)), Hm0.
    cbn [negb].
    assert (HbE : (b =? END) = false).
    { apply Z.eqb_neq. intros ->. unfold word_at in Hw0. rewrite Hh, HEND in Hw0. done. }
    rewrite HbE. cbn [negb]. rewrite (bind_ok _ _ _ _ _ (c_assert_true _)).
    match goal with |- context [wse_walk n i b ?lv ?s] =>
      destruct (IH (S p) b lv n s) as (st' & Hrun & Hh' & Hr');
        [done|done|lia|lia|] end.
    exists st'. split_and!; [|done|done].
    rewrite Hrun. rewrite (decide_False (P := (S d = 0)%nat)) by lia.
    do 3 f_equal. destruct (decide (d = 0)%nat); [done|].
    destruct (lvl =? 0) eqn:E; [|by rewrite E].
    assert ((Z.of_nat i =? 0) = false) as -> by (apply Z.eqb_neq; lia). done.
Qed.

Lemma ml_A_sub i a : (1 <= i)%nat -> (S i < NUM_LEVELS)%nat -> a ∈ A (S i) -> a ∈ A i.
Proof using All.
  intros Hi Hi' [Ha HX]%ml_A_in. apply ml_A_in. split; [|done]. by apply Hsub.
Qed.

(** The walks at the levels [n] down to 1. *)
Lemma wse_levels_marked fuel :
  (forall i, (i < NUM_LEVELS)%nat -> (length (L i) < fuel)%nat) ->
  forall n x lvl pa st,
    (n < NUM_LEVELS)%nat -> heap st = H ->
    (n = 0%nat \/ x ∈ head l :: A n) -> (lvl = 0 -> x = head l) -> 0 <= lvl ->
    exists lvl' pa' st',
      wse_levels fuel n x lvl pa st = (Ok (lvl', pa'), st') /\
      heap st' = H /\ same_regs st st' /\ length pa' = length pa /\
      (forall i, pa' !! i = if decide (1 <= i <= n /\ i < length pa)%nat
                            then Some (P i) else pa !! i) /\
      (lvl <> 0 -> lvl' = lvl) /\
      (lvl = 0 -> 0 <= lvl' <= Z.of_nat n /\
                  (forall i, (1 <= i <= n)%nat -> lvl' < Z.of_nat i -> A i = []) /\
                  (lvl' <> 0 -> A (Z.to_nat lvl') <> [])).
Proof using All.
  intros Hfuel. induction n as [|n IH]; intros x lvl pa st Hn Hh Hx Hlvl Hl0.
  - exists lvl, pa, st. simpl. split_and!; try done.
    + intros i. rewrite decide_False; [done|lia].
    + intros ->. split; [lia|]. split; [intros; lia|done].
  - cbn [wse_levels]. destruct Hx as [?|Hx]; [lia|].
    assert (Hi : (1 <= S n < NUM_LEVELS)%nat) by lia.
    assert (HlenA : (length (A (S n)) < fuel)%nat).
    { pose proof (Hfuel (S n) Hn). pose proof (length_filter (fun a => a ∈ X) (L (S n))).
      lia. }
    assert (Hp : exists p, (head l :: A (S n)) !! p = Some x /\
                           (p <= length (A (S n)))%nat /\ (lvl = 0 -> p = 0%nat)).
    { destruct (decide (lvl = 0)) as [E|E].
      - exists 0%nat. rewrite (Hlvl E). split_and!; [done|lia|done].
      - apply list_elem_of_lookup_1 in Hx as [p Hp]. exists p. split_and!; [done| |done].
        apply lookup_lt_Some in Hp. simpl in Hp. lia. }
    destruct Hp as (p & Hp & Hple & Hp0).
    destruct (wse_walk_marked (S n) Hi (length (A (S n)) - p)%nat p x lvl fuel st)
      as (st1 & Hrun & Hh1 & Hr1); [done|done|lia|lia|].
    rewrite (bind_ok _ _ _ _ _ Hrun). cbn [fst snd].
    set (lvl1 := if decide (length (A (S n)) - p = 0)%nat then lvl
                 else if lvl =? 0 then Z.of_nat (S n) else lvl) in *.
    assert (HPin : n = 0%nat \/ P (S n) ∈ head l :: A n).
    { destruct n as [|n']; [by left|right].
      destruct (ml_P_in (S (S n'))) as [->|Hin]; [by left|].
      right. apply ml_A_sub; [lia|lia|done]. }
    assert (Hl1 : lvl1 = 0 -> P (S n) = head l).
    { unfold lvl1. destruct (decide (length (A (S n)) - p = 0)%nat) as [E|E].
      - intros E0. specialize (Hp0 E0). subst p.
        assert (A (S n) = []) as -> by (apply length_zero_iff_nil; lia). done.
      - destruct (lvl =? 0) eqn:E0; [lia|]. apply Z.eqb_neq in E0. done. }
    assert (Hl1' : 0 <= lvl1).
    { unfold lvl1. destruct (decide _); [done|]. destruct (lvl =? 0); lia. }
    destruct (IH (P (S n)) lvl1 (<[S n := P (S n)]> pa) st1 ltac:(lia) Hh1 HPin Hl1 Hl1')
      as (lvl' & pa' & st' & Hrun' & Hh' & Hr' & Hlen' & Hpa' & Hne' & Heq').
    exists lvl', pa', st'. split_and!; [done|done| | | | |].
    + by eapply same_regs_trans.
    + by rewrite Hlen', length_insert.
    + intros i. rewrite Hpa', length_insert.
      destruct (decide (i = S n)) as [->|Hne].
      * rewrite (decide_False (P := (1 <= S n <= n /\ _)%nat)) by lia.
        destruct (decide (S n < length pa)%nat).
        -- rewrite list_lookup_insert_eq by done. rewrite decide_True; [done|lia].
        -- rewrite list_insert_ge by lia. rewrite decide_False; [done|lia].
      * rewrite list_lookup_insert_ne by done. apply decide_ext. lia.
    + intros Hne. unfold lvl1 in *.
      destruct (decide (length (A (S n)) - p = 0)%nat); [by apply Hne'|].
      apply Z.eqb_neq in Hne. rewrite Hne in *. apply Hne'. by apply Z.eqb_neq.
    + intros ->. specialize (Hp0 eq_refl). subst p. unfold lvl1 in *.
      change (0 =? 0) with true in *. cbv iota in *.
      destruct (decide (length (A (S n)) - 0 = 0)%nat) as [E|E].
      * destruct (Heq' eq_refl) as (Hr0 & Hall & Htop). split; [lia|]. split; [|done].
        intros i Hi' Hlt. destruct (decide (i = S n)) as [->|Hne].
        -- apply length_zero_iff_nil. lia.
        -- apply Hall; [lia|done].
      * rewrite Hne' by lia. split; [lia|]. split; [intros i Hi' Hlt; lia|].
        intros _. rewrite Nat2Z.id. intros E0. rewrite E0 in E. simpl in E. lia.
Qed.

End MarkedLevels.
(** *** The swing of the upper levels of the head *)

Lemma word_at_swing_heap h hd T n a i :
  word_at (swing_heap h hd T n) a i
  = if decide (a = hd /\ (1 <= i <= n)%nat /\ is_Some (word_at h hd i)) then Some (T i)
    else word_at h a i.
Proof.
  revert h. induction n as [|n IH]; intros h; cbn [swing_heap].
  - rewrite decide_False; [done|]. intros (_ & ? & _). lia.
  - rewrite IH. rewrite !word_at_poke.
    destruct (decide (i = S n)) as [->|Hne].
    + rewrite (decide_False (P := (_ /\ (1 <= S n <= n)%nat /\ _))) by (intros (_ & ? & _); lia).
      apply decide_ext. split.
      * intros (? & ? & ?). (split; [done|split; [lia|done]]).
      * intros (? & ? & ?). done.
    + rewrite (decide_False (P := (hd = hd /\ i = S n /\ _))) by (intros (_ & ? & _); done).
      rewrite (decide_False (P := (a = hd /\ i = S n /\ _))) by (intros (_ & ? & _); done).
      apply decide_ext. split.
      * intros (? & ? & ?). (split; [done|split; [lia|done]]).
      * intros (? & ? & ?). (split; [done|split; [lia|done]]).
Qed.

Lemma key_at_swing_heap h hd T n a : key_at (swing_heap h hd T n) a = key_at h a.
Proof.
  revert h. induction n as [|n IH]; intros h; [done|]. cbn [swing_heap].
  by rewrite IH, key_at_poke.
Qed.

Lemma is_Some_swing_heap h hd T n a :
  is_Some (swing_heap h hd T n !! a) <-> is_Some (h !! a).
Proof.
  revert h. induction n as [|n IH]; intros h; [done|]. cbn [swing_heap].
  by rewrite IH, is_Some_poke.
Qed.

Lemma scalars_swing_heap h hd T n b nd :
  h !! b = Some nd ->
  exists nd', swing_heap h hd T n !! b = Some nd' /\
              n_k nd' = n_k nd /\ n_level nd' = n_level nd /\ n_v nd' = n_v nd.
Proof.
  revert h nd. induction n as [|n IH]; intros h nd Hb; [eauto|]. cbn [swing_heap].
  destruct (scalars_poke h hd (S n) (T (S n)) b nd Hb) as (n1 & Hn1 & ? & ? & ?).
  destruct (IH _ _ Hn1) as (n2 & Hn2 & ? & ? & ?).
  exists n2. split_and!; congruence.
Qed.

Section Swing.
Context {cfg : config}.
Context (l : set_t) (preds : list Z) (Pn : nat -> Z) (T : nat -> Z).

Lemma swing_levels_run fuel :
  (0 < fuel)%nat ->
  forall n h st,
    heap st = h ->
    (forall i, (1 <= i <= n)%nat ->
       preds !! i = Some (Pn i) /\ word_at h (Pn i) i = Some (T i) /\
       is_Some (word_at h (head l) i)) ->
    exists st',
      swing_levels fuel n l preds st = (Ok preds, st') /\
      heap st' = swing_heap h (head l) T n /\ same_regs st st'.
Proof.
  intros Hfuel. induction n as [|n IH]; intros h st Hh Hall.
  - exists st. done.
  - cbn [swing_levels swing_heap].
    destruct (Hall (S n) ltac:(lia)) as (Hp & Hw & [c Hc]).
    rewrite <- Hh in Hc, Hw.
    rewrite (bind_ok _ _ _ _ _ (load_next_view _ _ _ _ Hc)).
    destruct fuel as [|fuel']; [lia|]. cbn [swing_cas].
    unfold arr_get. rewrite Hp.
    rewrite (bind_eq (bind _ _)), (bind_ok _ _ _ (Pn (S n)) _ eq_refl).
    rewrite (bind_ok _ _ _ _ _ (load_next_view _ _ _ (add_event _ st) Hw)).
    rewrite (bind_ok _ _ _ _ _ (CASPO_view _ _ c _ _ (add_event _ (add_event _ st)) Hc)).
    rewrite !Z.eqb_refl. cbv [ret].
    match goal with |- context [swing_levels _ n l preds ?s] =>
      destruct (IH (poke h (head l) (S n) (T (S n))) s) as (st' & Hrun & Hh' & Hr') end.
    { cbn [heap add_event with_heap]. by rewrite Hh. }
    { intros i Hi. destruct (Hall i ltac:(lia)) as (Hpi & Hwi & Hci).
      split; [done|]. rewrite !word_at_poke.
      rewrite !(decide_False (P := (_ /\ i = S n /\ _))) by (intros (_ & ? & _); lia).
      done. }
    exists st'. split_and!; [done|done|].
    destruct Hr' as (? & ? & ?). done.
Qed.

End Swing.

(** *** The start of the walk *)

Lemma removemin_start_entry {cfg : config} st l N j o w0 :
  word_at (heap st) (head l) 0 = Some w0 ->
  N !! 0%nat = Some (head l) ->
  entry st l N j o ->
  exists x st',
    removemin_start l st = (Ok x, st') /\
    heap st' = heap st /\ brk st' = brk st /\ freed st' = freed st /\
    N !! j = Some x /\ old_offset (tl st') = o /\ old_obs_hp (tl st') = w0.
Proof.
  intros Hw HN He. unfold entry in He. pose proof Hw as Hw'. unfold word_at in Hw'.
  destruct (heap st !! head l) as [hd|] eqn:Hhd; [|done].
  unfold removemin_start. rewrite bind_eq. cbn [get_tl].
  rewrite bind_eq, load_next_eq, Hhd, Hw'.
  destruct (old_obs_hp (tl st) =? w0) eqn:E.
  - apply Z.eqb_eq in E. rewrite bool_decide_eq_true_2 in He by (by rewrite Hw, E).
    destruct He as [Hpt ->].
    eexists _, _. split_and!; [reflexivity|..]; cbn [tl add_event]; done.
  - apply Z.eqb_neq in E. rewrite bool_decide_eq_false_2 in He by (rewrite Hw; congruence).
    destruct He as [-> ->].
    rewrite bind_eq, load_next_eq. cbn [heap add_event]. rewrite Hhd, Hw'.
    eexists _, _. split_and!; [reflexivity|..]; done.
Qed.

Lemma entry_bounds {cfg : config} st l t L m j o :
  (0 < NUM_LEVELS)%nat -> deleted_ok st l t L m ->
  entry st l (head l :: L 0%nat ++ [t]) j o ->
  (j <= m)%nat /\ 0 <= o <= Z.of_nat j.
Proof.
  intros Hpos Hd He. unfold entry in He.
  destruct (bool_decide _) eqn:E.
  - apply bool_decide_eq_true_1 in E. destruct He as [Hpt ->].
    destruct (do_cache _ _ _ _ _ Hd E) as (j' & Hj' & Hpt' & Ho).
    pose proof (NoDup_lookup _ _ _ _ (do_nodup _ _ _ _ _ Hd) Hpt Hpt') as ->. done.
  - destruct He as [-> ->]. lia.
Qed.

Lemma filter_all (Q : Z -> Prop) `{!forall a, Decision (Q a)} (ns : list Z) :
  (forall a, a ∈ ns -> Q a) -> filter Q ns = ns.
Proof.
  induction ns as [|a ns IH]; intros Hall; [done|].
  rewrite filter_cons_True by (apply Hall; by left).
  f_equal. apply IH. intros b Hb. apply Hall. by right.
Qed.

Lemma filter_none (Q : Z -> Prop) `{!forall a, Decision (Q a)} (ns : list Z) :
  (forall a, a ∈ ns -> ~ Q a) -> filter Q ns = [].
Proof.
  induction ns as [|a ns IH]; intros Hall; [done|].
  rewrite filter_cons_False by (apply Hall; by left).
  apply IH. intros b Hb. apply Hall. by right.
Qed.

(** The nodes of a level that are among the first [m] nodes of the
    bottom level come first in the level. *)
Lemma level_split (L0 Li : list Z) (m : nat) :
  NoDup L0 -> sublist Li L0 ->
  Li = filter (fun a => a ∈ take m L0) Li ++ filter (fun a => a ∉ take m L0) Li /\
  sublist (filter (fun a => a ∉ take m L0) Li) (drop m L0).
Proof.
  intros Hnd Hs. rewrite <- (take_drop m L0) in Hs, Hnd.
  apply sublist_app_r in Hs as (l1 & l2 & -> & H1 & H2).
  apply NoDup_app in Hnd as (_ & Hdis & _).
  assert (Hin1 : forall a, a ∈ l1 -> a ∈ take m L0).
  { intros a Ha. exact (elem_of_sublist _ _ _ Ha H1). }
  assert (Hin2 : forall a, a ∈ l2 -> a ∉ take m L0).
  { intros a Ha Hin. apply (Hdis a Hin). exact (elem_of_sublist _ _ _ Ha H2). }
  rewrite !filter_app.
  rewrite (filter_all (fun a => a ∈ take m L0) l1) by done.
  rewrite (filter_none (fun a => a ∈ take m L0) l2) by done.
  rewrite (filter_none (fun a => a ∉ take m L0) l1) by (intros a Ha Hn; by apply Hn, Hin1).
  rewrite (filter_all (fun a => a ∉ take m L0) l2) by done.
  rewrite app_nil_r. simpl. done.
Qed.
Lemma mark_by_or w : is_marked_ref w = false -> get_marked_ref w = w + 1.
Proof.
  unfold is_marked_ref, get_marked_ref. intros H.
  apply negb_false_iff, Z.eqb_eq in H. symmetry. by apply Z.add_nocarry_lor.
Qed.

Lemma chain_behind h h' i x x' A B t :
  chain h i x (A ++ B) t ->
  next_at h' x' i = Some (default t (B !! 0%nat)) ->
  (forall a, a ∈ B -> next_at h' a i = next_at h a i) ->
  chain h' i x' B t.
Proof.
  intros Hc Hx Hsame. destruct B as [|b B']; [done|]. simpl in *.
  split; [done|]. apply chain_suffix in Hc.
  eapply chain_ext_on; [|exact Hc]. done.
Qed.

Lemma elem_of_take_in (ns : list Z) (n : nat) (a : Z) : a ∈ take n ns -> a ∈ ns.
Proof. intros Ha. eapply elem_of_sublist; [exact Ha|apply sublist_take]. Qed.

Lemma chain_take h i ns t :
  forall x m y, chain h i x ns t -> (ns ++ [t]) !! m = Some y -> chain h i x (take m ns) y.
Proof.
  induction ns as [|n ns IH]; intros x m y Hc Hy.
  - destruct m as [|m]; [|done]. simpl in *. congruence.
  - destruct Hc as [Hx Hc]. destruct m as [|m]; simpl in *.
    + congruence.
    + split; [done|]. by apply IH.
Qed.

(** *** The heap after the head has been swung *)

Section SwungHeap.
Context {cfg : config}.
Context (h : gmap Z node_t) (l : set_t) (t : Z) (L : nat -> list Z) (m : nat).
Context (xm v : Z) (lvl : nat).

Local Abbreviation N := (head l :: L 0%nat ++ [t]).
Local Abbreviation X := (take m (L 0%nat)).
Local Abbreviation A i := (filter (fun a => a ∈ X) (L i)).
Local Abbreviation B i := (filter (fun a => a ∉ X) (L i)).
Local Abbreviation P i := (default (head l) (last (A i))).
Local Abbreviation T := (fun i => default t (B i !! 0%nat)).
Local Abbreviation h4 := (poke (poke h xm 0 (v + 1)) (head l) 0 (v + 1)).
Local Abbreviation HF := (swing_heap h4 (head l) T lvl).

Context (Hpos : (0 < NUM_LEVELS)%nat).
Context (Hsh : shape h l t L).
Context (Hnd : NoDup N).
Context (Hmark : marked_upto h N m).
Context (Hm : (1 <= m <= length (L 0%nat))%nat).
Context (Hup : forall i a, (1 <= i < NUM_LEVELS)%nat -> a ∈ head l :: L i ->
           exists w, word_at h a i = Some w /\ is_marked_ref w = false).
Context (Hsubl : forall i, (i < NUM_LEVELS)%nat -> sublist (L i) (L 0%nat)).
Context (Hxm : (head l :: L 0%nat) !! m = Some xm).
Context (Hv : (L 0%nat ++ [t]) !! m = Some v).
Context (Hwx : word_at h xm 0 = Some v).
Context (Hvr : 0 <= v /\ v + 1 < WORD).

Lemma sw_N_xm : N !! m = Some xm.
Proof using All.
  change N with ((head l :: L 0%nat) ++ [t]). by apply lookup_app_l_Some.
Qed.

Lemma sw_N_v : N !! S m = Some v.
Proof using All. done. Qed.

Lemma sw_v_unmarked : is_marked_ref v = false.
Proof using All.
  destruct (Hmark m xm sw_N_xm) as (w & Hw & Hmw).
  rewrite bool_decide_eq_false_2 in Hmw by lia. congruence.
Qed.

Lemma sw_v1 : is_marked_ref (v + 1) = true /\ get_unmarked_ref (v + 1) = v.
Proof using All.
  destruct (mark_by_add v sw_v_unmarked) as (_ & ? & ?); [lia|lia|done].
Qed.

Lemma sw_head_xm : head l <> xm.
Proof using All.
  intros E. pose proof sw_N_xm as Hx. rewrite <- E in Hx.
  pose proof (NoDup_lookup _ _ _ _ Hnd Hx (eq_refl : N !! 0%nat = Some (head l))). lia.
Qed.

Lemma sw_head_word : exists w0, word_at h (head l) 0 = Some w0.
Proof using All.
  destruct (Hmark 0%nat (head l) eq_refl) as (w & Hw & _). eauto.
Qed.

Lemma sw_word_head : word_at h4 (head l) 0 = Some (v + 1).
Proof using All.
  destruct sw_head_word as [w0 Hw0]. pose proof sw_head_xm.
  rewrite word_at_poke, decide_True; [done|]. split_and!; [done|done|].
  rewrite word_at_poke, decide_False by (intros (? & _); done). eauto.
Qed.

Lemma sw_word_xm : word_at h4 xm 0 = Some (v + 1).
Proof using All.
  pose proof sw_head_xm.
  rewrite word_at_poke, decide_False by (intros (? & _); congruence).
  rewrite word_at_poke, decide_True; [done|]. split_and!; [done|done|eauto].
Qed.

Lemma sw_word_old a i :
  (a <> head l /\ a <> xm) \/ i <> 0%nat -> word_at h4 a i = word_at h a i.
Proof using All.
  intros Hor.
  rewrite word_at_poke, decide_False by (intros (? & ? & _); destruct Hor as [[? ?]|?]; done).
  rewrite word_at_poke, decide_False by (intros (? & ? & _); destruct Hor as [[? ?]|?]; done).
  done.
Qed.

Lemma sw_dom a : is_Some (h4 !! a) <-> is_Some (h !! a).
Proof using Type. by rewrite !is_Some_poke. Qed.

Lemma sw_X_pos a : a ∈ X -> exists q, (1 <= q <= m)%nat /\ N !! q = Some a.
Proof using All.
  intros [q Hq]%list_elem_of_lookup_1.
  apply lookup_take_Some in Hq as [Hq Hlt].
  exists (S q). split; [lia|]. simpl. by apply lookup_app_l_Some.
Qed.

Lemma sw_rest_pos a :
  a ∈ drop m (L 0%nat) ++ [t] -> exists q, (m < q)%nat /\ N !! q = Some a.
Proof using All.
  intros [q Hq]%list_elem_of_lookup_1. exists (S (m + q)). split; [lia|].
  simpl. rewrite <- (take_drop m (L 0%nat)), <- app_assoc.
  rewrite lookup_app_r by (rewrite length_take; lia).
  rewrite length_take. replace (m + q - m `min` length (L 0%nat))%nat with q by lia. done.
Qed.

Lemma sw_mk a : a ∈ X -> exists w, word_at h4 a 0 = Some w /\ is_marked_ref w = true.
Proof using All.
  intros (q & Hq & Ha)%sw_X_pos. destruct (decide (q = m)) as [->|Hne].
  - rewrite sw_N_xm in Ha. injection Ha as <-. exists (v + 1).
    split; [apply sw_word_xm|apply sw_v1].
  - destruct (Hmark q a Ha) as (w & Hw & Hmw).
    rewrite bool_decide_eq_true_2 in Hmw by lia.
    exists w. split; [|done]. rewrite sw_word_old; [done|]. left. split.
    + intros ->. pose proof (NoDup_lookup _ _ _ _ Hnd Ha (eq_refl : N !! 0%nat = Some _)). lia.
    + intros ->. pose proof (NoDup_lookup _ _ _ _ Hnd Ha sw_N_xm). lia.
Qed.

Lemma sw_un a :
  a ∈ drop m (L 0%nat) ++ [t] ->
  a <> head l /\ a <> xm /\
  exists w, word_at h4 a 0 = Some w /\ word_at h a 0 = Some w /\ is_marked_ref w = false.
Proof using All.
  intros (q & Hq & Ha)%sw_rest_pos.
  assert (a <> head l).
  { intros ->. pose proof (NoDup_lookup _ _ _ _ Hnd Ha (eq_refl : N !! 0%nat = Some _)).
    lia. }
  assert (a <> xm).
  { intros ->. pose proof (NoDup_lookup _ _ _ _ Hnd Ha sw_N_xm). lia. }
  split; [done|]. split; [done|].
  destruct (Hmark q a Ha) as (w & Hw & Hmw).
  rewrite bool_decide_eq_false_2 in Hmw by lia.
  exists w. split_and!; [|done|done]. rewrite sw_word_old; [done|]. by left.
Qed.

Lemma sw_nodup0 : NoDup (L 0%nat).
Proof using All.
  apply NoDup_cons in Hnd as [_ Hn]. by apply NoDup_app in Hn as (? & _).
Qed.

Lemma sw_split i :
  (i < NUM_LEVELS)%nat -> L i = A i ++ B i /\ sublist (B i) (drop m (L 0%nat)).
Proof using All. intros Hi. apply level_split; [apply sw_nodup0|by apply Hsubl]. Qed.

Lemma sw_B0 : B 0%nat = drop m (L 0%nat).
Proof using All.
  pose proof sw_nodup0 as Hn. rewrite <- (take_drop m (L 0%nat)) in Hn.
  apply NoDup_app in Hn as (_ & Hdis & _).
  assert (E : filter (fun a => a ∉ X) (X ++ drop m (L 0%nat)) = drop m (L 0%nat)).
  { rewrite filter_app.
    rewrite (filter_none (fun a => a ∉ X) X) by (intros a Ha Hn; by apply Hn).
    rewrite filter_all; [done|]. intros a Ha Hin. by apply (Hdis a Hin). }
  by rewrite take_drop in E.
Qed.

Lemma sw_B_rest i a : (i < NUM_LEVELS)%nat -> a ∈ B i -> a ∈ drop m (L 0%nat).
Proof using All.
  intros Hi Ha. destruct (sw_split i Hi) as [_ Hs]. exact (elem_of_sublist _ _ _ Ha Hs).
Qed.

Lemma sw_notX i a :
  (i < NUM_LEVELS)%nat -> a ∈ L i ++ [t] -> a ∉ X -> a ∈ drop m (L 0%nat) ++ [t].
Proof using All.
  intros Hi [Ha| ->%list_elem_of_singleton]%elem_of_app HX; apply elem_of_app; [left|right].
  - apply (sw_B_rest i); [done|]. apply list_elem_of_filter. done.
  - by apply list_elem_of_singleton.
Qed.

Lemma sw_t_notX : t ∉ X.
Proof using All.
  intros (q & Hq & Ht)%sw_X_pos.
  assert (Ht' : N !! S (length (L 0%nat)) = Some t).
  { simpl. rewrite lookup_app_r by lia. by rewrite Nat.sub_diag. }
  pose proof (NoDup_lookup _ _ _ _ Hnd Ht Ht'). lia.
Qed.

Lemma sw_chain i : (1 <= i < NUM_LEVELS)%nat -> chain h4 i (head l) (L i) t.
Proof using All.
  intros Hi. eapply chain_ext_on; [|apply Hsh; lia].
  intros a Ha. rewrite !next_at_word, sw_word_old; [done|]. right. lia.
Qed.

Lemma sw_upper i a :
  (1 <= i < NUM_LEVELS)%nat -> a ∈ head l :: L i ->
  exists w, word_at h4 a i = Some w /\ is_marked_ref w = false.
Proof using All.
  intros Hi Ha. rewrite sw_word_old by (right; lia). by apply Hup.
Qed.

Lemma sw_T i : (1 <= i < NUM_LEVELS)%nat -> word_at h4 (P i) i = Some (T i).
Proof using All.
  intros Hi. destruct (sw_split i ltac:(lia)) as [Hs _].
  assert (HP : (head l :: A i ++ B i) !! length (A i) = Some (P i)).
  { rewrite app_comm_cons. apply lookup_app_l_Some. apply lookup_last_cons. }
  rewrite <- Hs in HP.
  destruct (chain_lookup _ _ _ _ _ (sw_chain i Hi) _ _ HP) as (b & Hb & Hn).
  destruct (sw_upper i (P i) Hi (list_elem_of_lookup_2 _ _ _ HP)) as (w & Hw & Hmw).
  rewrite next_at_word, Hw in Hn. simpl in Hn. rewrite (unmarked_id _ Hmw) in Hn.
  rewrite Hw. f_equal. injection Hn as ->.
  assert (Hb' : (A i ++ B i ++ [t]) !! length (A i) = Some b).
  { rewrite app_assoc, <- Hs. exact Hb. }
  rewrite lookup_app_r in Hb' by lia.
  rewrite Nat.sub_diag in Hb'. cbv beta.
  destruct (B i) as [|b' B']; simpl in *; congruence.
Qed.

Lemma sw_T_unmarked i : (1 <= i < NUM_LEVELS)%nat -> is_marked_ref (T i) = false.
Proof using All.
  intros Hi. destruct (sw_split i ltac:(lia)) as [Hs _].
  assert (HP : (head l :: A i ++ B i) !! length (A i) = Some (P i)).
  { rewrite app_comm_cons. apply lookup_app_l_Some. apply lookup_last_cons. }
  rewrite <- Hs in HP.
  destruct (sw_upper i (P i) Hi (list_elem_of_lookup_2 _ _ _ HP)) as (w & Hw & Hmw).
  rewrite sw_T in Hw by done. congruence.
Qed.


Lemma sw_next0 (h' : gmap Z node_t) a :
  (forall b i, b <> head l -> word_at h' b i = word_at h4 b i) ->
  a <> head l -> a ∈ L 0%nat ++ [t] -> next_at h' a 0 = next_at h a 0.
Proof using All.
  intros Hh' Hne Ha. rewrite !next_at_word, Hh' by done.
  destruct (decide (a = xm)) as [->|Hx].
  - rewrite sw_word_xm, Hwx. simpl. f_equal.
    rewrite (proj2 sw_v1). symmetry. apply unmarked_id, sw_v_unmarked.
  - rewrite sw_word_old; [done|]. by left.
Qed.

Lemma sw_level n a : level_at (swing_heap h4 (head l) T n) a = level_at h a.
Proof using Type.
  unfold level_at. destruct (h !! a) as [nd|] eqn:Ha.
  - destruct (scalars_poke h xm 0 (v + 1) a nd Ha) as (n1 & Hn1 & ? & ? & ?).
    destruct (scalars_poke _ (head l) 0 (v + 1) a n1 Hn1) as (n2 & Hn2 & ? & ? & ?).
    destruct (scalars_swing_heap _ (head l) T n a n2 Hn2) as (n3 & Hn3 & ? & ? & ?).
    rewrite Hn3. congruence.
  - destruct (swing_heap h4 (head l) T n !! a) eqn:E; [|done].
    assert (is_Some (h !! a)) as [? ?]; [|congruence].
    apply (is_Some_poke h xm 0 (v + 1) a), (is_Some_poke _ (head l) 0 (v + 1) a),
      (is_Some_swing_heap _ (head l) T n a). eauto.
Qed.

(** From [obs_hp = old_obs_hp] to the label [out], when the offset
    has passed [max_offset]. *)
Lemma sw_cleanup_run fuel st4 w0 off :
  heap st4 = poke h xm 0 (v + 1) -> tl st4 = Tls v w0 off ->
  max_offset l < off -> word_at h (head l) 0 = Some w0 ->
  (forall i, (i < NUM_LEVELS)%nat -> (length (L i) + 1 < fuel)%nat) ->
  exists (lvl' : nat) st5,
    removemin_cleanup fuel l v st4 = (Ok tt, st5) /\
    heap st5 = swing_heap h4 (head l) T lvl' /\
    (lvl' < NUM_LEVELS)%nat /\
    (forall i, (1 <= i < NUM_LEVELS)%nat -> (lvl' < i)%nat -> A i = []) /\
    brk st5 = brk st4 /\ tl st5 = tl st4 /\
    freed st5 = freed st4 ++
                map (fun a => (a, Z.land (level_at h a) LEVEL_MASK - 1)) X.
Proof using All.
  intros Hh4 Htl Hoff Hw0 Hfuel.
  pose proof sw_head_xm as Hhx.
  pose proof sw_v_unmarked as Hvm.
  destruct sw_v1 as [Hv1m Hv1u].
  assert (HEND4 : h4 !! END = None).
  { destruct (h4 !! END) eqn:E; [|done].
    destruct (proj1 (sw_dom END) ltac:(eauto)) as [? HE].
    by rewrite (sh_end _ _ _ _ Hsh) in HE. }
  (* the test *)
  unfold removemin_cleanup. rewrite bind_eq. cbn [get_tl]. rewrite Htl.
  cbn [old_offset old_obs_hp].
  rewrite (proj2 (Z.leb_gt off (max_offset l)) Hoff).
  assert (Hw4 : word_at (heap st4) (head l) 0 = Some w0).
  { rewrite Hh4, word_at_poke, decide_False by (intros (? & _); done). done. }
  rewrite (bind_eq (bind _ _)), (bind_ok _ _ _ _ _ (load_next_view _ _ _ _ Hw4)).
  cbv [ret]. rewrite Z.eqb_refl.
  (* the head pointer *)
  unfold head_swing. rewrite (mark_by_or _ Hvm).
  set (sa := add_event (EvRead (head l) (FNext 0)) st4).
  rewrite (bind_ok _ _ _ _ _ (CASPO_view _ _ w0 _ _ sa Hw4)), !Z.eqb_refl.
  set (sb := add_event _ (with_heap _ sa)).
  assert (Hhb : heap sb = h4) by (cbn [sb sa heap add_event with_heap]; by rewrite Hh4).
  assert (Htb : tl sb = Tls v w0 off) by (cbn [sb sa tl add_event with_heap]; done).
  (* the assertion *)
  unfold head_swing_levels.
  assert (Hassert : c_assert (t0 <- get_tl ;; ret (old_offset t0 >? max_offset l)) sb
                    = (Ok tt, sb)).
  { unfold c_assert. destruct NDEBUG; [done|].
    rewrite bind_eq, bind_eq. cbn [get_tl ret]. rewrite Htb. cbn [old_offset].
    by rewrite (proj2 (Z.gtb_lt off (max_offset l)) Hoff). }
  rewrite (bind_ok _ _ _ _ _ Hassert).
  (* the search *)
  destruct (wse_levels_marked h4 l t L X HEND4) with
    (fuel := fuel) (n := (NUM_LEVELS - 1)%nat) (x := head l) (lvl := 0)
    (pa := replicate NUM_LEVELS 0) (st := sb)
    as (lvz & pa' & sc & Hrunc & Hhc & Hrc & Hlenc & Hpac & _ & Hlv).
  { intros i Hi. apply sw_split. lia. }
  { apply sw_mk. }
  { intros i a Hi Ha HX. destruct (sw_un a) as (_ & _ & w & Hw & _ & Hmw); [|eauto].
    apply (sw_notX i); [lia|done|done]. }
  { apply sw_t_notX. }
  { apply sw_chain. }
  { apply sw_upper. }
  { intros i a Hi Hi' Ha. apply (sh_sub _ _ _ _ Hsh); [lia|done]. }
  { intros i Hi. specialize (Hfuel i Hi). lia. }
  { lia. }
  { done. }
  { right. by left. }
  { done. }
  { lia. }
  destruct (Hlv eq_refl) as (Hlvr & Hlvall & _).
  assert (Hwse : weak_search_end fuel l (replicate NUM_LEVELS 0) (-1) sb
                 = (Ok (lvz, pa'), sc)).
  { unfold weak_search_end. change (-1 =? -1) with true. change (-1 >? 0) with false.
    cbv iota.
    replace (Z.to_nat (Z.of_nat NUM_LEVELS - 1)) with (NUM_LEVELS - 1)%nat by lia.
    exact Hrunc. }
  rewrite (bind_ok _ _ _ _ _ Hwse). cbn [fst snd].
  assert (Hwc : word_at (heap sc) (head l) 0 = Some (v + 1)).
  { rewrite Hhc. apply sw_word_head. }
  rewrite (bind_ok _ _ _ _ _ (load_next_view _ _ _ _ Hwc)), Z.eqb_refl. cbn [negb].
  (* the upper levels *)
  set (sd := add_event (EvRead (head l) (FNext 0)) sc).
  rewrite length_replicate in Hlenc.
  destruct (swing_levels_run l pa' (fun i => P i) T fuel) with
    (n := Z.to_nat lvz) (h := h4) (st := sd) as (se & Hrune & Hhe & Hre).
  { specialize (Hfuel 0%nat Hpos). lia. }
  { done. }
  { intros i Hi. split_and!.
    - rewrite Hpac, decide_True by (rewrite length_replicate; lia). done.
    - apply sw_T. lia.
    - destruct (sw_upper i (head l) ltac:(lia) ltac:(by left)) as (w & Hw & _).
      rewrite Hw. eauto. }
  rewrite (bind_ok _ _ _ _ _ Hrune).
  (* the recycling *)
  set (HF' := swing_heap h4 (head l) T (Z.to_nat lvz)) in *.
  assert (Hother : forall b i, b <> head l -> word_at HF' b i = word_at h4 b i).
  { intros b i Hb. unfold HF'.
    rewrite word_at_swing_heap, decide_False by (intros (? & _); done). done. }
  destruct (lookup_lt_is_Some_2 (L 0%nat) 0) as [f Hf]; [lia|].
  assert (Hw0f : get_unmarked_ref w0 = f).
  { destruct (chain_lookup _ _ _ _ _ (sh_chain _ _ _ _ Hsh 0%nat Hpos) 0%nat (head l) eq_refl)
      as (b & Hb & Hn).
    rewrite lookup_app_l in Hb by lia. rewrite Hf in Hb. injection Hb as <-.
    rewrite next_at_word, Hw0 in Hn. by injection Hn. }
  assert (HX : X = f :: take (m - 1) (drop 1 (L 0%nat))).
  { destruct (L 0%nat) as [|f' R]; [done|]. simpl in Hf. injection Hf as ->.
    destruct m as [|m']; [lia|]. simpl. by rewrite Nat.sub_0_r, drop_0. }
  assert (Hchf : chain HF' 0 f (take (m - 1) (drop 1 (L 0%nat))) v).
  { pose proof (chain_take _ _ _ _ _ _ _ (sh_chain _ _ _ _ Hsh 0%nat Hpos) Hv) as Hc.
    rewrite HX in Hc. destruct Hc as [_ Hc].
    eapply chain_ext_on; [|exact Hc].
    intros a Ha. rewrite <- HX in Ha. destruct (sw_X_pos a Ha) as (q & Hq & Hqa).
    apply (sw_next0 HF'); [done| |].
    - intros ->.
      pose proof (NoDup_lookup _ _ _ _ Hnd Hqa (eq_refl : N !! 0%nat = Some _)). lia.
    - apply elem_of_app. left. by eapply elem_of_take_in. }
  destruct (free_prefix_chain HF' v (take (m - 1) (drop 1 (L 0%nat))) f fuel se)
    as (sf & Hrunf & Hhf & Hbf & Htf & Hff).
  { done. }
  { done. }
  { rewrite <- HX. apply Forall_forall. intros a Ha ->.
    destruct (sw_X_pos v Ha) as (q & Hq & Hqa).
    pose proof (NoDup_lookup _ _ _ _ Hnd Hqa sw_N_v). lia. }
  { rewrite length_take, length_drop. specialize (Hfuel 0%nat Hpos). lia. }
  rewrite Hw0f, Hv1u, Hrunf.
  destruct Hrc as (Hb1 & Hf1 & Ht1). destruct Hre as (Hb2 & Hf2 & Ht2).
  exists (Z.to_nat lvz), sf. split_and!; [done|by rewrite Hhf|lia| | | |].
  - intros i Hi Hlt. apply Hlvall; lia.
  - rewrite Hbf, Hb2. cbn [sd brk add_event]. rewrite Hb1. done.
  - rewrite Htf, Ht2. cbn [sd tl add_event]. rewrite Ht1. done.
  - rewrite Hff, Hf2. cbn [sd freed add_event]. rewrite Hf1.
    cbn [sb sa freed add_event with_heap]. f_equal. rewrite <- HX.
    apply map_ext_in. intros a Ha. unfold HF'. by rewrite sw_level.
Qed.


(** The upper levels of the head have been swung up to the level [lvl],
    above which no level holds a deleted node. *)
Context (Hlvl : forall i, (1 <= i < NUM_LEVELS)%nat -> (lvl < i)%nat -> A i = []).
Context (Hlvl' : (lvl < NUM_LEVELS)%nat).

Lemma sf_word_head i : (1 <= i < NUM_LEVELS)%nat -> word_at HF (head l) i = Some (T i).
Proof using All.
  intros Hi. rewrite word_at_swing_heap.
  destruct (sw_upper i (head l) Hi ltac:(by left)) as (w & Hw & Hmw).
  destruct (decide (i <= lvl)%nat).
  - rewrite decide_True; [done|]. split; [done|]. split; [lia|]. rewrite Hw. eauto.
  - rewrite decide_False by (intros (_ & ? & _); lia).
    pose proof (sw_T i Hi) as HT. rewrite (Hlvl i Hi ltac:(lia)) in HT. exact HT.
Qed.

Lemma sf_word_head0 : word_at HF (head l) 0 = Some (v + 1).
Proof using All.
  rewrite word_at_swing_heap, decide_False by (intros (_ & ? & _); lia).
  apply sw_word_head.
Qed.

Lemma sf_word_other a i : a <> head l -> word_at HF a i = word_at h4 a i.
Proof using All.
  intros Hne. rewrite word_at_swing_heap, decide_False by (intros (? & _); done). done.
Qed.

Lemma sf_word_rest a i :
  a <> head l -> a <> xm \/ i <> 0%nat -> word_at HF a i = word_at h a i.
Proof using All.
  intros Hne Hor. rewrite sf_word_other by done. apply sw_word_old.
  destruct Hor; [by left|by right].
Qed.

Lemma sf_dom a : is_Some (HF !! a) <-> is_Some (h !! a).
Proof using Type. by rewrite is_Some_swing_heap, !is_Some_poke. Qed.

Lemma sf_key a : key_at HF a = key_at h a.
Proof using Type. by rewrite key_at_swing_heap, !key_at_poke. Qed.

Lemma sf_scalars a nd :
  h !! a = Some nd ->
  exists nd', HF !! a = Some nd' /\
              n_k nd' = n_k nd /\ n_level nd' = n_level nd /\ n_v nd' = n_v nd.
Proof using Type.
  intros Ha.
  destruct (scalars_poke h xm 0 (v + 1) a nd Ha) as (n1 & Hn1 & ? & ? & ?).
  destruct (scalars_poke _ (head l) 0 (v + 1) a n1 Hn1) as (n2 & Hn2 & ? & ? & ?).
  destruct (scalars_swing_heap _ (head l) T lvl a n2 Hn2) as (n3 & Hn3 & ? & ? & ?).
  exists n3. split_and!; congruence.
Qed.

Lemma sf_B_node i a : (i < NUM_LEVELS)%nat -> a ∈ B i -> a <> head l /\ a <> xm.
Proof using All.
  intros Hi Ha. destruct (sw_un a) as (? & ? & _); [|done].
  apply elem_of_app. left. by eapply sw_B_rest.
Qed.

(** The first node of the bottom level is now the node that was deleted
    last. *)
Context (Hlive : (m < length (L 0%nat))%nat).

Local Abbreviation L' := (after_cleanup L m).
Local Abbreviation N' := (head l :: L' 0%nat ++ [t]).

Lemma sf_v : L 0%nat !! m = Some v.
Proof using All. rewrite lookup_app_l in Hv by done. done. Qed.

Lemma sf_L'0 : L' 0%nat = v :: drop (S m) (L 0%nat).
Proof using All.
  unfold after_cleanup. rewrite sw_B0. by apply drop_S, sf_v.
Qed.

Lemma sf_chain i : (i < NUM_LEVELS)%nat -> chain HF i (head l) (L' i) t.
Proof using All.
  intros Hi. unfold after_cleanup.
  destruct (sw_split i Hi) as [Hs _].
  apply (chain_behind h HF i (head l) (head l) (A i)).
  - rewrite <- Hs. by apply Hsh.
  - destruct i as [|i].
    + rewrite next_at_word, sf_word_head0. simpl. f_equal.
      rewrite (proj2 sw_v1). fold (L' 0%nat). by rewrite sf_L'0.
    + rewrite next_at_word, sf_word_head by lia. simpl. f_equal.
      apply unmarked_id, sw_T_unmarked. lia.
  - intros a Ha. destruct (sf_B_node i a Hi Ha) as [? ?].
    rewrite !next_at_word, sf_word_rest; [done|done|by left].
Qed.

Lemma sf_shape : shape HF l t L'.
Proof using All.
  constructor.
  - destruct (HF !! END) eqn:E; [|done].
    destruct (proj1 (sf_dom END) ltac:(eauto)) as [? HE].
    by rewrite (sh_end _ _ _ _ Hsh) in HE.
  - apply sf_dom, Hsh.
  - apply sf_chain.
  - intros i a Hi Ha. apply sf_dom. unfold after_cleanup in Ha.
    apply list_elem_of_filter in Ha as [_ Ha]. by eapply (sh_nodes _ _ _ _ Hsh).
  - intros i a Hi Ha. unfold after_cleanup in *.
    apply list_elem_of_filter in Ha as [HX Ha]. apply list_elem_of_filter.
    split; [done|]. by apply (sh_sub _ _ _ _ Hsh).
Qed.

Lemma sf_nodup : NoDup N'.
Proof using All.
  unfold after_cleanup. rewrite sw_B0.
  pose proof Hnd as Hn. rewrite <- (take_drop m (L 0%nat)) in Hn.
  apply NoDup_cons in Hn as [Hh Hn]. rewrite <- app_assoc in Hn.
  apply NoDup_app in Hn as (_ & _ & Hn).
  apply NoDup_cons. split; [|done].
  intros Hin. apply Hh. rewrite <- app_assoc. apply elem_of_app. by right.
Qed.

Lemma sf_marked : marked_upto HF N' 1.
Proof using All.
  intros q a Ha. destruct q as [|q].
  - injection Ha as <-. exists (v + 1). split; [apply sf_word_head0|].
    rewrite bool_decide_eq_true_2 by lia. apply sw_v1.
  - simpl in Ha. unfold after_cleanup in Ha. rewrite sw_B0 in Ha.
    destruct (sw_un a (list_elem_of_lookup_2 _ _ _ Ha)) as (Hah & Hax & w & Hw4 & Hw & Hmw).
    exists w. rewrite sf_word_other by done. split; [done|].
    rewrite bool_decide_eq_false_2 by lia. done.
Qed.

Lemma sf_upper i a :
  (1 <= i < NUM_LEVELS)%nat -> a ∈ head l :: L' i ->
  exists w, word_at HF a i = Some w /\ is_marked_ref w = false.
Proof using All.
  intros Hi [->|Ha]%elem_of_cons.
  - exists (T i). split; [by apply sf_word_head|by apply sw_T_unmarked].
  - destruct (sf_B_node i a ltac:(lia) Ha) as [? ?].
    rewrite sf_word_rest; [|done|by left]. apply Hup; [done|].
    right. unfold after_cleanup in Ha. by apply list_elem_of_filter in Ha as [_ Ha].
Qed.

Lemma sf_sub i : (i < NUM_LEVELS)%nat -> sublist (L' i) (L' 0%nat).
Proof using All.
  intros Hi. unfold after_cleanup at 2. rewrite sw_B0. by apply sw_split.
Qed.

Lemma sf_first_old : exists f w0,
  L 0%nat !! 0%nat = Some f /\ word_at h (head l) 0 = Some w0 /\
  get_unmarked_ref w0 = f /\ f <> v /\ w0 <> v + 1.
Proof using All.
  destruct (lookup_lt_is_Some_2 (L 0%nat) 0) as [f Hf]; [lia|].
  destruct sw_head_word as [w0 Hw0].
  destruct (chain_lookup _ _ _ _ _ (sh_chain _ _ _ _ Hsh 0%nat Hpos) 0%nat (head l) eq_refl)
    as (b & Hb & Hn).
  rewrite lookup_app_l in Hb by lia. rewrite Hf in Hb. injection Hb as <-.
  rewrite next_at_word, Hw0 in Hn. injection Hn as Hu.
  assert (Hfv : f <> v).
  { intros ->. pose proof (NoDup_lookup _ _ _ _ sw_nodup0 Hf sf_v). lia. }
  exists f, w0. split_and!; try done.
  intros ->. rewrite (proj2 sw_v1) in Hu. congruence.
Qed.

End SwungHeap.

(** *** The deletion that cleans up *)

Section CleanupRun.
Context {cfg : config}.
Context (Hoptim : OPTIM = false) (HendM : is_marked_ref END = false).
Context (st : state) (l : set_t) (t : Z) (L : nat -> list Z) (m fuel j : nat) (o : Z).
Context (Hpos : (0 < NUM_LEVELS)%nat).
Context (Hd : deleted_ok st l t L m) (Hm : (1 <= m)%nat).
Context (He : entry st l (head l :: L 0%nat ++ [t]) j o).
Context (Hoff : max_offset l < o + Z.of_nat (m - j) + 1).
Context (Hint : Z.of_nat m + 1 <= INT_MAX) (Hbrk : brk st < WORD).
Context (Hfuel : forall i, (i < NUM_LEVELS)%nat -> (length (L i) + 1 < fuel)%nat).

Local Abbreviation h := (heap st).
Local Abbreviation X := (take m (L 0%nat)).
Local Abbreviation A i := (filter (fun a => a ∈ X) (L i)).
Local Abbreviation B i := (filter (fun a => a ∉ X) (L i)).
Local Abbreviation T := (fun i => default t (B i !! 0%nat)).

Lemma set_removemin_cleanup_run :
  exists xm v w0 (lvl : nat) st',
    (head l :: L 0%nat) !! m = Some xm /\ (L 0%nat ++ [t]) !! m = Some v /\
    word_at h xm 0 = Some v /\ 0 <= v /\ v + 1 < WORD /\
    word_at h (head l) 0 = Some w0 /\
    (lvl < NUM_LEVELS)%nat /\
    (forall i, (1 <= i < NUM_LEVELS)%nat -> (lvl < i)%nat -> A i = []) /\
    set_removemin fuel l st = (Ok (key_at h v), st') /\
    heap st' = swing_heap (poke (poke h xm 0 (v + 1)) (head l) 0 (v + 1)) (head l) T lvl /\
    brk st' = brk st /\
    tl st' = Tls v w0 (o + Z.of_nat (m - j) + 1) /\
    freed st' = freed st ++
                map (fun a => (a, Z.land (level_at h a) LEVEL_MASK - 1)) X.
Proof using All.
  pose proof (do_shape _ _ _ _ _ Hd) as Hsh.
  pose proof (do_nodup _ _ _ _ _ Hd) as Hnd.
  pose proof (do_marked _ _ _ _ _ Hd) as Hmark.
  pose proof (do_count _ _ _ _ _ Hd) as Hcount.
  pose proof (do_range _ _ _ _ _ Hd) as Hrange.
  destruct (entry_bounds st l t L m j o Hpos Hd He) as [Hj Ho].
  destruct (Hmark 0%nat (head l) eq_refl) as (w0 & Hw0 & _).
  set (st1 := add_event EvEnter st).
  destruct (removemin_start_entry st1 l (head l :: L 0%nat ++ [t]) j o w0 Hw0 eq_refl He)
    as (x0 & st2 & Hstart & Hh2 & Hb2 & Hf2 & Hx0 & Ho2 & Hobs).
  assert (Hx0' : (head l :: L 0%nat) !! j = Some x0).
  { rewrite app_comm_cons, lookup_app_l in Hx0 by (simpl; lia). done. }
  assert (Hr : forall a, is_Some (h !! a) -> 0 <= a /\ a + 1 < WORD).
  { intros a Ha. apply Hrange in Ha. lia. }
  assert (HN : h !! 0 = None).
  { destruct (h !! 0) eqn:E; [|done]. specialize (Hrange 0 ltac:(by eexists)). lia. }
  assert (Hnodes : forall a, a ∈ L 0%nat ++ [t] -> is_Some (h !! a)).
  { intros a [Ha| ->%list_elem_of_singleton]%elem_of_app.
    - by eapply (sh_nodes _ _ _ _ Hsh 0%nat).
    - apply Hsh. }
  destruct (removemin_walk_prefix Hoptim HendM h (head l) (L 0%nat) t m (sh_end _ _ _ _ Hsh)
              HN (sh_chain _ _ _ _ Hsh 0%nat Hpos)
              (marked_upto_app h (head l :: L 0%nat) [t] m Hmark))
    with (d := (m - j)%nat) (j := j) (x := x0) (off := 0) (n := fuel) (st := st2)
    as (xm & v & nd & st3 & Hxm & Hv & Hndx & Hw & Hvm & Hwalk & Hh3 & Ht3 & Hb3 & Hf3);
    [exact Hnodes | exact Hr | done | lia | done | done
    | specialize (Hfuel 0%nat Hpos); lia | lia | unfold INT_MAX in *; lia |].
  assert (Hwx : word_at h xm 0 = Some v) by (unfold word_at; by rewrite Hndx).
  destruct (Hnodes v (list_elem_of_lookup_2 _ _ _ Hv)) as [vd Hvd].
  destruct (Hr v ltac:(by eexists)) as [Hv0 Hv1].
  assert (Hh3' : heap st3 = poke h xm 0 (v + 1)).
  { rewrite Hh3. unfold poke. by rewrite Hndx. }
  assert (Hvd3 : exists vd', heap st3 !! v = Some vd' /\ n_k vd' = n_k vd).
  { rewrite Hh3'. destruct (scalars_poke h xm 0 (v + 1) v vd Hvd) as (vd' & ? & ? & _).
    eauto. }
  destruct Hvd3 as (vd' & Hvd' & Hk').
  set (off := 0 + Z.of_nat (m - j) + 1) in *.
  assert (Hti : to_int (old_offset (tl st3) + off) = o + Z.of_nat (m - j) + 1).
  { rewrite Ht3, Ho2. unfold off. rewrite to_int_small; unfold INT_MAX in *; lia. }
  pose proof (removemin_save_run v off st3 vd' Hvd' Hvm) as Hsave.
  rewrite Hti, Ht3, Hobs in Hsave.
  match type of Hsave with _ = (_, ?s) => set (st4 := s) in * end.
  destruct (sw_cleanup_run h l t L m xm v 0%nat Hpos Hsh Hnd Hmark ltac:(lia)
              (do_upper _ _ _ _ _ Hd) (do_sub _ _ _ _ _ Hd) Hxm Hv Hwx (conj Hv0 Hv1)
              fuel st4 w0 (o + Z.of_nat (m - j) + 1))
    as (lvl & st5 & Hclean & Hh5 & Hlvl & Hlvall & Hb5 & Ht5 & Hf5);
    [done|done|lia|done|done|].
  exists xm, v, w0, lvl, (add_event EvExit st5).
  split_and!; try done.
  - unfold set_removemin, critical_enter. rewrite bind_eq. cbn [log]. fold st1.
    rewrite (bind_ok _ _ _ _ _ Hstart), (bind_ok _ _ _ _ _ Hwalk).
    unfold removemin_finish.
    rewrite (bind_ok _ _ _ _ _ Hsave), (bind_ok _ _ _ _ _ Hclean).
    unfold critical_exit. rewrite bind_eq. cbn [log ret].
    unfold key_at. by rewrite Hvd, Hk'.
  - cbn [brk add_event]. rewrite Hb5. cbn [st4 brk add_event]. by rewrite Hb3, Hb2.
  - cbn [freed add_event]. rewrite Hf5. cbn [st4 freed add_event]. by rewrite Hf3, Hf2.
Qed.

End CleanupRun.

Lemma set_removemin_cleanup_spec {cfg : config} (st : state) (l : set_t) (t : Z)
    (L : nat -> list Z) (m fuel j : nat) (o : Z) :
  OPTIM = false -> is_marked_ref END = false -> (0 < NUM_LEVELS)%nat ->
  deleted_ok st l t L m -> (1 <= m < length (L 0%nat))%nat ->
  entry st l (head l :: L 0%nat ++ [t]) j o ->
  max_offset l < o + Z.of_nat (m - j) + 1 ->
  Z.of_nat m + 1 <= INT_MAX -> brk st < WORD ->
  (forall i, (i < NUM_LEVELS)%nat -> (length (L i) + 1 < fuel)%nat) ->
  exists v st',
    L 0%nat !! m = Some v /\
    set_removemin fuel l st = (Ok (key_at (heap st) v), st') /\
    deleted_ok st' l t (after_cleanup L m) 1 /\
    after_cleanup L m 0 = drop m (L 0%nat) /\
    freed st' = freed st ++
                map (fun a => (a, Z.land (level_at (heap st) a) LEVEL_MASK - 1))
                    (take m (L 0%nat)) /\
    brk st' = brk st /\
    tl st' = Tls v (default 0 (word_at (heap st) (head l) 0)) (o + Z.of_nat (m - j) + 1) /\
    (forall a, is_Some (heap st' !! a) <-> is_Some (heap st !! a)) /\
    (forall a, key_at (heap st') a = key_at (heap st) a /\
               value_at (heap st') a = value_at (heap st) a /\
               level_at (heap st') a = level_at (heap st) a).
Proof.
  intros Hoptim HendM Hpos Hd [Hm Hlive] He Hoff Hint Hbrk Hfuel.
  destruct (set_removemin_cleanup_run Hoptim HendM st l t L m fuel j o Hpos Hd Hm He Hoff
              Hint Hbrk Hfuel)
    as (xm & v & w0 & lvl & st' & Hxm & Hv & Hwx & Hv0 & Hv1 & Hw0 & Hlvl' & Hlvl & Hrun
        & Hh & Hb & Htl & Hf).
  pose proof (do_shape _ _ _ _ _ Hd) as Hsh.
  pose proof (do_nodup _ _ _ _ _ Hd) as Hnd.
  pose proof (do_marked _ _ _ _ _ Hd) as Hmark.
  pose proof (do_upper _ _ _ _ _ Hd) as Hup.
  pose proof (do_sub _ _ _ _ _ Hd) as Hsubl.
  assert (Hm' : (1 <= m <= length (L 0%nat))%nat) by lia.
  pose proof (conj Hv0 Hv1) as Hvr.
  exists v, st'. rewrite Hh.
  split_and!; [by rewrite lookup_app_l in Hv|done| | |done|done| | |].
  - constructor; rewrite ?Hh.
    + exact (sf_shape (heap st) l t L m xm v lvl Hpos Hsh Hnd Hmark Hm' Hup Hsubl Hxm Hv
               Hwx Hvr Hlvl Hlvl' Hlive).
    + intros a Ha. rewrite Hb. apply (do_range _ _ _ _ _ Hd).
      rewrite Hh in Ha. by apply (sf_dom (heap st) l t L m xm v lvl a).
    + exact (sf_nodup (heap st) l t L m xm v lvl Hpos Hsh Hnd Hmark Hm' Hup Hsubl Hxm Hv
               Hwx Hvr Hlvl Hlvl' Hlive).
    + exact (sf_marked (heap st) l t L m xm v lvl Hpos Hsh Hnd Hmark Hm' Hup Hsubl Hxm Hv
               Hwx Hvr Hlvl Hlvl' Hlive).
    + unfold after_cleanup.
      rewrite (sw_B0 (heap st) l t L m xm v lvl Hpos Hsh Hnd Hmark Hm' Hup Hsubl Hxm Hv
                 Hwx Hvr).
      rewrite length_drop. lia.
    + intros Hc. exfalso. rewrite Hh, Htl in Hc. cbn [old_obs_hp] in Hc.
      rewrite (sf_word_head0 (heap st) l t L m xm v lvl Hpos Hsh Hnd Hmark Hm' Hup Hsubl
                 Hxm Hv Hwx Hvr Hlvl Hlvl') in Hc.
      destruct (sf_first_old (heap st) l t L m xm v lvl Hpos Hsh Hnd Hmark Hm' Hup Hsubl
                  Hxm Hv Hwx Hvr Hlvl Hlvl' Hlive) as (f & w0' & _ & Hw0' & _ & _ & Hne).
      congruence.
    + exact (sf_upper (heap st) l t L m xm v lvl Hpos Hsh Hnd Hmark Hm' Hup Hsubl Hxm Hv
               Hwx Hvr Hlvl Hlvl' Hlive).
    + exact (sf_sub (heap st) l t L m xm v lvl Hpos Hsh Hnd Hmark Hm' Hup Hsubl Hxm Hv
               Hwx Hvr Hlvl Hlvl' Hlive).
  - exact (sw_B0 (heap st) l t L m xm v lvl Hpos Hsh Hnd Hmark Hm' Hup Hsubl Hxm Hv
             Hwx Hvr).
  - rewrite Htl, Hw0. done.
  - intros a. apply (sf_dom (heap st) l t L m xm v lvl a).
  - intros a. split; [apply (sf_key (heap st) l t L m xm v lvl a)|].
    unfold value_at, level_at. destruct (heap st !! a) as [nd|] eqn:Ha.
    + destruct (sf_scalars (heap st) l t L m xm v lvl a nd Ha) as (nd' & -> & _ & ? & ?).
      done.
    + destruct (swing_heap _ _ _ _ !! a) eqn:E; [|done].
      assert (is_Some (heap st !! a)) as [? ?]; [|congruence].
      apply (sf_dom (heap st) l t L m xm v lvl a). eauto.
Qed.
(** *** [weak_search_end] on a queue with deleted nodes *)

Lemma weak_search_end_deleted {cfg : config} (st : state) (l : set_t) (t : Z)
    (L : nat -> list Z) (m fuel : nat) (pa : list Z) :
  (0 < NUM_LEVELS)%nat -> deleted_ok st l t L m ->
  (forall i, (i < NUM_LEVELS)%nat -> (length (L i) < fuel)%nat) ->
  exists (lvl : nat) pa' st',
    weak_search_end fuel l pa (-1) st = (Ok (Z.of_nat lvl, pa'), st') /\
    heap st' = heap st /\ length pa' = length pa /\
    (forall i, pa' !! i
               = if decide (1 <= i < NUM_LEVELS /\ i < length pa)%nat
                 then Some (default (head l)
                              (last (filter (fun a => a ∈ take (m - 1) (L 0%nat)) (L i))))
                 else pa !! i) /\
    (lvl < NUM_LEVELS)%nat /\
    (forall i, (lvl < i < NUM_LEVELS)%nat ->
       filter (fun a => a ∈ take (m - 1) (L 0%nat)) (L i) = []) /\
    (lvl <> 0%nat -> filter (fun a => a ∈ take (m - 1) (L 0%nat)) (L lvl) <> []).
Proof.
  intros Hpos Hd Hfuel.
  pose proof (do_shape _ _ _ _ _ Hd) as Hsh.
  pose proof (do_nodup _ _ _ _ _ Hd) as Hnd.
  pose proof (do_marked _ _ _ _ _ Hd) as Hmark.
  pose proof (do_count _ _ _ _ _ Hd) as Hcount.
  assert (Hnd0 : NoDup (L 0%nat)).
  { apply NoDup_cons in Hnd as [_ Hn]. by apply NoDup_app in Hn as (? & _). }
  assert (Hpos0 : forall a q, L 0%nat !! q = Some a ->
            exists w, word_at (heap st) a 0 = Some w /\
                      is_marked_ref w = bool_decide (S q < m)%nat).
  { intros a q Hq. apply (Hmark (S q) a). simpl. by apply lookup_app_l_Some. }
  destruct (wse_levels_marked (heap st) l t L (take (m - 1) (L 0%nat)) (sh_end _ _ _ _ Hsh))
    with (fuel := fuel) (n := (NUM_LEVELS - 1)%nat) (x := head l) (lvl := 0)
    (pa := pa) (st := st)
    as (lvz & pa' & st' & Hrun & Hh & _ & Hlen & Hpa & _ & Hlv).
  { intros i Hi. apply level_split; [done|]. apply (do_sub _ _ _ _ _ Hd). lia. }
  { intros a [q Hq]%list_elem_of_lookup_1. apply lookup_take_Some in Hq as [Hq Hlt].
    destruct (Hpos0 a q Hq) as (w & Hw & Hmw).
    rewrite bool_decide_eq_true_2 in Hmw by lia. eauto. }
  { intros i a Hi [Ha| ->%list_elem_of_singleton]%elem_of_app HX.
    - pose proof (elem_of_sublist _ _ _ Ha (do_sub _ _ _ _ _ Hd i ltac:(lia))) as Ha0.
      apply list_elem_of_lookup_1 in Ha0 as [q Hq].
      destruct (Hpos0 a q Hq) as (w & Hw & Hmw).
      rewrite bool_decide_eq_false_2 in Hmw; [eauto|].
      intros Hlt. apply HX. apply list_elem_of_lookup_2 with q.
      apply lookup_take_Some. split; [done|lia].
    - destruct (Hmark (S (length (L 0%nat))) t) as (w & Hw & Hmw).
      { simpl. rewrite lookup_app_r by lia. by rewrite Nat.sub_diag. }
      rewrite bool_decide_eq_false_2 in Hmw by lia. eauto. }
  { intros Hin%elem_of_take_in. apply NoDup_cons in Hnd as [_ Hn].
    apply NoDup_app in Hn as (_ & Hdis & _). apply (Hdis t Hin). by left. }
  { intros i Hi. apply Hsh. lia. }
  { apply (do_upper _ _ _ _ _ Hd). }
  { intros i a Hi Hi' Ha. apply (sh_sub _ _ _ _ Hsh); [lia|done]. }
  { done. }
  { lia. }
  { done. }
  { right. by left. }
  { done. }
  { lia. }
  destruct (Hlv eq_refl) as (Hlvr & Hlvall & Htop).
  exists (Z.to_nat lvz), pa', st'. rewrite Z2Nat.id by lia.
  split_and!; [|done|done| |lia| |].
  - unfold weak_search_end. change (-1 =? -1) with true. change (-1 >? 0) with false.
    cbv iota.
    replace (Z.to_nat (Z.of_nat NUM_LEVELS - 1)) with (NUM_LEVELS - 1)%nat by lia.
    exact Hrun.
  - intros i. rewrite Hpa. apply decide_ext. lia.
  - intros i Hi. apply Hlvall; lia.
  - intros Hne. apply Htop. lia.
Qed.

Lemma deleted_ok_head {cfg : config} st l l' t L m :
  head l' = head l -> deleted_ok st l t L m -> deleted_ok st l' t L m.
Proof.
  intros Hh [[H1 H2 H3 H4 H5] H6 H7 H8 H9 H10 H11 H12].
  constructor; [constructor|..]; unfold cache_ok in *; rewrite ?Hh; done.
Qed.
(** ** Any number of deletions *)

Lemma removemin_cleanup_quiet {cfg : config} fuel l v st4 w0 off :
  tl st4 = Tls v w0 off ->
  (off <= max_offset l \/
   exists w', word_at (heap st4) (head l) 0 = Some w' /\ w' <> w0) ->
  exists st5,
    removemin_cleanup fuel l v st4 = (Ok tt, st5) /\
    heap st5 = heap st4 /\ brk st5 = brk st4 /\ freed st5 = freed st4 /\
    tl st5 = tl st4.
Proof.
  intros Htl Hor. unfold removemin_cleanup. rewrite bind_eq. cbn [get_tl]. rewrite Htl.
  cbn [old_offset old_obs_hp].
  destruct (off <=? max_offset l) eqn:E.
  - cbv [bind ret]. eexists. split_and!; reflexivity || done.
  - destruct Hor as [Hle|(w' & Hw' & Hne)]; [apply Z.leb_gt in E; lia|].
    rewrite (bind_eq (bind _ _)), (bind_ok _ _ _ _ _ (load_next_view _ _ _ _ Hw')).
    cbv [ret]. rewrite (proj2 (Z.eqb_neq w' w0) Hne).
    eexists. split_and!; reflexivity || done.
Qed.

Lemma entry_exists {cfg : config} st l t L m :
  deleted_ok st l t L m -> exists j o, entry st l (head l :: L 0%nat ++ [t]) j o.
Proof.
  intros Hd. unfold entry. destruct (bool_decide _) eqn:E.
  - apply bool_decide_eq_true_1 in E.
    destruct (do_cache _ _ _ _ _ Hd E) as (j & _ & Hpt & _). eauto.
  - eauto.
Qed.

Section Quiet.
Context {cfg : config}.
Context (Hoptim : OPTIM = false) (HendM : is_marked_ref END = false).

(** The deletion that does not clean up: the offset reached is at most
    [max_offset], or the pointer that is marked is the one of the head. *)
Lemma set_removemin_quiet (st : state) (l : set_t) (t : Z) (L : nat -> list Z)
    (m fuel j : nat) (o : Z) :
  (0 < NUM_LEVELS)%nat -> deleted_ok st l t L m ->
  entry st l (head l :: L 0%nat ++ [t]) j o ->
  (o + Z.of_nat (m - j) + 1 <= max_offset l \/ m = 0%nat) ->
  Z.of_nat m + 1 <= INT_MAX -> brk st < WORD -> (m < fuel)%nat ->
  exists v st',
    (L 0%nat ++ [t]) !! m = Some v /\
    set_removemin fuel l st = (Ok (key_at (heap st) v), st') /\
    ((m < length (L 0%nat))%nat -> deleted_ok st' l t L (S m)) /\
    (forall a, key_at (heap st') a = key_at (heap st) a) /\
    (forall a, is_Some (heap st' !! a) <-> is_Some (heap st !! a)) /\
    brk st' = brk st /\ freed st' = freed st.
Proof using Hoptim HendM.
  intros Hpos Hd He Hq Hint Hbrk Hfuel.
  pose proof (do_shape _ _ _ _ _ Hd) as Hsh.
  pose proof (do_nodup _ _ _ _ _ Hd) as Hnd.
  pose proof (do_marked _ _ _ _ _ Hd) as Hmark.
  pose proof (do_count _ _ _ _ _ Hd) as Hcount.
  pose proof (do_range _ _ _ _ _ Hd) as Hrange.
  destruct (entry_bounds st l t L m j o Hpos Hd He) as [Hj Ho].
  destruct (Hmark 0%nat (head l) eq_refl) as (w0 & Hw0 & Hm0).
  set (st1 := add_event EvEnter st).
  destruct (removemin_start_entry st1 l (head l :: L 0%nat ++ [t]) j o w0 Hw0 eq_refl He)
    as (x0 & st2 & Hstart & Hh2 & Hb2 & Hf2 & Hx0 & Ho2 & Hobs).
  assert (Hx0' : (head l :: L 0%nat) !! j = Some x0).
  { rewrite app_comm_cons, lookup_app_l in Hx0 by (simpl; lia). done. }
  assert (Hr : forall a, is_Some (heap st !! a) -> 0 <= a /\ a + 1 < WORD).
  { intros a Ha. apply Hrange in Ha. lia. }
  assert (HN : heap st !! 0 = None).
  { destruct (heap st !! 0) eqn:E; [|done]. specialize (Hrange 0 ltac:(by eexists)). lia. }
  assert (Hnodes : forall a, a ∈ L 0%nat ++ [t] -> is_Some (heap st !! a)).
  { intros a [Ha| ->%list_elem_of_singleton]%elem_of_app.
    - by eapply (sh_nodes _ _ _ _ Hsh 0%nat).
    - apply Hsh. }
  destruct (removemin_walk_prefix Hoptim HendM (heap st) (head l) (L 0%nat) t m
              (sh_end _ _ _ _ Hsh) HN (sh_chain _ _ _ _ Hsh 0%nat Hpos)
              (marked_upto_app (heap st) (head l :: L 0%nat) [t] m Hmark))
    with (d := (m - j)%nat) (j := j) (x := x0) (off := 0) (n := fuel) (st := st2)
    as (xm & v & nd & st3 & Hxm & Hv & Hndx & Hw & Hvm & Hwalk & Hh3 & Ht3 & Hb3 & Hf3);
    [exact Hnodes | exact Hr | done | lia | done | done | lia | lia
    | unfold INT_MAX in *; lia |].
  assert (HxmN : (head l :: L 0%nat ++ [t]) !! m = Some xm).
  { rewrite app_comm_cons. by apply lookup_app_l_Some. }
  destruct (Hnodes v (list_elem_of_lookup_2 _ _ _ Hv)) as [vd Hvd].
  destruct (Hr v ltac:(by eexists)) as [Hv0 Hv1].
  destruct (mark_by_add v Hvm Hv0 Hv1) as (_ & Hmk1 & Hun1).
  assert (Hvd3 : exists vd', heap st3 !! v = Some vd' /\ n_k vd' = n_k vd).
  { rewrite Hh3. destruct (decide (v = xm)) as [->|Hne].
    - rewrite lookup_insert_eq. eexists. split; [done|]. simpl. congruence.
    - rewrite lookup_insert_ne by done. eauto. }
  destruct Hvd3 as (vd' & Hvd' & Hk').
  set (off := 0 + Z.of_nat (m - j) + 1) in *.
  assert (Hti : to_int (old_offset (tl st3) + off) = o + Z.of_nat (m - j) + 1).
  { rewrite Ht3, Ho2. unfold off. rewrite to_int_small; unfold INT_MAX in *; lia. }
  pose proof (removemin_save_run v off st3 vd' Hvd' Hvm) as Hsave.
  rewrite Hti, Ht3, Hobs in Hsave.
  match type of Hsave with _ = (_, ?s) => set (st4 := s) in * end.
  destruct (removemin_cleanup_quiet fuel l v st4 w0 (o + Z.of_nat (m - j) + 1) eq_refl)
    as (st5 & Hclean & Hh5 & Hb5 & Hf5 & Ht5).
  { destruct Hq as [Hle| ->]; [by left|right].
    assert (xm = head l) as -> by (simpl in Hxm; congruence).
    exists (v + 1). cbn [st4 heap add_event]. rewrite Hh3. split.
    - unfold word_at. rewrite lookup_insert_eq. cbn [set_next n_next].
      rewrite list_lookup_insert_eq by (by eapply lookup_lt_Some). done.
    - unfold word_at in Hw0. rewrite Hndx, Hw in Hw0. injection Hw0 as <-. lia. }
  assert (Hheap : heap (add_event EvExit st5) = <[xm := set_next nd 0 (v + 1)]> (heap st)).
  { cbn [heap add_event]. rewrite Hh5. cbn [st4 heap add_event]. done. }
  exists v, (add_event EvExit st5).
  split_and!.
  - done.
  - unfold set_removemin, critical_enter. rewrite bind_eq. cbn [log]. fold st1.
    rewrite (bind_ok _ _ _ _ _ Hstart), (bind_ok _ _ _ _ _ Hwalk).
    unfold removemin_finish.
    rewrite (bind_ok _ _ _ _ _ Hsave), (bind_ok _ _ _ _ _ Hclean).
    unfold critical_exit. rewrite bind_eq. cbn [log ret].
    unfold key_at. by rewrite Hvd, Hk'.
  - intros Hlive. constructor; rewrite ?Hheap.
    + eapply shape_ext; [exact Hsh| | |].
      * rewrite lookup_insert_ne; [apply Hsh|]. intros ->.
        rewrite (sh_end _ _ _ _ Hsh) in Hndx. done.
      * intros a Ha. by apply is_Some_set_next.
      * intros i a Hi Ha. eapply next_at_retag; [done|done|].
        by rewrite Hun1, (unmarked_id _ Hvm).
    + intros a Ha. rewrite Hheap in Ha. apply is_Some_set_next in Ha; [|done].
      cbn [brk add_event]. rewrite Hb5. cbn [st4 brk add_event]. rewrite Hb3, Hb2.
      by apply Hrange.
    + done.
    + intros q a Ha. destruct (Hmark q a Ha) as (w & Hwa & Hwm).
      unfold word_at in *. destruct (decide (a = xm)) as [->|Hne].
      * assert (q = m) as -> by (eapply NoDup_lookup; eauto).
        rewrite lookup_insert_eq. cbn [set_next n_next].
        rewrite list_lookup_insert_eq by (by eapply lookup_lt_Some).
        eexists. split; [done|]. rewrite Hmk1. by rewrite bool_decide_eq_true_2 by lia.
      * rewrite lookup_insert_ne by done. exists w. split; [done|].
        rewrite Hwm. apply bool_decide_ext.
        assert (q <> m) by (intros ->; congruence). lia.
    + lia.
    + intros _. exists (S m). split; [lia|]. cbn [tl add_event]. rewrite Ht5.
      cbn [st4 tl add_event pt old_offset]. split; [done|lia].
    + intros i a Hi Ha. destruct (do_upper _ _ _ _ _ Hd i a Hi Ha) as (w' & Hw' & Hmw').
      exists w'. split; [|done]. rewrite <- Hw'. unfold word_at.
      destruct (decide (a = xm)) as [->|Hne]; [|by rewrite lookup_insert_ne].
      rewrite lookup_insert_eq, Hndx. cbn [set_next n_next].
      rewrite list_lookup_insert_ne by lia. done.
    + apply (do_sub _ _ _ _ _ Hd).
  - intros a. rewrite Hheap. by apply key_at_set_next.
  - intros a. rewrite Hheap. by apply is_Some_set_next.
  - cbn [brk add_event]. rewrite Hb5. cbn [st4 brk add_event]. by rewrite Hb3, Hb2.
  - cbn [freed add_event]. rewrite Hf5. cbn [st4 freed add_event]. by rewrite Hf3, Hf2.
Qed.

End Quiet.

Section AnyOffset.
Context {cfg : config}.
Context (Hoptim : OPTIM = false) (HendM : is_marked_ref END = false).

(** One deletion, with or without cleanup, when a node is left. *)
Lemma removemin_step (st : state) (l : set_t) (t : Z) (L : nat -> list Z)
    (m fuel : nat) :
  (0 < NUM_LEVELS)%nat -> deleted_ok st l t L m -> (m < length (L 0%nat))%nat ->
  Z.of_nat m + 1 <= INT_MAX -> brk st < WORD ->
  (forall i, (i < NUM_LEVELS)%nat -> (length (L i) + 1 < fuel)%nat) ->
  exists v L' m' st',
    L 0%nat !! m = Some v /\
    set_removemin fuel l st = (Ok (key_at (heap st) v), st') /\
    deleted_ok st' l t L' m' /\
    drop m' (L' 0%nat) = drop (S m) (L 0%nat) /\
    (forall i, (length (L' i) <= length (L i))%nat) /\
    (forall a, key_at (heap st') a = key_at (heap st) a) /\
    brk st' = brk st.
Proof using Hoptim HendM.
  intros Hpos Hd Hlive Hint Hbrk Hfuel.
  destruct (entry_exists st l t L m Hd) as (j & o & He).
  destruct (decide (o + Z.of_nat (m - j) + 1 <= max_offset l \/ m = 0%nat)) as [Hq|Hc].
  - destruct (set_removemin_quiet Hoptim HendM st l t L m fuel j o Hpos Hd He Hq Hint Hbrk)
      as (v & st' & Hv & Hrun & Hd' & Hk & _ & Hb & _).
    { specialize (Hfuel 0%nat Hpos). lia. }
    rewrite lookup_app_l in Hv by done.
    exists v, L, (S m), st'. split_and!; try done. by apply Hd'.
  - destruct (set_removemin_cleanup_spec st l t L m fuel j o Hoptim HendM Hpos Hd)
      as (v & st' & Hv & Hrun & Hd' & HL0 & _ & Hb & _ & _ & Hk);
      [lia|done|lia|done|done|done|].
    exists v, (after_cleanup L m), 1%nat, st'. split_and!; try done.
    + rewrite HL0, drop_drop. f_equal. lia.
    + intros i. unfold after_cleanup. apply length_filter.
    + intros a. apply Hk.
Qed.

(** The deletion on a queue without a node left returns the key of the
    tail. *)
Lemma removemin_last (st : state) (l : set_t) (t : Z) (L : nat -> list Z)
    (m fuel : nat) :
  (0 < NUM_LEVELS)%nat -> deleted_ok st l t L m -> m = length (L 0%nat) ->
  Z.of_nat m + 1 <= INT_MAX -> brk st < WORD ->
  (forall i, (i < NUM_LEVELS)%nat -> (length (L i) + 1 < fuel)%nat) ->
  fst (set_removemin fuel l st) = Ok (key_at (heap st) t).
Proof using Hoptim HendM.
  intros Hpos Hd Hlast Hint Hbrk Hfuel.
  destruct (entry_exists st l t L m Hd) as (j & o & He).
  assert (Ht : forall v, (L 0%nat ++ [t]) !! m = Some v -> v = t).
  { intros v Hv. rewrite lookup_app_r in Hv by lia.
    rewrite Hlast, Nat.sub_diag in Hv. simpl in Hv. congruence. }
  destruct (decide (o + Z.of_nat (m - j) + 1 <= max_offset l \/ m = 0%nat)) as [Hq|Hc].
  - destruct (set_removemin_quiet Hoptim HendM st l t L m fuel j o Hpos Hd He Hq Hint Hbrk)
      as (v & st' & Hv & Hrun & _).
    { specialize (Hfuel 0%nat Hpos). lia. }
    by rewrite Hrun, (Ht v Hv).
  - destruct (set_removemin_cleanup_run Hoptim HendM st l t L m fuel j o Hpos Hd)
      as (xm & v & w0 & lvl & st' & _ & Hv & _ & _ & _ & _ & _ & _ & Hrun & _);
      [lia|done|lia|done|done|done|].
    by rewrite Hrun, (Ht v Hv).
Qed.

(** [n] deletions return the keys of the next [n] nodes of the bottom
    level, whatever [max_offset] is. *)
Lemma removemin_n_any (l : set_t) (t : Z) (fuel : nat) :
  (0 < NUM_LEVELS)%nat ->
  forall (n : nat) (st : state) (L : nat -> list Z) (m : nat),
    deleted_ok st l t L m ->
    (m + n <= length (L 0%nat) + 1)%nat ->
    Z.of_nat (length (L 0%nat)) + 1 <= INT_MAX -> brk st < WORD ->
    (forall i, (i < NUM_LEVELS)%nat -> (length (L i) + 1 < fuel)%nat) ->
    fst (removemin_n fuel l n st)
    = Ok (map (key_at (heap st)) (take n (drop m (L 0%nat ++ [t])))).
Proof using Hoptim HendM.
  intros Hpos. induction n as [|n IH]; intros st L m Hd Hlen Hint Hbrk Hfuel; [done|].
  pose proof (do_count _ _ _ _ _ Hd) as Hcount.
  cbn [removemin_n]. destruct (decide (m < length (L 0%nat))%nat) as [Hlive|Hlast].
  - destruct (removemin_step st l t L m fuel Hpos Hd Hlive ltac:(lia) Hbrk Hfuel)
      as (v & L' & m' & st' & Hv & Hrun & Hd' & Hdrop & Hlens & Hk & Hb).
    pose proof (do_count _ _ _ _ _ Hd') as Hcount'.
    assert (Hl' : (length (L' 0%nat) - m' = length (L 0%nat) - S m)%nat).
    { by rewrite <- !length_drop, Hdrop. }
    rewrite (bind_ok _ _ _ _ _ Hrun), bind_eq.
    assert (HIH : fst (removemin_n fuel l n st')
                  = Ok (map (key_at (heap st')) (take n (drop m' (L' 0%nat ++ [t]))))).
    { apply IH; [done|lia|specialize (Hlens 0%nat); lia|lia|].
      intros i Hi. specialize (Hfuel i Hi). specialize (Hlens i). lia. }
    destruct (removemin_n fuel l n st') as [[ks|e] st'']; cbn [fst] in HIH; [|done].
    injection HIH as ->. cbn [fst ret].
    assert (Hv' : (L 0%nat ++ [t]) !! m = Some v) by (by apply lookup_app_l_Some).
    rewrite (drop_S _ _ _ Hv'). cbn [take map]. do 2 f_equal.
    rewrite !drop_app_le by lia. rewrite Hdrop. apply map_ext. done.
  - assert (m = length (L 0%nat)) by lia. assert (n = 0%nat) as -> by lia.
    pose proof (removemin_last st l t L m fuel Hpos Hd H ltac:(lia) Hbrk Hfuel) as Hrun.
    rewrite bind_eq. destruct (set_removemin fuel l st) as [[k|e] st']; cbn [fst] in Hrun;
      [|done].
    injection Hrun as ->. cbn [removemin_n]. cbv [bind ret]. cbn [fst].
    rewrite drop_app_le by lia. subst m. rewrite drop_all. done.
Qed.

End AnyOffset.
(** ** The levels after a run of insertions *)

Lemma place_cut h k new ns :
  exists A B,
    ns = A ++ B /\ place h k new ns = A ++ new :: B /\
    Forall (fun a => (key_at h a >? k) = false) A /\
    (B = [] \/ exists b B', B = b :: B' /\ (key_at h b >? k) = true).
Proof.
  induction ns as [|n ns IH].
  - exists [], []. split_and!; [done|done|constructor|by left].
  - simpl. destruct (key_at h n >? k) eqn:Hn.
    + exists [], (n :: ns). split_and!; [done|done|constructor|right; eauto].
    + destruct IH as (A & B & -> & Hp & HA & HB).
      exists (n :: A), B. split_and!; [done|by rewrite Hp|by constructor|done].
Qed.

Lemma place_le h k new A B :
  Forall (fun a => (key_at h a >? k) = false) A ->
  (B = [] \/ exists b B', B = b :: B' /\ (key_at h b >? k) = true) ->
  place h k new (A ++ B) = A ++ new :: B.
Proof.
  intros HA HB. induction HA as [|a A Ha HA IH]; simpl.
  - destruct HB as [->|(b & B' & -> & Hb)]; [done|]. simpl. by rewrite Hb.
  - by rewrite Ha, IH.
Qed.

Lemma sublist_place h k new ns : sublist ns (place h k new ns).
Proof.
  destruct (place_cut h k new ns) as (A & B & -> & -> & _).
  apply sublist_app; [done|]. by apply sublist_cons.
Qed.

(** A level that follows the order of a sorted bottom level still does
    so after the same node has been placed in both. *)
Lemma place_sublist h k new La L0 :
  StronglySorted (fun a b => key_at h a <= key_at h b) L0 ->
  sublist La L0 -> sublist (place h k new La) (place h k new L0).
Proof.
  intros Hs Hsub.
  destruct (place_cut h k new L0) as (A0 & B0 & -> & -> & HA & HB).
  assert (HB' : Forall (fun a => (key_at h a >? k) = true) B0).
  { destruct HB as [->|(b & B' & -> & Hb)]; [constructor|].
    apply sorted_suffix in Hs. apply StronglySorted_inv in Hs as [_ Hall].
    constructor; [done|]. eapply Forall_impl; [exact Hall|].
    intros a Ha. simpl in Ha. apply Z.gtb_lt. apply Z.gtb_lt in Hb. lia. }
  apply sublist_app_r in Hsub as (l1 & l2 & -> & H1 & H2).
  rewrite place_le.
  - apply sublist_app; [done|]. by apply sublist_skip.
  - apply Forall_forall. intros a Ha. rewrite Forall_forall in HA.
    apply HA. exact (elem_of_sublist _ _ _ Ha H1).
  - destruct l2 as [|b l2']; [by left|right]. exists b, l2'. split; [done|].
    rewrite Forall_forall in HB'. apply HB'.
    apply (elem_of_sublist (b :: l2')); [by left|done].
Qed.

Lemma set_update_tail_word {cfg : config} (st st' : state) (l : set_t) (t : Z)
    (L : nat -> list Z) (k v r : Z) (fuel : nat) :
  (1 <= NUM_LEVELS <= 32)%nat -> Z.land END 63 <> 0 ->
  queue_ok st l t L ->
  key_at (heap st) (head l) <= k < key_at (heap st) t ->
  (forall i, (i < NUM_LEVELS)%nat -> (length (L i) < fuel)%nat) ->
  (NUM_LEVELS <= fuel)%nat ->
  t ∉ head l :: L 0%nat ->
  set_update fuel l k v r st = (Ok tt, st') ->
  word_at (heap st') t 0 = word_at (heap st) t 0.
Proof.
  intros Hnum Hend Hq Hkey Hfuel Hfuel' Ht Hrun.
  destruct (get_level_range r Hnum) as (lv & Hlv & Hlvr).
  destruct (set_update_run st l t L k v r lv fuel Hnum Hend Hq Hkey Hfuel Hfuel' Hlv)
    as (preds & succs & st'' & Hrun' & Hh & _ & _ & _ & _ & _ & Hps).
  rewrite Hrun' in Hrun. injection Hrun as <-. rewrite Hh.
  rewrite (fin_word st l t L k v r lv fuel Hnum Hend Hq Hkey Hfuel Hfuel' Hlv preds succs
             Hps t 0%nat ltac:(lia)).
  rewrite decide_False.
  - rewrite decide_False; [done|].
    apply (ins_old st l t L k v r lv fuel Hnum Hend Hq Hkey Hfuel Hfuel' Hlv).
    apply (sl_tail _ _ _ _ (qo_list _ _ _ _ Hq)).
  - intros [_ E]. apply Ht. rewrite E.
    apply (ins_P_in st l t L k v r lv fuel Hnum Hend Hq Hkey Hfuel Hfuel' Hlv). lia.
Qed.

Section Fill.
Context {cfg : config}.

(** The run of insertions keeps the order of the levels, the tail
    outside the bottom list and the word in the tail. *)
Lemma insert_all_levels (l : set_t) (t : Z) (fuel : nat) (wt : Z) :
  (1 <= NUM_LEVELS <= 32)%nat -> Z.land END 63 <> 0 -> (NUM_LEVELS <= fuel)%nat ->
  forall (ops : list (Z * Z * Z)) (st : state) (L : nat -> list Z),
    queue_ok st l t L ->
    Forall (fun op => key_at (heap st) (head l) <= op.1.1 < key_at (heap st) t) ops ->
    (forall i, (i < NUM_LEVELS)%nat -> (length (L i) + length ops < fuel)%nat) ->
    (forall i, (i < NUM_LEVELS)%nat -> sublist (L i) (L 0%nat)) ->
    t ∉ head l :: L 0%nat -> word_at (heap st) t 0 = Some wt ->
    exists st' L',
      insert_all fuel l ops st = (Ok tt, st') /\
      queue_ok st' l t L' /\
      map (key_at (heap st')) (L' 0%nat)
      = foldl (fun ks op => place_key op.1.1 ks) (map (key_at (heap st)) (L 0%nat)) ops /\
      (forall i, (i < NUM_LEVELS)%nat ->
         (length (L' i) <= length (L i) + length ops)%nat) /\
      length (L' 0%nat) = (length (L 0%nat) + length ops)%nat /\
      key_at (heap st') t = key_at (heap st) t /\
      tl st' = tl st /\
      brk st <= brk st' <= brk st + 438 * Z.of_nat (length ops) /\
      (forall i, (i < NUM_LEVELS)%nat -> sublist (L' i) (L' 0%nat)) /\
      (t ∉ head l :: L' 0%nat) /\ word_at (heap st') t 0 = Some wt.
Proof.
  intros Hnum Hend Hfuel'.
  induction ops as [|[[k v] r] ops IH]; intros st L Hq Hkeys Hfuel Hsub Htn Hwt.
  - exists st, L. simpl. split_and!; try done; try lia.
  - apply Forall_cons in Hkeys as [Hk Hkeys]. cbn [fst] in Hk.
    assert (Hfuel1 : forall i, (i < NUM_LEVELS)%nat -> (length (L i) < fuel)%nat).
    { intros i Hi. specialize (Hfuel i Hi). simpl in Hfuel. lia. }
    destruct (set_update_spec st l t L k v r fuel Hnum Hend Hq Hk Hfuel1 Hfuel') as
      (lv & st1 & Hlv & Hlvr & Hrun & Hq1 & Hfresh & Hkn & _ & _ & Hold & Hb & Hf & Ht).
    pose proof (set_update_tail_word st st1 l t L k v r fuel Hnum Hend Hq Hk Hfuel1 Hfuel'
                  Htn Hrun) as Hwt1.
    set (new := align64 (brk st)) in *.
    set (L1 := fun i => if (i <? Z.to_nat lv)%nat then place (heap st) k new (L i) else L i)
      in *.
    assert (Hne : forall a, is_Some (heap st !! a) -> a <> new).
    { intros a [? Ha] ->. congruence. }
    assert (Hhd : head l <> new).
    { apply Hne. eapply skiplist_head_node; [lia|apply Hq]. }
    assert (Htl : t <> new).
    { apply Hne. apply (sl_tail _ _ _ _ (qo_list _ _ _ _ Hq)). }
    destruct (Hold (head l) Hhd) as (Hkh & _). destruct (Hold t Htl) as (Hkt & _).
    assert (HL10 : L1 0%nat = place (heap st) k new (L 0%nat)).
    { unfold L1. assert ((0 <? Z.to_nat lv)%nat = true) as ->; [|done].
      apply Nat.ltb_lt. lia. }
    destruct (IH st1 L1 Hq1) as
      (st' & L' & Hrun' & Hq' & Hmap & Hlens & Hlen & Hkt' & Ht' & Hb' & Hsub' & Htn' & Hwt').
    { rewrite Hkh, Hkt. done. }
    { intros i Hi. specialize (Hfuel i Hi). simpl in Hfuel. unfold L1.
      destruct (i <? Z.to_nat lv)%nat; [rewrite length_place|]; lia. }
    { intros i Hi. rewrite HL10. unfold L1. destruct (i <? Z.to_nat lv)%nat.
      - apply place_sublist; [|by apply Hsub].
        apply (sl_sorted _ _ _ _ (qo_list _ _ _ _ Hq) 0%nat). lia.
      - etrans; [by apply Hsub|]. apply sublist_place. }
    { rewrite HL10. intros Hin. apply elem_of_cons in Hin as [E|Hin].
      - apply Htn. rewrite E. by left.
      - apply elem_of_place in Hin as [E|Hin]; [done|]. apply Htn. by right. }
    { by rewrite Hwt1. }
    exists st', L'. split_and!; try done.
    + cbn [insert_all]. by rewrite (bind_ok _ _ _ _ _ Hrun).
    + rewrite Hmap. cbn [foldl fst]. f_equal. rewrite HL10. apply map_place; [|done].
      intros a Ha. apply Hold, Hne.
      eapply (sl_nodes _ _ _ _ (qo_list _ _ _ _ Hq) 0%nat); [lia|done].
    + intros i Hi. specialize (Hlens i Hi). unfold L1 in Hlens.
      destruct (i <? Z.to_nat lv)%nat; [rewrite length_place in Hlens|]; simpl; lia.
    + rewrite Hlen, HL10, length_place. simpl. lia.
    + congruence.
    + congruence.
    + pose proof (align64_bounds (brk st)). pose proof (pool_size_bound lv ltac:(lia)).
      fold new in H. cbn [length]. lia.
    + pose proof (align64_bounds (brk st)). pose proof (pool_size_bound lv ltac:(lia)).
      fold new in H. cbn [length]. lia.
Qed.

End Fill.

Lemma tail_fill_unmarked {cfg : config} : is_marked_ref tail_fill = false.
Proof. unfold tail_fill. by destruct USE_FAA. Qed.

Lemma fill_drain_any {cfg : config} (st : state) (fuel : nat) (mo ml : Z)
    (ops : list (Z * Z * Z)) (n : nat) :
  (1 <= NUM_LEVELS <= 32)%nat -> Z.land END 63 <> 0 -> is_marked_ref END = false ->
  OPTIM = false ->
  heap_range st -> heap st !! END = None -> 0 < brk st ->
  brk st + 1100 + 438 * Z.of_nat (length ops) < WORD ->
  old_obs_hp (tl st) = NULL ->
  Forall (fun op => SENTINEL_KEYMIN <= op.1.1 < SENTINEL_KEYMAX) ops ->
  (n <= length ops + 1)%nat -> Z.of_nat (length ops) + 1 <= INT_MAX ->
  (length ops + 1 < fuel)%nat -> (NUM_LEVELS <= fuel)%nat ->
  fst (fill_drain fuel mo ml ops n st)
  = Ok (take n (sorted_keys ops ++ [SENTINEL_KEYMAX])).
Proof.
  intros Hnum Hend Hendm Hoptim Hrange Hfree Hbrk Hword Hnull Hkeys Hn Hint Hf1 Hf2.
  destruct (set_alloc_spec mo ml st Hend Hfree Hrange Hbrk)
    as (l & st1 & Hrun1 & Hmo1 & _ & _ & _ & Hq1 & Hkmin & Hkmax & Hfill & _ & _ & Hth & _
        & Hb1 & Ht1 & _ & _).
  set (t := align64 (brk st)) in *.
  destruct (insert_all_levels l t fuel tail_fill Hnum Hend Hf2 ops st1 (fun _ => []) Hq1)
    as (st2 & L & Hrun2 & Hq2 & Hmap & Hlens & Hlen & Hkt & Ht2 & Hb2 & Hsub & Htn & Hwt).
  { by rewrite Hkmin, Hkmax. }
  { intros i _. simpl. lia. }
  { done. }
  { intros [E|E]%elem_of_cons; [lia|]. by apply elem_of_nil in E. }
  { apply Hfill. lia. }
  assert (Hsb : sentinel_bytes <= 312) by (unfold sentinel_bytes; lia).
  assert (Hd : deleted_ok st2 l t L 0).
  { apply queue_ok_deleted; [lia|done|done| |congruence|done].
    exists tail_fill. split; [done|apply tail_fill_unmarked]. }
  pose proof (removemin_n_any Hoptim Hendm l t fuel ltac:(lia) n st2 L 0%nat Hd) as Hrun3.
  unfold sorted_keys, fill_drain.
  rewrite (bind_ok _ _ _ _ _ Hrun1), (bind_ok _ _ _ _ _ Hrun2), Hrun3.
  - f_equal. rewrite drop_0, <- firstn_map, map_app, Hmap. cbn [map].
    by rewrite Hkt, Hkmax.
  - simpl in *. lia.
  - simpl in *. lia.
  - simpl in *. lia.
  - intros i Hi. specialize (Hlens i Hi). simpl in Hlens. lia.
Qed.

(** ** Where a deletion sets the mark *)

Section MarkLocation.
Context {cfg : config}.

Lemma keeps_removemin_optim x : preserves same_regs (removemin_optim x).
Proof. unfold removemin_optim. keeps. Qed.

Lemma keeps_removemin_walk n x off : preserves same_regs (removemin_walk n x off).
Proof.
  revert x off. induction n as [|n IH]; intros x off; simpl; [keeps|].
  apply keeps_bind; [apply keeps_removemin_optim|intros o].
  apply keeps_bind.
  - destruct o; [keeps|]. unfold removemin_read, removemin_mark. keeps.
  - intros r. destruct r as [w|]; [|keeps].
    destruct (is_marked_ref w); [|keeps].
    destruct (_ =? NULL); [keeps|apply IH].
Qed.

Lemma removemin_walk_tl n x off st r st' :
  removemin_walk n x off st = (r, st') -> tl st' = tl st.
Proof.
  intros H. pose proof (keeps_removemin_walk n x off st) as Hk.
  rewrite H in Hk. apply Hk.
Qed.

(** The resume-point test reads the bottom pointer of the head and
    leaves it in [old_obs_hp]. *)
Lemma removemin_start_inv l st x st' :
  removemin_start l st = (Ok x, st') ->
  heap st' = heap st /\ cell st (head l) (FNext 0) = Some (old_obs_hp (tl st')).
Proof.
  intros H. unfold removemin_start in H.
  rewrite bind_eq in H. cbn [get_tl] in H.
  rewrite bind_eq, load_next_eq in H. unfold cell.
  destruct (heap st !! head l) as [hd|] eqn:Hhd; [|done].
  destruct (n_next hd !! 0%nat) as [w|] eqn:Hw; [|done].
  destruct (old_obs_hp (tl st) =? w) eqn:E.
  - apply Z.eqb_eq in E. injection H as _ <-. cbn. by rewrite E.
  - rewrite bind_eq, load_next_eq in H. cbn [heap add_event] in H.
    rewrite Hhd, Hw in H. injection H as _ <-. done.
Qed.

(** A marked word whose pointer is [NULL] is the word 1. *)
Lemma marked_null w : is_marked_ref w = true -> get_unmarked_ref w = NULL -> w = 1.
Proof.
  unfold is_marked_ref, get_unmarked_ref, NULL. intros Hm Hu.
  apply negb_true_iff, Z.eqb_neq in Hm.
  assert (Hw : w = Z.lor (Z.land w (Z.lnot 1)) (Z.land w 1)).
  { rewrite <- Z.land_lor_distr_r. change (Z.lor (Z.lnot 1) 1) with (-1).
    by rewrite Z.land_m1_r. }
  rewrite Hu, Z.lor_0_l in Hw. rewrite land_1_mod in Hw, Hm.
  pose proof (Z.mod_pos_bound w 2 ltac:(lia)). lia.
Qed.

(** A marking loop that is left without an unmarked word, by
    [return NULL] or at a marked [NULL] pointer, has written nothing. *)
Lemma removemin_walk_quiet n x off st r st' :
  removemin_walk n x off st = (Ok r, st') ->
  match r with
  | None => NDEBUG = true /\ heap st' = heap st
  | Some (v, _) => is_marked_ref v = true -> v = 1 /\ heap st' = heap st
  end.
Proof.
  revert x off st. induction n as [|n IH]; intros x off st H; [done|].
  simpl in H.
  apply bind_inv in H as (o & st1 & Ho & H).
  apply bind_inv in H as (r0 & st2 & Hr & H).
  assert (Hh1 : heap st1 = heap st) by (eapply readonly_heap; [|exact Ho]; by pres).
  assert (Hcont : forall w, r0 = Some w -> is_marked_ref w = true -> heap st2 = heap st ->
            match r with
            | None => NDEBUG = true /\ heap st' = heap st
            | Some (v, _) => is_marked_ref v = true -> v = 1 /\ heap st' = heap st
            end).
  { intros w -> Hw Hh. rewrite Hw in H.
    destruct (_ =? NULL) eqn:E.
    - injection H as <- <-. intros _. apply Z.eqb_eq in E.
      split; [by apply marked_null|done].
    - apply IH in H. rewrite Hh in H. exact H. }
  destruct o as [w|].
  - injection Hr as <- <-.
    apply removemin_optim_inv in Ho as [Hw Hh]. by eapply Hcont.
  - apply bind_inv in Hr as (w & st3 & Hw & Hr).
    apply load_next_inv in Hw as (nd & Hn & Hi & ->).
    apply bind_inv in Hr as (u & st4 & Ha & Hr).
    pose proof Ha as Ha'. apply c_assert_ret_inv in Ha' as ->.
    destruct (w =? END) eqn:Eend.
    + injection Hr as <- <-. injection H as <- <-. split; [|done].
      unfold c_assert in Ha. destruct NDEBUG; [done|].
      rewrite bind_eq in Ha. cbn [ret] in Ha. done.
    + apply bind_inv in Hr as (w' & st5 & Hm & Hr).
      injection Hr as <- <-.
      unfold removemin_mark in Hm.
      destruct (is_marked_ref w) eqn:Hmw; simpl in Hm.
      * injection Hm as <- <-. eapply Hcont; [done..|]. simpl. done.
      * apply FAA_inv in Hm as (nd' & Hn' & Hi' & ->).
        simpl in Hn', Hi'. assert (w' = w) as -> by congruence.
        rewrite Hmw in H. injection H as <- <-. intros Hc. congruence.
Qed.

(** Fetch-and-add of 1 on an unmarked 64-bit word sets its mark. *)
Lemma faa_marks v :
  is_marked_ref v = false -> 0 <= v < WORD -> to_ulong (v + 1) = get_marked_ref v.
Proof.
  unfold is_marked_ref, get_marked_ref, to_ulong. intros Hm Hv.
  apply negb_false_iff, Z.eqb_eq in Hm.
  rewrite <- (Z.add_nocarry_lor v 1) by done.
  rewrite land_1_mod in Hm.
  pose proof (Z.div_mod v 2 ltac:(lia)).
  apply Z.mod_small. unfold WORD in *. lia.
Qed.

(** When the head's bottom pointer differs from [old_obs_hp], the
    cleanup writes nothing. *)
Lemma removemin_cleanup_noswing fuel l x st r st' c :
  removemin_cleanup fuel l x st = (r, st') ->
  cell st (head l) (FNext 0) = Some c -> c <> old_obs_hp (tl st) ->
  heap st' = heap st.
Proof.
  intros H Hc Hne. unfold removemin_cleanup in H.
  rewrite bind_eq in H. simpl in H. rewrite bind_eq in H.
  destruct (old_offset (tl st) <=? max_offset l).
  - simpl in H. by injection H as _ <-.
  - rewrite bind_eq, load_next_eq in H. unfold cell in Hc.
    destruct (heap st !! head l) as [hd|] eqn:Hhd; [|done]. simpl in Hc.
    rewrite Hc in H. simpl in H.
    apply Z.eqb_neq in Hne. rewrite Hne in H. by injection H as _ <-.
Qed.

(** What a [set_removemin] that returns has done: it has incremented
    one unmarked bottom pointer and returns the key of the node behind
    it, or, in a build without assertions, it has left the marking
    loop without marking. *)
Lemma removemin_marks_pointer fuel l st k st' :
  set_removemin fuel l st = (Ok k, st') ->
  (exists p v,
     cell st p (FNext 0) = Some v /\ is_marked_ref v = false /\
     cell st v FK = Some k /\
     cell st' p (FNext 0) = Some (to_ulong (v + 1)) /\
     is_marked_ref (to_ulong (v + 1)) = true /\
     (0 <= v < WORD -> to_ulong (v + 1) = get_marked_ref v) /\
     (forall a f, a <> head l -> (a, f) <> (p, FNext 0) ->
                  cell st' a f = cell st a f)) \/
  (NDEBUG = true /\
   (forall a f, a <> head l -> cell st' a f = cell st a f) /\
   (k = NULL /\ heap st' = heap st \/ cell st 1 FK = Some k)).
Proof.
  intros H. unfold set_removemin, critical_enter in H.
  apply bind_inv in H as (u & st1 & He & H). injection He as <- <-.
  apply bind_inv in H as (x & st2 & Hs & H).
  apply removemin_start_inv in Hs as [Hh2 Hobs].
  change (heap (add_event EvEnter st)) with (heap st) in Hh2.
  change (cell (add_event EvEnter st) (head l) (FNext 0))
    with (cell st (head l) (FNext 0)) in Hobs.
  apply bind_inv in H as (r & st3 & Hw & H).
  pose proof (removemin_walk_tl _ _ _ _ _ _ Hw) as Ht3.
  pose proof (removemin_walk_quiet _ _ _ _ _ _ Hw) as Hquiet.
  destruct r as [[v off]|].
  2:{ injection H as <- <-. destruct Hquiet as [Hnd Hh3]. right.
      assert (Hh : heap st3 = heap st) by congruence.
      split_and!; [done| |by left].
      intros a f _. by apply cell_heap_eq. }
  unfold removemin_finish, critical_exit in H.
  apply bind_inv in H as (k0 & st4 & Hsave & H).
  apply bind_inv in H as (u1 & st5 & Hc & H).
  apply bind_inv in H as (u2 & st6 & Hx & H).
  injection Hx as <- <-. injection H as <- <-.
  assert (Hframe : forall a f, a <> head l -> cell st5 a f = cell st4 a f).
  { pose proof (preserves_removemin_cleanup any_event (head_cells l) l mem_ok_any
                  (fun i => conj eq_refl (ex_intro _ i eq_refl)) fuel v st4) as [_ Hf].
    rewrite Hc in Hf. intros a f Ha. apply Hf. by intros [? _]. }
  pose proof Hsave as Hsave'.
  apply removemin_save_inv in Hsave' as (Hh4 & Hk & Hnd).
  destruct (is_marked_ref v) eqn:Hv.
  - destruct Hnd as [Hnd|?]; [|done]. destruct (Hquiet eq_refl) as [-> Hh3]. right.
    assert (Hh : heap st4 = heap st) by congruence.
    split_and!; [done| |right].
    + intros a f Ha. change (cell (add_event EvExit st5) a f) with (cell st5 a f).
      rewrite Hframe by done. by apply cell_heap_eq.
    + rewrite <- Hk. symmetry. apply cell_heap_eq. congruence.
  - left. clear Hquiet Hnd.
    apply removemin_walk_mark in Hw as (p & nd & Hp & Hi & Hh3); [|done].
    rewrite Hh2 in Hp, Hh3.
    assert (Hcell4 : forall a f, cell st4 a f =
              if decide (p = a) then field_of (set_next nd 0 (to_ulong (v + 1))) f
              else cell st a f).
    { intros a f. unfold cell. rewrite Hh4, Hh3.
      destruct (decide (p = a)) as [->|Hne].
      - by rewrite lookup_insert_eq.
      - by rewrite lookup_insert_ne. }
    assert (Hp0 : cell st4 p (FNext 0) = Some (to_ulong (v + 1))).
    { rewrite Hcell4, decide_True by done. simpl.
      apply list_lookup_insert_eq. by eapply lookup_lt_Some. }
    assert (Hpv : cell st p (FNext 0) = Some v) by (unfold cell; by rewrite Hp).
    assert (Hk3 : cell st v FK = Some k0).
    { rewrite (cell_heap_eq st4 st3), Hcell4 in Hk by done.
      destruct (decide (p = v)) as [->|Hne]; [|done].
      unfold cell. by rewrite Hp. }
    exists p, v. split_and!; [done|done|done| |by apply is_marked_faa|by apply faa_marks|].
    + change (cell (add_event EvExit st5) p (FNext 0)) with (cell st5 p (FNext 0)).
      destruct (decide (p = head l)) as [Hph|Hne]; [|by rewrite Hframe].
      rewrite <- Hp0. apply cell_heap_eq.
      eapply removemin_cleanup_noswing; [exact Hc|rewrite <- Hph; exact Hp0|].
      assert (Hvd : exists vd, heap st3 !! v = Some vd).
      { unfold cell in Hk. destruct (heap st3 !! v); [eauto|done]. }
      destruct Hvd as [vd Hvd].
      rewrite (removemin_save_run v off st3 vd Hvd Hv) in Hsave.
      injection Hsave as _ <-. cbn [tl add_event old_obs_hp].
      rewrite Ht3. rewrite Hph in Hpv. rewrite Hobs in Hpv. injection Hpv as ->.
      intros E. pose proof (is_marked_faa v Hv) as Hodd. rewrite E in Hodd. congruence.
    + intros a f Ha Hne. change (cell (add_event EvExit st5) a f) with (cell st5 a f).
      rewrite Hframe, Hcell4 by done.
      destruct (decide (p = a)) as [->|]; [|done].
      rewrite field_of_set_next by congruence. unfold cell. by rewrite Hp.
Qed.


(** C1 (as amended): a deletion sets the mark on the bottom-level
    pointer that leads to the victim, held by the victim's predecessor
    [p], and not on the victim's own pointer.  A [set_removemin] that
    returns [k] has added 1 to the unmarked word [v] in [p->next[0]];
    [v] is the node whose key [k] is, the word is marked afterwards, for
    a 64-bit [v] it is [v] with the mark, and outside the head, whose
    pointers the cleanup may swing, no other cell has changed; only a
    build without assertions can return otherwise, with [NULL] from the
    end of the list or with the word read at address 1 behind a marked
    [NULL], and has then marked nothing.  [set_remove] applies
    fetch-or-1 to the word [v] in [p->next[0]] and returns [v] when it
    was unmarked; no other cell changes. *)
Theorem deletion_marks_predecessor_pointer (fuel : nat) (l : set_t)
    (key : Z) (st : state) :
  (forall k st',
      set_removemin fuel l st = (Ok k, st') ->
      (exists p v,
        cell st p (FNext 0) = Some v /\ is_marked_ref v = false /\
        cell st v FK = Some k /\
        cell st' p (FNext 0) = Some (to_ulong (v + 1)) /\
        is_marked_ref (to_ulong (v + 1)) = true /\
        (0 <= v < WORD -> to_ulong (v + 1) = get_marked_ref v) /\
        (v <> p -> v <> head l -> cell st' v (FNext 0) = cell st v (FNext 0)) /\
        (forall a f, a <> head l -> (a, f) <> (p, FNext 0) ->
                     cell st' a f = cell st a f)) \/
      (NDEBUG = true /\
       (forall a f, a <> head l -> cell st' a f = cell st a f) /\
       (k = NULL /\ heap st' = heap st \/ cell st 1 FK = Some k))) /\
  (forall node st',
      set_remove fuel l key st = (Ok node, st') ->
      exists p v,
        cell st p (FNext 0) = Some v /\
        cell st' p (FNext 0) = Some (get_marked_ref v) /\
        node = (if is_marked_ref v then NULL else v) /\
        (v <> p -> cell st' v (FNext 0) = cell st v (FNext 0)) /\
        (forall a f, (a, f) <> (p, FNext 0) -> cell st' a f = cell st a f)).
Proof.
  split.
  - intros k st' H. apply removemin_marks_pointer in H as [H|H]; [left|by right].
    destruct H as (p & v & H1 & H2 & H3 & H4 & H5 & H6 & H7).
    exists p, v. split_and!; try done.
    intros Hvp Hvh. apply H7; [done|congruence].
  - intros node st' H. apply set_remove_marks_pointer in H as (p & v & H1 & H2 & H3 & H4).
    exists p, v. split_and!; try done.
    intros Hvp. apply H4. congruence.
Qed.

End MarkLocation.

Lemma deletion_marks_predecessor_pointer_witness :
  let out := set_removemin (cfg:=cfg32) FUEL q3_set q3_state in
  let out' := set_remove (cfg:=cfg32) FUEL q3_set 5 q3_state in
  ((exists p v,
     cell q3_state p (FNext 0) = Some v /\ is_marked_ref v = false /\
     cell q3_state v FK = Some 3 /\
     cell (snd out) p (FNext 0) = Some (to_ulong (v + 1)) /\
     is_marked_ref (to_ulong (v + 1)) = true /\
     (0 <= v < WORD -> to_ulong (v + 1) = get_marked_ref v) /\
     (v <> p -> v <> head q3_set ->
      cell (snd out) v (FNext 0) = cell q3_state v (FNext 0)) /\
     (forall a f, a <> head q3_set -> (a, f) <> (p, FNext 0) ->
                  cell (snd out) a f = cell q3_state a f)) \/
   (NDEBUG (config:=cfg32) = true /\
    (forall a f, a <> head q3_set -> cell (snd out) a f = cell q3_state a f) /\
    (3 = NULL /\ heap (snd out) = heap q3_state \/ cell q3_state 1 FK = Some 3))) /\
  (exists p v,
     cell q3_state p (FNext 0) = Some v /\
     cell (snd out') p (FNext 0) = Some (get_marked_ref v) /\
     5120 = (if is_marked_ref v then NULL else v) /\
     (v <> p -> cell (snd out') v (FNext 0) = cell q3_state v (FNext 0)) /\
     (forall a f, (a, f) <> (p, FNext 0) -> cell (snd out') a f = cell q3_state a f)).
Proof.
  intros out out'.
  destruct (deletion_marks_predecessor_pointer (cfg:=cfg32) FUEL q3_set 5 q3_state)
    as [H1 H2].
  split.
  - apply (H1 3 (snd out)). vm_compute. reflexivity.
  - apply (H2 5120 (snd out')). vm_compute. reflexivity.
Defined.

(** * Further properties of the code *)

(** ** The scenario queue as a queue without deleted nodes *)

Lemma heap_range_by_list st :
  Forall (fun p => 0 < p.1 < brk st) (map_to_list (heap st)) -> heap_range st.
Proof.
  intros H a [nd Ha]. rewrite Forall_forall in H.
  apply (H (a, nd)). by apply elem_of_map_to_list.
Qed.

Lemma q3_range : heap_range q3_state.
Proof. apply heap_range_by_list. vm_compute. repeat constructor. Qed.

Lemma q3_queue_ok : queue_ok (cfg:=cfg32) q3_state q3_set 4096 q3_levels.
Proof.
  split.
  - exact q3_skiplist.
  - exact q3_range.
  - intros i _. destruct i as [|i]; simpl.
    + apply (bool_decide_unpack _). vm_compute. exact I.
    + apply NoDup_singleton.
  - intros i a Hi Ha. change (NUM_LEVELS (config:=cfg32)) with 32%nat in Hi.
    assert (Hhead : forall j, (j < 32)%nat ->
              exists w, word_at (heap q3_state) 4480 j = Some w /\ is_marked_ref w = false).
    { intros j Hj. do 32 (destruct j as [|j]; [eexists; vm_compute; split; reflexivity|]).
      lia. }
    destruct i as [|i]; simpl in Ha.
    + apply elem_of_cons in Ha as [->|Ha]; [apply Hhead; lia|].
      apply elem_of_cons in Ha as [->|Ha]; [eexists; vm_compute; split; reflexivity|].
      apply elem_of_cons in Ha as [->|Ha]; [eexists; vm_compute; split; reflexivity|].
      apply elem_of_cons in Ha as [->|Ha]; [eexists; vm_compute; split; reflexivity|].
      exfalso; exact (proj1 (elem_of_nil a) Ha).
    + apply elem_of_cons in Ha as [->|Ha]; [apply Hhead; lia|].
      exfalso; exact (proj1 (elem_of_nil a) Ha).
Qed.

Lemma q3_tail_word : word_at (heap q3_state) 4096 0 = Some (END (config:=cfg32)).
Proof. vm_compute. reflexivity. Qed.

Lemma q3_head_key : key_at (heap q3_state) (head q3_set) = 0.
Proof. vm_compute. reflexivity. Qed.

Lemma boot_range : heap_range boot.
Proof. intros a [nd Ha]. done. Qed.

(** ** Allocation *)

(** X1: [set_alloc] passes its three assertions, the two alignment
    checks and the check of the node size, and returns a queue with the
    given [max_offset] and [max_level] whose sentinels are two distinct
    64-byte aligned nodes; the head has the key [SENTINEL_KEYMIN] and
    the tail the key [SENTINEL_KEYMAX]; every level is empty, the head
    pointing to the tail without a mark, and the forward pointers of the
    tail hold the filler; the other nodes of the heap are left as they
    are. *)
Theorem set_alloc_empty_queue {cfg : config} (mo ml : Z) (st : state) :
  Z.land END 63 <> 0 -> heap st !! END = None -> heap_range st -> 0 < brk st ->
  exists l t st',
    set_alloc mo ml st = (Ok l, st') /\
    max_offset l = mo /\ max_level l = ml /\
    Z.land (head l) 63 = 0 /\ Z.land t 63 = 0 /\ head l <> t /\
    queue_ok st' l t (fun _ => []) /\
    key_at (heap st') (head l) = SENTINEL_KEYMIN /\
    key_at (heap st') t = SENTINEL_KEYMAX /\
    (forall i, (i < NUM_LEVELS)%nat ->
       word_at (heap st') (head l) i = Some t /\
       word_at (heap st') t i = Some tail_fill) /\
    (forall a, a <> t -> a <> head l -> heap st' !! a = heap st !! a).
Proof.
  intros Hend Hfree Hrange Hbrk.
  destruct (set_alloc_spec mo ml st Hend Hfree Hrange Hbrk)
    as (l & st' & Hrun & Hmo & Hml & Hah & Hat & Hq & Hkh & Hkt & Hwt & Hold & _ & Hlt & _).
  exists l, (align64 (brk st)), st'. split_and!; try done; [lia|].
  intros i Hi. split; [|by apply Hwt].
  destruct (qo_unmarked _ _ _ _ Hq i (head l) Hi ltac:(by left)) as (w & Hw & Hm).
  pose proof (sl_chain _ _ _ _ (qo_list _ _ _ _ Hq) i Hi) as Hc. simpl in Hc.
  rewrite next_at_word, Hw in Hc. simpl in Hc. rewrite (unmarked_id _ Hm) in Hc.
  congruence.
Qed.

Lemma set_alloc_empty_queue_witness :
  Z.land (END (config:=cfg32)) 63 <> 0 /\ heap boot !! END (config:=cfg32) = None /\
  0 < brk boot /\
  exists l t st',
    set_alloc (cfg:=cfg32) 32 32 boot = (Ok l, st') /\
    max_offset l = 32 /\ max_level l = 32 /\
    Z.land (head l) 63 = 0 /\ Z.land t 63 = 0 /\ head l <> t /\
    queue_ok (cfg:=cfg32) st' l t (fun _ => []) /\
    key_at (heap st') (head l) = SENTINEL_KEYMIN (config:=cfg32) /\
    key_at (heap st') t = SENTINEL_KEYMAX (config:=cfg32) /\
    (forall i, (i < NUM_LEVELS (config:=cfg32))%nat ->
       word_at (heap st') (head l) i = Some t /\
       word_at (heap st') t i = Some (tail_fill (cfg:=cfg32))) /\
    (forall a, a <> t -> a <> head l -> heap st' !! a = heap boot !! a).
Proof.
  split; [vm_compute; discriminate|]. split; [reflexivity|]. split; [reflexivity|].
  apply (set_alloc_empty_queue (cfg:=cfg32) 32 32 boot).
  - vm_compute. discriminate.
  - reflexivity.
  - exact boot_range.
  - reflexivity.
Defined.

(** ** Insertion *)

(** X3: on a queue without deleted nodes, [set_update] with a key
    between the keys of the sentinels returns after one pass: it draws
    the level [lv] of the new node from the random word, takes the block
    at the break for it, and links it at every level below [lv] in front
    of the first node whose key is greater than [k]; the levels from
    [lv] on are left as they are.  What results is again a well-formed
    skip list without marked pointers and without a node twice in a
    level; the thread cache and the list of recycled nodes are not
    touched. *)
Theorem set_update_keeps_queue {cfg : config} (st : state) (l : set_t) (t : Z)
    (L : nat -> list Z) (k v r : Z) (fuel : nat) :
  (1 <= NUM_LEVELS <= 32)%nat -> Z.land END 63 <> 0 ->
  queue_ok st l t L ->
  key_at (heap st) (head l) <= k < key_at (heap st) t ->
  (forall i, (i < NUM_LEVELS)%nat -> (length (L i) < fuel)%nat) ->
  (NUM_LEVELS <= fuel)%nat ->
  exists lv st',
    get_level r = Some lv /\ 1 <= lv <= Z.of_nat NUM_LEVELS /\
    set_update fuel l k v r st = (Ok tt, st') /\
    queue_ok st' l t
      (fun i => if (i <? Z.to_nat lv)%nat
                then place (heap st) k (align64 (brk st)) (L i) else L i) /\
    tl st' = tl st /\ freed st' = freed st.
Proof.
  intros Hnum Hend Hq Hkey Hfuel Hfuel'.
  destruct (set_update_spec st l t L k v r fuel Hnum Hend Hq Hkey Hfuel Hfuel')
    as (lv & st' & Hlv & Hlvr & Hrun & Hq' & _ & _ & _ & _ & _ & _ & Hf & Ht).
  exists lv, st'. done.
Qed.

Lemma set_update_keeps_queue_witness :
  queue_ok (cfg:=cfg32) q3_state q3_set 4096 q3_levels /\
  key_at (heap q3_state) (head q3_set) <= 6 < key_at (heap q3_state) 4096 /\
  exists lv st',
    get_level (cfg:=cfg32) 0 = Some lv /\
    1 <= lv <= Z.of_nat (NUM_LEVELS (config:=cfg32)) /\
    set_update (cfg:=cfg32) FUEL q3_set 6 60 0 q3_state = (Ok tt, st') /\
    queue_ok (cfg:=cfg32) st' q3_set 4096
      (fun i => if (i <? Z.to_nat lv)%nat
                then place (heap q3_state) 6 (align64 (brk q3_state)) (q3_levels i)
                else q3_levels i) /\
    tl st' = tl q3_state /\ freed st' = freed q3_state.
Proof.
  split; [exact q3_queue_ok|]. split; [rewrite q3_head_key, q3_tail_key; lia|].
  apply (set_update_keeps_queue (cfg:=cfg32) q3_state q3_set 4096 q3_levels 6 60 0 FUEL).
  - simpl. lia.
  - vm_compute. discriminate.
  - exact q3_queue_ok.
  - rewrite q3_head_key, q3_tail_key. lia.
  - exact q3_fuel.
  - simpl. unfold FUEL. lia.
Defined.

(** X4: under the same conditions the new node, which was not part of
    the heap before, holds the key and the value that were passed; the
    key, the value and the level of every other node are unchanged; and
    the keys of the bottom level are the keys it had with [k] placed in
    front of the first greater key, that is behind the keys equal to
    [k] that were there already. *)
Theorem set_update_adds_key {cfg : config} (st : state) (l : set_t) (t : Z)
    (L : nat -> list Z) (k v r : Z) (fuel : nat) :
  (1 <= NUM_LEVELS <= 32)%nat -> Z.land END 63 <> 0 ->
  queue_ok st l t L ->
  key_at (heap st) (head l) <= k < key_at (heap st) t ->
  (forall i, (i < NUM_LEVELS)%nat -> (length (L i) < fuel)%nat) ->
  (NUM_LEVELS <= fuel)%nat ->
  exists st' L',
    set_update fuel l k v r st = (Ok tt, st') /\
    heap st !! align64 (brk st) = None /\
    key_at (heap st') (align64 (brk st)) = k /\
    value_at (heap st') (align64 (brk st)) = v /\
    (forall a, a <> align64 (brk st) ->
       key_at (heap st') a = key_at (heap st) a /\
       value_at (heap st') a = value_at (heap st) a /\
       level_at (heap st') a = level_at (heap st) a) /\
    queue_ok st' l t L' /\
    map (key_at (heap st')) (L' 0%nat) = place_key k (map (key_at (heap st)) (L 0%nat)).
Proof.
  intros Hnum Hend Hq Hkey Hfuel Hfuel'.
  destruct (set_update_spec st l t L k v r fuel Hnum Hend Hq Hkey Hfuel Hfuel')
    as (lv & st' & Hlv & Hlvr & Hrun & Hq' & Hfresh & Hk & Hv & _ & Hold & _).
  exists st'. eexists. split_and!; [done|done|done|done|done|exact Hq'|].
  cbv beta. assert ((0 <? Z.to_nat lv)%nat = true) as -> by (apply Nat.ltb_lt; lia).
  apply map_place; [|done]. intros a Ha. apply Hold.
  intros ->. destruct (sl_nodes _ _ _ _ (qo_list _ _ _ _ Hq) 0%nat _ ltac:(lia) Ha). congruence.
Qed.

Lemma set_update_adds_key_witness :
  queue_ok (cfg:=cfg32) q3_state q3_set 4096 q3_levels /\
  key_at (heap q3_state) (head q3_set) <= 6 < key_at (heap q3_state) 4096 /\
  exists st' L',
    set_update (cfg:=cfg32) FUEL q3_set 6 60 0 q3_state = (Ok tt, st') /\
    heap q3_state !! align64 (brk q3_state) = None /\
    key_at (heap st') (align64 (brk q3_state)) = 6 /\
    value_at (heap st') (align64 (brk q3_state)) = 60 /\
    (forall a, a <> align64 (brk q3_state) ->
       key_at (heap st') a = key_at (heap q3_state) a /\
       value_at (heap st') a = value_at (heap q3_state) a /\
       level_at (heap st') a = level_at (heap q3_state) a) /\
    queue_ok (cfg:=cfg32) st' q3_set 4096 L' /\
    map (key_at (heap st')) (L' 0%nat)
    = place_key 6 (map (key_at (heap q3_state)) (q3_levels 0)).
Proof.
  split; [exact q3_queue_ok|]. split; [rewrite q3_head_key, q3_tail_key; lia|].
  apply (set_update_adds_key (cfg:=cfg32) q3_state q3_set 4096 q3_levels 6 60 0 FUEL).
  - simpl. lia.
  - vm_compute. discriminate.
  - exact q3_queue_ok.
  - rewrite q3_head_key, q3_tail_key. lia.
  - exact q3_fuel.
  - simpl. unfold FUEL. lia.
Defined.

(** ** Deletion of the minimum *)

(** X6: let the first [m] nodes of the bottom level be deleted, that is
    let the bottom pointers of the head and of the first [m - 1] nodes
    carry the mark, and let [max_offset] be large enough for no cleanup
    to start.  Then [set_removemin] walks over the marked pointers,
    starting from the cached node when the cache is valid, adds one to
    the first pointer without a mark, which marks it, and returns the
    key of the node [v] that this pointer leads to: the first node not
    yet deleted, or the tail when there is none.  No node still in the
    list has a smaller key.  Nothing else in the heap changes, and the
    queue is as before with [m + 1] nodes deleted. *)
Theorem set_removemin_returns_first_live {cfg : config} (st : state) (l : set_t)
    (t : Z) (L : nat -> list Z) (m fuel : nat) :
  OPTIM = false -> is_marked_ref END = false -> (0 < NUM_LEVELS)%nat ->
  skiplist (heap st) l t L -> heap_range st -> brk st < WORD ->
  NoDup (head l :: L 0%nat) ->
  marked_upto (heap st) (head l :: L 0%nat) m -> (m <= length (L 0%nat))%nat ->
  cache_ok st l (head l :: L 0%nat ++ [t]) m ->
  Z.of_nat m + 1 <= max_offset l -> max_offset l <= INT_MAX ->
  (m < fuel)%nat ->
  exists x v nd st',
    (head l :: L 0%nat) !! m = Some x /\ (L 0%nat ++ [t]) !! m = Some v /\
    heap st !! x = Some nd /\ n_next nd !! 0%nat = Some v /\
    set_removemin fuel l st = (Ok (key_at (heap st) v), st') /\
    Forall (fun a => key_at (heap st) v <= key_at (heap st) a) (drop m (L 0%nat)) /\
    heap st' = <[x := set_next nd 0 (v + 1)]> (heap st) /\
    is_marked_ref (v + 1) = true /\ get_unmarked_ref (v + 1) = v /\
    brk st' = brk st /\ freed st' = freed st /\
    skiplist (heap st') l t L /\ heap_range st' /\
    marked_upto (heap st') (head l :: L 0%nat) (S m) /\
    cache_ok st' l (head l :: L 0%nat ++ [t]) (S m).
Proof.
  intros Hoptim Hend Hpos HSL Hrange Hbrk Hnd Hmark Hlen Hcache Hmo Hmax Hfuel.
  destruct (set_removemin_spec Hoptim Hend st l t L m fuel Hpos HSL Hrange Hbrk Hnd
              Hmark Hlen Hcache Hmo Hmax Hfuel)
    as (x & v & nd & st' & Hx & Hv & Hndx & Hw & Hrun & Hh & Hb & Hf & HSL' & Hr'
        & Hm' & Hc').
  exists x, v, nd, st'.
  assert (Hvin : is_Some (heap st !! v)).
  { apply list_elem_of_lookup_2 in Hv. apply elem_of_app in Hv as [Ha|Ha].
    - by eapply (sl_nodes _ _ _ _ HSL 0%nat).
    - apply list_elem_of_singleton in Ha as ->. apply (sl_tail _ _ _ _ HSL). }
  assert (Hvm : is_marked_ref v = false).
  { destruct (Hmark m x Hx) as (w & Hwx & Hwm). unfold word_at in Hwx.
    rewrite Hndx, Hw in Hwx. injection Hwx as <-.
    by rewrite bool_decide_eq_false_2 in Hwm by lia. }
  pose proof (Hrange v Hvin) as Hvr.
  destruct (mark_by_add v Hvm ltac:(lia) ltac:(lia)) as (_ & Hmk & Hun).
  split_and!; try done.
  destruct (decide (m < length (L 0%nat))%nat) as [Hlt|Hge].
  - rewrite lookup_app_l in Hv by done. rewrite (drop_S _ _ _ Hv).
    pose proof (sl_sorted _ _ _ _ HSL 0%nat Hpos) as Hs.
    rewrite <- (take_drop m (L 0%nat)), (drop_S _ _ _ Hv) in Hs.
    apply sorted_suffix, StronglySorted_inv in Hs as [_ Hs].
    constructor; [lia|done].
  - rewrite drop_ge by lia. constructor.
Qed.

Lemma set_removemin_returns_first_live_witness :
  skiplist (cfg:=cfg32) (heap q3_state) q3_set 4096 q3_levels /\
  heap_range q3_state /\ brk q3_state < WORD /\
  marked_upto (heap q3_state) (head q3_set :: q3_levels 0) 0 /\
  cache_ok q3_state q3_set (head q3_set :: q3_levels 0 ++ [4096]) 0 /\
  exists x v nd st',
    (head q3_set :: q3_levels 0) !! 0%nat = Some x /\
    (q3_levels 0 ++ [4096]) !! 0%nat = Some v /\
    heap q3_state !! x = Some nd /\ n_next nd !! 0%nat = Some v /\
    set_removemin (cfg:=cfg32) FUEL q3_set q3_state
    = (Ok (key_at (heap q3_state) v), st') /\
    Forall (fun a => key_at (heap q3_state) v <= key_at (heap q3_state) a)
           (drop 0 (q3_levels 0)) /\
    heap st' = <[x := set_next nd 0 (v + 1)]> (heap q3_state) /\
    is_marked_ref (v + 1) = true /\ get_unmarked_ref (v + 1) = v /\
    brk st' = brk q3_state /\ freed st' = freed q3_state /\
    skiplist (cfg:=cfg32) (heap st') q3_set 4096 q3_levels /\ heap_range st' /\
    marked_upto (heap st') (head q3_set :: q3_levels 0) 1 /\
    cache_ok st' q3_set (head q3_set :: q3_levels 0 ++ [4096]) 1.
Proof.
  assert (Hm : marked_upto (heap q3_state) (head q3_set :: q3_levels 0) 0).
  { apply (queue_ok_unmarked (cfg:=cfg32) q3_state q3_set 4096 q3_levels);
      [simpl; lia|exact q3_queue_ok]. }
  assert (Hc : cache_ok q3_state q3_set (head q3_set :: q3_levels 0 ++ [4096]) 0).
  { apply (queue_ok_cache_null (cfg:=cfg32) q3_state q3_set 4096 q3_levels);
      [simpl; lia|exact q3_queue_ok|reflexivity]. }
  split; [exact q3_skiplist|]. split; [exact q3_range|]. split; [reflexivity|].
  split; [exact Hm|]. split; [exact Hc|].
  apply (set_removemin_returns_first_live (cfg:=cfg32) q3_state q3_set 4096 q3_levels
           0 FUEL).
  - reflexivity.
  - reflexivity.
  - simpl. lia.
  - exact q3_skiplist.
  - exact q3_range.
  - reflexivity.
  - apply (qo_nodup _ _ _ _ q3_queue_ok 0%nat). simpl. lia.
  - exact Hm.
  - simpl. lia.
  - exact Hc.
  - simpl. lia.
  - simpl. unfold INT_MAX. lia.
  - unfold FUEL. lia.
Defined.

(** X7: a client that allocates a queue, inserts any keys between the
    keys of the sentinels, with any values and any random words, and
    then deletes the minimum [n] times, gets the inserted keys in
    ascending order, each as often as it was inserted, followed by
    [SENTINEL_KEYMAX] once the queue is empty, provided that [n] is at
    most [max_offset], so that no cleanup starts, and that the thread
    has not used a queue before. *)
Theorem fill_drain_sorted {cfg : config} (st : state) (fuel : nat) (mo ml : Z)
    (ops : list (Z * Z * Z)) (n : nat) :
  (1 <= NUM_LEVELS <= 32)%nat -> Z.land END 63 <> 0 -> is_marked_ref END = false ->
  OPTIM = false ->
  heap_range st -> heap st !! END = None -> 0 < brk st ->
  brk st + 1100 + 438 * Z.of_nat (length ops) < WORD ->
  old_obs_hp (tl st) = NULL ->
  Forall (fun op => SENTINEL_KEYMIN <= op.1.1 < SENTINEL_KEYMAX) ops ->
  (n <= length ops + 1)%nat -> Z.of_nat n <= mo -> mo <= INT_MAX ->
  (length ops < fuel)%nat -> (NUM_LEVELS <= fuel)%nat -> (n <= fuel)%nat ->
  exists ks,
    ks ≡ₚ map (fun op => op.1.1) ops /\ StronglySorted Z.le ks /\
    fst (fill_drain fuel mo ml ops n st) = Ok (take n (ks ++ [SENTINEL_KEYMAX])).
Proof.
  intros. exists (sorted_keys ops).
  destruct (place_keys_spec [] ops ltac:(constructor)) as [Hs Hp].
  split_and!; [done|done|]. by apply fill_drain_spec.
Qed.

Lemma fill_drain_sorted_witness :
  Forall (fun op => SENTINEL_KEYMIN (config:=cfg32) <= op.1.1
                    < SENTINEL_KEYMAX (config:=cfg32))
         [(5, 50, 0); (3, 30, 1); (7, 70, 2)] /\
  exists ks,
    ks ≡ₚ map (fun op => op.1.1) [(5, 50, 0); (3, 30, 1); (7, 70, 2)] /\
    StronglySorted Z.le ks /\
    fst (fill_drain (cfg:=cfg32) FUEL 32 32 [(5, 50, 0); (3, 30, 1); (7, 70, 2)] 4 boot)
    = Ok (take 4 (ks ++ [SENTINEL_KEYMAX (config:=cfg32)])).
Proof.
  assert (Hk : Forall (fun op => SENTINEL_KEYMIN (config:=cfg32) <= op.1.1
                                 < SENTINEL_KEYMAX (config:=cfg32))
                 [(5, 50, 0); (3, 30, 1); (7, 70, 2)]).
  { repeat constructor; simpl; lia. }
  split; [exact Hk|].
  apply (fill_drain_sorted (cfg:=cfg32) boot FUEL 32 32 [(5, 50, 0); (3, 30, 1); (7, 70, 2)] 4).
  - simpl. lia.
  - vm_compute. discriminate.
  - reflexivity.
  - reflexivity.
  - exact boot_range.
  - reflexivity.
  - reflexivity.
  - reflexivity.
  - reflexivity.
  - exact Hk.
  - simpl. lia.
  - lia.
  - unfold INT_MAX. lia.
  - simpl. unfold FUEL. lia.
  - simpl. unfold FUEL. lia.
  - unfold FUEL. lia.
Defined.

(** X8: whatever the state and the outcome, [set_removemin] and
    [set_remove] change no key, no value and no level: what they write
    are forward pointers.  A deleted node keeps its key and its value
    readable. *)
Theorem deletions_keep_keys_and_values {cfg : config} (fuel : nat) (l : set_t)
    (key : Z) (st : state) :
  (forall a, cell (set_removemin fuel l st).2 a FK = cell st a FK /\
             cell (set_removemin fuel l st).2 a FV = cell st a FV /\
             cell (set_removemin fuel l st).2 a FLevel = cell st a FLevel) /\
  (forall a, cell (set_remove fuel l key st).2 a FK = cell st a FK /\
             cell (set_remove fuel l key st).2 a FV = cell st a FV /\
             cell (set_remove fuel l key st).2 a FLevel = cell st a FLevel).
Proof.
  split; apply scalars_kept; [apply links_set_removemin|apply links_set_remove].
Qed.

(** ** The searches *)

(** X9: whatever the state and the outcome, the three searches and
    [highest_level] only read: the heap, the break, the thread cache and
    the list of recycled nodes are as before, and every event that is
    logged is a read.  In particular the searches do not unlink marked
    nodes. *)
Theorem searches_read_only {cfg : config} (fuel : nat) (l : set_t) (k : Z)
    (pa na : option (list Z)) (bef : bool) (pa' : list Z) (toplvl : Z) (st : state) :
  let quiet_run (st' : state) :=
    heap st' = heap st /\ brk st' = brk st /\ tl st' = tl st /\ freed st' = freed st /\
    exists evs, events st' = events st ++ evs /\ forallb is_read evs = true in
  quiet_run (weak_search_predecessors fuel l k pa na bef st).2 /\
  quiet_run (weak_search_head fuel l st).2 /\
  quiet_run (weak_search_end fuel l pa' toplvl st).2 /\
  quiet_run (highest_level l st).2.
Proof.
  cbv zeta. unfold weak_search_predecessors, weak_search_head, weak_search_end, highest_level.
  split_and!; apply read_only_run;
    first [apply reads_wsp_levels | apply keeps_wsp_levels | apply reads_wsh_levels
          | apply keeps_wsh_levels | apply reads_wse_levels | apply keeps_wse_levels
          | apply reads_highest_level_loop | apply keeps_highest_level_loop].
Qed.

(** X10: on a queue without deleted nodes whose tail holds an unmarked
    word in its bottom pointer, [weak_search_head] stays at the head on
    every level and returns the first node of the bottom level, or the
    tail when the queue is empty. *)
Theorem weak_search_head_unmarked {cfg : config} (st : state) (l : set_t) (t : Z)
    (L : nat -> list Z) (wt : Z) (fuel : nat) :
  (0 < NUM_LEVELS)%nat -> queue_ok st l t L ->
  word_at (heap st) t 0 = Some wt -> is_marked_ref wt = false -> (0 < fuel)%nat ->
  exists st',
    weak_search_head fuel l st = (Ok (default t (L 0%nat !! 0%nat)), st') /\
    heap st' = heap st.
Proof.
  intros Hpos Hq Hwt Hmt Hfuel. destruct fuel as [|fuel]; [lia|].
  destruct (wsh_levels_unmarked st l t L wt Hq Hwt Hmt fuel NUM_LEVELS 0 st
              ltac:(lia) eq_refl) as (st' & Hrun & Hh).
  exists st'. unfold weak_search_head. rewrite Hrun.
  destruct NUM_LEVELS; [lia|done].
Qed.

Lemma weak_search_head_unmarked_witness :
  queue_ok (cfg:=cfg32) q3_state q3_set 4096 q3_levels /\
  word_at (heap q3_state) 4096 0 = Some (END (config:=cfg32)) /\
  exists st',
    weak_search_head (cfg:=cfg32) FUEL q3_set q3_state
    = (Ok (default 4096 (q3_levels 0 !! 0%nat)), st') /\
    heap st' = heap q3_state.
Proof.
  split; [exact q3_queue_ok|]. split; [exact q3_tail_word|].
  apply (weak_search_head_unmarked (cfg:=cfg32) q3_state q3_set 4096 q3_levels
           (END (config:=cfg32)) FUEL).
  - simpl. lia.
  - exact q3_queue_ok.
  - exact q3_tail_word.
  - reflexivity.
  - unfold FUEL. lia.
Defined.

(** X11: on such a queue [weak_search_end], called as the cleanup calls
    it, finds no level that needs updating: it returns 0 and leaves the
    head in [preds[i]] for every level [i] from 1 on. *)
Theorem weak_search_end_unmarked {cfg : config} (st : state) (l : set_t) (t : Z)
    (L : nat -> list Z) (wt : Z) (fuel : nat) (pa : list Z) :
  (0 < NUM_LEVELS)%nat -> queue_ok st l t L ->
  word_at (heap st) t 0 = Some wt -> is_marked_ref wt = false -> (0 < fuel)%nat ->
  exists pa' st',
    weak_search_end fuel l pa (-1) st = (Ok (0, pa'), st') /\
    heap st' = heap st /\ length pa' = length pa /\
    forall i, pa' !! i = if decide (1 <= i < NUM_LEVELS /\ i < length pa)%nat
                         then Some (head l) else pa !! i.
Proof.
  intros Hpos Hq Hwt Hmt Hfuel. destruct fuel as [|fuel]; [lia|].
  destruct (wse_levels_unmarked st l t L wt Hq Hwt Hmt fuel (NUM_LEVELS - 1) 0 pa st
              ltac:(lia) eq_refl) as (pa' & st' & Hrun & Hh & Hlen & Hpa).
  exists pa', st'. split_and!; [|done|done|].
  - unfold weak_search_end. change (-1 =? -1) with true. change (-1 >? 0) with false.
    cbv iota.
    replace (Z.to_nat (Z.of_nat NUM_LEVELS - 1)) with (NUM_LEVELS - 1)%nat by lia.
    exact Hrun.
  - intros i. rewrite Hpa. apply decide_ext. lia.
Qed.

Lemma weak_search_end_unmarked_witness :
  queue_ok (cfg:=cfg32) q3_state q3_set 4096 q3_levels /\
  word_at (heap q3_state) 4096 0 = Some (END (config:=cfg32)) /\
  exists pa' st',
    weak_search_end (cfg:=cfg32) FUEL q3_set (replicate 32 0) (-1) q3_state
    = (Ok (0, pa'), st') /\
    heap st' = heap q3_state /\ length pa' = length (replicate 32 0) /\
    forall i, pa' !! i
              = if decide (1 <= i < NUM_LEVELS (config:=cfg32)
                           /\ i < length (replicate 32 0))%nat
                then Some (head q3_set) else replicate 32 0 !! i.
Proof.
  split; [exact q3_queue_ok|]. split; [exact q3_tail_word|].
  apply (weak_search_end_unmarked (cfg:=cfg32) q3_state q3_set 4096 q3_levels
           (END (config:=cfg32)) FUEL (replicate 32 0)).
  - simpl. lia.
  - exact q3_queue_ok.
  - exact q3_tail_word.
  - reflexivity.
  - unfold FUEL. lia.
Defined.

(** X12: on a queue without deleted nodes whose tail holds [END] in its
    bottom pointer, [highest_level] returns the highest level from 1 to
    [max_level - 1] that has a node, and 0 when there is none. *)
Theorem highest_level_top_nonempty {cfg : config} (st : state) (l : set_t) (t : Z)
    (L : nat -> list Z) :
  queue_ok st l t L -> is_marked_ref END = false ->
  word_at (heap st) t 0 = Some END ->
  1 <= max_level l <= Z.of_nat NUM_LEVELS -> Z.of_nat NUM_LEVELS <= INT_MAX ->
  exists j st',
    highest_level l st = (Ok (Z.of_nat j), st') /\ heap st' = heap st /\
    Z.of_nat j < max_level l /\
    (j = 0%nat \/ L j <> []) /\
    (forall i, (j < i)%nat -> Z.of_nat i < max_level l -> L i = []).
Proof.
  intros Hq Hend Hwt Hml Hnum.
  assert (Hti : to_int (max_level l - 1) = max_level l - 1).
  { apply to_int_small. unfold INT_MAX in Hnum. lia. }
  destruct (highest_level_loop_unmarked st l t L Hq Hend Hwt
              (Z.to_nat (max_level l - 1)) st ltac:(lia) eq_refl)
    as (j & st' & Hrun & Hh & Hj & Hcase & Habove).
  exists j, st'. unfold highest_level. rewrite Hti.
  split_and!; [done|done|lia|done|]. intros i Hi Hi'. apply Habove. lia.
Qed.

Lemma highest_level_top_nonempty_witness :
  queue_ok (cfg:=cfg32) q3_state q3_set 4096 q3_levels /\
  word_at (heap q3_state) 4096 0 = Some (END (config:=cfg32)) /\
  exists j st',
    highest_level (cfg:=cfg32) q3_set q3_state = (Ok (Z.of_nat j), st') /\
    heap st' = heap q3_state /\
    Z.of_nat j < max_level q3_set /\
    (j = 0%nat \/ q3_levels j <> []) /\
    (forall i, (j < i)%nat -> Z.of_nat i < max_level q3_set -> q3_levels i = []).
Proof.
  split; [exact q3_queue_ok|]. split; [exact q3_tail_word|].
  apply (highest_level_top_nonempty (cfg:=cfg32) q3_state q3_set 4096 q3_levels).
  - exact q3_queue_ok.
  - reflexivity.
  - exact q3_tail_word.
  - simpl. lia.
  - simpl. unfold INT_MAX. lia.
Defined.

(** ** Recycling *)

(** X13: the loop that ends the cleanup, run from the node [x] with the
    new first node [y] as its bound, follows the bottom pointers from
    [x] and passes every node before [y] to [gc_free], once and in the
    order of the list, each with the pool of its level, [(level &
    LEVEL_MASK) - 1]; it does not free [y], and it leaves the heap, the
    break and the thread cache as they are. *)
Theorem free_prefix_recycles_chain {cfg : config} (h : gmap Z node_t) (x y : Z)
    (B : list Z) (fuel : nat) (st : state) :
  heap st = h -> chain h 0 x B y -> Forall (fun a => a <> y) (x :: B) ->
  (length B + 1 < fuel)%nat ->
  exists st',
    free_prefix fuel x y st = (Ok tt, st') /\
    heap st' = h /\ brk st' = brk st /\ tl st' = tl st /\
    freed st' = freed st ++
                map (fun a => (a, Z.land (level_at h a) LEVEL_MASK - 1)) (x :: B).
Proof. intros Hh Hc Hne Hf. by apply free_prefix_chain. Qed.

Lemma free_prefix_recycles_chain_witness :
  chain (heap q3_state) 0 5184 [5120] 5248 /\
  Forall (fun a => a <> 5248) [5184; 5120] /\
  exists st',
    free_prefix (cfg:=cfg32) FUEL 5184 5248 q3_state = (Ok tt, st') /\
    heap st' = heap q3_state /\ brk st' = brk q3_state /\ tl st' = tl q3_state /\
    freed st' = freed q3_state ++
                map (fun a => (a, Z.land (level_at (heap q3_state) a)
                                    (LEVEL_MASK (config:=cfg32)) - 1)) [5184; 5120].
Proof.
  assert (Hc : chain (heap q3_state) 0 5184 [5120] 5248).
  { vm_compute. split; reflexivity. }
  assert (Hne : Forall (fun a => a <> 5248) [5184; 5120]).
  { repeat constructor; lia. }
  split; [exact Hc|]. split; [exact Hne|].
  apply (free_prefix_recycles_chain (cfg:=cfg32) (heap q3_state) 5184 5248 [5120] FUEL
           q3_state).
  - reflexivity.
  - exact Hc.
  - exact Hne.
  - simpl. unfold FUEL. lia.
Defined.

(** ** Insertion behind deleted nodes *)

Lemma qd_deleted_ok : deleted_ok (cfg:=cfg32) qd_state q3_set 4096 q3_levels 1.
Proof.
  assert (Hd0 : deleted_ok (cfg:=cfg32) q3_state q3_set 4096 q3_levels 0).
  { apply queue_ok_deleted.
    - simpl. lia.
    - exact q3_queue_ok.
    - apply (bool_decide_unpack _). vm_compute. exact I.
    - exists (END (config:=cfg32)). split; [exact q3_tail_word|reflexivity].
    - reflexivity.
    - intros i _. destruct i as [|i]; [done|apply sublist_nil_l]. }
  destruct (set_removemin_deleted (cfg:=cfg32) eq_refl eq_refl q3_state q3_set 4096 q3_levels
              0 FUEL) as (v & st' & _ & Hrun & Hd & _).
  - simpl. lia.
  - exact Hd0.
  - simpl. lia.
  - reflexivity.
  - simpl. lia.
  - simpl. unfold INT_MAX. lia.
  - unfold FUEL. lia.
  - unfold qd_state. by rewrite Hrun.
Qed.

Lemma qd_front (k : Z) (i : nat) :
  k < 3 -> k < key_at (heap qd_state) (default 4096 (q3_levels i !! 0%nat)).
Proof.
  intros Hk. destruct i as [|i].
  - change (key_at (heap qd_state) (default 4096 (q3_levels 0 !! 0%nat))) with 3. done.
  - change (key_at (heap qd_state) (default 4096 (q3_levels (S i) !! 0%nat)))
      with (key_at (heap qd_state) 4096).
    replace (key_at (heap qd_state) 4096) with 0xffffffffffffffff
      by (vm_compute; reflexivity). lia.
Qed.

(** X14: let the first [m >= 1] nodes of the bottom level be deleted and
    still linked.  Then [weak_search_head] returns the last of them, the
    node behind the last marked pointer, which is the first node whose
    own bottom pointer carries no mark; it changes nothing in the heap
    and needs no order of the keys. *)
Theorem weak_search_head_last_deleted {cfg : config} (st : state) (l : set_t) (t : Z)
    (L : nat -> list Z) (m fuel : nat) :
  (0 < NUM_LEVELS)%nat -> deleted_ok st l t L m -> (1 <= m)%nat ->
  (forall i, (i < NUM_LEVELS)%nat -> (length (L i) < fuel)%nat) ->
  exists xm w st',
    weak_search_head fuel l st = (Ok xm, st') /\
    L 0%nat !! (m - 1)%nat = Some xm /\
    word_at (heap st) xm 0 = Some w /\ is_marked_ref w = false /\
    heap st' = heap st.
Proof.
  intros Hpos Hd Hm Hfuel.
  pose proof (do_count _ _ _ _ _ Hd) as Hcount.
  pose proof (do_marked _ _ _ _ _ Hd) as Hmark.
  pose proof (do_nodup _ _ _ _ _ Hd) as Hnd.
  change (head l :: L 0%nat ++ [t]) with ((head l :: L 0%nat) ++ [t]) in Hmark, Hnd.
  destruct (Hmark (S (length (L 0%nat))) t) as (wt & Hwt & Hmt).
  { rewrite lookup_app_r by (simpl; lia). simpl. by rewrite Nat.sub_diag. }
  rewrite bool_decide_eq_false_2 in Hmt by lia.
  destruct (weak_search_head_marked (heap st) l t L m wt (do_shape _ _ _ _ _ Hd))
    with (fuel := fuel) (st := st) as (xm & st' & Hrun & Hh & Hxm & _); try done.
  { by apply NoDup_app in Hnd as (? & _). }
  { by apply (marked_upto_app _ _ [t]). }
  destruct (Hmark m xm) as (w & Hw & Hmw); [by apply lookup_app_l_Some|].
  rewrite bool_decide_eq_false_2 in Hmw by lia.
  exists xm, w, st'. split_and!; try done.
  destruct m as [|m']; [lia|]. simpl in Hxm.
  by replace (S m' - 1)%nat with m' by lia.
Qed.

Lemma weak_search_head_last_deleted_witness :
  deleted_ok (cfg:=cfg32) qd_state q3_set 4096 q3_levels 1 /\
  exists xm w st',
    weak_search_head (cfg:=cfg32) FUEL q3_set qd_state = (Ok xm, st') /\
    q3_levels 0 !! (1 - 1)%nat = Some xm /\
    word_at (heap qd_state) xm 0 = Some w /\ is_marked_ref w = false /\
    heap st' = heap qd_state.
Proof.
  split; [exact qd_deleted_ok|].
  apply (weak_search_head_last_deleted (cfg:=cfg32) qd_state q3_set 4096 q3_levels 1 FUEL).
  - simpl. lia.
  - exact qd_deleted_ok.
  - lia.
  - intros i _. destruct i as [|i]; simpl; unfold FUEL; lia.
Defined.

(** X15: let the first [m >= 1] nodes of the bottom level be deleted and
    still linked, and let the key [k] be smaller than the key of the
    first node of every level, in whatever order the other keys are.
    Then the search of [set_update] stops at the head on every level,
    the [CAS] on the marked bottom pointer of the head fails, the level
    of the new node is set to 1, and the loop links the node directly
    behind the last deleted node: the bottom list becomes
    [take m (L 0) ++ new :: drop m (L 0)] and the other levels stay as
    they are.  The new node, at the first 64-byte boundary from the
    break, holds [k] and [v]; the keys, values and levels of the other
    nodes are unchanged, the same [m] nodes are deleted, and the free
    list and the thread cache are untouched. *)
Theorem set_update_behind_deleted {cfg : config} (st : state) (l : set_t) (t : Z)
    (L : nat -> list Z) (k v r : Z) (fuel m : nat) :
  (1 <= NUM_LEVELS <= 32)%nat -> Z.land END 63 <> 0 ->
  deleted_ok st l t L m -> (1 <= m)%nat ->
  k < key_at (heap st) t ->
  (forall i, (i < NUM_LEVELS)%nat -> k < key_at (heap st) (default t (L i !! 0%nat))) ->
  (forall i, (i < NUM_LEVELS)%nat -> (length (L i) < fuel)%nat) ->
  exists st',
    set_update fuel l k v r st = (Ok tt, st') /\
    deleted_ok st' l t (behind_deleted L m (align64 (brk st))) m /\
    (forall a, is_Some (heap st' !! a) <-> a = align64 (brk st) \/ is_Some (heap st !! a)) /\
    key_at (heap st') (align64 (brk st)) = k /\
    value_at (heap st') (align64 (brk st)) = v /\
    level_at (heap st') (align64 (brk st)) = 1 /\
    (forall a, is_Some (heap st !! a) ->
       key_at (heap st') a = key_at (heap st) a /\
       value_at (heap st') a = value_at (heap st) a /\
       level_at (heap st') a = level_at (heap st) a) /\
    brk st <= brk st' <= brk st + 438 /\ freed st' = freed st /\ tl st' = tl st.
Proof.
  intros Hnum Hend Hd Hm Ht Hfront Hfuel.
  exact (set_update_orphan_spec st l t L k v r fuel m Hnum Hend Hd Hm Ht Hfront Hfuel).
Qed.

Lemma set_update_behind_deleted_witness :
  deleted_ok (cfg:=cfg32) qd_state q3_set 4096 q3_levels 1 /\
  2 < key_at (heap qd_state) 4096 /\
  exists st',
    set_update (cfg:=cfg32) FUEL q3_set 2 20 0 qd_state = (Ok tt, st') /\
    deleted_ok (cfg:=cfg32) st' q3_set 4096
      (behind_deleted q3_levels 1 (align64 (brk qd_state))) 1 /\
    (forall a, is_Some (heap st' !! a) <->
               a = align64 (brk qd_state) \/ is_Some (heap qd_state !! a)) /\
    key_at (heap st') (align64 (brk qd_state)) = 2 /\
    value_at (heap st') (align64 (brk qd_state)) = 20 /\
    level_at (heap st') (align64 (brk qd_state)) = 1 /\
    (forall a, is_Some (heap qd_state !! a) ->
       key_at (heap st') a = key_at (heap qd_state) a /\
       value_at (heap st') a = value_at (heap qd_state) a /\
       level_at (heap st') a = level_at (heap qd_state) a) /\
    brk qd_state <= brk st' <= brk qd_state + 438 /\
    freed st' = freed qd_state /\ tl st' = tl qd_state.
Proof.
  assert (Ht : 2 < key_at (heap qd_state) 4096) by (vm_compute; reflexivity).
  split; [exact qd_deleted_ok|]. split; [exact Ht|].
  apply (set_update_behind_deleted (cfg:=cfg32) qd_state q3_set 4096 q3_levels 2 20 0 FUEL 1).
  - simpl. lia.
  - vm_compute. discriminate.
  - exact qd_deleted_ok.
  - lia.
  - exact Ht.
  - intros i _. apply qd_front. lia.
  - intros i _. destruct i as [|i]; simpl; unfold FUEL; lia.
Defined.

(** X16: on such a queue two keys that are both smaller than the key of
    the first node of every level, inserted one after the other, come
    out of the next two calls of [set_removemin] in the reverse order of
    their insertion, whatever their values: each is linked directly
    behind the last deleted node, so the second lies in front of the
    first.  When [k1 < k2] the call that should return the minimum
    returns [k2] while [k1] is in the queue.  ([max_offset] is large
    enough for no cleanup to start.) *)
Theorem inserts_behind_deleted_reversed {cfg : config} (st : state) (l : set_t) (t : Z)
    (L : nat -> list Z) (k1 v1 r1 k2 v2 r2 : Z) (fuel m : nat) :
  OPTIM = false -> is_marked_ref END = false ->
  (1 <= NUM_LEVELS <= 32)%nat -> Z.land END 63 <> 0 ->
  deleted_ok st l t L m -> (1 <= m)%nat ->
  k1 < key_at (heap st) t -> k2 < key_at (heap st) t ->
  (forall i, (i < NUM_LEVELS)%nat ->
     k1 < key_at (heap st) (default t (L i !! 0%nat)) /\
     k2 < key_at (heap st) (default t (L i !! 0%nat))) ->
  (forall i, (i < NUM_LEVELS)%nat -> (length (L i) + 2 < fuel)%nat) ->
  brk st + 876 < WORD ->
  Z.of_nat m + 2 <= max_offset l -> max_offset l <= INT_MAX ->
  fst ((set_update fuel l k1 v1 r1 ;;;
        set_update fuel l k2 v2 r2 ;;;
        a <- set_removemin fuel l ;;
        b <- set_removemin fuel l ;;
        ret (a, b)) st) = Ok (k2, k1).
Proof.
  intros Hoptim Hend Hnum HE Hd Hm Ht1 Ht2 Hfront Hfuel Hbrk Hmo Hmax.
  exact (reversed_run Hoptim Hend st l t L k1 v1 r1 k2 v2 r2 fuel m Hnum HE Hd Hm
           Ht1 Ht2 Hfront Hfuel Hbrk Hmo Hmax).
Qed.

Lemma inserts_behind_deleted_reversed_witness :
  deleted_ok (cfg:=cfg32) qd_state q3_set 4096 q3_levels 1 /\
  1 < key_at (heap qd_state) 4096 /\ 2 < key_at (heap qd_state) 4096 /\
  brk qd_state + 876 < WORD /\
  fst ((set_update (cfg:=cfg32) FUEL q3_set 1 10 0 ;;;
        set_update (cfg:=cfg32) FUEL q3_set 2 20 0 ;;;
        a <- set_removemin (cfg:=cfg32) FUEL q3_set ;;
        b <- set_removemin (cfg:=cfg32) FUEL q3_set ;;
        ret (a, b)) qd_state) = Ok (2, 1).
Proof.
  assert (Ht1 : 1 < key_at (heap qd_state) 4096) by (vm_compute; reflexivity).
  assert (Ht2 : 2 < key_at (heap qd_state) 4096) by (vm_compute; reflexivity).
  assert (Hb : brk qd_state + 876 < WORD) by (vm_compute; reflexivity).
  split; [exact qd_deleted_ok|]. split; [exact Ht1|]. split; [exact Ht2|].
  split; [exact Hb|].
  apply (inserts_behind_deleted_reversed (cfg:=cfg32) qd_state q3_set 4096 q3_levels
           1 10 0 2 20 0 FUEL 1).
  - reflexivity.
  - reflexivity.
  - simpl. lia.
  - vm_compute. discriminate.
  - exact qd_deleted_ok.
  - lia.
  - exact Ht1.
  - exact Ht2.
  - intros i _. split; apply qd_front; lia.
  - intros i _. destruct i as [|i]; simpl; unfold FUEL; lia.
  - exact Hb.
  - simpl. lia.
  - simpl. unfold INT_MAX. lia.
Defined.

(** ** The cleanup *)

Lemma qh_queue_ok : queue_ok (cfg:=cfg32) qh_state q3_set 4096 qh_levels.
Proof.
  assert (Hhead : forall j, (j < 32)%nat ->
            exists w, word_at (heap qh_state) 4480 j = Some w /\ is_marked_ref w = false).
  { intros j Hj. do 32 (destruct j as [|j]; [eexists; vm_compute; split; reflexivity|]).
    lia. }
  split.
  - split.
    + vm_compute. reflexivity.
    + reflexivity.
    + apply is_Some_by_match. vm_compute. reflexivity.
    + intros i Hi. change (NUM_LEVELS (config:=cfg32)) with 32%nat in Hi.
      destruct i as [|i]; [vm_compute; done|].
      destruct i as [|i]; [vm_compute; done|].
      do 30 (destruct i as [|i]; [vm_compute; reflexivity|]). lia.
    + intros i a Hi Ha. apply is_Some_by_match.
      destruct i as [|[|i]]; simpl in Ha.
      * apply elem_of_cons in Ha as [->|Ha]; [vm_compute; reflexivity|].
        apply elem_of_cons in Ha as [->|Ha]; [vm_compute; reflexivity|].
        apply elem_of_cons in Ha as [->|Ha]; [vm_compute; reflexivity|].
        exfalso; exact (proj1 (elem_of_nil a) Ha).
      * apply elem_of_cons in Ha as [->|Ha]; [vm_compute; reflexivity|].
        exfalso; exact (proj1 (elem_of_nil a) Ha).
      * exfalso; exact (proj1 (elem_of_nil a) Ha).
    + intros i Hi. destruct i as [|[|i]]; simpl.
      * repeat constructor; vm_compute; discriminate.
      * repeat constructor.
      * constructor.
    + intros i a Hi Ha. destruct i as [|i]; simpl in Ha.
      * apply elem_of_cons in Ha as [->|Ha]; [by left|].
        exfalso; exact (proj1 (elem_of_nil a) Ha).
      * exfalso; exact (proj1 (elem_of_nil a) Ha).
  - apply heap_range_by_list. vm_compute. repeat constructor.
  - intros i _. destruct i as [|[|i]]; simpl.
    + apply (bool_decide_unpack _). vm_compute. exact I.
    + apply (bool_decide_unpack _). vm_compute. exact I.
    + apply NoDup_singleton.
  - intros i a Hi Ha. change (NUM_LEVELS (config:=cfg32)) with 32%nat in Hi.
    destruct i as [|[|i]]; simpl in Ha.
    + apply elem_of_cons in Ha as [->|Ha]; [apply Hhead; lia|].
      apply elem_of_cons in Ha as [->|Ha]; [eexists; vm_compute; split; reflexivity|].
      apply elem_of_cons in Ha as [->|Ha]; [eexists; vm_compute; split; reflexivity|].
      apply elem_of_cons in Ha as [->|Ha]; [eexists; vm_compute; split; reflexivity|].
      exfalso; exact (proj1 (elem_of_nil a) Ha).
    + apply elem_of_cons in Ha as [->|Ha]; [apply Hhead; lia|].
      apply elem_of_cons in Ha as [->|Ha]; [eexists; vm_compute; split; reflexivity|].
      exfalso; exact (proj1 (elem_of_nil a) Ha).
    + apply elem_of_cons in Ha as [->|Ha]; [apply Hhead; lia|].
      exfalso; exact (proj1 (elem_of_nil a) Ha).
Qed.

Lemma qh_fuel i : (length (qh_levels i) + 1 < FUEL)%nat.
Proof. destruct i as [|[|i]]; simpl; unfold FUEL; lia. Qed.

Lemma qh_deleted_ok : deleted_ok (cfg:=cfg32) qh_state q3_set 4096 qh_levels 0.
Proof.
  apply queue_ok_deleted.
  - simpl. lia.
  - exact qh_queue_ok.
  - apply (bool_decide_unpack _). vm_compute. exact I.
  - exists (END (config:=cfg32)). split; [vm_compute|]; reflexivity.
  - reflexivity.
  - intros i _. destruct i as [|[|i]]; simpl.
    + done.
    + apply sublist_skip, sublist_nil_l.
    + apply sublist_nil_l.
Qed.

Lemma qh1_deleted_ok : deleted_ok (cfg:=cfg32) qh1_state q3_set 4096 qh_levels 1.
Proof.
  destruct (set_removemin_deleted (cfg:=cfg32) eq_refl eq_refl qh_state q3_set 4096 qh_levels
              0 FUEL) as (v & st' & _ & Hrun & Hd & _).
  - simpl. lia.
  - exact qh_deleted_ok.
  - simpl. lia.
  - reflexivity.
  - simpl. lia.
  - simpl. unfold INT_MAX. lia.
  - unfold FUEL. lia.
  - unfold qh1_state. by rewrite Hrun.
Qed.

Lemma qh2_deleted_ok : deleted_ok (cfg:=cfg32) qh2_state q3_set 4096 qh_levels 2.
Proof.
  destruct (set_removemin_deleted (cfg:=cfg32) eq_refl eq_refl qh1_state q3_set 4096
              qh_levels 1 FUEL) as (v & st' & _ & Hrun & Hd & _ & _ & Hb).
  - simpl. lia.
  - exact qh1_deleted_ok.
  - simpl. lia.
  - reflexivity.
  - simpl. lia.
  - simpl. unfold INT_MAX. lia.
  - unfold FUEL. lia.
  - unfold qh2_state. by rewrite Hrun.
Qed.

(** X17: let the first [m] nodes of the bottom level be deleted and
    still linked, so that the nodes with a marked bottom pointer are the
    first [m - 1] of them.  Then [weak_search_end], called as the
    cleanup calls it, stores in [preds[i]], for every level [i] from 1
    on, the last node of level [i] whose bottom pointer is marked, or
    the head when the level has none; it returns the highest level that
    holds such a node, or 0 when no level does, and changes nothing in
    the heap. *)
Theorem weak_search_end_last_marked {cfg : config} (st : state) (l : set_t) (t : Z)
    (L : nat -> list Z) (m fuel : nat) (pa : list Z) :
  (0 < NUM_LEVELS)%nat -> deleted_ok st l t L m ->
  (forall i, (i < NUM_LEVELS)%nat -> (length (L i) < fuel)%nat) ->
  exists (lvl : nat) pa' st',
    weak_search_end fuel l pa (-1) st = (Ok (Z.of_nat lvl, pa'), st') /\
    heap st' = heap st /\ length pa' = length pa /\
    (forall i, pa' !! i
               = if decide (1 <= i < NUM_LEVELS /\ i < length pa)%nat
                 then Some (default (head l)
                              (last (filter (fun a => a ∈ take (m - 1) (L 0%nat)) (L i))))
                 else pa !! i) /\
    (lvl < NUM_LEVELS)%nat /\
    (forall i, (lvl < i < NUM_LEVELS)%nat ->
       filter (fun a => a ∈ take (m - 1) (L 0%nat)) (L i) = []) /\
    (lvl <> 0%nat -> filter (fun a => a ∈ take (m - 1) (L 0%nat)) (L lvl) <> []).
Proof.
  intros Hpos Hd Hfuel.
  exact (weak_search_end_deleted st l t L m fuel pa Hpos Hd Hfuel).
Qed.

Lemma weak_search_end_last_marked_witness :
  deleted_ok (cfg:=cfg32) qh2_state q3_set 4096 qh_levels 2 /\
  exists (lvl : nat) pa' st',
    weak_search_end (cfg:=cfg32) FUEL q3_set (replicate 32 0) (-1) qh2_state
    = (Ok (Z.of_nat lvl, pa'), st') /\
    heap st' = heap qh2_state /\ length pa' = length (replicate 32 0) /\
    (forall i, pa' !! i
               = if decide (1 <= i < NUM_LEVELS (config:=cfg32)
                            /\ i < length (replicate 32 0))%nat
                 then Some (default (head q3_set)
                              (last (filter (fun a => a ∈ take (2 - 1) (qh_levels 0))
                                            (qh_levels i))))
                 else replicate 32 0 !! i) /\
    (lvl < NUM_LEVELS (config:=cfg32))%nat /\
    (forall i, (lvl < i < NUM_LEVELS (config:=cfg32))%nat ->
       filter (fun a => a ∈ take (2 - 1) (qh_levels 0)) (qh_levels i) = []) /\
    (lvl <> 0%nat ->
     filter (fun a => a ∈ take (2 - 1) (qh_levels 0)) (qh_levels lvl) <> []).
Proof.
  split; [exact qh2_deleted_ok|].
  apply (weak_search_end_last_marked (cfg:=cfg32) qh2_state q3_set 4096 qh_levels 2 FUEL
           (replicate 32 0)).
  - simpl. lia.
  - exact qh2_deleted_ok.
  - intros i _. pose proof (qh_fuel i). lia.
Defined.

(** X18: let the first [m >= 1] nodes of the bottom level be deleted and
    still linked, let a further node [v] be left, and let the walk of
    [set_removemin], from its entry point [j] with the offset [o], reach
    an offset above [max_offset].  Then [set_removemin] marks the
    pointer to [v], returns the key of [v], swings the bottom pointer of
    the head to [v] with the mark, swings every higher level of the head
    past the deleted nodes, and passes the [m] nodes that were deleted
    before to [gc_free], in the order of the list and each with the pool
    of its level.  Afterwards every level holds the nodes it held that
    are not among these [m], the bottom level starts with [v], which is
    the only deleted node left, the thread cache holds [v], the old
    word of the head and the offset reached, the allocator break is
    unchanged, and no key, value or level has changed. *)
Theorem set_removemin_cleans_up {cfg : config} (st : state) (l : set_t) (t : Z)
    (L : nat -> list Z) (m fuel j : nat) (o : Z) :
  OPTIM = false -> is_marked_ref END = false -> (0 < NUM_LEVELS)%nat ->
  deleted_ok st l t L m -> (1 <= m < length (L 0%nat))%nat ->
  entry st l (head l :: L 0%nat ++ [t]) j o ->
  max_offset l < o + Z.of_nat (m - j) + 1 ->
  Z.of_nat m + 1 <= INT_MAX -> brk st < WORD ->
  (forall i, (i < NUM_LEVELS)%nat -> (length (L i) + 1 < fuel)%nat) ->
  exists v st',
    L 0%nat !! m = Some v /\
    set_removemin fuel l st = (Ok (key_at (heap st) v), st') /\
    deleted_ok st' l t (after_cleanup L m) 1 /\
    after_cleanup L m 0 = drop m (L 0%nat) /\
    freed st' = freed st ++
                map (fun a => (a, Z.land (level_at (heap st) a) LEVEL_MASK - 1))
                    (take m (L 0%nat)) /\
    brk st' = brk st /\
    tl st' = Tls v (default 0 (word_at (heap st) (head l) 0)) (o + Z.of_nat (m - j) + 1) /\
    (forall a, is_Some (heap st' !! a) <-> is_Some (heap st !! a)) /\
    (forall a, key_at (heap st') a = key_at (heap st) a /\
               value_at (heap st') a = value_at (heap st) a /\
               level_at (heap st') a = level_at (heap st) a).
Proof.
  intros Hoptim Hend Hpos Hd Hm He Hoff Hint Hbrk Hfuel.
  exact (set_removemin_cleanup_spec st l t L m fuel j o Hoptim Hend Hpos Hd Hm He Hoff
           Hint Hbrk Hfuel).
Qed.

Lemma set_removemin_cleans_up_witness :
  deleted_ok (cfg:=cfg32) qh1_state qc_set 4096 qh_levels 1 /\
  entry qh1_state qc_set (head qc_set :: qh_levels 0 ++ [4096]) 0 0 /\
  brk qh1_state < WORD /\
  exists v st',
    qh_levels 0 !! 1%nat = Some v /\
    set_removemin (cfg:=cfg32) FUEL qc_set qh1_state
    = (Ok (key_at (heap qh1_state) v), st') /\
    deleted_ok (cfg:=cfg32) st' qc_set 4096 (after_cleanup qh_levels 1) 1 /\
    after_cleanup qh_levels 1 0 = drop 1 (qh_levels 0) /\
    freed st' = freed qh1_state ++
                map (fun a => (a, Z.land (level_at (heap qh1_state) a)
                                         (LEVEL_MASK (config:=cfg32)) - 1))
                    (take 1 (qh_levels 0)) /\
    brk st' = brk qh1_state /\
    tl st' = Tls v (default 0 (word_at (heap qh1_state) (head qc_set) 0))
                 (0 + Z.of_nat (1 - 0) + 1) /\
    (forall a, is_Some (heap st' !! a) <-> is_Some (heap qh1_state !! a)) /\
    (forall a, key_at (heap st') a = key_at (heap qh1_state) a /\
               value_at (heap st') a = value_at (heap qh1_state) a /\
               level_at (heap st') a = level_at (heap qh1_state) a).
Proof.
  assert (Hd : deleted_ok (cfg:=cfg32) qh1_state qc_set 4096 qh_levels 1).
  { apply (deleted_ok_head qh1_state q3_set); [reflexivity|exact qh1_deleted_ok]. }
  assert (He : entry qh1_state qc_set (head qc_set :: qh_levels 0 ++ [4096]) 0 0).
  { unfold entry. rewrite bool_decide_eq_false_2; [done|]. vm_compute. discriminate. }
  assert (Hb : brk qh1_state < WORD) by (vm_compute; reflexivity).
  split; [exact Hd|]. split; [exact He|]. split; [exact Hb|].
  apply (set_removemin_cleans_up (cfg:=cfg32) qh1_state qc_set 4096 qh_levels 1 FUEL 0 0).
  - reflexivity.
  - reflexivity.
  - simpl. lia.
  - exact Hd.
  - simpl. lia.
  - exact He.
  - simpl. lia.
  - unfold INT_MAX. lia.
  - exact Hb.
  - intros i _. apply qh_fuel.
Defined.

(** ** Sorting with cleanups *)

(** X19: whatever [max_offset] is, so also when it is small and the
    deletions clean up, swinging the head and recycling the deleted
    nodes, a client that allocates a queue, inserts any keys between the
    keys of the sentinels, with any values and any random words, and
    then deletes the minimum [n] times gets the inserted keys in
    ascending order, each as often as it was inserted, followed by
    [SENTINEL_KEYMAX] once the queue is empty. *)
Theorem fill_drain_sorted_with_cleanup {cfg : config} (st : state) (fuel : nat)
    (mo ml : Z) (ops : list (Z * Z * Z)) (n : nat) :
  (1 <= NUM_LEVELS <= 32)%nat -> Z.land END 63 <> 0 -> is_marked_ref END = false ->
  OPTIM = false ->
  heap_range st -> heap st !! END = None -> 0 < brk st ->
  brk st + 1100 + 438 * Z.of_nat (length ops) < WORD ->
  old_obs_hp (tl st) = NULL ->
  Forall (fun op => SENTINEL_KEYMIN <= op.1.1 < SENTINEL_KEYMAX) ops ->
  (n <= length ops + 1)%nat -> Z.of_nat (length ops) + 1 <= INT_MAX ->
  (length ops + 1 < fuel)%nat -> (NUM_LEVELS <= fuel)%nat ->
  exists ks,
    ks ≡ₚ map (fun op => op.1.1) ops /\ StronglySorted Z.le ks /\
    fst (fill_drain fuel mo ml ops n st) = Ok (take n (ks ++ [SENTINEL_KEYMAX])).
Proof.
  intros. exists (sorted_keys ops).
  destruct (place_keys_spec [] ops ltac:(constructor)) as [Hs Hp].
  split_and!; [done|done|]. by apply fill_drain_any.
Qed.

Lemma fill_drain_sorted_with_cleanup_witness :
  Forall (fun op => SENTINEL_KEYMIN (config:=cfg32) <= op.1.1
                    < SENTINEL_KEYMAX (config:=cfg32))
         [(5, 50, 0); (3, 30, 16); (7, 70, 0); (1, 10, 48); (6, 60, 16)] /\
  exists ks,
    ks ≡ₚ map (fun op => op.1.1)
            [(5, 50, 0); (3, 30, 16); (7, 70, 0); (1, 10, 48); (6, 60, 16)] /\
    StronglySorted Z.le ks /\
    fst (fill_drain (cfg:=cfg32) FUEL 1 32
           [(5, 50, 0); (3, 30, 16); (7, 70, 0); (1, 10, 48); (6, 60, 16)] 6 boot)
    = Ok (take 6 (ks ++ [SENTINEL_KEYMAX (config:=cfg32)])).
Proof.
  assert (Hk : Forall (fun op => SENTINEL_KEYMIN (config:=cfg32) <= op.1.1
                                 < SENTINEL_KEYMAX (config:=cfg32))
                 [(5, 50, 0); (3, 30, 16); (7, 70, 0); (1, 10, 48); (6, 60, 16)]).
  { repeat constructor; simpl; lia. }
  split; [exact Hk|].
  apply (fill_drain_sorted_with_cleanup (cfg:=cfg32) boot FUEL 1 32
           [(5, 50, 0); (3, 30, 16); (7, 70, 0); (1, 10, 48); (6, 60, 16)] 6).
  - simpl. lia.
  - vm_compute. discriminate.
  - reflexivity.
  - reflexivity.
  - exact boot_range.
  - reflexivity.
  - reflexivity.
  - reflexivity.
  - reflexivity.
  - exact Hk.
  - simpl. lia.
  - simpl. unfold INT_MAX. lia.
  - simpl. unfold FUEL. lia.
  - simpl. unfold FUEL. lia.
Defined.

(** ** The scenario of three insertions and four deletions *)

Lemma scenario_fill_drain {cfg : config} max_offset r1 r2 r3 st :
  fst (scenario max_offset r1 r2 r3 st)
  = fst (fill_drain FUEL max_offset 32 [(5, 50, r1); (3, 30, r2); (7, 70, r3)] 4 st).
Proof.
  unfold scenario, queue3, fill_drain. cbn [insert_all removemin_n]. cbv [bind ret].
  destruct (set_alloc max_offset 32 st) as [[l|e] s0]; [|done].
  destruct (set_update FUEL l 5 50 r1 s0) as [[u1|e] s1]; [|done].
  destruct (set_update FUEL l 3 30 r2 s1) as [[u2|e] s2]; [|done].
  destruct (set_update FUEL l 7 70 r3 s2) as [[u3|e] s3]; [|done].
  destruct (set_removemin FUEL l s3) as [[a|e] s4]; [|done].
  destruct (set_removemin FUEL l s4) as [[b|e] s5]; [|done].
  destruct (set_removemin FUEL l s5) as [[c|e] s6]; [|done].
  destruct (set_removemin FUEL l s6) as [[d|e] s7]; done.
Qed.

(** C4: from a freshly allocated queue, [insert(5)], [insert(3)],
    [insert(7)] and four [delete_min] return 3, 5, 7 and then the key of
    the tail sentinel, [SENTINEL_KEYMAX], which is the empty result;
    this holds whatever random words the three levels are drawn from. *)
Theorem scenario_returns_3_5_7_empty (r1 r2 r3 : Z) :
  fst (scenario (cfg:=cfg32) 32 r1 r2 r3 boot)
  = Ok [3; 5; 7; SENTINEL_KEYMAX (config:=cfg32)].
Proof.
  rewrite scenario_fill_drain.
  rewrite (fill_drain_spec (cfg:=cfg32)); [reflexivity|..]; try done;
    try (simpl; unfold FUEL, INT_MAX; lia).
  - apply boot_range.
  - repeat constructor; simpl; lia.
Qed.
